(* ===== verification/_CoqProject ===== *)
-Q . S2P
Prelude.v
GoStd.v
GoTime.v
QuotedPrintable.v
Net.v
Nonce.v
Errors.v
Bdns.v
Cdr.v
Features.v
Core.v
Grpc.v
GoodKey.v
PublicSuffix.v
Policy.v
RateLimit.v
Reloader.v
Csr.v
GrpcCreds.v
Database.v
Storage.v
SaFrame.v
SaInvariants.v
SaQueries.v
SaTransactions.v
SaAuthz.v
SaCertificates.v
SaOpen.v
ValidationAuthority.v
VaChecks.v
RegistrationAuthority.v
GrpcStorage.v
RaChecks.v
RaIssuance.v
GrpcRefinement.v
RaStorage.v
RaValidation.v
CertificateAuthority.v
CaIssuance.v
GrpcServers.v
System.v
Backoff.v
Mailer.v
CachePurge.v
OcspUpdater.v
OcspChecks.v
OcspRenewal.v
CtPublisher.v
OcspSystem.v
Examples.v
WebFrontEnd.v
WfeChecks.v
WfeExamples.v
SystemExamples.v
OcspExamples.v
AuthzPurger.v
OrphanFinder.v
CertChecker.v
AdminRevoker.v
ExpirationMailer.v
NotifyMailer.v
ToolExamples.v
