(* ===== verification/Prelude.v ===== *)
(** * A verification library for Boulder, an ACME certificate authority

    Boulder is split into services.  The web front end (wfe/) receives signed ACME
    requests and calls the registration authority (ra/), which decides: it consults
    the policy authority (policy/), asks the validation authority (va/) to check
    control of a name, the certificate authority (ca/) to sign, and keeps everything
    in the storage authority (sa/), the owner of the database.  The OCSP updater
    (cmd/ocsp-updater) works on the same tables: it keeps the responses fresh that the
    OCSP responder serves, and has the publisher (publisher/) submit certificates to CT
    logs.  Tools for operators work on these tables too: they revoke, purge, recover and
    check, and write to subscribers (cmd/, mail/).  The services are processes that talk
    over gRPC (grpc/).  A certificate must be issued only for names whose control the
    account has proved; that is the property this library works towards: it is proved from
    the RA's handlers down for the services composed the way they are deployed, and the
    front end is proved to call the RA only for authenticated requests.

    ** Files

    - Prelude.v: results, the state-and-error monad [M] in which handlers are
      written, 64-bit integers and times, frame reasoning ([preserves]), tactics and
      the hint database.
    - GoStd.v: what the code uses of Go's standard library: strings, decimal and hex
      numbers, quoting, formatting of a constant string, sorting, base64.  Net.v: of
      its package net, addresses and networks.  GoTime.v: formats of times.
      QuotedPrintable.v: the writer of mime/quotedprintable.
    - Nonce.v: nonce/nonce.go.
    - Errors.v: probs/probs.go ([Probs]), the error interface as one type [error],
      errors/errors.go ([Berrors]), wfe/probs.go ([WfeProbs]), grpc/bcodes.go
      ([Bcodes]).
    - Features.v: features/features.go, with its maps on a heap.
    - Core.v: core/objects.go, core/challenges.go, core/util.go and
      revocation/reasons.go.
    - Bdns.v: bdns/dns.go and bdns/problem.go.  Cdr.v: cdr/resolver.go.
    - GoodKey.v: goodkey/good_key.go.  Csr.v: csr/csr.go.
    - PublicSuffix.v: the vendored publicsuffix-go library.  Policy.v: policy/pa.go.
    - RateLimit.v: ratelimit/rate-limits.go.  Reloader.v: reloader/reloader.go, which
      keeps its policies and the hostname policy up to date.
    - Database.v: tables, statements, transactions, gorp's row versions, and faults.
      Storage.v: every operation of sa/sa.go, sa/authz.go and sa/model.go on it.
      SaFrame.v, SaInvariants.v, SaQueries.v, SaTransactions.v, SaAuthz.v,
      SaCertificates.v, SaOpen.v: their properties.
    - ValidationAuthority.v: va/va.go and va/gsb.go.  VaChecks.v: what it accepts.
    - RegistrationAuthority.v: the handlers of ra/ra.go, against interfaces of the
      SA, the PA, the CA and the VA.  RaChecks.v: what each decision lets through.
      RaIssuance.v: histories.  RaStorage.v: the storage model implements the
      interface the RA relies on.  RaValidation.v: histories in which the VA of
      ValidationAuthority.v carries out the validations.
    - CertificateAuthority.v: ca/ca.go.  CaIssuance.v: what it signs, and that it
      satisfies what the RA relies on.
    - Grpc.v: the messages and grpc/pb-marshalling.go.  GrpcStorage.v:
      grpc/sa-wrappers.go and the interceptors.  GrpcRefinement.v: the remote storage
      authority refines the local one.  GrpcServers.v: the wrappers of the VA, the CA
      and the RA.
    - System.v: the services composed over gRPC.  GrpcCreds.v: grpc/creds/creds.go, which
      clients a server admits.
    - OcspUpdater.v: cmd/ocsp-updater/main.go and the database source of
      cmd/ocsp-responder/main.go.  Backoff.v: [RetryBackoff] of core/util.go, with its
      float64 arithmetic.  OcspChecks.v: the responses stored are true.  OcspRenewal.v:
      they are renewed.  CtPublisher.v: publisher/publisher.go and its gRPC wrappers.
      OcspSystem.v: the updater with the CA, the SA and the publisher behind gRPC.
    - WebFrontEnd.v: wfe/wfe.go, wfe/jose.go and the [Valid] of go-jose's keys.
      WfeChecks.v: which requests it accepts and what it asks of the RA.
    - Mailer.v: mail/mailer.go.  CachePurge.v: akamai/cache-client.go.
    - AuthzPurger.v: cmd/expired-authz-purger.  OrphanFinder.v: cmd/orphan-finder.
      CertChecker.v: cmd/cert-checker.  AdminRevoker.v: cmd/admin-revoker.
      ExpirationMailer.v: cmd/expiration-mailer.  NotifyMailer.v: cmd/contact-exporter and
      cmd/notify-mailer.  Each has the model of the tool and then its properties.
    - Examples.v, WfeExamples.v, SystemExamples.v, OcspExamples.v, ToolExamples.v: concrete
      instances of all parameters, a history from an empty database to an issued
      certificate, in one process and over gRPC, and the theorems applied to them.

    ** How code is modelled

    A definition has the name of the Go function or type it models; a part of a long
    function may be an auxiliary definition next to it.  Go strings and byte slices are
    [string]; a nil-able value is an [option]; a map is a [gmap]; a slice is a list.  Times
    are nanoseconds in [Z], durations wrap at 64 bits where the code computes with them.
    A run-time panic that the code can reach is an error value.  Handlers keep the order of their calls and all early
    returns.  Clock readings, random tokens and database faults come from explicit
    streams in the state, so theorems hold for all of them.  A fault may strike
    before any database call, with the statement applied (a lost reply) or not.
    Goroutines are steps of their own: the RA state holds the queue of validations
    in flight, and a history may finish them in any order; the goroutines of a batch of
    the OCSP updater take turns one action at a time, as a stream in the state decides,
    and before each of its calls another stream says what other processes did to the
    database.  Ticks of different loops of the updater do not overlap, and an operation
    of the storage authority is one step between two calls of the updater.  The workers of
    the certificate checker take turns in the same way.  A query without ORDER BY, and Go
    ranging over a map, may give any order.  The mail server is any sequence of answers.
    A call over gRPC is the client wrapper, the client's and the server's interceptor and
    the server wrapper composed ([SaWrappers.rpc]); the transport itself loses nothing.

    Code outside the repository is a parameter, a class of its own: AES-GCM
    ([Nonce.AEAD]), hashing and key encoding ([Crypto]), elliptic curves
    ([Elliptic]), X.509 parsing ([X509], [CSRParser]), collation and LIKE ([SQL]),
    JSON ([StorageJSON], [PbJSON], [Bcodes.PdJSON]), the suffix table and IDNA
    ([Policy.PolicyEnv]), mail and URL parsing and DNS ([RAEnv]), DNS exchanges
    ([Exchanger]), Google's resolver ([GPDNS]), web and TLS servers ([Internet]),
    cfssl's signers ([Signers]), go-jose ([WFE.JOSE]), the front end's JSON and URLs
    ([WFE.WfeEnv]), OCSP requests, MD5 and certificate files ([OcspEnv]), CT clients and
    receipts ([CTLib]).  What is assumed of them is stated in the classes of
    laws ([AEADLaws], [CryptoLaws], [SQLLaws], [PbJSONLaws], [GPDNSLaws]).

    ** What is proved

    - The deployment (System.v): in every history of requests to the RA, with the VA,
      the CA and the SA behind gRPC and DNS and the Internet changing from step to step,
      the account held an unexpired authorization for each name when the CA signed it;
      it had it when the history began, or its control was proved to the VA, before, with
      the account's key ([every_signature_rests_on_proofs_of_control]).
    - Requests (WfeChecks.v): exactly which requests are authenticated; each call of
      the RA is justified by one signed request and the checks of its handler
      ([calls_are_authenticated]); no request has an effect twice
      ([no_request_acts_twice]).
    - Issuance (RaIssuance.v, RaChecks.v, RaValidation.v): no name reaches the CA for
      an account that was not authorized before or did not pass a validation, and in
      either case its authorization is unexpired when the CA is asked.  Histories hold
      responses to authorizations that were read from storage, as the front end sends
      them ([from_storage]); that storage never reopens a settled authorization (SaOpen.v)
      is what makes them sound.  What the VA's answer makes of an authorization, with its
      expiry and problem; rate limits, with their windows; what
      [NewAuthorization] hands out; which certificates [MatchesCSR] accepts; the
      audit log; merging of registration updates.
    - Validation (VaChecks.v, Bdns.v, Cdr.v): an accepted challenge was answered with
      the expected value at the expected place and CAA allows the issuance; which CAA sets
      do; servers at reserved addresses do not influence a validation, except in the two
      networks the resolver's table misspells ([validation_ignores_reserved_servers]);
      retries of an exchange; agreement of the distributed resolver, record by record.
    - Signing (CaIssuance.v): the CA signs the names, key and profile it checked;
      every signed certificate is stored or logged as an orphan; serial numbers,
      extensions, OCSP only for its own certificates; a constructed CA is well formed.
    - OCSP and CT (OcspSystem.v, OcspChecks.v, OcspRenewal.v): a response that is served
      attests the stored status of its certificate, or the updater is about to replace it
      ([deployed_responses_are_truthful]); a tick over old responses ends and replaces
      them under every schedule; only verified receipts are stored.
    - gRPC (Grpc.v, GrpcRefinement.v, GrpcServers.v): what arrives of each message,
      which values arrive unchanged, and each remote service refines the local one.
    - Storage: history is append-only and the tables stay well formed under every
      sequence of operations and faults; transactions are all or nothing; what is
      stored is found again; which rows the queries select; the loops terminate.
      RaStorage.v discharges the RA's assumptions ([StorageSpec]) from these.
    - Policy: exactly which names, keys and requests are accepted; normalisation is
      idempotent; hostname policy reload is all or nothing; challenges offered.
    - Nonces: redeemed at most once, bounded state, issued nonces are accepted.
    - Errors: internal details do not reach clients; errors survive an RPC.
    - Tools: reg-revoke revokes the certificates of an account, all of them when it
      succeeds, and no others, through the deployed RA ([reg_revoke_exact]); the purger
      deletes what has expired, all of it, and nothing else ([purgeAuthzs_exact]); what the
      CA logs as an orphan is recovered ([orphans_are_recovered]); the checker accepts
      exactly the certificates that are in order and reports on everything it was given
      ([checkCert_exact], [report_is_complete]).
    - Mail: a message has the fields the mailer wrote and the text that was given
      ([message_roundtrip]); it is handed over once or not at all ([SendMail_correct]);
      notices of expiry are warranted ([notices_are_warranted]); a mailing in parts reaches
      those it is for and nobody else, once per address ([everyone_is_told_once]).
    - Connections and files: only clients with an accepted name are admitted
      ([only_listed_clients_connect]); after any ticks of the reloaders, the policies in
      force come from the last contents that could be loaded ([policies_in_force]); when a
      cache purge succeeds, the last request was accepted ([Purge_outcome]).
    - Findings: behaviours that contradict the code's comments are theorems too, for
      instance [Find_returns_last_match], [Reset_does_not_restore_after_a_Reset],
      [ValidSerial_ignores_length], [too_many_certificates_is_never_reported],
      [local_refusal_is_overridden], [remote_success_is_a_non_nil_error],
      [KeyRollover_ignores_key_policy], [renewal_drops_the_reason],
      [sendPurge_last_server], [missing_issuer_panics], [serials_error_is_lost],
      [second_answer_is_lost], [unordered_pages_lose_certificates],
      [error_text_names_the_account].

    ** Bounds

    Two loops of the storage authority have no bound of their own and take fuel: the
    search for an unused authorization ID, for which one more than the number of
    authorizations is enough when tokens do not repeat ([fresh_id_terminates]), and
    revocation by domain, for which one more than the number of rows is enough
    ([RevokeAuthorizationsByDomain_complete]).  The redirects followed by the VA are
    counted by the code itself, and the bound of the model is never the one that
    stops ([follow_enough]).  A batch of [n] OCSP responses takes at most [5 * n] turns
    ([schedule_quiet]); paging through the serials of certificates takes at most one page
    more than there are serials while nobody adds any ([serials_loop_complete]).  The purger
    needs one page more than a table has rows, and its question more rounds than there are
    bytes of input ([purge_complete], [confirm_fuel]); the checker, as many pages as there are
    certificates, and three turns for a certificate and one for a worker
    ([getCerts_complete], [report_is_complete]); [SendMail], one attempt more than the
    events after which the server fails no more.  Digit conversions and the label reversal
    carry measures that always suffice, as their specifications show.

    ** Not modelled

    - Statistics, metrics and log texts other than the issuance audit, the CA's orphans
      and what the revoker prints (log/, metrics/): no effect on decisions.  Deadlines:
      their only effect is a failed call.
    - Process start-up and configuration (the [main] functions, cmd/shell.go,
      cmd/config.go, grpc/client.go, grpc/server.go, sa/database.go): files, flags and
      wiring.  grpc/balancer.go and prefixdb/ hand a fixed value to a library.
    - The network below the interfaces: SMTP and TLS dialling, the HTTP front of the OCSP
      responder, DNS exchanges, the gRPC transport.
    - cmd/single-ocsp signs one response with a hardware key, from files to a file.
    - JSON and YAML texts, DER and the generated protocol-buffer codecs, which are parameters
      with their laws or arguments; sa/type-converter.go is the place where the JSON of the
      columns is applied.
    - Test doubles (mocks/). *)

From stdpp Require Export base gmap strings list sorting.
From Stdlib Require Export ZArith Lia Ascii.
From Stdlib Require String.

(** ** Scopes and notations *)

Declare Scope go_scope.
Delimit Scope go_scope with go.
#[global] Open Scope go_scope.
#[global] Open Scope Z_scope.

Notation "s1 ++s s2" := (String.append s1 s2)
  (at level 60, right associativity) : go_scope.

#[global] Arguments String.append !s1 s2 / : simpl nomatch.

(** ** Results and the state-and-error monad

    A Go function returning [(T, error)] is a value of [result E T]; a method
    that also changes shared state is a value of [M S E T]: the state survives
    an error, as it does in Go. *)

Inductive result (E A : Type) : Type :=
| Ok (a : A)
| Err (e : E).
Arguments Ok {E A} a.
Arguments Err {E A} e.

#[global] Instance result_eq_dec `{EqDecision E, EqDecision A} : EqDecision (result E A).
Proof. solve_decision. Defined.

Definition is_ok {E A} (r : result E A) : bool :=
  match r with Ok _ => true | Err _ => false end.

Definition rbind {E A B} (r : result E A) (k : A -> result E B) : result E B :=
  match r with Ok a => k a | Err e => Err e end.

Definition M (S E A : Type) : Type := S -> result E A * S.

Definition ret {S E A} (a : A) : M S E A := fun s => (Ok a, s).
Definition fail {S E A} (e : E) : M S E A := fun s => (Err e, s).
Definition lift {S E A} (r : result E A) : M S E A := fun s => (r, s).
Definition get {S E} : M S E S := fun s => (Ok s, s).
Definition put {S E} (s' : S) : M S E unit := fun _ => (Ok tt, s').
Definition modify {S E} (f : S -> S) : M S E unit := fun s => (Ok tt, f s).

Definition mbindM {S E A B} (m : M S E A) (k : A -> M S E B) : M S E B :=
  fun s => match m s with
           | (Ok a, s') => k a s'
           | (Err e, s') => (Err e, s')
           end.

(** [try m] runs [m] and hands its outcome, error included, to the caller: the
    code inspects [err] instead of returning it. *)
Definition try {S E A} (m : M S E A) : M S E (result E A) :=
  fun s => let '(r, s') := m s in (Ok r, s').

Notation "'let!' x ':=' m 'in' k" := (mbindM m (fun x => k))
  (at level 10, x pattern, m at level 100, k at level 200) : go_scope.
Notation "'do!' m 'in' k" := (mbindM m (fun _ => k))
  (at level 10, m at level 100, k at level 200) : go_scope.
Notation "'let?' x ':=' r 'in' k" := (rbind r (fun x => k))
  (at level 10, x pattern, r at level 100, k at level 200) : go_scope.

(** [for _, x := range l { body }] in a function that may return an error. *)
Fixpoint forM {S E A} (l : list A) (body : A -> M S E unit) : M S E unit :=
  match l with
  | [] => ret tt
  | x :: l' => do! body x in forM l' body
  end.

Fixpoint mapM_M {S E A B} (f : A -> M S E B) (l : list A) : M S E (list B) :=
  match l with
  | [] => ret []
  | x :: l' => let! y := f x in let! ys := mapM_M f l' in ret (y :: ys)
  end.

(** ** Machine integers: Go's [int64] and [int] (64 bits) *)

Definition wrap64 (z : Z) : Z := (z + 2 ^ 63) mod 2 ^ 64 - 2 ^ 63.
Definition int64_ok (z : Z) : Prop := - 2 ^ 63 <= z < 2 ^ 63.
Definition MaxInt64 : Z := 2 ^ 63 - 1.
Definition MinInt64 : Z := - 2 ^ 63.

(** ** Time: nanoseconds since the Unix epoch; durations in nanoseconds *)

Definition Nanosecond : Z := 1.
Definition Second : Z := 1000000000.
Definition Minute : Z := 60 * Second.
Definition Hour : Z := 60 * Minute.

(** [time.Time{}], the zero time: January 1, year 1, 00:00:00 UTC. *)
Definition zeroTime : Z := - 62135596800 * Second.
Definition time_IsZero (t : Z) : bool := Z.eqb t zeroTime.
Definition time_After (t u : Z) : bool := Z.ltb u t.
Definition time_Before (t u : Z) : bool := Z.ltb t u.
Definition time_Add (t d : Z) : Z := t + d.
(** [Time.Sub] saturates at the extreme durations. *)
Definition time_Sub (t u : Z) : Z := Z.max MinInt64 (Z.min MaxInt64 (t - u)).

(** ** Tactics *)

(** Invert one monadic step that ended in a known outcome. *)
Ltac minv1 :=
  match goal with
  | H : mbindM ?m ?k ?s = (?r, ?s') |- _ =>
      let E := fresh "E" in
      unfold mbindM in H at 1; destruct (m s) as [[?|?] ?] eqn:E; try discriminate H
  | H : (ret _ _ = _) |- _ => unfold ret in H; simplify_eq H
  | H : (fail _ _ = _) |- _ => unfold fail in H; simplify_eq H
  | H : (lift _ _ = _) |- _ => unfold lift in H; simplify_eq H
  | H : (modify _ _ = _) |- _ => unfold modify in H; simplify_eq H
  | H : (get _ = _) |- _ => unfold get in H; simplify_eq H
  | H : (put _ _ = _) |- _ => unfold put in H; simplify_eq H
  end.
Ltac minv := repeat (minv1; simpl in *; simplify_eq/=).

(** Case analysis on the scrutinee of a [match] or [if] in a hypothesis. *)
Ltac case_in H :=
  match type of H with
  | context [match ?x with _ => _ end] => let E := fresh "Ec" in destruct x eqn:E; try discriminate H
  end.

Ltac bool_solve :=
  repeat match goal with
  | H : _ && _ = true |- _ => apply andb_true_iff in H; destruct H
  | H : _ || _ = false |- _ => apply orb_false_iff in H; destruct H
  | H : negb _ = true |- _ => apply negb_true_iff in H
  | H : negb _ = false |- _ => apply negb_false_iff in H
  | H : Z.leb _ _ = true |- _ => apply Z.leb_le in H
  | H : Z.leb _ _ = false |- _ => apply Z.leb_gt in H
  | H : Z.ltb _ _ = true |- _ => apply Z.ltb_lt in H
  | H : Z.ltb _ _ = false |- _ => apply Z.ltb_ge in H
  | H : Z.eqb _ _ = true |- _ => apply Z.eqb_eq in H
  | H : Z.eqb _ _ = false |- _ => apply Z.eqb_neq in H
  | H : String.eqb _ _ = true |- _ => apply String.eqb_eq in H
  | H : String.eqb _ _ = false |- _ => apply String.eqb_neq in H
  | H : bool_decide _ = true |- _ => apply bool_decide_eq_true_1 in H
  | H : bool_decide _ = false |- _ => apply bool_decide_eq_false_1 in H
  end.

Create HintDb boulder discriminated.
Create Rewrite HintDb boulder.

(** ** Generic lemmas *)

Section monad.
Context {S E : Type}.

Lemma mbindM_run {A B} (m : M S E A) (k : A -> M S E B) s a s' : m s = (Ok a, s') -> mbindM m k s = k a s'.
Proof. unfold mbindM. by intros ->. Qed.

Lemma mbindM_assoc {A B C} (m : M S E A) (f : A -> M S E B) (g : B -> M S E C) s :
  mbindM (mbindM m f) g s = mbindM m (fun a => mbindM (f a) g) s.
Proof. unfold mbindM. by destruct (m s) as [[] ?]. Qed.

Lemma mbindM_Ok {A B} (m : M S E A) (k : A -> M S E B) s b s' :
  mbindM m k s = (Ok b, s') <-> exists a s1, m s = (Ok a, s1) /\ k a s1 = (Ok b, s').
Proof.
  unfold mbindM. destruct (m s) as [[a|e] s1]; split; intros H.
  - eauto.
  - destruct H as (a' & s1' & [= -> ->] & H). exact H.
  - discriminate.
  - destruct H as (a' & s1' & [=] & _).
Qed.

Lemma bind_lift {A B} (a : A) (k : A -> M S E B) : mbindM (lift (Ok a)) k = k a.
Proof. reflexivity. Qed.

Lemma bind_ret {A B} (a : A) (k : A -> M S E B) : mbindM (ret a) k = k a.
Proof. reflexivity. Qed.

End monad.

(** ** Frame reasoning

    [preserves R m]: whatever its outcome, [m] takes a state to an [R]-related one. *)

Definition preserves {S E A} (R : S -> S -> Prop) (m : M S E A) : Prop :=
  forall s r s', m s = (r, s') -> R s s'.

Section preserves.
Context {S E : Type} (R : S -> S -> Prop) {PO : PreOrder R}.

Lemma preserves_ret {A} (a : A) : preserves R (@ret S E A a).
Proof. intros s r s' [= <- <-]. reflexivity. Qed.

Lemma preserves_fail {A} (e : E) : preserves R (@fail S E A e).
Proof. intros s r s' [= <- <-]. reflexivity. Qed.

Lemma preserves_lift {A} (x : result E A) : preserves R (@lift S E A x).
Proof. intros s r s' [= <- <-]. reflexivity. Qed.

Lemma preserves_bind {A B} (m : M S E A) (k : A -> M S E B) :
  preserves R m -> (forall a, preserves R (k a)) -> preserves R (mbindM m k).
Proof.
  intros Hm Hk s r s'. unfold mbindM. destruct (m s) as [[a|e] s1] eqn:E1; intros H.
  - transitivity s1; [by eapply Hm|by eapply Hk].
  - simplify_eq. by eapply Hm.
Qed.

(** The value of a lifted result is known in what follows. *)
Lemma preserves_lift_bind {A B} (x : result E A) (k : A -> M S E B) :
  (forall a, x = Ok a -> preserves R (k a)) -> preserves R (mbindM (lift x) k).
Proof.
  intros Hk s r s'. unfold mbindM, lift. destruct x as [a|e]; [by apply Hk|].
  intros [= <- <-]. reflexivity.
Qed.

Lemma preserves_try {A} (m : M S E A) : preserves R m -> preserves R (try m).
Proof.
  intros Hm s r s'. unfold try. destruct (m s) as [r1 s1] eqn:E1. intros [= <- <-]. by eapply Hm.
Qed.

Lemma preserves_forM {A} (l : list A) (body : A -> M S E unit) :
  (forall x, preserves R (body x)) -> preserves R (forM l body).
Proof.
  intros Hb. induction l as [|x l IH]; simpl; [apply preserves_ret|by apply preserves_bind].
Qed.

End preserves.

Lemma Ok_inj {E A} (a b : A) : @Ok E A a = Ok b -> a = b.
Proof. congruence. Qed.

Lemma wrap64_id z : int64_ok z -> wrap64 z = z.
Proof. unfold int64_ok, wrap64. intros. rewrite Z.mod_small; lia. Qed.

Lemma wrap64_ok z : int64_ok (wrap64 z).
Proof. unfold int64_ok, wrap64. pose proof (Z.mod_pos_bound (z + 2 ^ 63) (2 ^ 64)). lia. Qed.

#[export] Hint Resolve wrap64_ok : boulder.
