(* ===== verification/GoStd.v ===== *)
(** * The parts of Go's standard library the modelled code uses

    Go strings and byte slices are both [string]: sequences of bytes.  This
    file gives [strings.Split/Join/ToLower/HasSuffix], [sort.Strings],
    [strconv.Itoa/Atoi], [encoding/hex], [encoding/base64] (padded and raw URL
    alphabets), big-endian integers and the argument-free use of
    [fmt.Sprintf], with the algebraic facts the components rest on.  Unicode
    tables and the long tail of [fmt] directives are the class [GoLib]: every
    theorem holds for any implementation of it. *)

From S2P Require Import Prelude.

Class GoLib := {
  (** [strings.ToLower] on a string that holds a byte above 0x7f *)
  lower_non_ascii : string -> string;
  (** what [fmt.Sprintf] prints for "%" followed by this text, when the text
      starts with neither a letter nor a percent sign (flags, widths, ...) *)
  fmt_directive : string -> string;
  (** [strconv.Quote] on a string that holds a byte above 0x7f *)
  quote_non_ascii : string -> string
}.

(** ** Bytes and strings *)

Definition byteZ (c : ascii) : Z := Z.of_N (N_of_ascii c).
Definition Zbyte (z : Z) : ascii := ascii_of_N (Z.to_N (z mod 256)).
Definition len (s : string) : Z := Z.of_nat (String.length s).

Definition in_range (lo hi c : ascii) : bool := (byteZ lo <=? byteZ c) && (byteZ c <=? byteZ hi).

Fixpoint all_chars (p : ascii -> bool) (s : string) : bool :=
  match s with
  | EmptyString => true
  | String c s' => p c && all_chars p s'
  end.

Fixpoint smap (f : ascii -> ascii) (s : string) : string :=
  match s with
  | EmptyString => EmptyString
  | String c s' => String (f c) (smap f s')
  end.

Fixpoint sfilter (p : ascii -> bool) (s : string) : string :=
  match s with
  | EmptyString => EmptyString
  | String c s' => if p c then String c (sfilter p s') else sfilter p s'
  end.

Fixpoint last_char (s : string) : option ascii :=
  match s with
  | EmptyString => None
  | String c EmptyString => Some c
  | String _ s' => last_char s'
  end.

Fixpoint repeat_char (c : ascii) (n : nat) : string :=
  match n with O => EmptyString | S n' => String c (repeat_char c n') end.

Definition ends_with (c : ascii) (s : string) : bool :=
  match last_char s with Some d => Ascii.eqb c d | None => false end.

(** [strings.TrimRight(s, "c")] for a single-character cutset. *)
Fixpoint trim_right (c : ascii) (s : string) : string :=
  match s with
  | EmptyString => EmptyString
  | String a s' =>
      match trim_right c s' with
      | EmptyString => if Ascii.eqb a c then EmptyString else String a EmptyString
      | t => String a t
      end
  end.

(** [strings.TrimRight] and [strings.TrimLeft] for a cutset given as a predicate, and
    [strings.Trim]. *)
Fixpoint TrimRight (cut : ascii -> bool) (s : string) : string :=
  match s with
  | EmptyString => EmptyString
  | String a s' =>
      match TrimRight cut s' with
      | EmptyString => if cut a then EmptyString else String a EmptyString
      | t => String a t
      end
  end.
Fixpoint TrimLeft (cut : ascii -> bool) (s : string) : string :=
  match s with
  | EmptyString => EmptyString
  | String a s' => if cut a then TrimLeft cut s' else s
  end.
Definition Trim (cut : ascii -> bool) (s : string) : string := TrimRight cut (TrimLeft cut s).

(** [strings.HasSuffix] and [strings.TrimSuffix]: [strip_suffix] is [None] when
    the suffix is not there. *)
Fixpoint strip_suffix (suf s : string) : option string :=
  if String.eqb s suf then Some EmptyString
  else match s with
       | EmptyString => None
       | String c s' => String c <$> strip_suffix suf s'
       end.
Definition TrimSuffix (s suf : string) : string := default s (strip_suffix suf s).

(** The parts before and after [strings.LastIndex(s, "c")]. *)
Fixpoint split_last (c : ascii) (s : string) : option (string * string) :=
  match s with
  | EmptyString => None
  | String a s' =>
      match split_last c s' with
      | Some (l, r) => Some (String a l, r)
      | None => if Ascii.eqb a c then Some (EmptyString, s') else None
      end
  end.

(** [strings.Split(s, "c")]. *)
Fixpoint split_on (c : ascii) (s : string) : list string :=
  match s with
  | EmptyString => [EmptyString]
  | String a s' =>
      if Ascii.eqb a c then EmptyString :: split_on c s'
      else match split_on c s' with
           | [] => [String a EmptyString]
           | x :: xs => String a x :: xs
           end
  end.

(** [strings.Join(l, sep)]. *)
Fixpoint join (sep : string) (l : list string) : string :=
  match l with
  | [] => EmptyString
  | [x] => x
  | x :: l' => x ++s sep ++s join sep l'
  end.

(** [core.IsASCII]'s loop is over runes; a rune is above 0x7f exactly when one
    of its bytes is. *)
Definition is_ascii (s : string) : bool := all_chars (fun c => byteZ c <=? 127) s.

Definition lower_char (c : ascii) : ascii :=
  if in_range "A" "Z" c then Zbyte (byteZ c + 32) else c.

Section golib.
Context {GL : GoLib}.

Definition ToLower (s : string) : string :=
  if is_ascii s then smap lower_char s else lower_non_ascii s.

(** [fmt.Sprintf(s)] with no argument, as [errors.New] calls it when its
    message is not a constant. *)
Fixpoint Sprintf0 (s : string) : string :=
  match s with
  | EmptyString => EmptyString
  | String c s' =>
      if Ascii.eqb c "%" then
        match s' with
        | EmptyString => "%!(NOVERB)"
        | String d s'' =>
            if Ascii.eqb d "%" then String "%" (Sprintf0 s'')
            else if in_range "a" "z" d || in_range "A" "Z" d
                 then "%!" ++s String d ("(MISSING)" ++s Sprintf0 s'')
                 else fmt_directive s'
        end
      else String c (Sprintf0 s')
  end.

End golib.

(** ** [sort.Strings]: byte-wise lexicographic order *)

Definition str_le (s t : string) : Prop := String.leb s t = true.
#[global] Instance str_le_dec : RelDecision str_le.
Proof. intros s t. unfold str_le. apply _. Defined.

Definition sort_strings (l : list string) : list string := merge_sort str_le l.

(** ** Positional notation *)

Fixpoint digits_aux (fuel : nat) (b z : Z) (acc : list Z) : list Z :=
  match fuel with
  | O => acc
  | S f => if z <? b then z :: acc else digits_aux f b (z / b) (z mod b :: acc)
  end.
Definition digits (b z : Z) : list Z := digits_aux (S (Z.to_nat (Z.log2 z))) b z [].
Definition value (b : Z) (ds : list Z) : Z := fold_left (fun a d => a * b + d) ds 0.

Definition hex_char (d : Z) : ascii :=
  if d <? 10 then Zbyte (48 + d) else Zbyte (87 + d).
Definition hex_val (c : ascii) : option Z :=
  if in_range "0" "9" c then Some (byteZ c - 48)
  else if in_range "a" "f" c then Some (byteZ c - 87)
  else if in_range "A" "F" c then Some (byteZ c - 55)
  else None.
Definition dec_val (c : ascii) : option Z :=
  if in_range "0" "9" c then Some (byteZ c - 48) else None.

Fixpoint chars_of (f : Z -> ascii) (ds : list Z) : string :=
  match ds with [] => EmptyString | d :: ds' => String (f d) (chars_of f ds') end.

Fixpoint vals_of (f : ascii -> option Z) (s : string) : option (list Z) :=
  match s with
  | EmptyString => Some []
  | String c s' => match f c, vals_of f s' with Some d, Some ds => Some (d :: ds) | _, _ => None end
  end.

(** [strconv.Itoa], and the conversion of [strconv.Atoi] (an optional sign and
    decimal digits; out of range of [int] is an error). *)
Definition itoa (z : Z) : string :=
  if z <? 0 then String "-" (chars_of hex_char (digits 10 (- z)))
  else chars_of hex_char (digits 10 z).

Definition atoi_unsigned (s : string) : option Z :=
  match s with
  | EmptyString => None
  | _ => value 10 <$> vals_of dec_val s
  end.
Definition Atoi (s : string) : option Z :=
  let r := match s with
           | EmptyString => None
           | String c s' => if Ascii.eqb c "-" then Z.opp <$> atoi_unsigned s'
                            else if Ascii.eqb c "+" then atoi_unsigned s'
                            else atoi_unsigned s
           end in
  match r with
  | Some z => if (MinInt64 <=? z) && (z <=? MaxInt64) then Some z else None
  | None => None
  end.

(** [hex.EncodeToString]. *)
Definition hex_string (s : string) : string :=
  chars_of hex_char (flat_map (fun c => [byteZ c / 16; byteZ c mod 16]) (String.list_ascii_of_string s)).

(** [strconv.Quote], the %q verb. *)
Definition escape_char (c : ascii) : string :=
  let z := byteZ c in
  if z =? 34 then String "\" (String c EmptyString)
  else if z =? 92 then "\\"
  else if z =? 7 then "\a" else if z =? 8 then "\b" else if z =? 12 then "\f"
  else if z =? 10 then "\n" else if z =? 13 then "\r" else if z =? 9 then "\t"
  else if z =? 11 then "\v"
  else if z <? 32 then "\x" ++s String (hex_char (z / 16)) (String (hex_char (z mod 16)) EmptyString)
  else if z =? 127 then "\u007f"
  else String c EmptyString.

Fixpoint escape (s : string) : string :=
  match s with
  | EmptyString => EmptyString
  | String c s' => escape_char c ++s escape s'
  end.

Definition dquote : string := String "034" EmptyString.

Section quote.
Context {GL : GoLib}.

Definition Quote (s : string) : string :=
  if is_ascii s then dquote ++s escape s ++s dquote else quote_non_ascii s.

(** The error of a failed [strconv.Atoi] or [strconv.ParseInt]. *)
Fixpoint digit_prefix (s : string) : list Z :=
  match s with
  | EmptyString => []
  | String c s' => match dec_val c with Some d => d :: digit_prefix s' | None => [] end
  end.
Definition unsign (s : string) : string :=
  match s with
  | String c s' => if Ascii.eqb c "-" || Ascii.eqb c "+" then s' else s
  | EmptyString => s
  end.
Definition num_error (func s : string) : string :=
  let u := unsign s in
  let overflow := 2 ^ 64 - 1 <? value 10 (digit_prefix u) in
  let bad := match vals_of dec_val u with Some (_ :: _) => false | _ => true end in
  "strconv." ++s func ++s ": parsing " ++s Quote s ++s ": "
  ++s (if bad && negb overflow then "invalid syntax" else "value out of range").
Definition atoi_error (s : string) : string := num_error "Atoi" s.

End quote.

(** ** Big-endian integers: [big.Int.SetBytes] and [big.Int.Bytes] *)

Definition be_value (s : string) : Z :=
  value 256 (map byteZ (String.list_ascii_of_string s)).
Definition be_bytes (z : Z) : string :=
  if z =? 0 then EmptyString else chars_of Zbyte (digits 256 (Z.abs z)).

(** ** [encoding/base64] *)

Definition b64_char (d : Z) : ascii :=
  if d <? 26 then Zbyte (65 + d)
  else if d <? 52 then Zbyte (71 + d)
  else if d <? 62 then Zbyte (d - 4)
  else if d =? 62 then "-" else "_".
Definition b64_val (c : ascii) : option Z :=
  if in_range "A" "Z" c then Some (byteZ c - 65)
  else if in_range "a" "z" c then Some (byteZ c - 71)
  else if in_range "0" "9" c then Some (byteZ c + 4)
  else if Ascii.eqb c "-" then Some 62
  else if Ascii.eqb c "_" then Some 63
  else None.

Definition enc1 (a : Z) : ascii := b64_char (a / 4).
Definition enc2 (a b : Z) : ascii := b64_char (a mod 4 * 16 + b / 16).
Definition enc3 (b c : Z) : ascii := b64_char (b mod 16 * 4 + c / 64).
Definition enc4 (c : Z) : ascii := b64_char (c mod 64).

(** [base64.URLEncoding] ([pad] true) and [base64.RawURLEncoding]. *)
Fixpoint b64_encode (pad : bool) (s : string) : string :=
  match s with
  | EmptyString => EmptyString
  | String a EmptyString =>
      String (enc1 (byteZ a)) (String (enc2 (byteZ a) 0) (if pad then "==" else EmptyString))
  | String a (String b EmptyString) =>
      String (enc1 (byteZ a)) (String (enc2 (byteZ a) (byteZ b))
        (String (enc3 (byteZ b) 0) (if pad then "=" else EmptyString)))
  | String a (String b (String c s')) =>
      String (enc1 (byteZ a)) (String (enc2 (byteZ a) (byteZ b))
        (String (enc3 (byteZ b) (byteZ c)) (String (enc4 (byteZ c)) (b64_encode pad s'))))
  end.

Definition dec1 (w x : Z) : ascii := Zbyte (w * 4 + x / 16).
Definition dec2 (x y : Z) : ascii := Zbyte (x mod 16 * 16 + y / 4).
Definition dec3 (y z : Z) : ascii := Zbyte (y mod 4 * 64 + z).

Definition opt2 (w x : ascii) : option string :=
  match b64_val w, b64_val x with
  | Some w, Some x => Some (String (dec1 w x) EmptyString)
  | _, _ => None
  end.
Definition opt3 (w x y : ascii) : option string :=
  match b64_val w, b64_val x, b64_val y with
  | Some w, Some x, Some y => Some (String (dec1 w x) (String (dec2 x y) EmptyString))
  | _, _, _ => None
  end.

(** The decoder after its newline stripping: quanta of four characters, the
    last one padded or (raw) short. *)
Fixpoint b64_quanta (pad : bool) (s : string) : option string :=
  match s with
  | EmptyString => Some EmptyString
  | String _ EmptyString => None
  | String w (String x EmptyString) => if pad then None else opt2 w x
  | String w (String x (String y EmptyString)) => if pad then None else opt3 w x y
  | String w (String x (String y (String z s'))) =>
      if pad && Ascii.eqb z "=" then
        match s' with
        | EmptyString => if Ascii.eqb y "=" then opt2 w x else opt3 w x y
        | _ => None
        end
      else match b64_val w, b64_val x, b64_val y, b64_val z with
           | Some w, Some x, Some y, Some z =>
               (fun t => String (dec1 w x) (String (dec2 x y) (String (dec3 y z) t)))
                 <$> b64_quanta pad s'
           | _, _, _, _ => None
           end
  end.

Definition not_newline (c : ascii) : bool := negb (Ascii.eqb c "010" || Ascii.eqb c "013").
Definition b64_decode (pad : bool) (s : string) : option string :=
  b64_quanta pad (sfilter not_newline s).

(** ** Facts about bytes and strings *)

Lemma byteZ_bound c : 0 <= byteZ c < 256.
Proof. unfold byteZ. pose proof (N_ascii_bounded c). lia. Qed.

Lemma Zbyte_byteZ c : Zbyte (byteZ c) = c.
Proof.
  unfold Zbyte. rewrite Z.mod_small by apply byteZ_bound.
  unfold byteZ. by rewrite N2Z.id, ascii_N_embedding.
Qed.

Lemma byteZ_Zbyte z : byteZ (Zbyte z) = z mod 256.
Proof.
  unfold byteZ, Zbyte. pose proof (Z.mod_pos_bound z 256).
  rewrite N_ascii_embedding by lia. lia.
Qed.

Lemma sapp_nil_r s : s ++s EmptyString = s.
Proof. induction s; simpl; congruence. Qed.

Lemma sapp_assoc s t u : (s ++s t) ++s u = s ++s (t ++s u).
Proof. induction s; simpl; congruence. Qed.

Lemma slength_app s t : String.length (s ++s t) = (String.length s + String.length t)%nat.
Proof. induction s; simpl; congruence. Qed.

Lemma len_app s t : len (s ++s t) = len s + len t.
Proof. unfold len. rewrite slength_app. lia. Qed.

Lemma len_nonneg s : 0 <= len s.
Proof. unfold len. lia. Qed.

Lemma len_chars_of f ds : len (chars_of f ds) = Z.of_nat (length ds).
Proof. induction ds; [done|]. unfold len in *. simpl. lia. Qed.

Lemma len_repeat_char c n : len (repeat_char c n) = Z.of_nat n.
Proof. induction n; [done|]. unfold len in *. simpl. lia. Qed.

Lemma all_chars_app p s t : all_chars p (s ++s t) = all_chars p s && all_chars p t.
Proof. induction s; simpl; [done|]. by rewrite IHs, andb_assoc. Qed.

Lemma all_chars_impl (p q : ascii -> bool) s :
  (forall c, p c = true -> q c = true) -> all_chars p s = true -> all_chars q s = true.
Proof.
  intros Hpq. induction s; simpl; [done|]. intros H. bool_solve.
  rewrite Hpq by done. auto.
Qed.

Lemma sfilter_id p s : all_chars p s = true -> sfilter p s = s.
Proof. induction s; simpl; intros; [done|]. bool_solve. rewrite H. f_equal; auto. Qed.

Lemma substring_all n s : (String.length s <= n)%nat -> String.substring 0 n s = s.
Proof.
  revert n. induction s as [|c s IH]; intros [|n] Hn; simpl in *; try done; [lia|].
  by rewrite IH by lia.
Qed.

Lemma substring_app_l n s t : String.length s = n -> String.substring 0 n (s ++s t) = s.
Proof.
  intros <-. induction s as [|c s IH]; simpl; [by destruct t|]. by rewrite IH.
Qed.

Lemma substring_app_r n m s t :
  String.length s = n -> (String.length t <= m)%nat -> String.substring n m (s ++s t) = t.
Proof.
  intros <- Hm. induction s as [|c s IH]; simpl; [by apply substring_all|]. done.
Qed.

(** Strong induction on the length of a string. *)
Lemma string_len_ind (P : string -> Prop) :
  (forall s, (forall t, (String.length t < String.length s)%nat -> P t) -> P s) -> forall s, P s.
Proof.
  intros H s. remember (String.length s) as n eqn:Hn. revert s Hn.
  induction n as [n IH] using lt_wf_ind; intros s ->. apply H. eauto.
Qed.

(** Checking a statement about one byte on all 256 of them. *)
Lemma ascii_forall (P : ascii -> bool) :
  forallb (fun n => P (ascii_of_nat n)) (seq 0 256) = true -> forall c, P c = true.
Proof.
  intros H c. rewrite forallb_forall in H.
  specialize (H (nat_of_ascii c)). rewrite ascii_nat_embedding in H. apply H.
  apply in_seq. pose proof (nat_ascii_bounded c). lia.
Qed.

(** ** Splitting and joining *)

Definition has_char (c : ascii) (s : string) : bool := negb (all_chars (fun a => negb (Ascii.eqb a c)) s).

Lemma split_on_cons c s : exists x xs, split_on c s = x :: xs.
Proof.
  destruct s as [|a s]; simpl; [eauto|].
  destruct (Ascii.eqb a c); [eauto|]. destruct (split_on c s); eauto.
Qed.

Lemma join_split_on c s : join (String c EmptyString) (split_on c s) = s.
Proof.
  induction s as [|a s IH]; [done|]. simpl.
  destruct (split_on_cons c s) as (x & xs & E). rewrite E in *.
  destruct (Ascii.eqb_spec a c) as [->|Hne]; simpl in *.
  - by rewrite IH.
  - destruct xs; simpl in *; by rewrite IH.
Qed.

Lemma split_on_no_sep c s : Forall (fun x => has_char c x = false) (split_on c s).
Proof.
  induction s as [|a s IH]; simpl; [by constructor|].
  destruct (split_on_cons c s) as (x & xs & E). rewrite E in *.
  inversion IH as [|? ? Hx Hxs]; subst.
  destruct (Ascii.eqb_spec a c) as [->|Hne].
  - by repeat constructor.
  - constructor; [|done]. unfold has_char in *. simpl.
    destruct (Ascii.eqb_spec a c); [done|]. simpl. done.
Qed.

Lemma split_on_single c s : has_char c s = false -> split_on c s = [s].
Proof.
  unfold has_char. intros H. apply negb_false_iff in H.
  induction s as [|a s IH]; simpl in *; [done|]. bool_solve.
  rewrite H. by rewrite IH.
Qed.

Lemma strip_suffix_Some suf s p : strip_suffix suf s = Some p <-> s = p ++s suf.
Proof.
  revert p. induction s as [|c s IH]; intros p; cbn [strip_suffix].
  - destruct suf, p; simpl; naive_solver.
  - destruct (String.eqb_spec (String c s) suf) as [<-|Hn]; split; intros H.
    + by simplify_eq.
    + destruct p as [|a p]; [done|]. apply (f_equal String.length) in H.
      rewrite slength_app in H. simpl in H. lia.
    + apply fmap_Some in H as (q & Hq & ->). apply IH in Hq. simpl. by f_equal.
    + destruct p as [|a p]; simpl in H; [by simplify_eq|]. injection H as -> H.
      apply IH in H. by rewrite H.
Qed.

Lemma split_last_None c s : split_last c s = None -> has_char c s = false.
Proof.
  unfold has_char. induction s as [|b s IHs]; [done|]. simpl.
  destruct (split_last c s) as [[? ?]|]; [done|]. destruct (Ascii.eqb b c); [done|]. by apply IHs.
Qed.

Lemma split_last_Some c s l r :
  split_last c s = Some (l, r) -> s = l ++s String c r /\ has_char c r = false.
Proof.
  revert l r. induction s as [|a s IH]; intros l r; simpl; [done|].
  destruct (split_last c s) as [[l' r']|] eqn:E.
  - intros [= <- <-]. destruct (IH l' r' eq_refl) as [-> Hr]. done.
  - destruct (Ascii.eqb_spec a c) as [->|]; [|done]. intros [= <- <-]. eauto using split_last_None.
Qed.

Lemma split_on_app c s t :
  has_char c s = false -> split_on c (s ++s String c t) = s :: split_on c t.
Proof.
  unfold has_char. intros H. apply negb_false_iff in H.
  induction s as [|a s IH]; simpl in *.
  - by rewrite Ascii.eqb_refl.
  - bool_solve. rewrite H. by rewrite IH.
Qed.

(** Splitting undoes joining when no piece holds the separator. *)
Lemma split_on_join c l :
  l <> [] -> Forall (fun x => has_char c x = false) l ->
  split_on c (join (String c EmptyString) l) = l.
Proof.
  induction l as [|x l IH]; intros Hne Hf; [done|].
  inversion Hf as [|? ? Hx Hl]; subst. destruct l as [|y l].
  - by apply split_on_single.
  - change (join (String c EmptyString) (x :: y :: l))
      with (x ++s String c (join (String c EmptyString) (y :: l))).
    rewrite split_on_app by done. f_equal. by apply IH.
Qed.

(** ** Order and sorting *)

Lemma ends_with_split c s : ends_with c s = true -> exists p, s = p ++s String c EmptyString.
Proof.
  unfold ends_with. induction s as [|a [|b s] IH]; simpl; [done| |].
  - intros ->%Ascii.eqb_eq. by exists EmptyString.
  - intros H. destruct (IH H) as [p Hp]. exists (String a p). simpl. by f_equal.
Qed.

Lemma split_on_mid c s t : split_on c (s ++s String c t) = split_on c s ++ split_on c t.
Proof.
  induction s as [|a s IH]; simpl.
  - by rewrite Ascii.eqb_refl.
  - rewrite IH. destruct (split_on_cons c s) as (x & xs & ->). by destruct (Ascii.eqb a c).
Qed.

Lemma join_app c l l' : l <> [] -> l' <> [] ->
  join (String c EmptyString) (l ++ l') =
  join (String c EmptyString) l ++s String c (join (String c EmptyString) l').
Proof.
  intros Hl Hl'. induction l as [|x [|y l] IH]; [done| |].
  - by destruct l'.
  - change ((x :: y :: l) ++ l') with (x :: y :: (l ++ l')).
    cbn [join] in *. rewrite sapp_assoc. f_equal. simpl. f_equal. by apply IH.
Qed.

Lemma all_chars_join p sep l : all_chars p sep = true ->
  Forall (fun x => all_chars p x = true) l -> all_chars p (join sep l) = true.
Proof.
  intros Hs. induction 1 as [|x [|y l] Hx Hl IH]; [done|done|].
  cbn [join] in *. by rewrite !all_chars_app, Hx, Hs, IH.
Qed.

Lemma all_chars_split p c s : all_chars p s = true -> Forall (fun x => all_chars p x = true) (split_on c s).
Proof.
  induction s as [|a s IH]; simpl; [by repeat constructor|]. intros [Ha Hs]%andb_true_iff.
  specialize (IH Hs). destruct (split_on_cons c s) as (x & xs & E). rewrite E in *.
  apply Forall_cons in IH as [Hx Hxs]. destruct (Ascii.eqb a c); repeat constructor; try done.
  simpl. by rewrite Ha, Hx.
Qed.

Lemma ascii_compare_spec a b : Ascii.compare a b = Z.compare (byteZ a) (byteZ b).
Proof. unfold Ascii.compare, byteZ. by rewrite N2Z.inj_compare. Qed.

#[global] Instance str_le_refl : Reflexive str_le.
Proof.
  intros s. unfold str_le, String.leb. assert (String.compare s s = Eq) as ->; [|done].
  induction s as [|a s IH]; simpl; [done|]. by rewrite ascii_compare_spec, Z.compare_refl.
Qed.

#[global] Instance str_le_antisym : AntiSymm eq str_le.
Proof. intros s t. apply String.leb_antisym. Qed.

#[global] Instance str_le_total : Total str_le.
Proof. intros s t. unfold str_le. apply String.leb_total. Qed.

#[global] Instance str_le_trans : Transitive str_le.
Proof.
  unfold str_le, String.leb. intros s. induction s as [|a s IH]; intros [|b t] [|c u]; simpl; try done.
  rewrite !ascii_compare_spec. intros H1 H2.
  destruct (Z.compare_spec (byteZ a) (byteZ b)); try done;
  destruct (Z.compare_spec (byteZ b) (byteZ c)); try done;
  destruct (Z.compare_spec (byteZ a) (byteZ c)); try done; try lia.
  eapply IH; eauto.
Qed.

Lemma sort_strings_sorted l : StronglySorted str_le (sort_strings l).
Proof. apply StronglySorted_merge_sort; apply _. Qed.

Lemma sort_strings_perm l : sort_strings l ≡ₚ l.
Proof. apply merge_sort_Permutation. Qed.

(** A sorted list is determined by its elements. *)
Lemma sort_strings_eq l l' : l ≡ₚ l' -> sort_strings l = sort_strings l'.
Proof.
  intros H. apply (StronglySorted_unique str_le); try apply sort_strings_sorted.
  by rewrite !sort_strings_perm.
Qed.

(** ** Positional notation: digits and values *)

Lemma value_app b ds es : value b (ds ++ es) = value b ds * b ^ Z.of_nat (length es) + value b es.
Proof.
  unfold value. rewrite fold_left_app.
  generalize (fold_left (fun a d => a * b + d) ds 0) as v.
  induction es as [|e es IH] using rev_ind; intros v; [simpl; lia|].
  rewrite !fold_left_app, !length_app. simpl.
  rewrite IH, Nat2Z.inj_add, Z.pow_add_r by lia. simpl. lia.
Qed.

Lemma value_cons b d ds : value b (d :: ds) = d * b ^ Z.of_nat (length ds) + value b ds.
Proof. change (d :: ds) with ([d] ++ ds). rewrite value_app. unfold value at 1. simpl. lia. Qed.

Lemma value_bound b ds :
  1 < b -> Forall (fun d => 0 <= d < b) ds -> 0 <= value b ds < b ^ Z.of_nat (length ds).
Proof.
  intros Hb. induction 1 as [|d ds Hd Hds IH]; [unfold value; simpl; lia|].
  rewrite value_cons. rewrite length_cons, Nat2Z.inj_succ, Z.pow_succ_r by lia.
  pose proof (Z.pow_pos_nonneg b (Z.of_nat (length ds))). nia.
Qed.

Lemma value_zeros b n ds : value b (replicate n 0 ++ ds) = value b ds.
Proof. induction n as [|n IH]; [done|]. cbn [replicate app]. rewrite value_cons, IH. lia. Qed.

Lemma digits_aux_spec b fuel z acc :
  2 <= b -> 0 <= z < 2 ^ Z.of_nat fuel ->
  exists ds, digits_aux fuel b z acc = ds ++ acc /\ value b ds = z /\
    Forall (fun d => 0 <= d < b) ds /\ (0 < z -> (fuel <> 0)%nat -> b ^ (Z.of_nat (length ds) - 1) <= z).
Proof.
  intros Hb. revert z acc. induction fuel as [|f IH]; intros z acc Hz.
  - exists []. assert (z = 0) as -> by (simpl in Hz; lia). repeat split; done.
  - cbn [digits_aux]. destruct (Z.ltb_spec z b) as [Hlt|Hge].
    + exists [z]. split_and!; [done|unfold value; simpl; lia| |].
      * constructor; [lia|constructor].
      * intros. cbn [length]. change (Z.of_nat 1 - 1) with 0. rewrite Z.pow_0_r. lia.
    + assert (0 <= z / b < 2 ^ Z.of_nat f).
      { split; [apply Z.div_pos; lia|]. apply Z.div_lt_upper_bound; [lia|].
        rewrite Nat2Z.inj_succ, Z.pow_succ_r in Hz by lia.
        pose proof (Z.pow_pos_nonneg 2 (Z.of_nat f)). nia. }
      destruct (IH (z / b) (z mod b :: acc) H) as (ds & E & V & F & L).
      exists (ds ++ [z mod b]). rewrite E. pose proof (Z.mod_pos_bound z b ltac:(lia)).
      split_and!.
      * by rewrite <- app_assoc.
      * rewrite value_app, V. unfold value; simpl. rewrite (Z.div_mod z b) at 3 by lia. lia.
      * apply Forall_app; split; [done|constructor; [lia|constructor]].
      * intros _ _. rewrite length_app, Nat2Z.inj_add. cbn [length].
        assert (0 < z / b) by (apply Z.div_str_pos; lia).
        destruct f as [|f']; [simpl in H; lia|].
        specialize (L ltac:(done) ltac:(done)).
        destruct ds as [|d0 ds']; [unfold value in V; simpl in V; lia|].
        assert (0 <= Z.of_nat (length (d0 :: ds')) - 1) as Hk by (cbn [length]; lia).
        revert L Hk. generalize (Z.of_nat (length (d0 :: ds'))) as k. intros k L Hk.
        replace (k + Z.of_nat 1 - 1) with (Z.succ (k - 1)) by lia.
        rewrite Z.pow_succ_r by done.
        rewrite (Z.div_mod z b) by lia. nia.
Qed.

Lemma digits_fuel z : 0 <= z -> z < 2 ^ Z.of_nat (S (Z.to_nat (Z.log2 z))).
Proof.
  intros Hz. rewrite Nat2Z.inj_succ, Z2Nat.id by apply Z.log2_nonneg.
  destruct (Z.eq_dec z 0) as [->|]; [done|]. apply Z.log2_spec. lia.
Qed.

Lemma value_digits b z : 2 <= b -> 0 <= z -> value b (digits b z) = z.
Proof.
  intros Hb Hz. unfold digits.
  destruct (digits_aux_spec b _ z [] Hb (conj Hz (digits_fuel z Hz))) as (ds & E & V & _).
  by rewrite E, app_nil_r.
Qed.

Lemma digits_range b z : 2 <= b -> 0 <= z -> Forall (fun d => 0 <= d < b) (digits b z).
Proof.
  intros Hb Hz. unfold digits.
  destruct (digits_aux_spec b _ z [] Hb (conj Hz (digits_fuel z Hz))) as (ds & E & _ & F & _).
  by rewrite E, app_nil_r.
Qed.

Lemma digits_cons b z : 2 <= b -> 0 <= z -> exists d ds, digits b z = d :: ds.
Proof.
  intros Hb Hz. unfold digits.
  enough (forall f z acc, exists d ds, digits_aux (S f) b z acc = d :: ds) by eauto.
  intros f. induction f as [|f IH]; intros z' acc; cbn [digits_aux].
  - destruct (z' <? b); eauto.
  - destruct (z' <? b); [eauto|]. apply IH.
Qed.

Lemma digits_length b z n :
  2 <= b -> 0 <= z < b ^ Z.of_nat n -> (1 <= n)%nat -> (length (digits b z) <= n)%nat.
Proof.
  intros Hb Hz Hn. unfold digits.
  destruct (digits_aux_spec b _ z [] Hb (conj (proj1 Hz) (digits_fuel z (proj1 Hz))))
    as (ds & E & V & F & L).
  rewrite E, app_nil_r.
  destruct (Z.eq_dec z 0) as [->|Hz0].
  - cbn [digits_aux Z.log2 Z.to_nat] in E. destruct (Z.ltb_spec 0 b); [|lia].
    rewrite app_nil_r in E. subst ds. simpl. lia.
  - specialize (L ltac:(lia) ltac:(done)).
    apply Nat2Z.inj_le. destruct (Z.le_gt_cases (Z.of_nat (length ds)) (Z.of_nat n)); [done|exfalso].
    assert (b ^ Z.of_nat n <= b ^ (Z.of_nat (length ds) - 1)) by (apply Z.pow_le_mono_r; lia).
    lia.
Qed.

Lemma vals_of_chars_of f g (ds : list Z) :
  Forall (fun d => f (g d) = Some d) ds -> vals_of f (chars_of g ds) = Some ds.
Proof. induction 1 as [|d ds Hd _ IH]; simpl; [done|]. by rewrite Hd, IH. Qed.

Lemma dec_val_char d : 0 <= d < 10 -> dec_val (hex_char d) = Some d.
Proof.
  intros Hd. unfold dec_val, hex_char, in_range. destruct (Z.ltb_spec d 10); [|lia].
  rewrite !byteZ_Zbyte, Z.mod_small by lia.
  change (byteZ "0") with 48. change (byteZ "9") with 57.
  destruct (Z.leb_spec 48 (48 + d)); [|lia]. destruct (Z.leb_spec (48 + d) 57); [|lia].
  cbn [andb]. f_equal. lia.
Qed.

(** Checking a statement about a small integer on all its values. *)
Lemma small_forall (P : Z -> bool) n :
  forallb P (seqZ 0 n) = true -> forall d, 0 <= d < n -> P d = true.
Proof.
  intros H d Hd. rewrite forallb_forall in H. apply H.
  apply list_elem_of_In, elem_of_seqZ. lia.
Qed.

Lemma hex_val_char d : 0 <= d < 16 -> hex_val (hex_char d) = Some d.
Proof.
  intros Hd. apply (bool_decide_eq_true_1 _).
  revert d Hd. apply (small_forall (fun d => bool_decide (hex_val (hex_char d) = Some d))).
  vm_compute. reflexivity.
Qed.

Lemma b64_val_char d : 0 <= d < 64 -> b64_val (b64_char d) = Some d.
Proof.
  intros Hd. apply (bool_decide_eq_true_1 _).
  revert d Hd. apply (small_forall (fun d => bool_decide (b64_val (b64_char d) = Some d))).
  vm_compute. reflexivity.
Qed.

Lemma digits_decimal z : 0 <= z ->
  vals_of dec_val (chars_of hex_char (digits 10 z)) = Some (digits 10 z).
Proof.
  intros Hz. apply vals_of_chars_of. eapply Forall_impl; [apply digits_range; lia|].
  intros d Hd. by apply dec_val_char.
Qed.

Lemma atoi_unsigned_digits z : 0 <= z ->
  atoi_unsigned (chars_of hex_char (digits 10 z)) = Some z.
Proof.
  intros Hz. unfold atoi_unsigned. rewrite digits_decimal by done.
  destruct (digits_cons 10 z ltac:(lia) Hz) as (d & ds & E). rewrite E. cbn [chars_of fmap option_fmap option_map].
  rewrite <- E, value_digits by lia. done.
Qed.

Lemma int64_check z :
  int64_ok z -> (if (MinInt64 <=? z) && (z <=? MaxInt64) then Some z else None) = Some z.
Proof.
  unfold MinInt64, MaxInt64, int64_ok. intros Hz.
  destruct (Z.leb_spec (- 2 ^ 63) z); [|lia]. destruct (Z.leb_spec z (2 ^ 63 - 1)); [done|lia].
Qed.

Lemma itoa_inj x y : 0 <= x -> 0 <= y -> itoa x = itoa y -> x = y.
Proof.
  intros Hx Hy H. unfold itoa in H. destruct (Z.ltb_spec x 0); [lia|]. destruct (Z.ltb_spec y 0); [lia|].
  apply (f_equal atoi_unsigned) in H. rewrite !atoi_unsigned_digits in H by done. congruence.
Qed.

Lemma Atoi_itoa z : int64_ok z -> Atoi (itoa z) = Some z.
Proof.
  intros Hz. unfold Atoi, itoa. destruct (Z.ltb_spec z 0).
  - rewrite Ascii.eqb_refl, atoi_unsigned_digits by lia. cbn [fmap option_fmap option_map].
    rewrite Z.opp_involutive. by apply int64_check.
  - pose proof (atoi_unsigned_digits z ltac:(done)) as HA.
    destruct (digits_cons 10 z ltac:(lia) ltac:(done)) as (d & ds & E).
    pose proof (digits_range 10 z ltac:(lia) ltac:(done)) as HF. rewrite E in *.
    inversion HF as [|? ? Hd _]; subst. cbn [chars_of] in *.
    pose proof (dec_val_char d Hd) as HD.
    destruct (Ascii.eqb_spec (hex_char d) "-") as [Heq|]; [rewrite Heq in HD; discriminate|].
    destruct (Ascii.eqb_spec (hex_char d) "+") as [Heq|]; [rewrite Heq in HD; discriminate|].
    rewrite HA. by apply int64_check.
Qed.

(** ** Big-endian integers *)

Lemma map_byteZ_chars_of ds :
  Forall (fun d => 0 <= d < 256) ds ->
  map byteZ (String.list_ascii_of_string (chars_of Zbyte ds)) = ds.
Proof.
  induction 1 as [|d ds Hd _ IH]; simpl; [done|]. rewrite IH, byteZ_Zbyte, Z.mod_small by done. done.
Qed.

Lemma be_value_bytes z : 0 <= z -> be_value (be_bytes z) = z.
Proof.
  intros Hz. unfold be_value, be_bytes. destruct (Z.eqb_spec z 0) as [->|]; [done|].
  rewrite Z.abs_eq by done. rewrite map_byteZ_chars_of by (apply digits_range; lia).
  apply value_digits; lia.
Qed.

Lemma list_ascii_app s t :
  String.list_ascii_of_string (s ++s t) = String.list_ascii_of_string s ++ String.list_ascii_of_string t.
Proof. induction s; simpl; congruence. Qed.

Lemma be_value_app s t : be_value (s ++s t) = be_value s * 256 ^ len t + be_value t.
Proof.
  unfold be_value. rewrite list_ascii_app, map_app, value_app, length_map.
  f_equal. f_equal. f_equal. unfold len. f_equal. clear s. induction t; simpl; congruence.
Qed.

(** Leading zero bytes do not change the value. *)
Lemma be_value_pad n s : be_value (repeat_char "000" n ++s s) = be_value s.
Proof.
  induction n as [|n IH]; [done|].
  change (repeat_char "000" (S n) ++s s) with (String "000" EmptyString ++s (repeat_char "000" n ++s s)).
  rewrite be_value_app, IH. change (be_value (String "000" EmptyString)) with 0. lia.
Qed.

Lemma be_bytes_len z n : Z.abs z < 256 ^ n -> 1 <= n -> len (be_bytes z) <= n.
Proof.
  intros Hz Hn. unfold be_bytes. destruct (Z.eqb_spec z 0) as [->|]; [unfold len; simpl; lia|].
  rewrite len_chars_of.
  pose proof (digits_length 256 (Z.abs z) (Z.to_nat n) ltac:(lia)) as H.
  rewrite Z2Nat.id in H by lia. specialize (H ltac:(lia) ltac:(lia)). lia.
Qed.

Lemma be_value_bound s : 0 <= be_value s < 256 ^ len s.
Proof.
  unfold be_value. pose proof (value_bound 256 (map byteZ (String.list_ascii_of_string s))) as H.
  rewrite length_map in H.
  assert (Z.of_nat (length (String.list_ascii_of_string s)) = len s) as E
    by (clear; unfold len; f_equal; induction s; simpl; congruence).
  rewrite E in H. apply H; [lia|]. apply Forall_map, Forall_forall. intros c _. apply byteZ_bound.
Qed.

Lemma be_value_cons c s : be_value (String c s) = byteZ c * 256 ^ len s + be_value s.
Proof.
  change (String c s) with (String c EmptyString ++s s). rewrite be_value_app.
  do 2 f_equal.
Qed.

(** Byte strings of one length compare as the numbers they denote. *)
Lemma compare_be_value s t : len s = len t -> String.compare s t = Z.compare (be_value s) (be_value t).
Proof.
  revert t. induction s as [|a s IH]; intros [|b t] H; try (unfold len in H; simpl in H; lia); [done|].
  assert (len s = len t) as E by (unfold len in *; simpl in H; lia).
  simpl. rewrite ascii_compare_spec, !be_value_cons, E, (IH t E).
  pose proof (be_value_bound s). pose proof (be_value_bound t). rewrite E in *.
  pose proof (len_nonneg t). assert (0 < 256 ^ len t) by (apply Z.pow_pos_nonneg; lia).
  destruct (Z.compare_spec (byteZ a) (byteZ b)) as [Hab|Hab|Hab]; symmetry.
  - rewrite Hab. destruct (Z.compare_spec (be_value s) (be_value t));
      [apply Z.compare_eq_iff|apply Z.compare_lt_iff|apply Z.compare_gt_iff]; lia.
  - apply Z.compare_lt_iff. nia.
  - apply Z.compare_gt_iff. nia.
Qed.

Lemma leb_be_value s t : len s = len t -> String.leb s t = true <-> be_value s <= be_value t.
Proof.
  intros H. unfold String.leb. rewrite compare_be_value by done. unfold Z.le.
  destruct (be_value s ?= be_value t); split; congruence.
Qed.

Lemma ltb_be_value s t : len s = len t -> String.ltb s t = true <-> be_value s < be_value t.
Proof.
  intros H. unfold String.ltb. rewrite compare_be_value by done. unfold Z.lt.
  destruct (be_value s ?= be_value t); split; congruence.
Qed.

Lemma be_value_inj s t : len s = len t -> be_value s = be_value t -> s = t.
Proof.
  intros H E. apply (anti_symm str_le); apply leb_be_value; try done; lia.
Qed.

(** ** Base64 *)

Lemma dec_enc1 a b : 0 <= a < 256 -> 0 <= b < 256 ->
  dec1 (a / 4) (a mod 4 * 16 + b / 16) = Zbyte a.
Proof.
  intros Ha Hb. unfold dec1. f_equal.
  assert (0 <= b / 16 < 16) by (split; [apply Z.div_pos; lia|apply Z.div_lt_upper_bound; lia]).
  rewrite (Z.add_comm (a mod 4 * 16)), Z.div_add by lia. rewrite (Z.div_small (b / 16)) by lia.
  rewrite (Z.div_mod a 4) at 3 by lia. lia.
Qed.

Lemma dec_enc2 a b c : 0 <= a < 256 -> 0 <= b < 256 -> 0 <= c < 256 ->
  dec2 (a mod 4 * 16 + b / 16) (b mod 16 * 4 + c / 64) = Zbyte b.
Proof.
  intros Ha Hb Hc. unfold dec2. f_equal.
  assert (0 <= b / 16 < 16) by (split; [apply Z.div_pos; lia|apply Z.div_lt_upper_bound; lia]).
  assert (0 <= c / 64 < 4) by (split; [apply Z.div_pos; lia|apply Z.div_lt_upper_bound; lia]).
  rewrite (Z.add_comm (a mod 4 * 16)), Z.mod_add, Z.mod_small by lia.
  rewrite (Z.add_comm (b mod 16 * 4)), Z.div_add, (Z.div_small (c / 64)) by lia.
  rewrite (Z.div_mod b 16) at 3 by lia. lia.
Qed.

Lemma dec_enc3 b c : 0 <= b < 256 -> 0 <= c < 256 ->
  dec3 (b mod 16 * 4 + c / 64) (c mod 64) = Zbyte c.
Proof.
  intros Hb Hc. unfold dec3. f_equal.
  assert (0 <= c / 64 < 4) by (split; [apply Z.div_pos; lia|apply Z.div_lt_upper_bound; lia]).
  rewrite (Z.add_comm (b mod 16 * 4)), Z.mod_add, Z.mod_small by lia.
  rewrite (Z.div_mod c 64) at 3 by lia. lia.
Qed.

Lemma enc_bounds a b : 0 <= a < 256 -> 0 <= b < 256 ->
  0 <= a / 4 < 64 /\ 0 <= a mod 4 * 16 + b / 16 < 64 /\ 0 <= a mod 16 * 4 + b / 64 < 64 /\
  0 <= a mod 64 < 64.
Proof.
  intros Ha Hb.
  pose proof (Z.mod_pos_bound a 4). pose proof (Z.mod_pos_bound a 16). pose proof (Z.mod_pos_bound a 64).
  assert (0 <= a / 4 < 64) by (split; [apply Z.div_pos; lia|apply Z.div_lt_upper_bound; lia]).
  assert (0 <= b / 16 < 16) by (split; [apply Z.div_pos; lia|apply Z.div_lt_upper_bound; lia]).
  assert (0 <= b / 64 < 4) by (split; [apply Z.div_pos; lia|apply Z.div_lt_upper_bound; lia]).
  lia.
Qed.

Definition is_b64 (c : ascii) : bool := match b64_val c with Some _ => true | None => false end.

Lemma enc1_val a : 0 <= a < 256 -> b64_val (enc1 a) = Some (a / 4).
Proof. intros. apply b64_val_char. apply (enc_bounds a 0); lia. Qed.
Lemma enc2_val a b : 0 <= a < 256 -> 0 <= b < 256 ->
  b64_val (enc2 a b) = Some (a mod 4 * 16 + b / 16).
Proof. intros. apply b64_val_char. by apply enc_bounds. Qed.
Lemma enc3_val a b : 0 <= a < 256 -> 0 <= b < 256 ->
  b64_val (enc3 a b) = Some (a mod 16 * 4 + b / 64).
Proof. intros. apply b64_val_char. by apply enc_bounds. Qed.
Lemma enc4_val a : 0 <= a < 256 -> b64_val (enc4 a) = Some (a mod 64).
Proof. intros. apply b64_val_char. apply (enc_bounds a 0); lia. Qed.

Lemma b64_not_pad c d : b64_val c = Some d -> Ascii.eqb c "=" = false.
Proof. intros H. destruct (Ascii.eqb_spec c "=") as [->|]; [discriminate|done]. Qed.

Lemma b64_encode_chars s : all_chars is_b64 (b64_encode false s) = true.
Proof.
  induction s as [s IH] using string_len_ind.
  assert (H0 : 0 <= 0 < 256) by lia.
  destruct s as [|a [|b [|c s]]]; cbn [b64_encode all_chars]; [done|..];
  pose proof (byteZ_bound a); try pose proof (byteZ_bound b); try pose proof (byteZ_bound c);
  unfold is_b64; rewrite ?enc1_val, ?enc2_val, ?enc3_val, ?enc4_val by done; simpl; try done.
  apply IH. simpl. lia.
Qed.

Lemma b64_quanta_encode pad s : b64_quanta pad (b64_encode pad s) = Some s.
Proof.
  induction s as [s IH] using string_len_ind.
  assert (H0 : 0 <= 0 < 256) by lia.
  destruct s as [|a [|b [|c s]]]; [done|..];
  pose proof (byteZ_bound a) as Ha; try pose proof (byteZ_bound b) as Hb;
  try pose proof (byteZ_bound c) as Hc; cbn [b64_encode].
  - assert (opt2 (enc1 (byteZ a)) (enc2 (byteZ a) 0) = Some (String a EmptyString)) as HE.
    { unfold opt2. rewrite enc1_val, enc2_val by done. by rewrite dec_enc1, Zbyte_byteZ. }
    destruct pad; exact HE.
  - assert (opt3 (enc1 (byteZ a)) (enc2 (byteZ a) (byteZ b)) (enc3 (byteZ b) 0)
      = Some (String a (String b EmptyString))) as HE.
    { unfold opt3. rewrite enc1_val, enc2_val, enc3_val by done.
      by rewrite dec_enc1, dec_enc2, !Zbyte_byteZ. }
    destruct pad; [|exact HE]. cbn [b64_quanta]. simpl (true && _).
    change (Ascii.eqb "=" "=") with true. cbn [andb].
    by rewrite (b64_not_pad _ _ (enc3_val (byteZ b) 0 Hb H0)).
  - cbn [b64_quanta].
    rewrite (b64_not_pad _ _ (enc4_val (byteZ c) Hc)), andb_false_r.
    rewrite enc1_val, enc2_val, enc3_val, enc4_val by done.
    rewrite IH by (simpl; lia). simpl. by rewrite dec_enc1, dec_enc2, dec_enc3, !Zbyte_byteZ.
Qed.

Lemma is_b64_not_newline c : is_b64 c = true -> not_newline c = true.
Proof.
  intros H. revert c H. enough (forall c, implb (is_b64 c) (not_newline c) = true) as Himp.
  { intros c Hc. specialize (Himp c). by rewrite Hc in Himp. }
  apply ascii_forall. vm_compute. reflexivity.
Qed.

Lemma b64_encode_pad s : exists n, b64_encode true s = b64_encode false s ++s repeat_char "=" n.
Proof.
  induction s as [s IH] using string_len_ind.
  destruct s as [|a [|b [|c s]]].
  - by exists 0%nat.
  - by exists 2%nat.
  - by exists 1%nat.
  - destruct (IH s ltac:(simpl; lia)) as [n Hn]. exists n. cbn [b64_encode]. simpl. by rewrite Hn.
Qed.

Lemma all_repeat p c n : p c = true -> all_chars p (repeat_char c n) = true.
Proof. intros Hp. induction n; simpl; [done|]. by rewrite Hp. Qed.

(** Decoding inverts encoding, in both alphabets' paddings. *)
Lemma b64_decode_encode pad s : b64_decode pad (b64_encode pad s) = Some s.
Proof.
  unfold b64_decode. rewrite sfilter_id; [apply b64_quanta_encode|].
  pose proof (all_chars_impl _ _ _ is_b64_not_newline (b64_encode_chars s)) as H.
  destruct pad; [|done]. destruct (b64_encode_pad s) as [n ->].
  rewrite all_chars_app, H. by apply all_repeat.
Qed.

Lemma b64_encode_length s : len (b64_encode false s) = (len s * 4 + 2) / 3.
Proof.
  induction s as [s IH] using string_len_ind.
  destruct s as [|a [|b [|c s]]]; [done..|].
  cbn [b64_encode]. specialize (IH s ltac:(simpl; lia)). unfold len in *. cbn [String.length].
  rewrite !Nat2Z.inj_succ. rewrite IH.
  replace (Z.succ (Z.succ (Z.succ (Z.of_nat (String.length s)))) * 4 + 2)
    with (Z.of_nat (String.length s) * 4 + 2 + 4 * 3) by lia.
  rewrite Z.div_add by lia. lia.
Qed.

Lemma trim_right_app c s n :
  all_chars (fun a => negb (Ascii.eqb a c)) s = true -> trim_right c (s ++s repeat_char c n) = s.
Proof.
  intros Hs. induction s as [|a s IH]; simpl in *.
  - induction n as [|n IHn]; simpl; [done|]. by rewrite IHn, Ascii.eqb_refl.
  - bool_solve. rewrite IH by done. destruct s; [by rewrite H|done].
Qed.

(** ** Lower case and [Sprintf0] *)

Lemma lower_char_idem c : lower_char (lower_char c) = lower_char c.
Proof.
  apply Ascii.eqb_eq. revert c. apply ascii_forall. vm_compute. reflexivity.
Qed.

Lemma lower_char_ascii c : (byteZ c <=? 127) = true -> (byteZ (lower_char c) <=? 127) = true.
Proof.
  intros H. enough (forall c, implb (byteZ c <=? 127) (byteZ (lower_char c) <=? 127) = true) as Himp.
  { specialize (Himp c). by rewrite H in Himp. }
  apply ascii_forall. vm_compute. reflexivity.
Qed.

Lemma smap_idem f s : (forall c, f (f c) = f c) -> smap f (smap f s) = smap f s.
Proof. intros Hf. induction s; simpl; congruence. Qed.

Lemma is_ascii_lower s : is_ascii s = true -> is_ascii (smap lower_char s) = true.
Proof.
  unfold is_ascii. induction s as [|c s IH]; simpl; [done|]. intros Hs.
  apply andb_true_iff in Hs as [Hc Hs]. rewrite lower_char_ascii by done. auto.
Qed.

Section golib_facts.
Context {GL : GoLib}.

Lemma ToLower_ascii s : is_ascii s = true -> ToLower s = smap lower_char s.
Proof. unfold ToLower. by intros ->. Qed.

Lemma ToLower_idem s : is_ascii s = true -> ToLower (ToLower s) = ToLower s.
Proof.
  intros H. rewrite (ToLower_ascii s) by done. rewrite ToLower_ascii by by apply is_ascii_lower.
  apply smap_idem, lower_char_idem.
Qed.

Lemma Sprintf0_id s : has_char "%" s = false -> Sprintf0 s = s.
Proof.
  unfold has_char. intros H. apply negb_false_iff in H.
  induction s as [|c s IH]; simpl in *; [done|]. bool_solve.
  rewrite H. f_equal. auto.
Qed.

End golib_facts.

#[export] Hint Resolve byteZ_bound len_nonneg : boulder.
#[export] Hint Rewrite len_app len_repeat_char len_chars_of sapp_nil_r : boulder.
