(* ===== verification/GoTime.v ===== *)
(** * Dates

    The calendar of the standard library's [time.Time] in UTC, and the layouts the source
    formats times with. *)

From S2P Require Import Prelude GoStd.

Module GoTime.

(** Year, month and day of a number of days since 1 January 1970: 400 years have 146097
    days, and years are counted from March. *)
Definition civil (days : Z) : Z * Z * Z :=
  let z := days + 719468 in
  let era := z / 146097 in
  let doe := z mod 146097 in
  let yoe := (doe - doe / 1460 + doe / 36524 - doe / 146096) / 365 in
  let doy := doe - (365 * yoe + yoe / 4 - yoe / 100) in
  let mp := (5 * doy + 2) / 153 in
  let month := if mp <? 10 then mp + 3 else mp - 9 in
  (yoe + era * 400 + (if month <=? 2 then 1 else 0), month, doy - (153 * mp + 2) / 5 + 1).

Definition Day : Z := 24 * Hour.
Definition date (t : Z) : Z * Z * Z := civil (t / Day).
Definition clock (t : Z) : Z * Z * Z :=
  let s := t mod Day / Second in (s / 3600, s mod 3600 / 60, s mod 60).

(** Two digits, and four. *)
Definition pad2 (n : Z) : string := (if n <? 10 then "0" else EmptyString) ++s itoa n.
Definition pad4 (n : Z) : string :=
  (if n <? 10 then "000" else if n <? 100 then "00" else if n <? 1000 then "0" else EmptyString) ++s itoa n.
Definition months : list string :=
  ["Jan"; "Feb"; "Mar"; "Apr"; "May"; "Jun"; "Jul"; "Aug"; "Sep"; "Oct"; "Nov"; "Dec"]%string.
Definition month_name (m : Z) : string := default EmptyString (months !! Z.to_nat (m - 1)).

(** "02 Jan 06 15:04", the common part of [time.RFC822] and [time.RFC822Z]. *)
Definition rfc822 (t : Z) : string :=
  let '(y, m, d) := date t in
  let '(hh, mm, _) := clock t in
  pad2 d ++s " " ++s month_name m ++s " " ++s pad2 (y mod 100) ++s " " ++s pad2 hh ++s ":" ++s pad2 mm.
Definition RFC822 (t : Z) : string := rfc822 t ++s " UTC".
Definition RFC822Z (t : Z) : string := rfc822 t ++s " +0000".

(** "20060102T150405", with [sep] between the parts of the time of day. *)
Definition compact (sep : string) (t : Z) : string :=
  let '(y, m, d) := date t in
  let '(hh, mm, ss) := clock t in
  pad4 y ++s pad2 m ++s pad2 d ++s "T" ++s pad2 hh ++s sep ++s pad2 mm ++s sep ++s pad2 ss.

Example dates :
  map RFC822 [0; 951782399 * Second; 951782400 * Second; 1483228799 * Second; 1483228800 * Second] =
  ["01 Jan 70 00:00 UTC"; "28 Feb 00 23:59 UTC"; "29 Feb 00 00:00 UTC"; "31 Dec 16 23:59 UTC"; "01 Jan 17 00:00 UTC"]%string.
Proof. vm_compute. reflexivity. Qed.

Example zero_date : compact ":" zeroTime = "00010101T00:00:00"%string.
Proof. vm_compute. reflexivity. Qed.

End GoTime.
