(* ===== verification/QuotedPrintable.v ===== *)
(** * Quoted-printable text

    The writer of the standard library's package mime/quotedprintable, which encodes the
    bodies of messages, and the decoding of RFC 2045, section 6.7. *)

From S2P Require Import Prelude GoStd.

Module QuotedPrintable.

Definition cr : ascii := "013".
Definition lf : ascii := "010".
Definition crlf : string := String cr (String lf EmptyString).

Definition isWhitespace (b : ascii) : bool := Ascii.eqb b " " || Ascii.eqb b "009".
Definition printable (b : ascii) : bool := in_range "!" "~" b && negb (Ascii.eqb b "=").
Definition newline (b : ascii) : bool := Ascii.eqb b lf || Ascii.eqb b cr.

(** ** The writer *)

(** [w_line] is what is buffered of the current line; [w_cr] tells that the last line
    break was written for a carriage return. *)
Record Writer := { w_out : string; w_line : string; w_cr : bool }.

Definition insertCRLF (w : Writer) : Writer :=
  {| w_out := w_out w ++s w_line w ++s crlf; w_line := EmptyString; w_cr := w_cr w |}.
Definition push (w : Writer) (s : string) : Writer :=
  {| w_out := w_out w; w_line := w_line w ++s s; w_cr := w_cr w |}.
Definition set_cr (w : Writer) (b : bool) : Writer := {| w_out := w_out w; w_line := w_line w; w_cr := b |}.
Definition insertSoftLineBreak (w : Writer) : Writer := insertCRLF (push w "=").

Definition upperhex (d : Z) : ascii := if d <? 10 then Zbyte (48 + d) else Zbyte (55 + d).
Definition escaped (b : ascii) : string :=
  String "=" (String (upperhex (byteZ b / 16)) (String (upperhex (byteZ b mod 16)) EmptyString)).
Definition encode (w : Writer) (b : ascii) : Writer :=
  push (if 75 - len (w_line w) <? 3 then insertSoftLineBreak w else w) (escaped b).

Definition drop_last (s : string) : string := String.substring 0 (String.length s - 1) s.
Definition checkLastByte (w : Writer) : Writer :=
  match last_char (w_line w) with
  | Some b =>
      if isWhitespace b
      then encode {| w_out := w_out w; w_line := drop_last (w_line w); w_cr := w_cr w |} b
      else w
  | None => w
  end.

Definition write (w : Writer) (b : ascii) : Writer :=
  if newline b then
    if w_cr w && Ascii.eqb b lf then set_cr w false
    else set_cr (insertCRLF (checkLastByte w)) (Ascii.eqb b cr)
  else set_cr (push (if len (w_line w) =? 75 then insertSoftLineBreak w else w) (String b EmptyString)) false.

Fixpoint Write (w : Writer) (p : string) : Writer :=
  match p with
  | EmptyString => w
  | String b p' =>
      Write (if printable b || isWhitespace b || newline b then write w b else encode w b) p'
  end.

Definition NewWriter : Writer := {| w_out := EmptyString; w_line := EmptyString; w_cr := false |}.
Definition Close (w : Writer) : string := let w := checkLastByte w in w_out w ++s w_line w.

Definition quoted (body : string) : string := Close (Write NewWriter body).

(** ** Decoding *)

Definition hex_upper (c : ascii) : option Z :=
  if in_range "0" "9" c then Some (byteZ c - 48) else if in_range "A" "F" c then Some (byteZ c - 55) else None.

Definition scons (c : ascii) (r : option string) : option string := String c <$> r.
Fixpoint decode (s : string) : option string :=
  match s with
  | EmptyString => Some EmptyString
  | String c s' =>
      if Ascii.eqb c "=" then
        match s' with
        | String a (String b s'') =>
            if Ascii.eqb a cr && Ascii.eqb b lf then decode s''
            else match hex_upper a, hex_upper b with
                 | Some x, Some y => scons (Zbyte (x * 16 + y)) (decode s'')
                 | _, _ => None
                 end
        | _ => None
        end
      else scons c (decode s')
  end.

(** The line breaks of all systems, which are CR LF, LF and CR, as those of the Internet,
    which are CR LF. *)
Fixpoint internet (s : string) : string :=
  match s with
  | EmptyString => EmptyString
  | String c s' =>
      if Ascii.eqb c cr then
        crlf ++s match s' with
                 | String d s'' => if Ascii.eqb d lf then internet s'' else internet s'
                 | EmptyString => EmptyString
                 end
      else (if Ascii.eqb c lf then crlf else String c EmptyString) ++s internet s'
  end.

(** No carriage return comes before a byte that needs an escape: the writer forgets to
    note that such a byte comes between a carriage return and a line feed. *)
Definition simple (b : ascii) : bool := printable b || isWhitespace b || newline b.
Definition starts_simple (s : string) : bool := match s with String b _ => simple b | EmptyString => true end.
Fixpoint cr_ok (s : string) : bool :=
  match s with
  | EmptyString => true
  | String c s' => (negb (Ascii.eqb c cr) || starts_simple s') && cr_ok s'
  end.
Lemma simple_spec b : simple b = true <-> (33 <= byteZ b <= 126 /\ byteZ b <> 61) \/ b ∈ [" "; "009"; "010"; "013"]%char.
Proof.
  unfold simple, printable, in_range, isWhitespace, newline. change (byteZ "!") with 33. change (byteZ "~") with 126.
  rewrite !orb_true_iff, !andb_true_iff, negb_true_iff, !Z.leb_le, !Ascii.eqb_eq, !elem_of_cons, elem_of_nil.
  assert (Ascii.eqb b "=" = false <-> byteZ b <> 61) as ->; [|unfold lf, cr; tauto].
  rewrite Ascii.eqb_neq. change 61 with (byteZ "="). split; intros H E; apply H; [|by subst].
  by rewrite <- (Zbyte_byteZ b), E, Zbyte_byteZ.
Qed.
Lemma cr_ok_spec body : cr_ok body = true <-> forall pre b post, body = pre ++s String cr (String b post) ->
  (33 <= byteZ b <= 126 /\ byteZ b <> 61) \/ b ∈ [" "; "009"; "010"; "013"]%char.
Proof.
  setoid_rewrite <- simple_spec. induction body as [|c body IH]; [split; [by intros _ []|done]|].
  simpl. rewrite andb_true_iff, IH. split.
  - intros [Hc H] [|x pre] b post [= -> E]; [|by eapply H]. rewrite E in Hc. exact Hc.
  - intros H. split; [|intros pre b post ->; by apply (H (String c pre) b post)].
    destruct (Ascii.eqb_spec c cr) as [->|]; [|done]. destruct body as [|b body]; [done|]. by apply (H EmptyString b body).
Qed.

Lemma escape_hides_line_break :
  decode (quoted (String cr (String "233" (String lf EmptyString)))) = Some (String cr (String lf (String "233" EmptyString))).
Proof. vm_compute. reflexivity. Qed.

(** ** Tokens *)

Inductive token := Plain (c : ascii) | Hex (c : ascii) | Soft | Hard.
Definition render1 (t : token) : string :=
  match t with
  | Plain c => String c EmptyString
  | Hex c => escaped c
  | Soft => String "=" crlf
  | Hard => crlf
  end.
Definition render (ts : list token) : string := join EmptyString (map render1 ts).
Definition meaning1 (t : token) : string :=
  match t with Plain c | Hex c => String c EmptyString | Soft => EmptyString | Hard => crlf end.
Definition meaning (ts : list token) : string := join EmptyString (map meaning1 ts).
Definition token_ok (t : token) : bool :=
  match t with Plain c => printable c || isWhitespace c | _ => true end.

Lemma join_nil_cons x l : join EmptyString (x :: l) = x ++s join EmptyString l.
Proof. destruct l; [by rewrite sapp_nil_r|done]. Qed.
Lemma join_nil_app l l' : join EmptyString (l ++ l') = join EmptyString l ++s join EmptyString l'.
Proof.
  induction l as [|x l IH]; [done|]. cbn [app]. by rewrite !join_nil_cons, IH, sapp_assoc.
Qed.
Lemma render_app ts ts' : render (ts ++ ts') = render ts ++s render ts'.
Proof. unfold render. by rewrite map_app, join_nil_app. Qed.
Lemma meaning_app ts ts' : meaning (ts ++ ts') = meaning ts ++s meaning ts'.
Proof. unfold meaning. by rewrite map_app, join_nil_app. Qed.

Lemma hex_upper_char d : 0 <= d < 16 -> hex_upper (upperhex d) = Some d.
Proof.
  intros Hd. enough (forallb (fun d => bool_decide (hex_upper (upperhex d) = Some d)) (seqZ 0 16) = true) as H.
  { rewrite forallb_forall in H. specialize (H d). rewrite bool_decide_eq_true in H. apply H.
    apply list_elem_of_In, elem_of_seqZ. lia. }
  by vm_compute.
Qed.

Lemma decode_escaped c s : decode (escaped c ++s s) = scons c (decode s).
Proof.
  cbn -[upperhex Z.div Z.modulo]. pose proof (byteZ_bound c) as Hc.
  assert (hex_upper (upperhex (byteZ c / 16)) = Some (byteZ c / 16)) as Hx.
  { apply hex_upper_char. split; [apply Z.div_pos; lia|apply Z.div_lt_upper_bound; lia]. }
  rewrite Hx, hex_upper_char by (apply Z.mod_pos_bound; lia).
  destruct (Ascii.eqb_spec (upperhex (byteZ c / 16)) cr) as [E|_]; [by rewrite E in Hx|].
  rewrite andb_false_l, Z.mul_comm, <- Z.div_mod, Zbyte_byteZ by lia. done.
Qed.

Lemma decode_plain c s : Ascii.eqb c "=" = false -> decode (String c s) = scons c (decode s).
Proof. intros H. cbn. by rewrite H. Qed.

Lemma plain_not_eq c : token_ok (Plain c) = true -> Ascii.eqb c "=" = false.
Proof. simpl. intros H. destruct (Ascii.eqb_spec c "=") as [->|]; [by vm_compute in H|done]. Qed.

Lemma decode_render ts s : forallb token_ok ts = true ->
  decode (render ts ++s s) = (fun r => meaning ts ++s r) <$> decode s.
Proof.
  induction ts as [|t ts IH]; intros H; [change (render [] ++s s) with s; by destruct (decode s)|].
  apply andb_true_iff in H as [Ht H]. specialize (IH H). unfold render, meaning in *. cbn [map].
  rewrite !join_nil_cons, sapp_assoc. destruct t; cbn [render1 meaning1].
  - change (String c EmptyString ++s ?x) with (String c x). rewrite decode_plain by (by apply plain_not_eq).
    rewrite IH. by destruct (decode s).
  - rewrite decode_escaped, IH. by destruct (decode s).
  - cbn. rewrite IH. by destruct (decode s).
  - unfold crlf. change (String cr (String lf EmptyString) ++s ?x) with (String cr (String lf x)).
    rewrite !decode_plain, IH by done. by destruct (decode s).
Qed.

(** ** The round trip *)

Lemma sapp_last_inj s t b c : s ++s String b EmptyString = t ++s String c EmptyString -> s = t /\ b = c.
Proof.
  revert t. induction s as [|x s IH]; intros [|y t] H; simpl in *; simplify_eq; try done.
  - by destruct t.
  - by destruct s.
  - match goal with H : _ = _ |- _ => apply IH in H as [-> ->] end. done.
Qed.

Lemma last_char_split s b : last_char s = Some b -> s = drop_last s ++s String b EmptyString.
Proof.
  intros H. assert (exists p, s = p ++s String b EmptyString) as [p ->].
  { revert H. induction s as [|c s IH]; [done|]. destruct s as [|d s]; [intros [= ->]; by exists EmptyString|].
    intros H. destruct (IH H) as [p Hp]. exists (String c p). simpl. by rewrite Hp. }
  unfold drop_last. rewrite slength_app. simpl. replace (_ + 1 - 1)%nat with (String.length p) by lia.
  by rewrite substring_app_l.
Qed.

Lemma upperhex_not_white d : isWhitespace (upperhex (byteZ d mod 16)) = false.
Proof.
  revert d. enough (forall d, negb (isWhitespace (upperhex (byteZ d mod 16))) = true) as H; [intros d; specialize (H d); by destruct (isWhitespace _)|].
  apply ascii_forall. by vm_compute.
Qed.

Lemma render_last_white ts s b : isWhitespace b = true -> render ts = s ++s String b EmptyString ->
  exists ts', ts = ts' ++ [Plain b] /\ s = render ts'.
Proof.
  intros Hb H. destruct ts as [|t ts _] using rev_ind; [by destruct s|]. exists ts. rewrite render_app in H.
  assert (exists x c, render1 t = x ++s String c EmptyString /\ (c = b -> x = EmptyString /\ t = Plain b)) as (x & c & Hx & Ht).
  { destruct t; cbn [render1].
    - exists EmptyString, c. split; [done|]. by intros ->.
    - eexists (String "=" (String _ EmptyString)), _. split; [done|]. intros <-. by rewrite upperhex_not_white in Hb.
    - exists (String "=" (String cr EmptyString)), lf. split; [done|]. by intros <-.
    - exists (String cr EmptyString), lf. split; [done|]. by intros <-. }
  unfold render at 2 in H. cbn in H. rewrite Hx, <- sapp_assoc in H. apply sapp_last_inj in H as [H E].
  destruct (Ht E) as [-> ->]. by rewrite sapp_nil_r in H.
Qed.

(** The writer has written and buffered an encoding of [m]. *)
Definition encodes (w : Writer) (m : string) : Prop :=
  exists ts, w_out w ++s w_line w = render ts /\ forallb token_ok ts = true /\ meaning ts = m.

Lemma encodes_add w w' m t : encodes w m -> token_ok t = true ->
  w_out w' ++s w_line w' = (w_out w ++s w_line w) ++s render1 t -> encodes w' (m ++s meaning1 t).
Proof.
  intros (ts & E & Hok & <-) Ht H. exists (ts ++ [t]). rewrite H, E, render_app, meaning_app, forallb_app, Hok. simpl.
  by rewrite Ht.
Qed.

Lemma encodes_soft w m : encodes w m -> encodes (insertSoftLineBreak w) m.
Proof.
  intros H. rewrite <- (sapp_nil_r m). apply (encodes_add w _ m Soft H eq_refl). simpl. by rewrite !sapp_assoc.
Qed.
Lemma encodes_hard w m : encodes w m -> encodes (insertCRLF w) (m ++s crlf).
Proof. intros H. apply (encodes_add w _ m Hard H eq_refl). simpl. by rewrite !sapp_assoc. Qed.
Lemma encodes_push w m c : encodes w m -> token_ok (Plain c) = true ->
  encodes (push w (String c EmptyString)) (m ++s String c EmptyString).
Proof. intros H Hc. apply (encodes_add w _ m (Plain c) H Hc). simpl. by rewrite !sapp_assoc. Qed.

Lemma encodes_encode w m b : encodes w m -> encodes (encode w b) (m ++s String b EmptyString).
Proof.
  intros H. unfold encode. match goal with |- encodes (push ?x _) _ => set (w1 := x) end.
  assert (encodes w1 m) as H1 by (subst w1; destruct (_ <? _); [by apply encodes_soft|done]).
  apply (encodes_add w1 _ m (Hex b) H1 eq_refl). simpl. by rewrite !sapp_assoc.
Qed.

Lemma encodes_check w m : encodes w m -> encodes (checkLastByte w) m.
Proof.
  intros H. unfold checkLastByte. destruct (last_char (w_line w)) as [b|] eqn:E; [|done].
  destruct (isWhitespace b) eqn:Eb; [|done]. apply last_char_split in E. destruct H as (ts & Hr & Hok & <-).
  rewrite E, <- sapp_assoc in Hr. symmetry in Hr. apply render_last_white in Hr as (ts' & -> & Hr); [|done].
  rewrite meaning_app. apply encodes_encode. exists ts'. rewrite forallb_app in Hok. apply andb_true_iff in Hok as [Hok _]. done.
Qed.

(** After a carriage return the writer skips a line feed. *)
Definition pending (w : Writer) (p : string) : string :=
  match p with
  | String b p' => if w_cr w && Ascii.eqb b lf then p' else p
  | EmptyString => p
  end.

Lemma encodes_Write p : forall w m, cr_ok p = true -> (w_cr w = true -> starts_simple p = true) -> encodes w m ->
  encodes (Write w p) (m ++s internet (pending w p)).
Proof.
  induction p as [|b p IH]; intros w m Hp Hw H; [by rewrite sapp_nil_r|]. cbn [cr_ok] in Hp. bool_solve.
  cbn [Write pending]. fold (simple b). destruct (newline b) eqn:En.
  - assert (simple b = true) as -> by (unfold simple; by rewrite En, orb_true_r). unfold write. rewrite En.
    destruct (w_cr w && Ascii.eqb b lf) eqn:Ecl.
    + specialize (IH (set_cr w false) m). destruct p; by apply IH.
    + cbn [internet]. unfold newline in En. destruct (Ascii.eqb b cr) eqn:Ec; rewrite <- sapp_assoc.
      * match goal with |- encodes (Write ?v p) _ => specialize (IH v (m ++s crlf)) end.
        destruct p as [|d p]; [rewrite sapp_nil_r; by apply encodes_hard, encodes_check|].
        cbn [pending w_cr set_cr andb] in IH. destruct (Ascii.eqb d lf); (apply IH; [done|done|by apply encodes_hard, encodes_check]).
      * rewrite orb_false_r in En. rewrite En.
        match goal with |- encodes (Write ?v p) _ => specialize (IH v (m ++s crlf)) end.
        destruct p; (apply IH; [done|done|by apply encodes_hard, encodes_check]).
  - unfold newline in En. apply orb_false_iff in En as [El Ec]. rewrite El, andb_false_r. cbn [internet]. rewrite El, Ec.
    rewrite <- sapp_assoc. destruct (simple b) eqn:Es.
    + unfold write, newline. rewrite El, Ec. cbn [orb].
      match goal with |- encodes (Write ?v p) _ => specialize (IH v (m ++s String b EmptyString)) end.
      assert (token_ok (Plain b) = true) by (unfold simple, newline in Es; by rewrite El, Ec, orb_false_r in Es).
      destruct p; (apply IH; [done|done|]); (apply (encodes_push _ m b); [|done]); (destruct (_ =? 75); [by apply encodes_soft|done]).
    + assert (w_cr (encode w b) = false) as Hc by (assert (w_cr w = false) by (destruct (w_cr w); [specialize (Hw eq_refl); simpl in Hw; congruence|done]);
        unfold encode; by destruct (_ <? _)).
      specialize (IH (encode w b) (m ++s String b EmptyString)). unfold pending in IH. rewrite Hc in IH.
      destruct p; (apply IH; [done|done|by apply encodes_encode]).
Qed.

Lemma quoted_roundtrip body s : cr_ok body = true ->
  decode (quoted body ++s s) = (fun r => internet body ++s r) <$> decode s.
Proof.
  intros H. assert (encodes (checkLastByte (Write NewWriter body)) (internet body)) as (ts & E & Hok & <-).
  { apply encodes_check. pose proof (encodes_Write body NewWriter EmptyString H) as HW.
    destruct body; (apply HW; [done|by exists []]). }
  unfold quoted, Close. by rewrite E, decode_render.
Qed.

(** ** Lines *)

Definition text (c : ascii) : bool := in_range "!" "~" c || isWhitespace c.
(** At most 76 bytes of printable ASCII, the last of them not white. *)
Definition line_ok (l : string) : Prop :=
  len l <= 76 /\ all_chars text l = true /\ forall b, last_char l = Some b -> isWhitespace b = false.

Definition lined (w : Writer) : Prop :=
  (exists ls, w_out w = join EmptyString (map (fun l => l ++s crlf) ls) /\ Forall line_ok ls) /\
  len (w_line w) <= 75 /\ all_chars text (w_line w) = true.

Lemma lined_flush w : lined w -> line_ok (w_line w) -> lined (insertCRLF w).
Proof.
  intros [(ls & E & Hls) _] Hl. split; [|by split].
  exists (ls ++ [w_line w]). split; [|by apply Forall_app_2; [|constructor]]. simpl.
  by rewrite map_app, join_nil_app, E.
Qed.

Lemma last_char_snoc s b : last_char (s ++s String b EmptyString) = Some b.
Proof. induction s as [|c s IH]; [done|]. simpl in *. rewrite IH. by destruct s. Qed.

Lemma lined_soft w : lined w -> lined (insertSoftLineBreak w).
Proof.
  intros (Ho & Hl & Ht). unfold insertSoftLineBreak, insertCRLF, push. simpl.
  destruct Ho as (ls & E & Hls). split; [|by split]. exists (ls ++ [w_line w ++s "="]). simpl.
  rewrite map_app, join_nil_app, E. split; [done|]. apply Forall_app_2; [done|]. constructor; [|constructor]. split_and!.
  - rewrite len_app. change (len "=") with 1. lia.
  - by rewrite all_chars_app, Ht.
  - intros b. rewrite last_char_snoc. by intros [= <-].
Qed.

Lemma lined_push w s : lined w -> len (w_line w) + len s <= 75 -> all_chars text s = true -> lined (push w s).
Proof.
  intros (Ho & Hl & Ht) Hs Hts. split; [done|]. simpl. rewrite len_app, all_chars_app, Ht. by split.
Qed.

Lemma escaped_ok b : len (escaped b) = 3 /\ all_chars text (escaped b) = true /\ exists s c,
  escaped b = s ++s String c EmptyString /\ isWhitespace c = false.
Proof.
  split; [done|]. split.
  - revert b. apply (ascii_forall (fun b => all_chars text (escaped b))). by vm_compute.
  - eexists (String "=" (String _ EmptyString)), _. split; [done|]. apply upperhex_not_white.
Qed.

Lemma lined_encode w b : lined w -> lined (encode w b) /\ line_ok (w_line (encode w b)).
Proof.
  intros H. unfold encode. match goal with |- lined (push ?x _) /\ _ => set (w1 := x) end.
  destruct (escaped_ok b) as (H3 & Ht & s & c & Es & Hc).
  assert (lined w1 /\ len (w_line w1) + 3 <= 75) as [H1 Hl].
  { subst w1. destruct (Z.ltb_spec (75 - len (w_line w)) 3); [split; [by apply lined_soft|done]|split; [done|lia]]. }
  assert (lined (push w1 (escaped b))) as Hp by (apply lined_push; [done|lia|done]).
  split; [done|]. destruct Hp as (_ & Hl' & Ht'). split; [lia|]. split; [done|].
  intros d. simpl. rewrite Es, <- sapp_assoc, last_char_snoc. by intros [= <-].
Qed.

Lemma lined_drop w : lined w -> lined {| w_out := w_out w; w_line := drop_last (w_line w); w_cr := w_cr w |}.
Proof.
  intros (Ho & Hl & Ht). split; [done|]. simpl. destruct (last_char (w_line w)) as [b|] eqn:E.
  - pose proof (last_char_split _ _ E) as Es. rewrite Es in Hl, Ht. rewrite len_app in Hl. rewrite all_chars_app in Ht.
    apply andb_true_iff in Ht as [Ht _]. split; [|done]. change (len (String b EmptyString)) with 1 in Hl. lia.
  - destruct (w_line w) as [|c l]; [done|]. exfalso. clear -E. revert c E. induction l as [|d l IH]; [done|]. intros c E. by eapply IH.
Qed.

Lemma lined_check w : lined w -> lined (checkLastByte w) /\ line_ok (w_line (checkLastByte w)).
Proof.
  intros H. unfold checkLastByte. destruct (last_char (w_line w)) as [b|] eqn:E.
  - destruct (isWhitespace b) eqn:Eb; [by apply lined_encode, lined_drop|]. split; [done|].
    destruct H as (_ & Hl & Ht). split; [lia|]. split; [done|]. intros c. rewrite E. by intros [= <-].
  - split; [done|]. destruct H as (_ & Hl & Ht). split; [lia|]. split; [done|]. intros c. by rewrite E.
Qed.

Lemma plain_text b : printable b || isWhitespace b = true -> text b = true.
Proof. unfold text, printable. destruct (in_range "!" "~" b); [done|]. by rewrite andb_false_l. Qed.

Lemma lined_Write p : forall w, lined w -> lined (Write w p).
Proof.
  induction p as [|b p IH]; intros w H; [done|]. cbn [Write]. apply IH.
  destruct (printable b || isWhitespace b || newline b) eqn:Ep; [|by apply lined_encode].
  unfold write. destruct (newline b) eqn:En.
  - destruct (_ && _); [done|]. apply lined_check in H as [H Hl]. by apply (lined_flush _ H Hl).
  - rewrite orb_false_r in Ep. match goal with |- lined (set_cr (push ?x _) _) => set (w1 := x) end.
    assert (lined w1 /\ len (w_line w1) <= 74) as [H1 Hl1].
    { subst w1. destruct (Z.eqb_spec (len (w_line w)) 75); [split; [by apply lined_soft|done]|].
      destruct H as (? & ? & ?). split; [done|lia]. }
    apply (lined_push w1 (String b EmptyString)); [done|change (len (String b EmptyString)) with 1; lia|]. simpl. by rewrite plain_text.
Qed.

Lemma join_crlf_lines ls l : join EmptyString (map (fun l => l ++s crlf) ls) ++s l = join crlf (ls ++ [l]).
Proof.
  induction ls as [|x ls IH]; [done|]. cbn [map app]. rewrite join_nil_cons, !sapp_assoc, IH.
  by destruct ls.
Qed.

(** The text is lines that fit through any mail system. *)
Lemma quoted_lines body : exists ls, quoted body = join crlf ls /\ Forall line_ok ls.
Proof.
  assert (lined (Write NewWriter body)) as H by (apply lined_Write; split; [by exists []|done]).
  apply lined_check in H as [((ls & E & Hls) & _) Hl]. unfold quoted, Close. rewrite E. eexists. split; [apply join_crlf_lines|].
  apply Forall_app_2; [done|]. by constructor.
Qed.

End QuotedPrintable.
