(* ===== verification/Net.v ===== *)
(** * Addresses: what the code uses of Go's package net

    An address ([net.IP]) is a byte string of 4 or 16 bytes, a network
    ([net.IPNet]) an address and a mask.  The file holds their conversions,
    masking and membership, the textual forms with their round trip
    ([ParseIP_String]), and host-port strings.  The key fact about membership is
    numerical: an address is in a network exactly when the leading bits agree
    ([Contains_prefix]). *)

From S2P Require Import Prelude GoStd.

Module Net.

(** ** Conversions and masks *)

Definition v4InV6Prefix : string :=
  repeat_char "000" 10 ++s String "255" (String "255" EmptyString).
(** [IP.To16]; nil is the empty string. *)
Definition To16 (ip : string) : string :=
  if len ip =? 4 then v4InV6Prefix ++s ip else if len ip =? 16 then ip else EmptyString.
Definition To4 (ip : string) : option string :=
  if len ip =? 4 then Some ip
  else if (len ip =? 16) && String.eqb (String.substring 0 12 ip) v4InV6Prefix
       then Some (String.substring 12 4 ip) else None.

(** [net.CIDRMask(ones, 8*n)]. *)
Fixpoint CIDRMask (n : nat) (ones : Z) : list Z :=
  match n with
  | O => []
  | S n' => if 8 <=? ones then 255 :: CIDRMask n' (ones - 8)
            else (255 - Z.shiftr 255 ones) :: CIDRMask n' 0
  end.
Fixpoint Mask (ip : string) (mask : list Z) : string :=
  match ip, mask with
  | String c ip', m :: mask' => String (Zbyte (Z.land (byteZ c) m)) (Mask ip' mask')
  | _, _ => EmptyString
  end.

(** ** Networks *)

Record IPNet := { IP : string; IPMask : list Z }.

Definition networkNumberAndMask (n : IPNet) : option (string * list Z) :=
  let ip := match To4 (IP n) with
            | Some v4 => Some v4
            | None => if len (IP n) =? 16 then Some (IP n) else None
            end in
  match ip with
  | None => None
  | Some ip =>
      if (length (IPMask n) =? 4)%nat then
        if len ip =? 4 then Some (ip, IPMask n) else None
      else if (length (IPMask n) =? 16)%nat then
        Some (ip, if len ip =? 4 then drop 12 (IPMask n) else IPMask n)
      else None
  end.

(** [IPNet.Contains] compares the masked bytes one by one. *)
Definition Contains (n : IPNet) (ip : string) : bool :=
  match networkNumberAndMask n with
  | None => len ip =? 0
  | Some (nn, m) =>
      let ip := default ip (To4 ip) in
      if negb (len ip =? len nn) then false else String.eqb (Mask nn m) (Mask ip m)
  end.

(** ** Text *)

Definition bytes_of (l : list Z) : string := chars_of Zbyte l.

Definition dotted (ip : string) : string :=
  join "." (map (fun c => itoa (byteZ c)) (String.list_ascii_of_string ip)).

(** The sixteen-bit groups of an IPv6 address. *)
Fixpoint groups (ip : string) : list Z :=
  match ip with
  | String a (String b ip') => byteZ a * 256 + byteZ b :: groups ip'
  | _ => []
  end.
Fixpoint ungroup (gs : list Z) : string :=
  match gs with
  | [] => EmptyString
  | g :: gs' => String (Zbyte (g / 256)) (String (Zbyte (g mod 256)) (ungroup gs'))
  end.

Definition hex_group (g : Z) : string := chars_of hex_char (digits 16 g).

(** The number of leading zero groups. *)
Fixpoint zero_run (gs : list Z) : nat :=
  match gs with
  | g :: gs' => if g =? 0 then S (zero_run gs') else O
  | [] => O
  end.

(** The first longest run of zero groups, as start and end. *)
Fixpoint longest_run (fuel i : nat) (gs : list Z) (e0 e1 : nat) : nat * nat :=
  match fuel with
  | O => (e0, e1)
  | S fuel' =>
      if (8 <=? i)%nat then (e0, e1)
      else
        let j := (i + zero_run (drop i gs))%nat in
        if (e1 - e0 <? j - i)%nat then longest_run fuel' (S j) gs i j
        else longest_run fuel' (S i) gs e0 e1
  end.

Definition ipv6_text (gs : list Z) : string :=
  let '(e0, e1) := longest_run 8 0 gs 0 0 in
  if (e1 - e0 <=? 1)%nat then join ":" (map hex_group gs)
  else join ":" (map hex_group (take e0 gs)) ++s "::" ++s join ":" (map hex_group (drop e1 gs)).

Definition IP_String (ip : string) : string :=
  if len ip =? 0 then "<nil>"
  else match To4 ip with
       | Some v4 => dotted v4
       | None => if negb (len ip =? 16) then "?" ++s hex_string ip else ipv6_text (groups ip)
       end.

(** [ParseIP]: the first dot or colon decides the syntax. *)
Definition parseIPv4 (s : string) : option string :=
  match map atoi_unsigned (split_on "." s) with
  | [Some a; Some b; Some c; Some d] =>
      if (a <=? 255) && (b <=? 255) && (c <=? 255) && (d <=? 255)
      then Some (v4InV6Prefix ++s bytes_of [a; b; c; d]) else None
  | _ => None
  end.

Fixpoint take_hex (s : string) : list Z * string :=
  match s with
  | String c s' => match hex_val c with
                   | Some d => let '(ds, r) := take_hex s' in (d :: ds, r)
                   | None => ([], s)
                   end
  | EmptyString => ([], s)
  end.

(** The loop of [parseIPv6]: [n] groups may still follow, [acc] are those read (in
    reverse), [ell] how many of them stood before the ellipsis. *)
Fixpoint parse_groups (n : nat) (s : string) (acc : list Z) (ell : option nat) : option (list Z * option nat) :=
  match n with
  | O => None
  | S n' =>
      let '(ds, r) := take_hex s in
      if bool_decide (ds = []) || (65535 <? value 16 ds) then None
      else match r with
           | EmptyString => Some (value 16 ds :: acc, ell)
           | String c r' =>
               if Ascii.eqb c "." then
                 if (bool_decide (ell = None) && negb (n =? 2)%nat) || (n <? 2)%nat then None
                 else match parseIPv4 s with
                      | Some v4 => Some (rev (groups (String.substring 12 4 v4)) ++ acc, ell)
                      | None => None
                      end
               else if negb (Ascii.eqb c ":") then None
               else match r' with
                    | EmptyString => None
                    | String c2 r2 =>
                        let acc := value 16 ds :: acc in
                        if Ascii.eqb c2 ":" then
                          match ell, r2 with
                          | Some _, _ => None
                          | None, EmptyString => Some (acc, Some (length acc))
                          | None, _ => parse_groups n' r2 acc (Some (length acc))
                          end
                        else parse_groups n' r' acc ell
                    end
           end
  end.

(** An ellipsis stands for at least one group. *)
Definition expand (r : list Z * option nat) : option string :=
  let gs := rev (fst r) in
  if (length gs =? 8)%nat then
    match snd r with None => Some (ungroup gs) | Some _ => None end
  else match snd r with
       | None => None
       | Some e => Some (ungroup (take e gs ++ replicate (8 - length gs) 0 ++ drop e gs))
       end.

(** What follows a leading "::". *)
Definition after_colons (s : string) : option string :=
  match s with
  | String a (String b s') => if Ascii.eqb a ":" && Ascii.eqb b ":" then Some s' else None
  | _ => None
  end.

Definition parseIPv6 (s : string) : option string :=
  match after_colons s with
  | Some EmptyString => Some (ungroup (replicate 8 0))
  | Some s' => r ← parse_groups 8 s' [] (Some O); expand r
  | None => r ← parse_groups 8 s [] None; expand r
  end.

Fixpoint first_sep (s : string) : option ascii :=
  match s with
  | EmptyString => None
  | String c s' => if Ascii.eqb c "." || Ascii.eqb c ":" then Some c else first_sep s'
  end.
Definition ParseIP (s : string) : option string :=
  match first_sep s with
  | Some c => if Ascii.eqb c "." then parseIPv4 s else parseIPv6 s
  | None => None
  end.

(** [IP.MarshalText] and [IP.UnmarshalText]; nil is the empty string. *)
Definition MarshalText (ip : string) : option string :=
  if len ip =? 0 then Some EmptyString
  else if negb ((len ip =? 4) || (len ip =? 16)) then None else Some (IP_String ip).
Definition UnmarshalText (text : string) : option string :=
  if len text =? 0 then Some EmptyString else ParseIP text.

(** [ParseCIDR]: the network, with the host bits cleared. *)
Definition ParseCIDR (s : string) : option IPNet :=
  match split_on "/" s with
  | [addr; mask] =>
      match ParseIP addr, atoi_unsigned mask with
      | Some ip, Some n =>
          let v4 := match first_sep addr with Some c => Ascii.eqb c "." | None => false end in
          if n <=? (if v4 then 32 else 128) then
            let ip := if v4 then String.substring 12 4 ip else ip in
            let m := CIDRMask (if v4 then 4 else 16) n in
            Some {| IP := Mask ip m; IPMask := m |}
          else None
      | _, _ => None
      end
  | _ => None
  end.

(** ** Host and port *)

Definition JoinHostPort (host port : string) : string :=
  if has_char ":" host || has_char "%" host then "[" ++s host ++s "]:" ++s port
  else host ++s ":" ++s port.

(** The text before and after the first [c]. *)
Fixpoint split_first (c : ascii) (s : string) : option (string * string) :=
  match s with
  | EmptyString => None
  | String a s' => if Ascii.eqb a c then Some (EmptyString, s')
                   else match split_first c s' with
                        | Some (l, r) => Some (String a l, r)
                        | None => None
                        end
  end.

(** [SplitHostPort]; the kinds of error are not distinguished. *)
Definition SplitHostPort (hostport : string) : option (string * string) :=
  match split_last ":" hostport with
  | None => None
  | Some (before, port) =>
      match hostport with
      | String "[" rest =>
          match split_first "]" rest with
          | Some (host, String ":" port') =>
              if has_char ":" port' || has_char "[" rest || has_char "]" port' then None
              else Some (host, port')
          | _ => None
          end
      | _ => if has_char ":" before || has_char "%" before
                || has_char "[" hostport || has_char "]" hostport then None
             else Some (before, port)
      end
  end.

(** ** Masks and membership *)

Lemma string_split n s : (n <= String.length s)%nat -> exists p q, s = p ++s q /\ String.length p = n.
Proof.
  revert n. induction s as [|c s IH]; intros [|n] H; simpl in H; try lia.
  - by exists EmptyString, EmptyString.
  - by exists EmptyString, (String c s).
  - destruct (IH n ltac:(lia)) as (p & q & -> & E). exists (String c p), q. simpl. by rewrite E.
Qed.

Lemma len_String c s : len (String c s) = len s + 1.
Proof. unfold len. simpl. lia. Qed.

Lemma len_Mask ip m : (String.length ip <= length m)%nat -> len (Mask ip m) = len ip.
Proof.
  revert m. induction ip as [|c ip IH]; intros [|x m] H; simpl in *; try done; try lia.
  rewrite !len_String. rewrite IH; lia.
Qed.

Lemma length_CIDRMask n ones : length (CIDRMask n ones) = n.
Proof. revert ones. induction n; intros ones; simpl; [done|]. destruct (8 <=? ones); simpl; auto. Qed.

Lemma byte_mask c ones : 0 <= ones < 8 ->
  Z.land (byteZ c) (255 - Z.shiftr 255 ones) = byteZ c / 2 ^ (8 - ones) * 2 ^ (8 - ones).
Proof.
  intros H. apply Z.eqb_eq.
  apply (ascii_forall (fun c => Z.land (byteZ c) (255 - Z.shiftr 255 ones)
                                =? byteZ c / 2 ^ (8 - ones) * 2 ^ (8 - ones))).
  assert (ones = 0 \/ ones = 1 \/ ones = 2 \/ ones = 3 \/ ones = 4 \/ ones = 5 \/ ones = 6 \/ ones = 7)
    as Ho by lia.
  by destruct_or! Ho; subst; vm_compute.
Qed.

Lemma pow256 n : 256 ^ Z.of_nat n = 2 ^ (8 * Z.of_nat n).
Proof. change 256 with (2 ^ 8). by rewrite <- Z.pow_mul_r by lia. Qed.

Lemma mask_tail c v k n : 0 <= k <= 8 * Z.of_nat n -> 0 <= v ->
  (c * 256 ^ Z.of_nat n + v) / 2 ^ k * 2 ^ k = c * 256 ^ Z.of_nat n + v / 2 ^ k * 2 ^ k.
Proof.
  intros Hk Hv. rewrite pow256. replace (8 * Z.of_nat n) with (8 * Z.of_nat n - k + k) by lia.
  rewrite Z.pow_add_r, Z.mul_assoc by lia. rewrite Z.div_add_l by (apply Z.pow_nonzero; lia). lia.
Qed.

Lemma mask_head c v n k : 0 <= v < 256 ^ Z.of_nat n -> 0 <= k ->
  (c * 256 ^ Z.of_nat n + v) / 2 ^ (8 * Z.of_nat n + k) * 2 ^ (8 * Z.of_nat n + k)
  = c / 2 ^ k * 2 ^ k * 256 ^ Z.of_nat n.
Proof.
  intros Hv Hk. rewrite Z.pow_add_r, <- pow256 by lia.
  rewrite <- Z.div_div by (try apply Z.pow_nonzero; try apply Z.pow_pos_nonneg; lia).
  rewrite Z.div_add_l, (Z.div_small v) by lia. rewrite Z.add_0_r. lia.
Qed.

(** Masking clears the bits below the prefix. *)
Lemma Mask_value ip n ones : len ip = Z.of_nat n -> 0 <= ones <= 8 * Z.of_nat n ->
  be_value (Mask ip (CIDRMask n ones))
  = be_value ip / 2 ^ (8 * Z.of_nat n - ones) * 2 ^ (8 * Z.of_nat n - ones).
Proof.
  revert n ones. induction ip as [|c ip IH]; intros n ones HL Ho.
  - destruct n; [reflexivity|unfold len in HL; simpl in HL; lia].
  - rewrite len_String in HL. destruct n as [|n]; [pose proof (len_nonneg ip); lia|].
    assert (len ip = Z.of_nat n) as HL' by lia. pose proof (be_value_bound ip) as Hb.
    pose proof (byteZ_bound c) as Hc. rewrite HL' in Hb. cbn [CIDRMask].
    destruct (Z.leb_spec 8 ones) as [H8|H8]; cbn [Mask]; rewrite !be_value_cons, len_Mask,
      byteZ_Zbyte, HL' by (rewrite length_CIDRMask; unfold len in HL'; lia).
    + rewrite (IH n (ones - 8)) by lia. replace 255 with (Z.ones 8) by reflexivity.
      rewrite Z.land_ones, !Z.mod_mod, Z.mod_small by lia.
      replace (8 * Z.of_nat (S n) - ones) with (8 * Z.of_nat n - (ones - 8)) by lia.
      rewrite mask_tail by lia. done.
    + rewrite (IH n 0), byte_mask by lia. rewrite Z.sub_0_r, <- pow256, (Z.div_small (be_value ip)) by lia.
      replace (8 * Z.of_nat (S n) - ones) with (8 * Z.of_nat n + (8 - ones)) by lia.
      rewrite mask_head by lia. rewrite Z.mod_small; [lia|].
      assert (0 < 2 ^ (8 - ones)) by (apply Z.pow_pos_nonneg; lia).
      pose proof (Z.mul_div_le (byteZ c) (2 ^ (8 - ones))). pose proof (Z.div_pos (byteZ c) (2 ^ (8 - ones))). nia.
Qed.

(** The leading [ones] of [8 * n] bits. *)
Definition prefix (n : nat) (ones : Z) (ip : string) : Z := be_value ip / 2 ^ (8 * Z.of_nat n - ones).

Lemma Mask_eq ip nn n ones : len ip = Z.of_nat n -> len nn = Z.of_nat n -> 0 <= ones <= 8 * Z.of_nat n ->
  String.eqb (Mask nn (CIDRMask n ones)) (Mask ip (CIDRMask n ones)) = true
  <-> prefix n ones ip = prefix n ones nn.
Proof.
  intros Hi Hn Ho. unfold prefix. rewrite String.eqb_eq.
  assert (0 < 2 ^ (8 * Z.of_nat n - ones)) by (apply Z.pow_pos_nonneg; lia). split.
  - intros H1. apply (f_equal be_value) in H1. rewrite !Mask_value in H1 by done. nia.
  - intros H1. apply be_value_inj.
    + rewrite !len_Mask by (rewrite length_CIDRMask; unfold len in *; lia). congruence.
    + rewrite !Mask_value by done. by rewrite H1.
Qed.

Lemma len_To4 ip v4 : To4 ip = Some v4 -> len v4 = 4.
Proof.
  unfold To4. destruct (Z.eqb_spec (len ip) 4) as [E|E]; [by intros [= <-]|].
  destruct (Z.eqb_spec (len ip) 16) as [E'|E']; simpl; [|done].
  destruct (String.eqb _ _); [|done]. intros [= <-].
  destruct (string_split 12 ip) as (p & q & -> & Hp); [unfold len in E'; lia|].
  rewrite len_app in E'. assert (String.length q = 4%nat) as Hq by (unfold len in E'; lia).
  rewrite substring_app_r by lia. unfold len. lia.
Qed.

(** Membership in an IPv4 network. *)
Theorem Contains_v4 nn ones ip : len nn = 4 -> 0 <= ones <= 32 ->
  Contains {| IP := nn; IPMask := CIDRMask 4 ones |} ip = true <->
  exists v4, To4 ip = Some v4 /\ prefix 4 ones v4 = prefix 4 ones nn.
Proof.
  intros Hn Ho. unfold Contains, networkNumberAndMask. cbn [IP IPMask].
  rewrite length_CIDRMask. unfold To4 at 1. rewrite Hn. simpl (4 =? 4). cbv iota. rewrite Hn.
  simpl (4 =? 4). cbn [Nat.eqb]. cbv iota. rewrite Hn.
  destruct (To4 ip) as [v4|] eqn:E; simpl default.
  - rewrite (len_To4 _ _ E). simpl negb. cbv iota.
    rewrite (Mask_eq v4 nn 4) by (rewrite ?(len_To4 _ _ E); done || lia). naive_solver.
  - split; [|by intros (? & ? & _)]. unfold To4 in E. destruct (Z.eqb_spec (len ip) 4); [done|]. by simpl.
Qed.

(** Membership in an IPv6 network. *)
Theorem Contains_v6 nn ones ip : len nn = 16 -> To4 nn = None -> 0 <= ones <= 128 ->
  Contains {| IP := nn; IPMask := CIDRMask 16 ones |} ip = true <->
  len ip = 16 /\ To4 ip = None /\ prefix 16 ones ip = prefix 16 ones nn.
Proof.
  intros Hn HT Ho. unfold Contains, networkNumberAndMask. cbn [IP IPMask].
  rewrite length_CIDRMask, HT, Hn. simpl (16 =? 16). cbn [Nat.eqb]. cbv iota. rewrite Hn.
  simpl (16 =? 4). cbv iota. destruct (To4 ip) as [v4|] eqn:E; simpl default.
  - rewrite (len_To4 _ _ E). simpl. naive_solver.
  - destruct (Z.eqb_spec (len ip) 16) as [E'|E']; simpl negb; cbv iota; [|naive_solver].
    rewrite (Mask_eq ip nn 16) by (done || lia). naive_solver.
Qed.

(** ** Text round trip *)

Lemma To16_To4 ip v4 : To4 ip = Some v4 -> To16 ip = v4InV6Prefix ++s v4.
Proof.
  unfold To4, To16. destruct (Z.eqb_spec (len ip) 4) as [E|E]; [by intros [= <-]|].
  destruct (Z.eqb_spec (len ip) 16) as [E'|E']; simpl; [|done].
  destruct (String.eqb_spec (String.substring 0 12 ip) v4InV6Prefix) as [H|]; [|done]. intros [= <-].
  destruct (string_split 12 ip) as (p & q & -> & Hp); [unfold len in E'; lia|].
  rewrite substring_app_l in H by done. subst p. rewrite len_app in E'. change (len v4InV6Prefix) with 12 in E'.
  by rewrite substring_app_r by (reflexivity || unfold len in E'; lia).
Qed.

Lemma itoa_no_char c z : 0 <= z -> (byteZ c < 48 \/ 57 < byteZ c) -> has_char c (itoa z) = false.
Proof.
  intros Hz Hc. unfold itoa. destruct (Z.ltb_spec z 0); [lia|].
  pose proof (digits_range 10 z ltac:(lia) Hz) as Hr. unfold has_char. apply negb_false_iff.
  induction Hr as [|d ds Hd Hr IH]; [done|]. cbn [chars_of all_chars]. rewrite IH, andb_true_r.
  apply negb_true_iff, Ascii.eqb_neq. intros <-. unfold hex_char in Hc.
  destruct (Z.ltb_spec d 10); [|lia]. rewrite byteZ_Zbyte, Z.mod_small in Hc by lia. lia.
Qed.

Lemma atoi_unsigned_itoa z : 0 <= z -> atoi_unsigned (itoa z) = Some z.
Proof. intros Hz. unfold itoa. destruct (Z.ltb_spec z 0); [lia|]. by apply atoi_unsigned_digits. Qed.

Lemma has_char_cons c a s : has_char c (String a s) = Ascii.eqb a c || has_char c s.
Proof. unfold has_char. cbn [all_chars]. by destruct (Ascii.eqb a c). Qed.

Lemma first_sep_skip s c t : has_char "." s = false -> has_char ":" s = false ->
  Ascii.eqb c "." || Ascii.eqb c ":" = true -> first_sep (s ++s String c t) = Some c.
Proof.
  intros H1 H2 Hc. induction s as [|a s IH]; cbn [String.append first_sep].
  - by rewrite Hc.
  - rewrite has_char_cons in H1, H2. bool_solve. rewrite H, H1. simpl. auto.
Qed.

Lemma parse_dotted v4 : len v4 = 4 ->
  parseIPv4 (dotted v4) = Some (v4InV6Prefix ++s v4) /\ first_sep (dotted v4) = Some "."%char.
Proof.
  intros H. destruct v4 as [|a [|b [|c [|d [|]]]]]; try (unfold len in H; simpl in H; lia).
  pose proof (byteZ_bound a). pose proof (byteZ_bound b). pose proof (byteZ_bound c). pose proof (byteZ_bound d).
  assert (forall x, has_char "." (itoa (byteZ x)) = false) as Hd
    by (intros x; apply itoa_no_char; [apply byteZ_bound|vm_compute; auto]).
  unfold dotted. cbn [String.list_ascii_of_string map]. split.
  - unfold parseIPv4. change "."%string with (String "." EmptyString).
    rewrite split_on_join by first [done|repeat constructor; apply Hd]. cbn [map].
    rewrite !atoi_unsigned_itoa by apply byteZ_bound.
    rewrite !(proj2 (Z.leb_le _ _)) by lia. cbn [andb].
    unfold bytes_of. cbn [chars_of]. by rewrite !Zbyte_byteZ.
  - cbn [join String.append]. apply first_sep_skip; [apply Hd| |done].
    apply itoa_no_char; [lia|vm_compute; auto].
Qed.

Lemma ungroup_groups ip : Nat.even (String.length ip) = true -> ungroup (groups ip) = ip.
Proof.
  revert ip. apply (string_len_ind (fun ip => Nat.even (String.length ip) = true -> ungroup (groups ip) = ip)).
  intros [|a [|b ip]] IH Hl; [done|done|]. cbn [groups ungroup].
  pose proof (byteZ_bound a). pose proof (byteZ_bound b).
  rewrite Z.div_add_l, (Z.div_small (byteZ b)), Z.add_0_r by lia.
  rewrite Z.add_comm, Z.mod_add, Z.mod_small by lia. rewrite !Zbyte_byteZ.
  rewrite IH; [done|simpl; lia|exact Hl].
Qed.

Lemma groups_range ip : Forall (fun g => 0 <= g < 65536) (groups ip).
Proof.
  revert ip. apply (string_len_ind (fun ip => Forall (fun g => 0 <= g < 65536) (groups ip))).
  intros [|a [|b ip]] IH; constructor; [|apply IH; simpl; lia].
  pose proof (byteZ_bound a). pose proof (byteZ_bound b). lia.
Qed.

Lemma groups_length ip : len ip = 16 -> length (groups ip) = 8%nat.
Proof.
  intros H. do 16 (destruct ip as [|? ip]; [unfold len in H; simpl in H; lia|]).
  destruct ip; [done|]. unfold len in H. simpl in H. lia.
Qed.

Definition is_digit (c : ascii) : bool := match hex_val c with Some _ => true | None => false end.

(** A text that does not go on with a hexadecimal digit. *)
Definition no_hex (s : string) : bool :=
  match s with String c _ => negb (is_digit c) | EmptyString => true end.

Lemma take_hex_group g rest : 0 <= g -> no_hex rest = true ->
  take_hex (hex_group g ++s rest) = (digits 16 g, rest).
Proof.
  intros Hg Hr. unfold hex_group. pose proof (digits_range 16 g ltac:(lia) Hg) as Hf.
  induction Hf as [|d ds Hd Hf IH]; cbn [chars_of String.append take_hex].
  - destruct rest as [|c rest]; [done|]. cbn [take_hex]. unfold no_hex, is_digit in Hr. by destruct (hex_val c).
  - by rewrite hex_val_char, IH by done.
Qed.

(** A group starts with a digit. *)
Lemma hex_group_cons g : 0 <= g -> exists c s, hex_group g = String c s /\ is_digit c = true.
Proof.
  intros Hg. destruct (digits_cons 16 g ltac:(lia) Hg) as (d & ds & E).
  pose proof (digits_range 16 g ltac:(lia) Hg) as Hf. rewrite E in Hf. apply Forall_cons in Hf as [Hd _].
  unfold hex_group. rewrite E. cbn [chars_of]. eexists _, _. split; [done|]. unfold is_digit. by rewrite hex_val_char.
Qed.

Lemma digit_not_sep c : is_digit c = true -> Ascii.eqb c ":" = false /\ Ascii.eqb c "." = false.
Proof.
  intros H. split; apply Ascii.eqb_neq; intros ->; vm_compute in H; discriminate.
Qed.

Lemma value_group g : 0 <= g < 65536 ->
  bool_decide (digits 16 g = []) || (65535 <? value 16 (digits 16 g)) = false.
Proof.
  intros Hg. rewrite value_digits by lia. destruct (digits_cons 16 g ltac:(lia) ltac:(lia)) as (d & ds & ->).
  rewrite bool_decide_eq_false_2 by done. simpl. apply Z.ltb_ge. lia.
Qed.

Definition hextets (l : list Z) : string := join ":" (map hex_group l).

Lemma hextets_cons g g' l : hextets (g :: g' :: l) = hex_group g ++s String ":" (hextets (g' :: l)).
Proof. reflexivity. Qed.

Lemma hextets_digit g l : 0 <= g -> exists c s, hextets (g :: l) = String c s /\ is_digit c = true.
Proof.
  intros Hg. destruct (hex_group_cons g Hg) as (c & s & E & Hc). unfold hextets.
  destruct l; cbn [map join]; rewrite E; cbn [String.append]; eauto.
Qed.

Lemma parse_hextets n l acc ell : l <> [] -> (length l <= n)%nat -> Forall (fun g => 0 <= g < 65536) l ->
  parse_groups n (hextets l) acc ell = Some (rev l ++ acc, ell).
Proof.
  revert n acc. induction l as [|g l IH]; intros n acc Hne Hn Hf; [done|].
  apply Forall_cons in Hf as [Hg Hf]. destruct n as [|n]; [simpl in Hn; lia|]. destruct l as [|g' l].
  - unfold hextets. cbn [map join parse_groups]. rewrite <- (sapp_nil_r (hex_group g)), take_hex_group by (done || lia).
    rewrite value_group, value_digits by lia. done.
  - rewrite hextets_cons. cbn [parse_groups]. rewrite take_hex_group by (done || lia).
    rewrite value_group, value_digits by lia. cbn [Ascii.eqb Bool.eqb negb].
    assert (0 <= g') as Hg' by (apply Forall_cons in Hf as [? _]; lia).
    destruct (hextets_digit g' l Hg') as (c & s & E & Hc). rewrite E.
    rewrite (proj1 (digit_not_sep c Hc)), <- E, IH by (done || simpl in *; lia).
    simpl rev. by rewrite <- !app_assoc.
Qed.

Lemma parse_ellipsis n l rest acc : l <> [] -> (length l <= n)%nat -> Forall (fun g => 0 <= g < 65536) l ->
  parse_groups n (hextets l ++s "::" ++s rest) acc None =
  let acc' := rev l ++ acc in
  match rest with
  | EmptyString => Some (acc', Some (length acc'))
  | _ => parse_groups (n - length l) rest acc' (Some (length acc'))
  end.
Proof.
  revert n acc. induction l as [|g l IH]; intros n acc Hne Hn Hf; [done|].
  apply Forall_cons in Hf as [Hg Hf]. destruct n as [|n]; [simpl in Hn; lia|]. destruct l as [|g' l].
  - unfold hextets. cbn [map join parse_groups]. change ("::" ++s rest) with (String ":" (String ":" rest)).
    rewrite take_hex_group by (done || lia).
    rewrite value_group, value_digits by lia. cbn [Ascii.eqb Bool.eqb negb]. cbv zeta. simpl rev.
    replace (S n - length [g])%nat with n by (simpl; lia). by destruct rest.
  - rewrite hextets_cons, sapp_assoc. cbn [parse_groups]. rewrite take_hex_group by (done || lia).
    rewrite value_group, value_digits by lia. cbn [Ascii.eqb Bool.eqb negb String.append].
    assert (0 <= g') as Hg' by (apply Forall_cons in Hf as [? _]; lia).
    destruct (hextets_digit g' l Hg') as (c & s & E & Hc).
    assert (hextets (g' :: l) ++s "::" ++s rest = String c (s ++s "::" ++s rest)) as E2 by (by rewrite E).
    cbn [String.append] in E2. rewrite E2.
    rewrite (proj1 (digit_not_sep c Hc)), <- E2. cbn [String.append] in IH. rewrite IH by (done || simpl in *; lia).
    simpl rev. by rewrite <- !app_assoc.
Qed.

(** The run of zeros that is left out. *)
Lemma zero_run_spec l : (zero_run l <= length l)%nat /\ take (zero_run l) l = replicate (zero_run l) 0.
Proof.
  induction l as [|g l [IH1 IH2]]; cbn [zero_run]; [done|].
  destruct (Z.eqb_spec g 0) as [->|]; simpl; [|split; [lia|done]]. split; [lia|]. by rewrite IH2.
Qed.

Definition zeros_between (gs : list Z) (e0 e1 : nat) : Prop :=
  (e0 <= e1 <= length gs)%nat /\ take (e1 - e0) (drop e0 gs) = replicate (e1 - e0) 0.

Lemma longest_run_spec fuel i gs e0 e1 : zeros_between gs e0 e1 ->
  let '(a, b) := longest_run fuel i gs e0 e1 in length gs = 8%nat -> zeros_between gs a b.
Proof.
  revert i e0 e1. induction fuel as [|fuel IH]; intros i e0 e1 H; cbn [longest_run]; [done|].
  destruct (Nat.leb_spec 8 i); [done|].
  destruct (Nat.ltb_spec (e1 - e0) (i + zero_run (drop i gs) - i)); [|by apply IH].
  pose proof (IH (S (i + zero_run (drop i gs))) i (i + zero_run (drop i gs))%nat) as IH'.
  destruct (longest_run _ _ _ _ _) as [a b]. intros Hl. apply IH'; [|done].
  destruct (zero_run_spec (drop i gs)) as [Hz1 Hz2]. rewrite length_drop in Hz1. split; [lia|].
  by replace (i + zero_run (drop i gs) - i)%nat with (zero_run (drop i gs)) by lia.
Qed.

Lemma split_at_zeros gs e0 e1 : zeros_between gs e0 e1 ->
  gs = take e0 gs ++ replicate (e1 - e0) 0 ++ drop e1 gs.
Proof.
  intros [H <-]. rewrite <- (take_drop e0 gs) at 1. f_equal.
  rewrite <- (take_drop (e1 - e0) (drop e0 gs)) at 1. f_equal. rewrite drop_drop. f_equal. lia.
Qed.

Lemma after_colons_digit c s : is_digit c = true -> after_colons (String c s) = None.
Proof. intros H. unfold after_colons. rewrite (proj1 (digit_not_sep c H)). by destruct s. Qed.

Lemma parse_shortened l r k :
  (length l + k + length r = 8)%nat -> (2 <= k)%nat -> Forall (fun g => 0 <= g < 65536) (l ++ r) ->
  parseIPv6 (hextets l ++s "::" ++s hextets r) = Some (ungroup (l ++ replicate k 0 ++ r)).
Proof.
  intros Hlen Hk Hf. apply Forall_app in Hf as [Hl Hr]. unfold parseIPv6. destruct l as [|g l].
  - cbn [hextets map join String.append after_colons]. simpl andb. cbv iota. destruct r as [|g r].
    + simpl in *. replace k with 8%nat by lia. done.
    + destruct (hextets_digit g r) as (c & s & E & _); [apply Forall_cons in Hr; lia|].
      rewrite E, <- E, parse_hextets by (done || simpl in *; lia).
      unfold mbind, option_bind, expand. cbn [fst snd]. rewrite app_nil_r, rev_involutive.
      destruct (Nat.eqb_spec (length (g :: r)) 8); [simpl in *; lia|].
      rewrite take_0, drop_0. by replace (8 - length (g :: r))%nat with k by (simpl in *; lia).
  - destruct (hextets_digit g l) as (c & s & E & Hc); [apply Forall_cons in Hl; lia|].
    assert (after_colons (hextets (g :: l) ++s "::" ++s hextets r) = None) as ->
      by (rewrite E; by apply after_colons_digit).
    rewrite parse_ellipsis by (done || lia). cbv zeta. rewrite app_nil_r, length_rev. destruct r as [|g' r].
    + cbn [hextets map join]. unfold mbind, option_bind, expand. cbn [fst snd]. rewrite rev_involutive.
      destruct (Nat.eqb_spec (length (g :: l)) 8); [simpl in *; lia|].
      rewrite take_ge, drop_ge by lia. by replace (8 - length (g :: l))%nat with k by (simpl in *; lia).
    + destruct (hextets_digit g' r) as (c' & s' & E' & _); [apply Forall_cons in Hr; lia|].
      rewrite E', <- E', parse_hextets by (done || simpl in *; lia).
      unfold mbind, option_bind, expand. cbn [fst snd]. rewrite rev_app_distr, !rev_involutive, length_app.
      destruct (Nat.eqb_spec (length (g :: l) + length (g' :: r)) 8); [simpl in *; lia|].
      rewrite take_app_length, drop_app_length.
      by replace (8 - (length (g :: l) + length (g' :: r)))%nat with k by (simpl in *; lia).
Qed.

Lemma parse_ipv6_text gs : length gs = 8%nat -> Forall (fun g => 0 <= g < 65536) gs ->
  parseIPv6 (ipv6_text gs) = Some (ungroup gs).
Proof.
  intros Hlen Hf. unfold ipv6_text.
  pose proof (longest_run_spec 8 0 gs 0 0) as HR. destruct (longest_run 8 0 gs 0 0) as [e0 e1].
  assert (zeros_between gs e0 e1) as Hz by (apply HR; [split; [lia|done]|done]).
  destruct (Nat.leb_spec (e1 - e0) 1).
  - fold (hextets gs). destruct gs as [|g gs]; [done|].
    destruct (hextets_digit g gs) as (c & s & E & Hc); [apply Forall_cons in Hf; lia|].
    unfold parseIPv6. rewrite E, after_colons_digit, <- E, parse_hextets by (done || lia).
    unfold mbind, option_bind, expand. cbn [fst snd]. rewrite app_nil_r, rev_involutive, Hlen. done.
  - pose proof (split_at_zeros gs e0 e1 Hz) as Hs. destruct Hz as [Hb _].
    fold (hextets (take e0 gs)). fold (hextets (drop e1 gs)).
    rewrite (parse_shortened _ _ (e1 - e0)).
    + by rewrite <- Hs.
    + rewrite length_take, length_drop. lia.
    + lia.
    + apply Forall_app. split; [by apply Forall_take|by apply Forall_drop].
Qed.

Lemma hex_group_no_sep g c : 0 <= g -> is_digit c = false -> has_char c (hex_group g) = false.
Proof.
  intros Hg Hc. unfold hex_group. pose proof (digits_range 16 g ltac:(lia) Hg) as Hf.
  induction Hf as [|d ds Hd Hf IH]; [done|]. cbn [chars_of]. rewrite has_char_cons, IH, orb_false_r.
  apply Ascii.eqb_neq. intros <-. unfold is_digit in Hc. by rewrite hex_val_char in Hc.
Qed.

Lemma first_sep_ipv6 gs : length gs = 8%nat -> Forall (fun g => 0 <= g < 65536) gs ->
  first_sep (ipv6_text gs) = Some ":"%char.
Proof.
  intros Hlen Hf. unfold ipv6_text. destruct (longest_run 8 0 gs 0 0) as [e0 e1].
  assert (forall g l t, Forall (fun g => 0 <= g < 65536) (g :: l) ->
            l <> [] \/ (exists t', t = String ":" t') ->
            first_sep (hextets (g :: l) ++s t) = Some ":"%char) as Hp.
  { intros g l t Hg Ht. apply Forall_cons in Hg as [Hg _].
    destruct l as [|g' l]; [destruct Ht as [|[t' ->]]; [done|]|rewrite hextets_cons, sapp_assoc; cbn [String.append]];
      apply first_sep_skip; try done; apply hex_group_no_sep; done || lia. }
  destruct (Nat.leb_spec (e1 - e0) 1).
  - fold (hextets gs). rewrite <- (sapp_nil_r (hextets gs)).
    destruct gs as [|g [|g' gs]]; try done. apply Hp; [done|by left].
  - fold (hextets (take e0 gs)). destruct (take e0 gs) as [|g l] eqn:E; [done|].
    apply Hp; [rewrite <- E; by apply Forall_take|right; by eexists].
Qed.

(** The text of an address parses to the address in its 16-byte form. *)
Theorem ParseIP_String ip : len ip = 4 \/ len ip = 16 -> ParseIP (IP_String ip) = Some (To16 ip).
Proof.
  intros Hl. unfold IP_String, ParseIP. destruct (Z.eqb_spec (len ip) 0); [lia|].
  destruct (To4 ip) as [v4|] eqn:E.
  - destruct (parse_dotted v4 (len_To4 _ _ E)) as [H1 H2]. rewrite H2. simpl. rewrite H1. by rewrite (To16_To4 _ _ E).
  - assert (len ip = 16) as H16.
    { destruct Hl as [H4|]; [|done]. unfold To4 in E. by rewrite H4 in E. }
    rewrite H16. simpl negb. cbv iota.
    rewrite first_sep_ipv6 by (try apply groups_length; try apply groups_range; done). simpl Ascii.eqb. cbv iota.
    rewrite parse_ipv6_text by (try apply groups_length; try apply groups_range; done).
    rewrite ungroup_groups.
    + unfold To16. by rewrite H16.
    + replace (String.length ip) with 16%nat by (unfold len in H16; lia). done.
Qed.

Lemma To16_idem ip : To16 (To16 ip) = To16 ip.
Proof.
  unfold To16. destruct (Z.eqb_spec (len ip) 4) as [E|E].
  - rewrite len_app, E. done.
  - destruct (Z.eqb_spec (len ip) 16) as [E'|E']; [|done]. by rewrite E'.
Qed.

(** What survives a trip through text: the 16-byte form. *)
Theorem UnmarshalText_MarshalText ip : len ip = 0 \/ len ip = 4 \/ len ip = 16 ->
  exists t, MarshalText ip = Some t /\ UnmarshalText t = Some (To16 ip).
Proof.
  intros H. unfold MarshalText. destruct (Z.eqb_spec (len ip) 0) as [E|E].
  - exists EmptyString. split; [done|]. destruct ip; [done|]. pose proof (len_nonneg ip). rewrite len_String in E. lia.
  - assert ((len ip =? 4) || (len ip =? 16) = true) as -> by (destruct H as [|[->| ->]]; done || lia).
    exists (IP_String ip). split; [done|].
    pose proof (ParseIP_String ip ltac:(tauto)) as HP. unfold UnmarshalText.
    destruct (IP_String ip) as [|c s] eqn:Es; [done|].
    rewrite len_String. pose proof (len_nonneg s). destruct (Z.eqb_spec (len s + 1) 0); [lia|done].
Qed.

End Net.
