(* ===== verification/Nonce.v ===== *)
(** * nonce/nonce.go: the anti-replay nonce service

    The service hands out encrypted counters and redeems each of them at most
    once.  [NonceService] is the Go struct without its mutex and statistics;
    the methods are state transformers.  AES-GCM is the class [AEAD]. *)

From S2P Require Import Prelude GoStd.

Module Nonce.

Definition MaxUsed : Z := 65536.
Definition nonceLen : Z := 32.

(** [cipher.AEAD] as the service uses it (no additional data): opening what was
    sealed gives the plaintext back, and sealing adds a 16-byte tag. *)
Class AEAD := {
  Seal : string -> string -> string;
  Open_ : string -> string -> option string
}.
Class AEADLaws (AE : AEAD) : Prop := {
  Open_Seal : forall n pt, Open_ n (Seal n pt) = Some pt;
  Seal_len : forall n pt, len (Seal n pt) = len pt + 16
}.

(** [type NonceService struct]. *)
Record NonceService := {
  latest : Z;
  earliest : Z;
  used : gset Z;
  maxUsed : Z
}.

(** [NewNonceService], when reading the key succeeds. *)
Definition NewNonceService : NonceService :=
  {| latest := 0; earliest := 0; used := ∅; maxUsed := MaxUsed |}.

Inductive nonce_error :=
| ErrRand
| ErrBase64
| errInvalidNonceLength
| ErrOpen.

Definition zeros (n : nat) : string := repeat_char "000" n.

(** [copy(dst[off:], src)] into a zeroed buffer of [n] bytes. *)
Definition copy_into (n off : Z) (src : string) : string :=
  zeros (Z.to_nat off) ++s String.substring 0 (Z.to_nat (n - off)) src
  ++s zeros (Z.to_nat (n - off - len src)).

Section service.
Context {AE : AEAD}.

(** [encrypt]: [rnd] is what [rand.Read] put in the last 8 bytes of the GCM
    nonce, or [None] when it failed. *)
Definition encrypt (rnd : option string) (counter : Z) : result nonce_error string :=
  match rnd with
  | None => Err ErrRand
  | Some r =>
      let nonce := zeros 4 ++s r in
      let ctrBytes := be_bytes counter in
      let pad := 8 - len ctrBytes in
      let pt := copy_into 8 pad ctrBytes in
      let ct := Seal nonce pt in
      let ret := String.substring 0 32 (r ++s ct) in
      let ret := ret ++s zeros (Z.to_nat (nonceLen - len ret)) in
      Ok (b64_encode false ret)
  end.

Definition decrypt (nonce : string) : result nonce_error Z :=
  match b64_decode false nonce with
  | None => Err ErrBase64
  | Some decoded =>
      if negb (len decoded =? nonceLen) then Err errInvalidNonceLength
      else
        let n := zeros 4 ++s String.substring 0 8 decoded in
        match Open_ n (String.substring 8 24 decoded) with
        | None => Err ErrOpen
        | Some pt => Ok (wrap64 (be_value pt))
        end
  end.

(** [Nonce]: the counter is bumped even when encrypting then fails. *)
Definition Nonce (rnd : option string) (ns : NonceService)
  : result nonce_error string * NonceService :=
  let l := wrap64 (latest ns + 1) in
  (encrypt rnd l,
   {| latest := l; earliest := earliest ns; used := used ns; maxUsed := maxUsed ns |}).

(** [minUsed]: the linear scan over the map, starting from [latest]. *)
Definition minUsed (ns : NonceService) : Z :=
  set_fold (fun t min => if t <? min then t else min) (latest ns) (used ns).

(** The part of [Valid] that runs under the lock. *)
Definition redeem (c : Z) (ns : NonceService) : bool * NonceService :=
  if latest ns <? c then (false, ns)
  else if c <=? earliest ns then (false, ns)
  else if bool_decide (c ∈ used ns) then (false, ns)
  else
    let ns1 := {| latest := latest ns; earliest := earliest ns;
                  used := {[c]} ∪ used ns; maxUsed := maxUsed ns |} in
    if maxUsed ns1 <? Z.of_nat (size (used ns1)) then
      let e := minUsed ns1 in
      (true, {| latest := latest ns1; earliest := e;
                used := used ns1 ∖ {[e]}; maxUsed := maxUsed ns1 |})
    else (true, ns1).

Definition Valid (nonce : string) (ns : NonceService) : bool * NonceService :=
  match decrypt nonce with
  | Err _ => (false, ns)
  | Ok c => redeem c ns
  end.

(** ** The service as a transition system *)

Inductive op :=
| OpNonce (rnd : option string)
| OpValid (nonce : string).

(** One request; the second component is the counter redeemed, if any. *)
Definition step (o : op) (ns : NonceService) : option Z * NonceService :=
  match o with
  | OpNonce rnd => (None, snd (Nonce rnd ns))
  | OpValid n =>
      match decrypt n with
      | Err _ => (None, ns)
      | Ok c => let '(b, ns') := redeem c ns in (if b then Some c else None, ns')
      end
  end.

Fixpoint run (ops : list op) (ns : NonceService) : list Z * NonceService :=
  match ops with
  | [] => ([], ns)
  | o :: ops' =>
      let '(r, ns1) := step o ns in
      let '(rs, ns2) := run ops' ns1 in
      (match r with Some c => c :: rs | None => rs end, ns2)
  end.

(** The representation invariant. *)
Record Inv (ns : NonceService) : Prop := {
  inv_used : forall c, c ∈ used ns -> earliest ns < c;
  inv_size : Z.of_nat (size (used ns)) <= maxUsed ns
}.

End service.

Section proofs.
Context {AE : AEAD}.

(** *** The scan finds the least element *)

Lemma minUsed_spec ns :
  minUsed ns <= latest ns /\ (forall c, c ∈ used ns -> minUsed ns <= c) /\
  (minUsed ns = latest ns \/ minUsed ns ∈ used ns).
Proof.
  unfold minUsed.
  apply (set_fold_ind_L (fun m X => m <= latest ns /\ (forall c, c ∈ X -> m <= c) /\
    (m = latest ns \/ m ∈ X))).
  - split_and!; [lia|set_solver|by left].
  - intros x X r _ (H1 & H2 & H3). destruct (Z.ltb_spec x r).
    + split_and!; [lia| |set_solver]. intros c Hc. apply elem_of_union in Hc as [Hc|Hc].
      * apply elem_of_singleton in Hc. lia.
      * specialize (H2 c Hc). lia.
    + split_and!; [lia| |set_solver]. intros c Hc. apply elem_of_union in Hc as [Hc|Hc].
      * apply elem_of_singleton in Hc. lia.
      * auto.
Qed.

(** When the scan runs, a key at most [latest] was just inserted, so it returns a key. *)
Lemma minUsed_in ns c : c ∈ used ns -> c <= latest ns -> minUsed ns ∈ used ns.
Proof.
  intros Hc Hl. destruct (minUsed_spec ns) as (_ & H2 & [H3|H3]); [|done].
  specialize (H2 c Hc). assert (minUsed ns = c) as -> by lia. done.
Qed.

(** *** Redemption, branch by branch *)

Lemma redeem_reject c ns ns' : redeem c ns = (false, ns') -> ns' = ns.
Proof. unfold redeem. repeat case_match; congruence. Qed.

Lemma redeem_accept c ns ns' :
  redeem c ns = (true, ns') ->
  earliest ns < c <= latest ns /\ (c ∉ used ns) /\ latest ns' = latest ns /\ maxUsed ns' = maxUsed ns /\
  ((used ns' = {[c]} ∪ used ns /\ earliest ns' = earliest ns /\
    Z.of_nat (size ({[c]} ∪ used ns)) <= maxUsed ns)
   \/ (let e := earliest ns' in
       maxUsed ns < Z.of_nat (size ({[c]} ∪ used ns)) /\
       e ∈ {[c]} ∪ used ns /\ (forall d, d ∈ {[c]} ∪ used ns -> e <= d) /\
       used ns' = ({[c]} ∪ used ns) ∖ {[e]})).
Proof.
  unfold redeem. set (ns1 := Build_NonceService _ _ _ _). intros H.
  destruct (latest ns <? c) eqn:E1; [done|]. destruct (c <=? earliest ns) eqn:E2; [done|].
  destruct (bool_decide _) eqn:E3; [done|]. bool_solve.
  destruct (maxUsed ns1 <? _) eqn:E4; bool_solve; injection H as <-; simpl in *.
  - split_and!; try done; try lia. right.
    assert (minUsed ns1 ∈ used ns1) by (apply (minUsed_in _ c); [set_solver|simpl; lia]).
    destruct (minUsed_spec ns1) as (_ & Hmin & _). split_and!; auto.
  - split_and!; try done; try lia. left. split_and!; try done; lia.
Qed.

Lemma size_insert c (X : gset Z) : c ∉ X -> size ({[c]} ∪ X) = S (size X).
Proof. intros. rewrite size_union by set_solver. by rewrite size_singleton. Qed.

Lemma redeem_inv c ns b ns' : Inv ns -> redeem c ns = (b, ns') ->
  Inv ns' /\ earliest ns <= earliest ns'.
Proof.
  intros [Hu Hs] H. destruct b; [|apply redeem_reject in H as ->; split; [by split|lia]].
  apply redeem_accept in H as (Hc & Hn & Hl & Hm & [(E & F & G)|(G & He & Hmin & E)]).
  - split; [|lia]. split.
    + rewrite E, F. intros d. rewrite elem_of_union, elem_of_singleton. intros [->|?]; [lia|auto].
    + rewrite E, Hm. lia.
  - assert (earliest ns < earliest ns').
    { apply elem_of_union in He as [He|He]; [apply elem_of_singleton in He; lia|auto]. }
    split; [|lia]. split.
    + rewrite E. intros d. rewrite elem_of_difference, elem_of_singleton. intros [Hd Hne].
      specialize (Hmin d Hd). lia.
    + rewrite E, Hm, size_difference by set_solver. rewrite size_singleton, size_insert by done. lia.
Qed.

Lemma step_inv o ns r ns' : Inv ns -> step o ns = (r, ns') -> Inv ns' /\ earliest ns <= earliest ns'.
Proof.
  intros HI. destruct o; simpl.
  - intros [= <- <-]. split; [|simpl; lia]. destruct HI. by split.
  - destruct (decrypt nonce); [|intros [= <- <-]; split; [done|lia]].
    destruct (redeem a ns) as [b ns1] eqn:E. intros [= <- <-]. by eapply redeem_inv.
Qed.

(** A redeemed counter was above the floor and unused, and is blocked afterwards. *)
Lemma step_redeemed o ns c ns' : Inv ns -> step o ns = (Some c, ns') ->
  earliest ns < c /\ (c ∉ used ns) /\ (c ∈ used ns' \/ c <= earliest ns').
Proof.
  intros HI. destruct o; simpl; [done|].
  destruct (decrypt nonce) as [a|]; [|done]. destruct (redeem a ns) as [[] ns1] eqn:E; [|done].
  intros [= -> <-].
  apply redeem_accept in E as (Hc & Hn & _ & _ & [(E & _)|(_ & _ & Hmin & E)]).
  - split_and!; [lia|done|]. left. rewrite E. set_solver.
  - split_and!; [lia|done|]. rewrite E. destruct (decide (c = earliest ns1)); [right; lia|left; set_solver].
Qed.

(** A blocked counter stays blocked. *)
Lemma step_blocked o ns r ns' c : Inv ns -> step o ns = (r, ns') ->
  (c ∈ used ns \/ c <= earliest ns) -> (c ∈ used ns' \/ c <= earliest ns').
Proof.
  intros HI Hs Hb. pose proof (step_inv _ _ _ _ HI Hs) as [_ Hle].
  destruct Hb as [Hb|Hb]; [|right; lia].
  destruct o; simpl in Hs; [injection Hs as <- <-; by left|].
  destruct (decrypt nonce) as [a|]; [|injection Hs as <- <-; by left].
  destruct (redeem a ns) as [[] ns1] eqn:E; injection Hs as <- <-.
  - apply redeem_accept in E as (_ & _ & _ & _ & [(E & _)|(_ & _ & Hmin & E)]).
    + left. rewrite E. set_solver.
    + rewrite E. destruct (decide (c = earliest ns1)); [right; lia|left; set_solver].
  - apply redeem_reject in E as ->. by left.
Qed.

Lemma run_spec ops : forall ns, Inv ns ->
  let '(rs, ns') := run ops ns in
  Inv ns' /\ earliest ns <= earliest ns' /\ NoDup rs /\
  forall c, (c ∈ used ns \/ c <= earliest ns) -> c ∉ rs.
Proof.
  induction ops as [|o ops IH]; intros ns HI; simpl.
  - split_and!; [done|lia|constructor|set_solver].
  - destruct (step o ns) as [r ns1] eqn:E1.
    destruct (step_inv _ _ _ _ HI E1) as [HI1 Hle1]. specialize (IH ns1 HI1).
    destruct (run ops ns1) as [rs ns2]. destruct IH as (HI2 & Hle2 & Hnd & Hbl).
    destruct r as [c|].
    + destruct (step_redeemed _ _ _ _ HI E1) as (Hc1 & Hc2 & Hc3).
      split_and!; [done|lia|apply NoDup_cons; split; [by apply Hbl|done]|].
      intros d Hd. rewrite elem_of_cons. intros [->|Hin]; [destruct Hd; [done|lia]|].
      eapply Hbl; [exact (step_blocked _ _ _ _ _ HI E1 Hd)|exact Hin].
    + split_and!; [done|lia|done|]. intros d Hd. apply Hbl. exact (step_blocked _ _ _ _ _ HI E1 Hd).
Qed.

Lemma Inv_new : Inv NewNonceService.
Proof. split; simpl; [set_solver|]. vm_compute. discriminate. Qed.

(** Used counters were issued: none is above [latest]. *)
Definition used_issued (ns : NonceService) : Prop :=
  0 <= latest ns /\ forall c, c ∈ used ns -> c <= latest ns.

Lemma Inv_latest_new : used_issued NewNonceService.
Proof. split; simpl; [lia|set_solver]. Qed.

Lemma run_latest_bound ops : forall ns,
  let '(rs, ns') := run ops ns in
  used_issued ns -> latest ns + Z.of_nat (length ops) < 2 ^ 63 ->
  forall c, c ∈ used ns' -> c <= latest ns'.
Proof.
  induction ops as [|o ops IH]; intros ns; simpl; [by intros [_ H] _|].
  destruct (step o ns) as [r ns1] eqn:E1. specialize (IH ns1).
  destruct (run ops ns1) as [rs ns2]. intros [H0 Hu] Hb. apply IH.
  - destruct o; simpl in E1.
    + injection E1 as <- <-. split; simpl; rewrite wrap64_id by (unfold int64_ok; lia); [lia|].
      intros c Hc. specialize (Hu c Hc). lia.
    + destruct (decrypt nonce) as [a|]; [|injection E1 as <- <-; by split].
      destruct (redeem a ns) as [[] ns'] eqn:E; injection E1 as <- <-;
        [|apply redeem_reject in E as ->; by split].
      apply redeem_accept in E as (Hc & _ & El & _ & [(E & _)|(_ & _ & _ & E)]);
      (split; rewrite El; [done|]); intros d; rewrite E; intros Hd;
      assert (d ∈ {[a]} ∪ used ns) as Hd' by set_solver;
      apply elem_of_union in Hd' as [->%elem_of_singleton|?]; [lia|auto|lia|auto].
  - destruct o; simpl in E1.
    + injection E1 as <- <-. simpl. rewrite wrap64_id by (unfold int64_ok; lia). lia.
    + destruct (decrypt nonce) as [a|]; [|injection E1 as <- <-; lia].
      destruct (redeem a ns) as [[] ns'] eqn:E; injection E1 as <- <-;
        [|apply redeem_reject in E as ->; lia].
      apply redeem_accept in E as (_ & _ & El & _). lia.
Qed.

(** *** Encoding and decoding counters *)

Lemma copy_into_pad (s : string) :
  len s <= 8 -> copy_into 8 (8 - len s) s = zeros (Z.to_nat (8 - len s)) ++s s.
Proof.
  intros H. pose proof (len_nonneg s). unfold copy_into.
  replace (8 - (8 - len s)) with (len s) by lia.
  rewrite Z.sub_diag. unfold len at 2. rewrite Nat2Z.id, substring_all by lia.
  simpl. by rewrite sapp_nil_r.
Qed.

Lemma decrypt_encrypt_lemma {AL : AEADLaws AE} (r n : string) c :
  len r = 8 -> 0 <= c < 2 ^ 63 -> encrypt (Some r) c = Ok n -> decrypt n = Ok c.
Proof.
  intros Hr Hc Henc. apply Ok_inj in Henc. subst n. unfold decrypt.
  assert (Hlen : len (be_bytes c) <= 8) by (apply be_bytes_len; lia).
  pose proof (len_nonneg (be_bytes c)). rewrite copy_into_pad by done.
  set (pt := zeros (Z.to_nat (8 - len (be_bytes c))) ++s be_bytes c).
  assert (Hpt : len pt = 8) by (unfold pt, zeros; rewrite len_app, len_repeat_char; lia).
  set (ct := Seal (zeros 4 ++s r) pt).
  assert (Hct : len ct = 24) by (unfold ct; rewrite Seal_len; lia).
  rewrite (substring_all 32 (r ++s ct)) by (rewrite slength_app; unfold len in Hr, Hct; lia).
  rewrite len_app, Hr, Hct. simpl (Z.to_nat _). simpl (zeros 0). rewrite sapp_nil_r.
  rewrite b64_decode_encode, len_app, Hr, Hct. simpl (negb _).
  rewrite (substring_app_l 8 r ct), (substring_app_r 8 24 r ct) by (unfold len in *; lia).
  unfold ct. rewrite Open_Seal. unfold pt, zeros. rewrite be_value_pad, be_value_bytes by lia.
  by rewrite wrap64_id by (unfold int64_ok; lia).
Qed.

(** *** Below capacity nothing is evicted *)

Lemma redeem_below c ns ns' :
  redeem c ns = (true, ns') -> Z.of_nat (size (used ns)) < maxUsed ns ->
  used ns' = {[c]} ∪ used ns /\ earliest ns' = earliest ns /\ latest ns' = latest ns /\
  maxUsed ns' = maxUsed ns /\ c ∉ used ns.
Proof.
  intros H Hs. apply redeem_accept in H as (_ & Hn & Hl & Hm & [(E & F & _)|(G & _)]).
  - done.
  - rewrite size_insert in G by done. lia.
Qed.

Lemma run_below ops : forall ns,
  let '(rs, ns') := run ops ns in
  Z.of_nat (size (used ns)) + Z.of_nat (length rs) <= maxUsed ns ->
  0 <= latest ns -> latest ns + Z.of_nat (length ops) < 2 ^ 63 ->
  earliest ns' = earliest ns /\ maxUsed ns' = maxUsed ns /\ latest ns <= latest ns' /\
  latest ns' <= latest ns + Z.of_nat (length ops) /\
  used ns' = used ns ∪ list_to_set rs /\
  size (used ns') = (size (used ns) + length rs)%nat.
Proof.
  induction ops as [|o ops IH]; intros ns; simpl.
  - intros. split_and!; try done; try lia; set_solver.
  - destruct (step o ns) as [r ns1] eqn:E1. specialize (IH ns1).
    destruct (run ops ns1) as [rs ns2]. intros Hcap Hl0 Hl.
    assert (r = None /\ used ns1 = used ns /\ earliest ns1 = earliest ns /\ maxUsed ns1 = maxUsed ns /\
      latest ns <= latest ns1 <= latest ns + 1 \/
      exists c, r = Some c /\ redeem c ns = (true, ns1)) as Hcase.
    { destruct o; simpl in E1.
      - left. injection E1 as <- <-. simpl. rewrite wrap64_id by (unfold int64_ok; lia).
        split_and!; try done; lia.
      - destruct (decrypt nonce) as [a|]; [|left; injection E1 as <- <-; split_and!; try done; lia].
        destruct (redeem a ns) as [[] ns'] eqn:E; injection E1 as <- <-; [right; eauto|left].
        apply redeem_reject in E as ->. split_and!; try done; lia. }
    destruct Hcase as [(-> & Eu & Ee & Em & El)|(c & -> & Er)].
    + rewrite Eu, Ee, Em in IH. destruct IH as (?&?&?&?&?&?); [lia..|]. split_and!; try done; lia.
    + cbn [length] in Hcap. destruct (redeem_below _ _ _ Er ltac:(lia)) as (Eu & Ee & El & Em & Hn).
      rewrite Eu, Ee, El, Em, size_insert in IH by done.
      destruct IH as (?&?&?&?&Hu&Hsz); [lia..|]. split_and!; try done; try lia.
      * rewrite Hu. set_solver.
      * rewrite Hsz. cbn [length]. lia.
Qed.

(** C36. Whatever sequence of requests the service serves, no counter is ever
    redeemed twice: a nonce, or any other string that decrypts to the same
    counter, is accepted at most once. *)
Theorem nonce_redeemed_at_most_once (ops : list op) :
  NoDup (fst (run ops NewNonceService)).
Proof.
  pose proof (run_spec ops NewNonceService Inv_new) as H.
  destruct (run ops NewNonceService) as [rs ns']. apply H.
Qed.

(** In every reachable state the used-map holds at most [MaxUsed] entries,
    all of them above the floor [earliest], and the floor only grows. *)
Theorem nonce_state_invariant (ops1 ops2 : list op) :
  let ns1 := snd (run ops1 NewNonceService) in
  let ns2 := snd (run ops2 ns1) in
  Inv ns1 /\ Inv ns2 /\ earliest ns1 <= earliest ns2.
Proof.
  cbv zeta. pose proof (run_spec ops1 NewNonceService Inv_new) as H1.
  destruct (run ops1 NewNonceService) as [rs1 ns1]. destruct H1 as (HI1 & _).
  pose proof (run_spec ops2 ns1 HI1) as H2.
  simpl. destruct (run ops2 ns1) as [rs2 ns2]. simpl. destruct H2 as (HI2 & Hle & _). done.
Qed.

(** A nonce string made by [encrypt] for a non-negative counter decrypts to
    that counter. *)
Theorem decrypt_encrypt {AL : AEADLaws AE} (r n : string) (c : Z) :
  len r = 8 -> 0 <= c < 2 ^ 63 -> encrypt (Some r) c = Ok n -> decrypt n = Ok c.
Proof. apply decrypt_encrypt_lemma. Qed.

(** A nonce that was handed out is accepted the first time it comes back, as
    long as no more than [MaxUsed] nonces have been redeemed and the counter
    has not run through the 63-bit range: other traffic cannot invalidate it. *)
Theorem issued_nonce_is_accepted {AL : AEADLaws AE} ops1 ops2 r n rs1 ns1 ns2 rs2 ns3 :
  run ops1 NewNonceService = (rs1, ns1) ->
  len r = 8 -> Nonce (Some r) ns1 = (Ok n, ns2) ->
  run ops2 ns2 = (rs2, ns3) -> latest ns2 ∉ rs2 ->
  Z.of_nat (length rs1 + length rs2) <= MaxUsed ->
  Z.of_nat (length ops1 + length ops2) < 2 ^ 63 - 2 ->
  fst (Valid n ns3) = true.
Proof.
  intros H1 Hr HN H2 Hfresh Hcap Hops.
  pose proof (run_below ops1 NewNonceService) as B1. rewrite H1 in B1. cbv beta iota in B1.
  assert (HM : 0 <= MaxUsed < 2 ^ 63) by (unfold MaxUsed; lia).
  assert (size (used NewNonceService) = 0%nat) as S0 by (vm_compute; reflexivity). rewrite S0 in B1.
  cbn [latest maxUsed earliest NewNonceService] in B1.
  destruct B1 as (E1 & M1 & L1 & L1' & U1 & S1); [lia..|].
  unfold Nonce in HN. apply pair_equal_spec in HN as [Henc <-]. cbn [latest used earliest maxUsed] in *.
  rewrite wrap64_id in * by (unfold int64_ok; lia).
  apply decrypt_encrypt_lemma in Henc; [|done|lia].
  match type of H2 with run _ ?ns = _ => pose proof (run_below ops2 ns) as B2 end. rewrite H2 in B2. cbn [latest used earliest maxUsed] in B2.
  destruct B2 as (E2 & M2 & L2 & L2' & U2 & S2); [lia..|].
  unfold Valid. rewrite Henc. unfold redeem.
  destruct (Z.ltb_spec (latest ns3) (latest ns1 + 1)); [lia|].
  destruct (Z.leb_spec (latest ns1 + 1) (earliest ns3)); [lia|].
  rewrite bool_decide_eq_false_2.
  - simpl. by case_match.
  - rewrite U2, elem_of_union, elem_of_list_to_set. intros [Hin|Hin]; [|done].
    pose proof (run_latest_bound ops1 NewNonceService) as HB. rewrite H1 in HB.
    specialize (HB Inv_latest_new ltac:(simpl; lia)). apply HB in Hin. lia.
Qed.

End proofs.

(** ** Witnesses: a transparent cipher that appends a fixed tag *)

Definition toy_tag : string := "0123456789abcdef".
Instance toy_aead : AEAD := {|
  Seal := fun _ pt => pt ++s toy_tag;
  Open_ := fun _ ct => Some (String.substring 0 (String.length ct - 16) ct)
|}.

Instance toy_aead_laws : AEADLaws toy_aead.
Proof.
  split; intros n pt; simpl.
  - rewrite slength_app. simpl (String.length toy_tag).
    replace (String.length pt + 16 - 16)%nat with (String.length pt) by lia.
    by rewrite substring_app_l.
  - by rewrite len_app.
Defined.

Definition toy_rnd : string := "abcdefgh".

Lemma decrypt_encrypt_witness : exists n, encrypt (Some toy_rnd) 258 = Ok n /\ decrypt n = Ok 258.
Proof.
  eexists. split; [reflexivity|].
  apply (decrypt_encrypt (AE := toy_aead) toy_rnd); [reflexivity|lia|reflexivity].
Defined.

Lemma issued_nonce_is_accepted_witness :
  exists n ns3, fst (Valid n ns3) = true /\ latest ns3 = 3.
Proof.
  eexists _, _. split.
  - eapply (issued_nonce_is_accepted (AE := toy_aead) [OpNonce (Some toy_rnd)]
      [OpNonce None; OpValid "garbage"] toy_rnd);
    [reflexivity|reflexivity|reflexivity|reflexivity|simpl; set_solver
    |vm_compute; discriminate|vm_compute; reflexivity].
  - reflexivity.
Defined.

End Nonce.
