(* ===== verification/Errors.v ===== *)
(** * Error values and their translations

    [errors/errors.go] (BoulderError), [probs/probs.go] (ACME problem
    documents), the legacy string errors of [core/util.go], and the two
    translations between them: [wfe/probs.go] (to HTTP problem documents) and
    [grpc/bcodes.go] (across an RPC).  A Go [error] is a value of the closed
    type [error], one constructor per dynamic type the modelled code can
    return. *)

From S2P Require Import Prelude GoStd.

(** ** probs/probs.go *)

Module Probs.

Record ProblemDetails := {
  Type_ : string;
  Detail : string;
  HTTPStatus : Z
}.

#[global] Instance ProblemDetails_eq_dec : EqDecision ProblemDetails.
Proof. solve_decision. Defined.

Notation ConnectionProblem := "urn:acme:error:connection" (only parsing).
Notation MalformedProblem := "urn:acme:error:malformed" (only parsing).
Notation ServerInternalProblem := "urn:acme:error:serverInternal" (only parsing).
Notation TLSProblem := "urn:acme:error:tls" (only parsing).
Notation UnauthorizedProblem := "urn:acme:error:unauthorized" (only parsing).
Notation UnknownHostProblem := "urn:acme:error:unknownHost" (only parsing).
Notation RateLimitedProblem := "urn:acme:error:rateLimited" (only parsing).
Notation BadNonceProblem := "urn:acme:error:badNonce" (only parsing).
Notation InvalidEmailProblem := "urn:acme:error:invalidEmail" (only parsing).
Notation RejectedIdentifierProblem := "urn:acme:error:rejectedIdentifier" (only parsing).
Notation UnsupportedIdentifierProblem := "urn:acme:error:unsupportedIdentifier" (only parsing).

(** net/http status codes. *)
Definition StatusBadRequest : Z := 400.
Definition StatusForbidden : Z := 403.
Definition StatusNotFound : Z := 404.
Definition StatusMethodNotAllowed : Z := 405.
Definition StatusConflict : Z := 409.
Definition StatusLengthRequired : Z := 411.
Definition statusTooManyRequests : Z := 429.
Definition StatusInternalServerError : Z := 500.
Definition StatusNotImplemented : Z := 501.

Definition Error (pd : ProblemDetails) : string := Type_ pd ++s " :: " ++s Detail pd.

Definition ProblemDetailsToStatusCode (prob : ProblemDetails) : Z :=
  if negb (HTTPStatus prob =? 0) then HTTPStatus prob
  else if bool_decide (Type_ prob ∈ [ConnectionProblem; MalformedProblem; TLSProblem;
            UnknownHostProblem; BadNonceProblem; InvalidEmailProblem;
            RejectedIdentifierProblem; UnsupportedIdentifierProblem]) then StatusBadRequest
  else if bool_decide (Type_ prob = ServerInternalProblem) then StatusInternalServerError
  else if bool_decide (Type_ prob = UnauthorizedProblem) then StatusForbidden
  else if bool_decide (Type_ prob = RateLimitedProblem) then statusTooManyRequests
  else StatusInternalServerError.

Definition BadNonce (detail : string) :=
  {| Type_ := BadNonceProblem; Detail := detail; HTTPStatus := StatusBadRequest |}.
Definition RejectedIdentifier (detail : string) :=
  {| Type_ := RejectedIdentifierProblem; Detail := detail; HTTPStatus := StatusBadRequest |}.
Definition UnsupportedIdentifier (detail : string) :=
  {| Type_ := UnsupportedIdentifierProblem; Detail := detail; HTTPStatus := StatusBadRequest |}.
Definition Conflict (detail : string) :=
  {| Type_ := MalformedProblem; Detail := detail; HTTPStatus := StatusConflict |}.
(** [Malformed] called without format arguments. *)
Definition Malformed (detail : string) :=
  {| Type_ := MalformedProblem; Detail := detail; HTTPStatus := StatusBadRequest |}.
Definition NotFound (detail : string) :=
  {| Type_ := MalformedProblem; Detail := detail; HTTPStatus := StatusNotFound |}.
Definition ServerInternal (detail : string) :=
  {| Type_ := ServerInternalProblem; Detail := detail; HTTPStatus := StatusInternalServerError |}.
Definition Unauthorized (detail : string) :=
  {| Type_ := UnauthorizedProblem; Detail := detail; HTTPStatus := StatusForbidden |}.
Definition MethodNotAllowed :=
  {| Type_ := MalformedProblem; Detail := "Method not allowed"; HTTPStatus := StatusMethodNotAllowed |}.
Definition ContentLengthRequired :=
  {| Type_ := MalformedProblem; Detail := "missing Content-Length header";
     HTTPStatus := StatusLengthRequired |}.
Definition InvalidEmail (detail : string) :=
  {| Type_ := InvalidEmailProblem; Detail := detail; HTTPStatus := StatusBadRequest |}.
Definition ConnectionFailure (detail : string) :=
  {| Type_ := ConnectionProblem; Detail := detail; HTTPStatus := StatusBadRequest |}.
Definition UnknownHost (detail : string) :=
  {| Type_ := UnknownHostProblem; Detail := detail; HTTPStatus := StatusBadRequest |}.
Definition RateLimited (detail : string) :=
  {| Type_ := RateLimitedProblem; Detail := detail; HTTPStatus := statusTooManyRequests |}.
Definition TLSError (detail : string) :=
  {| Type_ := TLSProblem; Detail := detail; HTTPStatus := StatusBadRequest |}.

End Probs.

(** ** The error interface *)

Inductive error :=
(* *berrors.BoulderError *)
| BoulderError (Type_ : Z) (Detail : string)
(* *probs.ProblemDetails *)
| ProblemError (pd : Probs.ProblemDetails)
(* core.XxxError: named string types *)
| CoreInternalServerError (s : string)
| CoreNotSupportedError (s : string)
| CoreMalformedRequestError (s : string)
| CoreUnauthorizedError (s : string)
| CoreNotFoundError (s : string)
| CoreLengthRequiredError (s : string)
| CoreSignatureValidationError (s : string)
| CoreNoSuchRegistrationError (s : string)
| CoreRateLimitedError (s : string)
| CoreTooManyRPCRequestsError (s : string)
| CoreBadNonceError (s : string)
(* errors.New, fmt.Errorf and errors of the standard library *)
| PlainError (s : string)
(* sql.ErrNoRows *)
| ErrNoRows
(* *sa.RollbackError, sa.ErrNoReceipt, sa.TooManyCertificatesError *)
| RollbackError (err : error) (rollbackErr : option error)
| ErrNoReceipt (s : string)
| TooManyCertificatesError (s : string)
(* gRPC's rpcError *)
| RpcError (code : Z) (desc : string)
(* *bdns.DNSError *)
| DNSError (timeout : bool) (s : string).

(** The panic of reading through a nil pointer. *)
Definition nil_dereference : error :=
  PlainError "runtime error: invalid memory address or nil pointer dereference".

(** google.golang.org/grpc/codes: [Code.String]. *)
Definition code_names : list string :=
  ["OK"; "Canceled"; "Unknown"; "InvalidArgument"; "DeadlineExceeded"; "NotFound"; "AlreadyExists";
   "PermissionDenied"; "ResourceExhausted"; "FailedPrecondition"; "Aborted"; "OutOfRange";
   "Unimplemented"; "Internal"; "Unavailable"; "DataLoss"; "Unauthenticated"].
Definition code_string (code : Z) : string :=
  match code_names !! Z.to_nat code with
  | Some n => n
  | None => "Code(" ++s itoa code ++s ")"
  end.

(** [err.Error()]. *)
Fixpoint Error (e : error) : string :=
  match e with
  | BoulderError _ d => d
  | ProblemError pd => Probs.Error pd
  | CoreInternalServerError s | CoreNotSupportedError s | CoreMalformedRequestError s
  | CoreUnauthorizedError s | CoreNotFoundError s | CoreLengthRequiredError s
  | CoreSignatureValidationError s | CoreNoSuchRegistrationError s | CoreRateLimitedError s
  | CoreTooManyRPCRequestsError s | CoreBadNonceError s
  | PlainError s | ErrNoReceipt s | TooManyCertificatesError s | DNSError _ s => s
  | ErrNoRows => "sql: no rows in result set"
  | RollbackError err None => Error err
  | RollbackError err (Some rb) => Error err ++s " (also, while rolling back: " ++s Error rb ++s ")"
  | RpcError code desc => "rpc error: code = " ++s code_string code ++s " desc = " ++s desc
  end.

(** ** errors/errors.go *)

Module Berrors.

Notation InternalServer := 0 (only parsing).
Notation NotSupported := 1 (only parsing).
Notation Malformed := 2 (only parsing).
Notation Unauthorized := 3 (only parsing).
Notation NotFound := 4 (only parsing).
Notation SignatureValidation := 5 (only parsing).
Notation RateLimit := 6 (only parsing).
Notation TooManyRequests := 7 (only parsing).
Notation RejectedIdentifier := 8 (only parsing).
Notation UnsupportedIdentifier := 9 (only parsing).
Notation InvalidEmail := 10 (only parsing).
Notation ConnectionFailure := 11 (only parsing).

Definition Is (err : error) (errType : Z) : bool :=
  match err with
  | BoulderError t _ => t =? errType
  | _ => false
  end.

Section berrors.
Context {GL : GoLib}.

(** [New] called with a message and no arguments: the message is a format. *)
Definition New (errType : Z) (msg : string) : error := BoulderError errType (Sprintf0 msg).

Definition InternalServerError (msg : string) : error := New InternalServer msg.
Definition NotSupportedError (msg : string) : error := New NotSupported msg.
Definition MalformedError (msg : string) : error := New Malformed msg.
Definition UnauthorizedError (msg : string) : error := New Unauthorized msg.
Definition NotFoundError (msg : string) : error := New NotFound msg.
Definition SignatureValidationError (msg : string) : error := New SignatureValidation msg.
Definition RateLimitError (msg : string) : error := New RateLimit msg.
Definition TooManyRequestsError (msg : string) : error := New TooManyRequests msg.
Definition RejectedIdentifierError (msg : string) : error := New RejectedIdentifier msg.
Definition UnsupportedIdentifierError (msg : string) : error := New UnsupportedIdentifier msg.
Definition InvalidEmailError (msg : string) : error := New InvalidEmail msg.
Definition ConnectionFailureError (msg : string) : error := New ConnectionFailure msg.

End berrors.

End Berrors.

(** ** wfe/probs.go *)

Module WfeProbs.

Definition with_msg (msg : string) (err : error) : string := msg ++s " :: " ++s Error err.

Definition problemDetailsForBoulderError (t : Z) (err : error) (msg : string) : Probs.ProblemDetails :=
  if t =? Berrors.NotSupported then
    {| Probs.Type_ := Probs.ServerInternalProblem; Probs.Detail := with_msg msg err;
       Probs.HTTPStatus := Probs.StatusNotImplemented |}
  else if (t =? Berrors.Malformed) || (t =? Berrors.SignatureValidation) then
    Probs.Malformed (with_msg msg err)
  else if t =? Berrors.Unauthorized then Probs.Unauthorized (with_msg msg err)
  else if t =? Berrors.NotFound then Probs.NotFound (with_msg msg err)
  else if t =? Berrors.RateLimit then Probs.RateLimited (with_msg msg err)
  else if (t =? Berrors.InternalServer) || (t =? Berrors.TooManyRequests) then Probs.ServerInternal msg
  else if t =? Berrors.RejectedIdentifier then Probs.RejectedIdentifier msg
  else if t =? Berrors.UnsupportedIdentifier then Probs.UnsupportedIdentifier msg
  else if t =? Berrors.InvalidEmail then Probs.InvalidEmail msg
  else Probs.ServerInternal msg.

Definition problemDetailsForError (err : error) (msg : string) : Probs.ProblemDetails :=
  match err with
  | ProblemError e => e
  | BoulderError t _ => problemDetailsForBoulderError t err msg
  | CoreMalformedRequestError _ => Probs.Malformed (with_msg msg err)
  | CoreNotSupportedError _ =>
      {| Probs.Type_ := Probs.ServerInternalProblem; Probs.Detail := with_msg msg err;
         Probs.HTTPStatus := Probs.StatusNotImplemented |}
  | CoreUnauthorizedError _ => Probs.Unauthorized (with_msg msg err)
  | CoreNotFoundError _ => Probs.NotFound (with_msg msg err)
  | CoreLengthRequiredError _ =>
      let prob := Probs.Malformed "missing Content-Length header" in
      {| Probs.Type_ := Probs.Type_ prob; Probs.Detail := Probs.Detail prob;
         Probs.HTTPStatus := Probs.StatusLengthRequired |}
  | CoreSignatureValidationError _ => Probs.Malformed (with_msg msg err)
  | CoreRateLimitedError _ => Probs.RateLimited (with_msg msg err)
  | CoreBadNonceError _ => Probs.BadNonce (with_msg msg err)
  | _ => Probs.ServerInternal msg
  end.

(** The errors whose text must stay inside the server. *)
Definition internal_error (err : error) : bool :=
  match err with
  | ProblemError _ | CoreMalformedRequestError _ | CoreNotSupportedError _ | CoreUnauthorizedError _
  | CoreNotFoundError _ | CoreLengthRequiredError _ | CoreSignatureValidationError _
  | CoreRateLimitedError _ | CoreBadNonceError _ => false
  | BoulderError t _ =>
      negb (bool_decide (t ∈ [Berrors.NotSupported; Berrors.Malformed; Berrors.SignatureValidation;
        Berrors.Unauthorized; Berrors.NotFound; Berrors.RateLimit; Berrors.RejectedIdentifier;
        Berrors.UnsupportedIdentifier; Berrors.InvalidEmail]))
  | _ => true
  end.

(** An error that is not part of the client-facing vocabulary (an internal
    server error, an overload, a database or transport error, an unknown error
    type) becomes the 500 document that carries only the caller's own message:
    nothing of the error's text reaches the client. *)
Theorem internal_errors_do_not_leak (err : error) (msg : string) :
  internal_error err = true -> problemDetailsForError err msg = Probs.ServerInternal msg.
Proof.
  destruct err; simpl; try done. unfold problemDetailsForBoulderError.
  rewrite negb_true_iff, bool_decide_eq_false.
  rewrite !elem_of_cons, elem_of_nil. intros H.
  by repeat match goal with |- context [Type_ =? ?b] => destruct (Z.eqb_spec Type_ b); try tauto end.
Qed.

Lemma internal_errors_do_not_leak_witness :
  problemDetailsForError (BoulderError Berrors.InternalServer "db password") "Failed"
  = Probs.ServerInternal "Failed".
Proof. apply internal_errors_do_not_leak. reflexivity. Defined.

Ltac status_cases :=
  match goal with |- context [Probs.ProblemDetailsToStatusCode ?p] =>
    let v := eval vm_compute in (Probs.ProblemDetailsToStatusCode p) in
    change (Probs.ProblemDetailsToStatusCode p) with v
  end;
  split; [lia|]; split;
  [intros ?; first [exfalso; lia | eauto 10]
  |first [intros _; lia | intros [?|[[? ?]|[? ?]]]; discriminate]].

(** Every error the front end turns into a problem document, other than a
    document handed through unchanged, is sent with an HTTP status between 400
    and 501, and the status is 5xx exactly for server-side conditions. *)
Theorem problem_status_is_an_error_status (err : error) (msg : string) :
  (forall pd, err <> ProblemError pd) ->
  let code := Probs.ProblemDetailsToStatusCode (problemDetailsForError err msg) in
  400 <= code <= 501 /\
  (500 <= code <-> internal_error err = true \/
     (exists d, err = BoulderError Berrors.NotSupported d) \/
     (exists s, err = CoreNotSupportedError s)).
Proof.
  intros Hpd. cbv zeta. destruct err; try solve [status_cases]; [|by destruct (Hpd pd)].
  unfold problemDetailsForError, problemDetailsForBoulderError, internal_error.
  destruct (bool_decide (Type_ ∈ _)) eqn:Hin; simpl negb.
  - apply bool_decide_eq_true_1 in Hin. rewrite !elem_of_cons, elem_of_nil in Hin.
    destruct_or?; try done; subst Type_; status_cases.
  - apply bool_decide_eq_false_1 in Hin. rewrite !elem_of_cons, elem_of_nil in Hin.
    repeat match goal with |- context [Type_ =? ?b] => destruct (Z.eqb_spec Type_ b); try tauto end.
    all: status_cases.
Qed.

Lemma problem_status_is_an_error_status_witness :
  400 <= Probs.ProblemDetailsToStatusCode (problemDetailsForError ErrNoRows "m") <= 501.
Proof. apply (problem_status_is_an_error_status ErrNoRows "m"). discriminate. Defined.

End WfeProbs.

(** ** grpc/bcodes.go *)

Module Bcodes.

Notation MalformedRequestError := 100 (only parsing).
Notation NotSupportedError := 101 (only parsing).
Notation UnauthorizedError := 102 (only parsing).
Notation NotFoundError := 103 (only parsing).
Notation LengthRequiredError := 104 (only parsing).
Notation SignatureValidationError := 105 (only parsing).
Notation RateLimitedError := 106 (only parsing).
Notation BadNonceError := 107 (only parsing).
Notation NoSuchRegistrationError := 108 (only parsing).
Notation InternalServerError := 109 (only parsing).
Notation ProblemDetails := 110 (only parsing).
(** google.golang.org/grpc/codes *)
Definition codes_Unknown : Z := 2.

(** [encoding/json] on [probs.ProblemDetails]. *)
Class PdJSON := {
  marshal_pd : Probs.ProblemDetails -> option string;
  unmarshal_pd : string -> option Probs.ProblemDetails
}.

Definition errorToCode (err : error) : Z :=
  match err with
  | CoreMalformedRequestError _ => MalformedRequestError
  | CoreNotSupportedError _ => NotSupportedError
  | CoreUnauthorizedError _ => UnauthorizedError
  | CoreNotFoundError _ => NotFoundError
  | CoreLengthRequiredError _ => LengthRequiredError
  | CoreSignatureValidationError _ => SignatureValidationError
  | CoreRateLimitedError _ => RateLimitedError
  | CoreBadNonceError _ => BadNonceError
  | CoreNoSuchRegistrationError _ => NoSuchRegistrationError
  | CoreInternalServerError _ => InternalServerError
  | ProblemError _ => ProblemDetails
  | _ => codes_Unknown
  end.

(** [grpc.Errorf], [grpc.Code] and [grpc.ErrorDesc]; the code is never OK here. *)
Definition grpc_Code (err : error) : Z :=
  match err with RpcError c _ => c | _ => codes_Unknown end.
Definition grpc_ErrorDesc (err : error) : string :=
  match err with RpcError _ d => d | _ => Error err end.

Section bcodes.
Context {GL : GoLib} {J : PdJSON}.

Definition grpc_Errorf (code : Z) (format : string) : error := RpcError code (Sprintf0 format).

(** [wrapError]: the error to return and the value put in the "errortype"
    trailer, if any.  [trailerSet] says whether [grpc.SetTrailer] succeeded. *)
Definition wrapError (trailerSet : bool) (err : error) : error * option string :=
  match err with
  | BoulderError t _ =>
      (grpc_Errorf codes_Unknown (Error err), if trailerSet then Some (itoa t) else None)
  | _ =>
      let code := errorToCode err in
      match err with
      | ProblemError pd =>
          match marshal_pd pd with
          | None => (err, None)
          | Some body => (grpc_Errorf code body, None)
          end
      | _ => (grpc_Errorf code (Error err), None)
      end
  end.

(** [unwrapError]; [md] is the list of "errortype" values in the trailer. *)
Definition unwrapError (err : error) (md : option (list string)) : error :=
  match md with
  | Some errTypeStrs =>
      let unwrappedErr := grpc_ErrorDesc err in
      match errTypeStrs with
      | [errTypeStr] =>
          match Atoi errTypeStr with
          | None => BoulderError Berrors.InternalServer
              ("failed to decode error type, decoding error " ++s Quote (atoi_error errTypeStr)
               ++s ", wrapped error " ++s Quote unwrappedErr)
          | Some errType => Berrors.New errType unwrappedErr
          end
      | _ => BoulderError Berrors.InternalServer
               ("multiple errorType metadata, wrapped error " ++s Quote unwrappedErr)
      end
  | None =>
      let code := grpc_Code err in
      let errBody := grpc_ErrorDesc err in
      if code =? InternalServerError then CoreInternalServerError errBody
      else if code =? NotSupportedError then CoreNotSupportedError errBody
      else if code =? MalformedRequestError then CoreMalformedRequestError errBody
      else if code =? UnauthorizedError then CoreUnauthorizedError errBody
      else if code =? NotFoundError then CoreNotFoundError errBody
      else if code =? SignatureValidationError then CoreSignatureValidationError errBody
      else if code =? NoSuchRegistrationError then CoreNoSuchRegistrationError errBody
      else if code =? RateLimitedError then CoreRateLimitedError errBody
      else if code =? LengthRequiredError then CoreLengthRequiredError errBody
      else if code =? BadNonceError then CoreBadNonceError errBody
      else if code =? ProblemDetails then
        match unmarshal_pd errBody with
        | None => err
        | Some pd => ProblemError pd
        end
      else err
  end.

(** One RPC: the server wraps, the client unwraps what the wire carried. *)
Definition over_the_wire (err : error) : error :=
  let '(e, md) := wrapError true err in unwrapError e (option_map (fun v => [v]) md).

(** The errors the protocol is meant to carry faithfully. *)
Definition transportable (err : error) : Prop :=
  match err with
  | BoulderError t d => int64_ok t /\ has_char "%" d = false
  | ProblemError pd => exists body, marshal_pd pd = Some body /\ unmarshal_pd body = Some pd /\
      has_char "%" body = false
  | CoreInternalServerError s | CoreNotSupportedError s | CoreMalformedRequestError s
  | CoreUnauthorizedError s | CoreNotFoundError s | CoreLengthRequiredError s
  | CoreSignatureValidationError s | CoreNoSuchRegistrationError s | CoreRateLimitedError s
  | CoreBadNonceError s => has_char "%" s = false
  | _ => False
  end.

End bcodes.

Section proofs.
Context {GL : GoLib} {J : PdJSON}.

(** An error of the RPC vocabulary arrives on the client side as the same
    value: a BoulderError keeps its type and detail, a legacy core error its
    type and text, a problem document all its fields. *)
Theorem errors_survive_rpc (err : error) : transportable err -> over_the_wire err = err.
Proof.
  unfold over_the_wire. destruct err; simpl; try done;
    try (intros H; unfold grpc_Errorf; simpl; rewrite ?Sprintf0_id by done; reflexivity).
  - intros [Ht Hd]. rewrite Atoi_itoa by done. unfold Berrors.New. by rewrite !Sprintf0_id by (rewrite ?Sprintf0_id; done).
  - intros (body & Hm & Hu & Hp). rewrite Hm. simpl. by rewrite Sprintf0_id, Hu by done.
Qed.

(** The detail of an error is used as a format string twice on its way
    across an RPC, so a detail holding percent signs does not arrive intact. *)
Theorem percent_signs_are_lost_over_rpc :
  over_the_wire (BoulderError Berrors.Malformed "100%%%% sure")
  = BoulderError Berrors.Malformed "100% sure".
Proof. reflexivity. Qed.

End proofs.

(** ** Witness: a library instance and a two-document JSON codec *)

Definition toy_golib : GoLib := {|
  lower_non_ascii := fun s => s; fmt_directive := fun s => s;
  quote_non_ascii := fun s => s |}.
Definition toy_pdjson : PdJSON := {|
  marshal_pd := fun pd => Some (Probs.Detail pd);
  unmarshal_pd := fun s => Some (Probs.Malformed s) |}.

Lemma errors_survive_rpc_witness :
  @over_the_wire toy_golib toy_pdjson (BoulderError 6 "too many certificates")
    = BoulderError 6 "too many certificates" /\
  @over_the_wire toy_golib toy_pdjson (ProblemError (Probs.Malformed "bad"))
    = ProblemError (Probs.Malformed "bad").
Proof.
  split; apply (@errors_survive_rpc toy_golib toy_pdjson).
  - split; [unfold int64_ok; lia|reflexivity].
  - exists "bad". split_and!; reflexivity.
Defined.

End Bcodes.
