(* ===== verification/Bdns.v ===== *)
(** * bdns/: the DNS client

    bdns/dns.go and bdns/problem.go: one exchange with its retries, the lookups, the
    filter that keeps validations away from private and reserved addresses, and the
    error type.  The network is a parameter: what each attempt of each exchange
    yields ([Exchanger]).  Lookups that run in parallel ask different questions, so
    their answers do not depend on the interleaving. *)

From S2P Require Import Prelude GoStd Net Errors.

(** ** Messages of github.com/miekg/dns, as far as they are read *)

Record CAA := {
  caa_Name : string;
  caa_Ttl : Z;
  caa_Flag : Z;
  caa_Tag : string;
  caa_Value : string
}.
#[global] Instance CAA_eq_dec : EqDecision CAA.
Proof. solve_decision. Defined.

(** The dynamic type of a record and its data. *)
Inductive RRData :=
| RR_A (a : string)
| RR_AAAA (aaaa : string)
| RR_TXT (txt : list string)
| RR_CAA (caa : CAA)
| RR_MX (mx : string)
| RR_Other.

(** A record: the type its header claims, its data, and [rr.String()]. *)
Record RR := { Rrtype : Z; rr_data : RRData; rr_text : string }.

Record Msg := { Rcode : Z; Answer : list RR; Ns : list RR }.

(** Errors of an exchange: [*net.OpError], the two errors of a context, others. *)
Inductive netError :=
| OpError (temporary timeout : bool) (text : string)
| Canceled
| DeadlineExceeded
| OtherError (text : string).

(** What the [select] of one attempt receives. *)
Inductive attempt :=
| CtxDone (err : netError)
| Received (r : result netError Msg).

(** The network and the library's tables.  An attempt is identified by the call it
    belongs to, the question, the server and its number. *)
Class Exchanger := {
  Exchange : nat -> Z -> string -> string -> nat -> attempt;
  rand_server : nat -> Z -> string -> Z;
  RcodeToString : Z -> string;
  TypeToString : Z -> string
}.

Module Bdns.

Definition TypeA : Z := 1.
Definition TypeMX : Z := 15.
Definition TypeTXT : Z := 16.
Definition TypeAAAA : Z := 28.
Definition TypeCAA : Z := 257.
Definition RcodeSuccess : Z := 0.
Definition RcodeServerFailure : Z := 2.

Definition Fqdn (s : string) : string := if ends_with "." s then s else s ++s ".".

(** ** Private networks *)

Definition v4net (ip mask : list Z) : Net.IPNet :=
  {| Net.IP := Net.bytes_of ip; Net.IPMask := mask |}.

Definition privateNetworks : list Net.IPNet := [
  (* RFC1918 *)
  v4net [10; 0; 0; 0] [255; 0; 0; 0];
  v4net [172; 16; 0; 0] [255; 240; 0; 0];
  v4net [192; 168; 0; 0] [255; 255; 0; 0];
  (* RFC5735 *)
  v4net [127; 0; 0; 0] [255; 0; 0; 0];
  (* RFC1122 Section 3.2.1.3 *)
  v4net [0; 0; 0; 0] [255; 0; 0; 0];
  (* RFC3927 *)
  v4net [169; 254; 0; 0] [255; 255; 0; 0];
  (* RFC 5736 *)
  v4net [192; 0; 0; 0] [255; 255; 255; 0];
  (* RFC 5737 *)
  v4net [192; 0; 2; 0] [255; 255; 255; 0];
  v4net [192; 51; 100; 0] [255; 255; 255; 0];
  v4net [203; 0; 113; 0] [255; 255; 255; 0];
  (* RFC 3068 *)
  v4net [192; 88; 99; 0] [255; 255; 255; 0];
  (* RFC 2544 *)
  v4net [192; 18; 0; 0] [255; 254; 0; 0];
  (* RFC 3171 *)
  v4net [224; 0; 0; 0] [240; 0; 0; 0];
  (* RFC 1112 *)
  v4net [240; 0; 0; 0] [240; 0; 0; 0];
  (* RFC 919 Section 7 *)
  v4net [255; 255; 255; 255] [255; 255; 255; 255];
  (* RFC 6598 *)
  v4net [100; 64; 0; 0] [255; 192; 0; 0] ].

(** [parseCidr] panics on a text it cannot parse; here that is the network of
    nothing, and [privateV6Networks_parse] shows it does not occur. *)
Definition parseCidr (network comment : string) : Net.IPNet :=
  default {| Net.IP := EmptyString; Net.IPMask := [] |} (Net.ParseCIDR network).

Definition v6_texts : list (string * string) := [
  ("::/128", "RFC 4291: Unspecified Address");
  ("::1/128", "RFC 4291: Loopback Address");
  ("::ffff:0:0/96", "RFC 4291: IPv4-mapped Address");
  ("100::/64", "RFC 6666: Discard Address Block");
  ("2001::/23", "RFC 2928: IETF Protocol Assignments");
  ("2001:2::/48", "RFC 5180: Benchmarking");
  ("2001:db8::/32", "RFC 3849: Documentation");
  ("2001::/32", "RFC 4380: TEREDO");
  ("fc00::/7", "RFC 4193: Unique-Local");
  ("fe80::/10", "RFC 4291: Section 2.5.6 Link-Scoped Unicast");
  ("ff00::/8", "RFC 4291: Section 2.7");
  ("2002::/16", "RFC 7526: 6to4 anycast prefix deprecated") ].
Definition privateV6Networks : list Net.IPNet := map (fun e => parseCidr (fst e) (snd e)) v6_texts.

Definition isPrivateV4 (ip : string) : bool := existsb (fun net => Net.Contains net ip) privateNetworks.
Definition isPrivateV6 (ip : string) : bool := existsb (fun net => Net.Contains net ip) privateV6Networks.

(** ** The resolver *)

Record DNSResolverImpl := {
  servers : list string;
  allowRestrictedAddresses : bool;
  caaSERVFAILExceptions : option (gmap string bool);
  maxTries : Z
}.

Definition NewDNSResolverImpl (servers : list string) (exceptions : option (gmap string bool)) (maxTries : Z) :=
  {| servers := servers; allowRestrictedAddresses := false; caaSERVFAILExceptions := exceptions;
     maxTries := maxTries |}.
Definition NewTestDNSResolverImpl (servers : list string) (maxTries : Z) :=
  let resolver := NewDNSResolverImpl servers None maxTries in
  {| servers := Bdns.servers resolver; allowRestrictedAddresses := true;
     caaSERVFAILExceptions := caaSERVFAILExceptions resolver; maxTries := Bdns.maxTries resolver |}.

(** ** bdns/problem.go *)

Record DNSErrorInfo := {
  recordType : Z;
  hostname : string;
  underlying : option netError;
  rCode : Z
}.

Notation detailDNSTimeout := "query timed out" (only parsing).
Notation detailDNSNetFailure := "networking error" (only parsing).
Notation detailServerFailure := "server failure at resolver" (only parsing).

Section bdns.
Context {EX : Exchanger}.

Definition dns_Error (d : DNSErrorInfo) : string :=
  let detail :=
    match underlying d with
    | Some (OpError _ timeout _) => if timeout then detailDNSTimeout else detailDNSNetFailure
    | Some (Canceled | DeadlineExceeded) => detailDNSTimeout
    | Some _ => detailServerFailure
    | None => if negb (rCode d =? RcodeSuccess) then RcodeToString (rCode d) else detailServerFailure
    end in
  "DNS problem: " ++s detail ++s " looking up " ++s TypeToString (recordType d) ++s " for " ++s hostname d.

Definition Timeout (d : DNSErrorInfo) : bool :=
  match underlying d with
  | Some (OpError _ timeout _) => timeout
  | Some (Canceled | DeadlineExceeded) => true
  | _ => false
  end.

(** The error value the lookups return. *)
Definition dns_error (qtype : Z) (host : string) (err : option netError) (code : Z) : error :=
  let d := {| recordType := qtype; hostname := host; underlying := err; rCode := code |} in
  DNSError (Timeout d) (dns_Error d).

(** ** Exchanges *)

(** The loop of [exchangeOne]; [left] is [maxTries - tries], the retries that remain. *)
Fixpoint exchange_loop (ask : nat -> attempt) (tries left : nat) : result netError Msg :=
  match ask tries with
  | CtxDone err => Err err
  | Received (Err err) =>
      let isRetryable := match err with OpError temporary _ _ => temporary | _ => false end in
      match left with
      | S left' => if isRetryable then exchange_loop ask (S tries) left' else Err err
      | O => Err err
      end
  | Received (Ok m) => Ok m
  end.

Definition exchangeOne (r : DNSResolverImpl) (call : nat) (hostname : string) (qtype : Z)
    : result netError Msg :=
  match servers r with
  | [] => Err (OtherError "Not configured with at least one DNS Server")
  | s0 :: _ =>
      let chosen := rand_server call qtype hostname mod Z.of_nat (length (servers r)) in
      let chosenServer := default s0 (servers r !! Z.to_nat chosen) in
      exchange_loop (Exchange call qtype (Fqdn hostname) chosenServer) 1 (Z.to_nat (maxTries r - 1))
  end.

(** The records of a successful answer. *)
Definition lookup_records (r : DNSResolverImpl) (call : nat) (hostname : string) (qtype : Z) : result error Msg :=
  match exchangeOne r call hostname qtype with
  | Err err => Err (dns_error qtype hostname (Some err) (-1))
  | Ok m => if negb (Rcode m =? RcodeSuccess) then Err (dns_error qtype hostname None (Rcode m)) else Ok m
  end.

Definition LookupTXT (r : DNSResolverImpl) (call : nat) (hostname : string)
    : result error (list string * list string) :=
  let? m := lookup_records r call hostname TypeTXT in
  let txt := omap (fun a => if Rrtype a =? TypeTXT then
                              match rr_data a with RR_TXT t => Some (join EmptyString t) | _ => None end
                            else None) (Answer m) in
  Ok (txt, map rr_text (Ns m)).

Definition lookupIP (r : DNSResolverImpl) (call : nat) (hostname : string) (ipType : Z)
    : result error (list RR) :=
  let? m := lookup_records r call hostname ipType in Ok (Answer m).

Definition usable_A (r : DNSResolverImpl) (answer : RR) : option string :=
  if Rrtype answer =? TypeA then
    match rr_data answer with
    | RR_A a => if negb (bool_decide (Net.To4 a = None)) && (negb (isPrivateV4 a) || allowRestrictedAddresses r)
                then Some a else None
    | _ => None
    end
  else None.
Definition usable_AAAA (r : DNSResolverImpl) (answer : RR) : option string :=
  if Rrtype answer =? TypeAAAA then
    match rr_data answer with
    | RR_AAAA aaaa => if negb (String.eqb (Net.To16 aaaa) EmptyString)
                         && (negb (isPrivateV6 aaaa) || allowRestrictedAddresses r)
                      then Some aaaa else None
    | _ => None
    end
  else None.

Definition LookupHost (r : DNSResolverImpl) (call : nat) (hostname : string) : result error (list string) :=
  let resA := lookupIP r call hostname TypeA in
  let resAAAA := lookupIP r call hostname TypeAAAA in
  match resA, resAAAA with
  | Err errA, Err _ => Err errA
  | _, _ =>
      let recordsA := match resA with Ok l => l | Err _ => [] end in
      let recordsAAAA := match resAAAA with Ok l => l | Err _ => [] end in
      Ok (omap (usable_A r) recordsA ++ omap (usable_AAAA r) recordsAAAA)
  end.

Definition LookupCAA (r : DNSResolverImpl) (call : nat) (hostname : string) : result error (list CAA) :=
  match exchangeOne r call hostname TypeCAA with
  | Err err => Err (dns_error TypeCAA hostname (Some err) (-1))
  | Ok m =>
      if Rcode m =? RcodeServerFailure then
        match caaSERVFAILExceptions r with
        | None => Ok []
        | Some exc => if default false (exc !! hostname) then Ok []
                      else Err (dns_error TypeCAA hostname None (Rcode m))
        end
      else Ok (omap (fun a => if Rrtype a =? TypeCAA then
                                match rr_data a with RR_CAA c => Some c | _ => None end
                              else None) (Answer m))
  end.

Definition LookupMX (r : DNSResolverImpl) (call : nat) (hostname : string) : result error (list string) :=
  let? m := lookup_records r call hostname TypeMX in
  Ok (omap (fun a => match rr_data a with RR_MX mx => Some mx | _ => None end) (Answer m)).

(** [ReadHostList] on the outcome of reading the file. *)
Definition ReadHostList (filename : string) (body : result error string)
    : result error (option (gmap string bool)) :=
  if String.eqb filename EmptyString then Ok None
  else let? body := body in
       Ok (Some (fold_left (fun output v => if 0 <? len v then <[v := true]> output else output)
                           (split_on "010" body) ∅)).

End bdns.

(** ** Retries *)

Definition temporary (a : attempt) : bool :=
  match a with Received (Err (OpError true _ _)) => true | _ => false end.
Definition outcome (a : attempt) : result netError Msg :=
  match a with CtxDone err => Err err | Received r => r end.

Lemma exchange_loop_spec ask tries left : exists k,
  (tries <= k <= tries + left)%nat /\
  exchange_loop ask tries left = outcome (ask k) /\
  (forall j, (tries <= j < k)%nat -> temporary (ask j) = true) /\
  (temporary (ask k) = true -> k = (tries + left)%nat).
Proof.
  revert tries. induction left as [|left IH]; intros tries; cbn [exchange_loop].
  - exists tries. split; [lia|]. split; [by destruct (ask tries) as [|[]]|]. split; lia.
  - destruct (temporary (ask tries)) eqn:Et.
    + destruct (IH (S tries)) as (k & Hk & E & Hj & Hl). exists k. split; [lia|].
      split; [destruct (ask tries) as [|[|[[] ? ?| | |]]]; done|]. split.
      * intros j Hjk. destruct (decide (j = tries)) as [->|]; [done|]. apply Hj. lia.
      * intros. rewrite Hl by done. lia.
    + exists tries. split; [lia|]. split; [destruct (ask tries) as [|[|[[] ? ?| | |]]]; done|].
      split; [lia|]. by rewrite Et.
Qed.

Section exchange_facts.
Context {EX : Exchanger}.

(** One exchange makes at least one and at most [maxTries] attempts, all with the
    same configured server; it goes on only after a temporary network error, ends with
    the outcome of the last attempt, and reports a temporary error only when the
    attempts are used up. *)
Theorem exchangeOne_attempts (r : DNSResolverImpl) (call : nat) (host : string) (qtype : Z) :
  servers r <> [] ->
  exists server k, server ∈ servers r /\ 1 <= Z.of_nat k <= Z.max 1 (maxTries r) /\
    let ask := Exchange call qtype (Fqdn host) server in
    exchangeOne r call host qtype = outcome (ask k) /\
    (forall j, (1 <= j < k)%nat -> temporary (ask j) = true) /\
    (temporary (ask k) = true -> Z.of_nat k = Z.max 1 (maxTries r)).
Proof.
  intros Hs. unfold exchangeOne. destruct (servers r) as [|s0 ss] eqn:Es; [done|].
  set (i := Z.to_nat _). assert (i < length (s0 :: ss))%nat as Hi.
  { subst i. pose proof (Z.mod_pos_bound (rand_server call qtype host) (Z.of_nat (length (s0 :: ss)))) as Hm.
    simpl length in *. lia. }
  apply lookup_lt_is_Some in Hi as [s Hi]. rewrite Hi. cbn [default].
  destruct (exchange_loop_spec (Exchange call qtype (Fqdn host) s) 1 (Z.to_nat (maxTries r - 1)))
    as (k & Hk & E & Hj & Hl).
  exists s, k. split; [by eapply list_elem_of_lookup_2|]. split; [lia|]. split; [exact E|].
  split; [exact Hj|]. intros Ht. specialize (Hl Ht). lia.
Qed.

End exchange_facts.

(** ** Private addresses *)

(** The networks of the table as ranges of 32-bit numbers: first address and prefix
    length. *)
Definition quad (a b c d : Z) : Z := ((a * 256 + b) * 256 + c) * 256 + d.
Definition v4_ranges : list (Z * Z) := [
  (quad 10 0 0 0, 8); (quad 172 16 0 0, 12); (quad 192 168 0 0, 16); (quad 127 0 0 0, 8);
  (quad 0 0 0 0, 8); (quad 169 254 0 0, 16); (quad 192 0 0 0, 24); (quad 192 0 2 0, 24);
  (quad 192 51 100 0, 24); (quad 203 0 113 0, 24); (quad 192 88 99 0, 24); (quad 192 18 0 0, 15);
  (quad 224 0 0 0, 4); (quad 240 0 0 0, 4); (quad 255 255 255 255, 32); (quad 100 64 0 0, 10) ].
Definition v6_ranges : list (Z * Z) := [
  (0, 128); (1, 128); (256 * 2 ^ 112, 64); (8193 * 2 ^ 112, 23); (8193 * 2 ^ 112 + 2 * 2 ^ 96, 48);
  (8193 * 2 ^ 112 + 3512 * 2 ^ 96, 32); (8193 * 2 ^ 112, 32); (64512 * 2 ^ 112, 7);
  (65152 * 2 ^ 112, 10); (65280 * 2 ^ 112, 8); (8194 * 2 ^ 112, 16) ].

Definition in_ranges (bits : Z) (ranges : list (Z * Z)) (v : Z) : Prop :=
  exists lo ones, (lo, ones) ∈ ranges /\ lo <= v < lo + 2 ^ (bits - ones).

(** [net] is the network of the range [(lo, ones)] of [n]-byte addresses. *)
Definition is_net (n : nat) (net : Net.IPNet) (range : Z * Z) : Prop :=
  len (Net.IP net) = Z.of_nat n /\ Net.IPMask net = Net.CIDRMask n (snd range) /\
  be_value (Net.IP net) = fst range /\ 0 <= snd range <= 8 * Z.of_nat n /\
  fst range mod 2 ^ (8 * Z.of_nat n - snd range) = 0.

Lemma prefix_range n ones ip nn : 0 <= ones <= 8 * Z.of_nat n ->
  be_value nn mod 2 ^ (8 * Z.of_nat n - ones) = 0 ->
  Net.prefix n ones ip = Net.prefix n ones nn <->
  be_value nn <= be_value ip < be_value nn + 2 ^ (8 * Z.of_nat n - ones).
Proof.
  intros Ho Hm. unfold Net.prefix. set (k := 8 * Z.of_nat n - ones) in *.
  assert (0 < 2 ^ k) by (apply Z.pow_pos_nonneg; lia).
  pose proof (Z.div_mod (be_value nn) (2 ^ k) ltac:(lia)). pose proof (Z.div_mod (be_value ip) (2 ^ k) ltac:(lia)).
  pose proof (Z.mod_pos_bound (be_value ip) (2 ^ k) ltac:(lia)). nia.
Qed.

Lemma existsb_ranges {A B} (p : A -> bool) (nets : list A) (ranges : list B) (Q : B -> Prop) :
  Forall2 (fun net r => p net = true <-> Q r) nets ranges ->
  existsb p nets = true <-> exists r, r ∈ ranges /\ Q r.
Proof.
  induction 1 as [|net r nets ranges H _ IH]; cbn [existsb].
  - split; [done|]. intros (? & H & _). by apply elem_of_nil in H.
  - rewrite orb_true_iff, H, IH. split.
    + intros [Hq|(r' & Hr & Hq)]; eexists; (split; [|exact Hq]); [left|by right].
    + intros (r' & Hr & Hq). apply elem_of_cons in Hr as [->|Hr]; eauto.
Qed.

Lemma v4_nets : Forall2 (is_net 4) privateNetworks v4_ranges.
Proof. repeat first [apply Forall2_nil_2 | apply Forall2_cons_2; [split_and!; vm_compute; done|]]. Qed.

Lemma is_net_v4 net r ip : is_net 4 net r ->
  Net.Contains net ip = true <->
  exists v4, Net.To4 ip = Some v4 /\ fst r <= be_value v4 < fst r + 2 ^ (32 - snd r).
Proof.
  destruct net as [nn m], r as [lo ones]. intros (Hl & Hm & Hv & Ho & Hz). cbn [Net.IP Net.IPMask fst snd] in *.
  subst m. rewrite Net.Contains_v4 by (done || lia). subst lo.
  by setoid_rewrite (fun v4 => prefix_range 4 ones v4 nn Ho Hz).
Qed.

(** Exactly which IPv4 addresses are private. *)
Theorem isPrivateV4_ranges (ip : string) :
  isPrivateV4 ip = true <-> exists v4, Net.To4 ip = Some v4 /\ in_ranges 32 v4_ranges (be_value v4).
Proof.
  unfold isPrivateV4.
  rewrite (existsb_ranges _ _ v4_ranges (fun r =>
    exists v4, Net.To4 ip = Some v4 /\ fst r <= be_value v4 < fst r + 2 ^ (32 - snd r))).
  - unfold in_ranges. split.
    + intros ([lo ones] & Hr & v4 & E & Hb). exists v4. split; [done|]. by exists lo, ones.
    + intros (v4 & E & lo & ones & Hr & Hb). exists (lo, ones). split; [done|]. by exists v4.
  - eapply Forall2_impl; [exact v4_nets|]. intros net r H. by apply is_net_v4.
Qed.

(** The IPv4-mapped block holds no address other than the IPv4 ones: [None]. *)
Definition v6_table : list (option (Z * Z)) :=
  map Some (take 2 v6_ranges) ++ None :: map Some (drop 2 v6_ranges).

Lemma privateV6Networks_parse :
  Forall2 (fun net r => match r with
                        | Some r => is_net 16 net r /\ Net.To4 (Net.IP net) = None
                        | None => net = {| Net.IP := Net.v4InV6Prefix ++s repeat_char "000" 4;
                                           Net.IPMask := Net.CIDRMask 16 96 |}
                        end) privateV6Networks v6_table.
Proof.
  repeat first [apply Forall2_nil_2 | apply Forall2_cons_2; [first [split_and!; vm_compute; done|vm_compute; done]|]].
Qed.

Lemma is_net_v6 net r ip : is_net 16 net r -> Net.To4 (Net.IP net) = None ->
  Net.Contains net ip = true <->
  len ip = 16 /\ Net.To4 ip = None /\ fst r <= be_value ip < fst r + 2 ^ (128 - snd r).
Proof.
  destruct net as [nn m], r as [lo ones]. intros (Hl & Hm & Hv & Ho & Hz). cbn [Net.IP Net.IPMask fst snd] in *.
  subst m. intros HT. rewrite Net.Contains_v6 by (done || lia). subst lo.
  by rewrite (prefix_range 16 ones ip nn Ho Hz).
Qed.

Lemma mapped_net ip :
  Net.Contains {| Net.IP := Net.v4InV6Prefix ++s repeat_char "000" 4; Net.IPMask := Net.CIDRMask 16 96 |} ip = true
  <-> Net.To4 ip <> None.
Proof.
  unfold Net.Contains.
  change (Net.networkNumberAndMask _) with (Some (repeat_char "000" 4, Net.CIDRMask 4 0)). cbv iota beta.
  destruct (Net.To4 ip) as [v4|] eqn:E; simpl default.
  - pose proof (Net.len_To4 _ _ E) as HL. rewrite HL. simpl negb. cbv iota.
    rewrite (Net.Mask_eq v4 _ 4 0) by (done || lia). split; [done|]. intros _. unfold Net.prefix.
    pose proof (be_value_bound v4) as Hb. rewrite HL in Hb. rewrite Z.div_small by (simpl; lia). done.
  - split; [|done]. unfold Net.To4 in E. destruct (Z.eqb_spec (len ip) 4) as [|HL]; [done|].
    change (len (repeat_char "000" 4)) with 4. destruct (Z.eqb_spec (len ip) 4); done.
Qed.

(** Exactly which addresses of an AAAA record are private: those that are an IPv4
    address, and the listed IPv6 blocks. *)
Theorem isPrivateV6_ranges (ip : string) :
  isPrivateV6 ip = true <->
  Net.To4 ip <> None \/ (len ip = 16 /\ Net.To4 ip = None /\ in_ranges 128 v6_ranges (be_value ip)).
Proof.
  unfold isPrivateV6.
  rewrite (existsb_ranges _ _ v6_table (fun r => match r with
    | Some r => len ip = 16 /\ Net.To4 ip = None /\ fst r <= be_value ip < fst r + 2 ^ (128 - snd r)
    | None => Net.To4 ip <> None end)).
  - unfold in_ranges. split.
    + intros ([[lo ones]|] & Hr & Hb); [right|by left]. destruct Hb as (? & ? & ?). split_and!; [done|done|].
      exists lo, ones. split; [|done]. unfold v6_table in Hr.
      rewrite elem_of_app, elem_of_cons, !list_elem_of_fmap in Hr. rewrite <- (take_drop 2 v6_ranges).
      apply elem_of_app. destruct Hr as [(r & [= <-] & Hr)|[|(r & [= <-] & Hr)]]; [by left|done|by right].
    + intros [H|(HL & HT & lo & ones & Hr & Hb)]; [exists None; split; [|done]; vm_compute; right; right; left|].
      exists (Some (lo, ones)). split; [|done]. unfold v6_table. rewrite <- (take_drop 2 v6_ranges) in Hr.
      rewrite elem_of_app, elem_of_cons, !list_elem_of_fmap. apply elem_of_app in Hr as [Hr|Hr]; eauto.
  - eapply Forall2_impl; [exact privateV6Networks_parse|]. intros net [r|] H.
    + destruct H. by apply is_net_v6.
    + subst net. apply mapped_net.
Qed.

(** An address outside every block of the tables. *)
Definition public_address (ip : string) : Prop :=
  match Net.To4 ip with
  | Some v4 => ~ in_ranges 32 v4_ranges (be_value v4)
  | None => len ip = 16 /\ ~ in_ranges 128 v6_ranges (be_value ip)
  end.

Lemma public_v4 ip : Net.To4 ip <> None -> (isPrivateV4 ip = false <-> public_address ip).
Proof.
  intros H. rewrite <- not_true_iff_false, isPrivateV4_ranges. unfold public_address.
  destruct (Net.To4 ip) as [v4|]; [|done]. naive_solver.
Qed.

Lemma public_v6 ip : Net.To16 ip <> EmptyString ->
  (isPrivateV6 ip = false <-> Net.To4 ip = None /\ public_address ip).
Proof.
  intros H. rewrite <- not_true_iff_false, isPrivateV6_ranges. unfold public_address.
  destruct (Net.To4 ip) as [v4|] eqn:E; [naive_solver|].
  assert (len ip = 16) as HL.
  { unfold Net.To16 in H. unfold Net.To4 in E. destruct (len ip =? 4); [done|].
    destruct (Z.eqb_spec (len ip) 16); done. }
  rewrite HL. naive_solver.
Qed.

Section lookups.
Context {EX : Exchanger} (r : DNSResolverImpl).

(** The answer to a question of type [t] holds a record of that type with [data]. *)
Definition answered (call : nat) (host : string) (t : Z) (data : RRData) : Prop :=
  exists records rr, lookupIP r call host t = Ok records /\ rr ∈ records /\ Rrtype rr = t /\ rr_data rr = data.

Lemma usable_A_spec rr ip : allowRestrictedAddresses r = false ->
  usable_A r rr = Some ip <->
  Rrtype rr = TypeA /\ rr_data rr = RR_A ip /\ Net.To4 ip <> None /\ public_address ip.
Proof.
  intros Hr. unfold usable_A. rewrite Hr. destruct (Z.eqb_spec (Rrtype rr) TypeA); [|naive_solver].
  destruct (rr_data rr) as [a| | | | |]; try (split; [done|by intros (_ & [=] & _)]). rewrite orb_false_r.
  destruct (decide (Net.To4 a = None)) as [E|E].
  - rewrite bool_decide_eq_true_2 by done. naive_solver.
  - rewrite bool_decide_eq_false_2 by done. pose proof (public_v4 a E).
    destruct (isPrivateV4 a); naive_solver.
Qed.

Lemma usable_AAAA_spec rr ip : allowRestrictedAddresses r = false ->
  usable_AAAA r rr = Some ip <->
  Rrtype rr = TypeAAAA /\ rr_data rr = RR_AAAA ip /\ Net.To4 ip = None /\ public_address ip.
Proof.
  intros Hr. unfold usable_AAAA. rewrite Hr. destruct (Z.eqb_spec (Rrtype rr) TypeAAAA); [|naive_solver].
  destruct (rr_data rr) as [|a| | | |]; try (split; [done|by intros (_ & [=] & _)]). rewrite orb_false_r.
  destruct (String.eqb_spec (Net.To16 a) EmptyString) as [E|E].
  - split; [done|]. intros (_ & [= <-] & HT & HP). unfold public_address in HP. rewrite HT in HP.
    unfold Net.To16 in E. destruct HP as [HL _]. rewrite HL in E. simpl in E. by subst a.
  - pose proof (public_v6 a E). destruct (isPrivateV6 a); naive_solver.
Qed.

Lemma elem_of_usable (f : RR -> option string) (res : result error (list RR)) ip :
  ip ∈ omap f (match res with Ok l => l | Err _ => [] end) <->
  exists records rr, res = Ok records /\ rr ∈ records /\ f rr = Some ip.
Proof.
  rewrite list_elem_of_omap. destruct res; [naive_solver|].
  setoid_rewrite elem_of_nil. naive_solver.
Qed.

Lemma LookupHost_members (call : nat) (host : string) :
  allowRestrictedAddresses r = false ->
  match LookupHost r call host with
  | Ok addrs => forall ip, ip ∈ addrs -> public_address ip
  | Err _ => True
  end.
Proof.
  intros Hr. unfold LookupHost. destruct (lookupIP r call host TypeA), (lookupIP r call host TypeAAAA); try done;
    intros ip; rewrite elem_of_app, !list_elem_of_omap; setoid_rewrite (fun rr => usable_A_spec rr ip Hr);
    setoid_rewrite (fun rr => usable_AAAA_spec rr ip Hr); naive_solver.
Qed.

(** [LookupHost] of a production resolver returns exactly the public addresses
    among the answers: an IPv4 address from an A record, an IPv6 address from an AAAA
    record, in none of the private and reserved blocks.  It fails only when both
    questions fail. *)
Theorem LookupHost_public_addresses (call : nat) (host : string) :
  allowRestrictedAddresses r = false ->
  match LookupHost r call host with
  | Ok addrs => forall ip, ip ∈ addrs <-> public_address ip /\
      (if Net.To4 ip is Some _ then answered call host TypeA (RR_A ip) else answered call host TypeAAAA (RR_AAAA ip))
  | Err err => lookupIP r call host TypeA = Err err /\ is_ok (lookupIP r call host TypeAAAA) = false
  end.
Proof.
  intros Hr. unfold LookupHost.
  assert (forall ip, ip ∈ omap (usable_A r) (match lookupIP r call host TypeA with Ok l => l | Err _ => [] end)
                   ++ omap (usable_AAAA r) (match lookupIP r call host TypeAAAA with Ok l => l | Err _ => [] end)
    <-> public_address ip /\
      (if Net.To4 ip is Some _ then answered call host TypeA (RR_A ip) else answered call host TypeAAAA (RR_AAAA ip))) as H.
  { intros ip. rewrite elem_of_app, !elem_of_usable. unfold answered.
    setoid_rewrite (fun rr => usable_A_spec rr ip Hr). setoid_rewrite (fun rr => usable_AAAA_spec rr ip Hr).
    destruct (Net.To4 ip) as [v4|] eqn:E; naive_solver. }
  destruct (lookupIP r call host TypeA), (lookupIP r call host TypeAAAA); done.
Qed.

(** The answer for a CAA question: a server failure counts as "no records" for the
    excepted names, and for all names when no list of exceptions is configured; any
    other response code counts as success. *)
Theorem LookupCAA_response_codes (call : nat) (host : string) (m : Msg) :
  exchangeOne r call host TypeCAA = Ok m ->
  is_ok (LookupCAA r call host) =
    negb (Rcode m =? RcodeServerFailure)
    || match caaSERVFAILExceptions r with None => true | Some exc => default false (exc !! host) end.
Proof.
  intros H. unfold LookupCAA. rewrite H. destruct (Rcode m =? RcodeServerFailure); [|done]. simpl.
  destruct (caaSERVFAILExceptions r) as [exc|]; [|done]. by destruct (default false (exc !! host)).
Qed.

End lookups.

(** The test networks 198.51.100.0/24 (RFC 5737) and 198.18.0.0/15 (RFC 2544) are
    named in the comments of the table, but their entries hold 192 as first byte:
    these addresses pass for public. *)
Theorem reserved_test_networks_pass (b c d : Z) :
  0 <= b < 256 -> 0 <= c < 256 -> 0 <= d < 256 -> b = 18 \/ b = 19 \/ (b = 51 /\ c = 100) ->
  isPrivateV4 (Net.bytes_of [198; b; c; d]) = false.
Proof.
  intros Hb Hc Hd H.
  assert (exists v4, Net.To4 (Net.bytes_of [198; b; c; d]) = Some v4 /\ be_value v4 = quad 198 b c d) as (v4 & E & Hv).
  { eexists. split; [reflexivity|]. unfold Net.bytes_of. cbn [chars_of].
    rewrite !be_value_cons, !byteZ_Zbyte, !Z.mod_small by lia. unfold quad, len. simpl. change (be_value EmptyString) with 0. lia. }
  apply public_v4; [congruence|]. unfold public_address. rewrite E, Hv. intros (lo & ones & Hr & Hl).
  unfold v4_ranges in Hr. rewrite !elem_of_cons, elem_of_nil in Hr.
  unfold quad in *. destruct_or! Hr; try done; simplify_eq; simpl in Hl; lia.
Qed.

(** [ReadHostList] keeps exactly the non-empty lines of the file. *)
Theorem ReadHostList_lines (filename body v : string) :
  filename <> EmptyString ->
  exists m, ReadHostList filename (Ok body) = Ok (Some m) /\
    (default false (m !! v) = true <-> v ∈ split_on "010" body /\ v <> EmptyString).
Proof.
  intros Hf. unfold ReadHostList. apply String.eqb_neq in Hf. rewrite Hf. cbn [rbind].
  eexists. split; [reflexivity|].
  assert (forall l (m : gmap string bool),
    default false (fold_left (fun output v => if 0 <? len v then <[v := true]> output else output) l m !! v) = true
    <-> default false (m !! v) = true \/ (v ∈ l /\ v <> EmptyString)) as H.
  { induction l as [|x l IH]; intros m; cbn [fold_left]; [rewrite elem_of_nil; naive_solver|].
    rewrite IH, elem_of_cons. destruct (Z.ltb_spec 0 (len x)) as [Hx|Hx].
    - destruct (decide (x = v)) as [->|Hne].
      + rewrite lookup_insert_eq. split; [|naive_solver]. right. split; [by left|]. intros ->. done.
      + rewrite lookup_insert_ne by done. naive_solver.
    - destruct x; [|unfold len in Hx; simpl in Hx; lia]. naive_solver. }
  rewrite H, lookup_empty. naive_solver.
Qed.

(** ** A network in which the theorems apply

    The A question is answered after one temporary failure with a private and a public
    address; every other question fails for good. *)

Definition sample_answer (ip : list Z) : RR :=
  {| Rrtype := TypeA; rr_data := RR_A (Net.bytes_of ip); rr_text := EmptyString |}.
Definition sample_exchanger : Exchanger := {|
  Exchange := fun _ qtype _ _ k =>
    if qtype =? TypeA then
      if (k <? 2)%nat then Received (Err (OpError true false "reset"))
      else Received (Ok {| Rcode := 0; Answer := map sample_answer [[10; 0; 0; 1]; [93; 184; 216; 34]]; Ns := [] |})
    else CtxDone DeadlineExceeded;
  rand_server := fun _ _ _ => 5;
  RcodeToString := itoa; TypeToString := itoa |}.
Definition sample_resolver : DNSResolverImpl := NewDNSResolverImpl ["ns1"; "ns2"] None 3.

Lemma exchangeOne_attempts_witness :
  exists server k, server ∈ ["ns1"; "ns2"] /\ 1 <= Z.of_nat k <= 3 /\
    exchangeOne (EX := sample_exchanger) sample_resolver 0 "example.com" TypeA
    = outcome (Exchange (Exchanger := sample_exchanger) 0 TypeA "example.com." server k).
Proof.
  destruct (exchangeOne_attempts (EX := sample_exchanger) sample_resolver 0 "example.com" TypeA)
    as (server & k & Hs & Hk & E & _); [discriminate|].
  exists server, k. split; [exact Hs|]. split; [exact Hk|]. exact E.
Defined.

Lemma LookupHost_public_addresses_witness :
  LookupHost (EX := sample_exchanger) sample_resolver 0 "example.com" = Ok [Net.bytes_of [93; 184; 216; 34]] /\
  public_address (Net.bytes_of [93; 184; 216; 34]).
Proof.
  pose proof (LookupHost_public_addresses (EX := sample_exchanger) sample_resolver 0 "example.com" eq_refl) as H.
  assert (LookupHost (EX := sample_exchanger) sample_resolver 0 "example.com"
          = Ok [Net.bytes_of [93; 184; 216; 34]]) as E by (vm_compute; reflexivity).
  rewrite E in H. split; [exact E|]. apply H. left.
Defined.

End Bdns.
