(* ===== verification/Cdr.v ===== *)
(** * cdr/resolver.go: the distributed CAA resolver

    A CAA question is sent to Google's public resolver through several proxies at
    once; the answers must agree, and all but a configured number of the queries must
    succeed.  The answers arrive in any order: the order is an argument.  HTTP, JSON,
    the parser and packer of DNS records and Go's unstable sort are parameters. *)

From S2P Require Import Prelude GoStd Errors Bdns.

Record GPDNSAnswer := { gp_Name : string; gp_Type : Z; gp_TTL : Z; gp_Data : string }.
Record GPDNSResponse := { gp_Status : Z; gp_Answer : list GPDNSAnswer; gp_Comment : string }.

Class GPDNS := {
  (** [ctxhttp.Get(url)] through a proxy: the status code and the body as read *)
  http_Get : string -> string -> result error (Z * result error string);
  json_response : string -> result error GPDNSResponse;
  (** [dns.NewRR]: the record, when it is a CAA record *)
  NewRR : string -> result error (option CAA);
  dns_Len : CAA -> Z;
  PackRR : CAA -> result error string;
  rcode_text : Z -> string;
  (** [sort.Sort] of records by value *)
  sort_caaSet : list CAA -> list CAA;
  (** [url.Parse] of a proxy: its host *)
  proxy_host : string -> result error string;
  (** [url.Parse] of the API's address, with its query replaced *)
  with_query : string -> string -> result error string
}.

(** What [sort.Sort] documents: a permutation, ordered by [Less]; nothing about the
    order of records with equal values.  In wire format (RFC 1035, section 4.1.3) a record
    tells where it ends: its name ends with the root label, and the length of its data
    comes before them. *)
Class GPDNSLaws (G : GPDNS) : Prop := {
  sort_perm : forall l, sort_caaSet l ≡ₚ l;
  sort_sorted : forall l, Sorted (fun a b => String.ltb (caa_Value b) (caa_Value a) = false) (sort_caaSet l);
  PackRR_ends : forall a b x y s t, PackRR a = Ok x -> PackRR b = Ok y -> x ++s s = y ++s t -> x = y
}.

Module Cdr.

Definition apiURI : string := "https://dns.google.com/resolve".

Record CAADistributedResolver := {
  URI : string;
  Clients : gmap string string;
  maxFailures : Z
}.

(** [url.QueryEscape]. *)
Definition query_char (c : ascii) : string :=
  if in_range "a" "z" c || in_range "A" "Z" c || in_range "0" "9" c
     || bool_decide (c ∈ ["-"; "_"; "."; "~"]%char) then String c EmptyString
  else if Ascii.eqb c " " then "+"
  else let up d := if d <? 10 then Zbyte (48 + d) else Zbyte (55 + d) in
       String "%" (String (up (byteZ c / 16)) (String (up (byteZ c mod 16)) EmptyString)).
Definition QueryEscape (s : string) : string :=
  join EmptyString (map query_char (String.list_ascii_of_string s)).

Section cdr.
Context {G : GPDNS}.

Fixpoint parseAnswer (as_ : list GPDNSAnswer) : result error (list CAA) :=
  match as_ with
  | [] => Ok []
  | a :: as' =>
      if negb (gp_Type a =? Bdns.TypeCAA) then parseAnswer as'
      else
        let? rr := NewRR (gp_Name a ++s " " ++s itoa (gp_TTL a) ++s " IN CAA " ++s gp_Data a) in
        let? rrs := parseAnswer as' in
        Ok (match rr with Some caaRR => caaRR :: rrs | None => rrs end)
  end.

(** [New], with [createClient]: one client per proxy host. *)
Fixpoint add_clients (proxies : list string) (clients : gmap string string) : result error (gmap string string) :=
  match proxies with
  | [] => Ok clients
  | p :: proxies' => let? h := proxy_host p in add_clients proxies' (<[h := p]> clients)
  end.
Definition New (maxFailures : Z) (proxies : list string) : result error CAADistributedResolver :=
  let? clients := add_clients proxies ∅ in
  Ok {| URI := apiURI; Clients := clients; maxFailures := maxFailures |}.

Definition queryCAA (url ic : string) : result error (list CAA) :=
  let? (status, body) := http_Get url ic in
  let? body := body in
  let body := String.substring 0 1024 body in
  if negb (status =? 200) then
    Err (PlainError ("Unexpected HTTP status code " ++s itoa status
                     ++s (if String.eqb body EmptyString then EmptyString else ", body: " ++s body)))
  else
    let? respObj := json_response body in
    if negb (gp_Status respObj =? Bdns.RcodeSuccess) then
      Err (PlainError ("Query failed with " ++s rcode_text (gp_Status respObj)
                       ++s (if String.eqb (gp_Comment respObj) EmptyString then EmptyString
                            else ": " ++s gp_Comment respObj)))
    else parseAnswer (gp_Answer respObj).

(** [rr.Hdr.Ttl = 0]. *)
Definition without_ttl (rr : CAA) : CAA :=
  {| caa_Name := caa_Name rr; caa_Ttl := 0; caa_Flag := caa_Flag rr; caa_Tag := caa_Tag rr;
     caa_Value := caa_Value rr |}.

(** Packs the records one after the other into [left] remaining bytes, which start as
    zeros. *)
Fixpoint pack_all (left : Z) (set : list CAA) : result error string :=
  match set with
  | [] => Ok (repeat_char "000" (Z.to_nat left))
  | rr :: set' =>
      let? b := PackRR (without_ttl rr) in
      if left <? len b then Err (PlainError "dns: overflow packing rr")
      else let? rest := pack_all (left - len b) set' in Ok (b ++s rest)
  end.

(** Sorts the slice in place: the sorted records are part of the result. *)
Definition marshalCanonicalCAASet (set : list CAA) : result error (list CAA * string) :=
  let sortedSet := sort_caaSet set in
  let size := fold_left (fun size rr => size + dns_Len rr) sortedSet 0 in
  let? tbh := pack_all size sortedSet in
  Ok (sortedSet, tbh).

Definition mismatch : error := PlainError "mismatching CAA record sets were returned".

(** The collecting loop over the results as they arrive.  [CAAs] is nil, or records
    with their canonical form; a failed query carries nil records. *)
Fixpoint collect (maxFailures : Z) (results : list (result error (list CAA))) (failed : Z)
    (CAAs : option (list CAA * string)) : result error (list CAA) :=
  match results with
  | [] => Ok (match CAAs with Some (recs, _) => recs | None => [] end)
  | r :: results' =>
      let failed' := match r with Err _ => failed + 1 | Ok _ => failed end in
      match r with
      | Err err => if maxFailures <? failed' then Err err
                   else match CAAs with
                        | None => collect maxFailures results' failed' None
                        | Some (recs, canonicalSet) =>
                            let? (_, thisSet) := marshalCanonicalCAASet [] in
                            if negb (length recs =? 0)%nat || negb (String.eqb thisSet canonicalSet)
                            then Err mismatch else collect maxFailures results' failed' CAAs
                        end
      | Ok records =>
          let? (sorted, thisSet) := marshalCanonicalCAASet records in
          match CAAs with
          | None => collect maxFailures results' failed' (Some (sorted, thisSet))
          | Some (recs, canonicalSet) =>
              if negb (length records =? length recs)%nat || negb (String.eqb thisSet canonicalSet)
              then Err mismatch else collect maxFailures results' failed' CAAs
          end
      end
  end.

(** [LookupCAA], when the queries end in [order]. *)
Definition LookupCAA (cdr : CAADistributedResolver) (order : list string) (domain : string)
    : result error (list CAA) :=
  let? uriStr := with_query (URI cdr) ("name=" ++s QueryEscape domain ++s "&type=" ++s itoa Bdns.TypeCAA) in
  collect (maxFailures cdr)
    (omap (fun addr => queryCAA uriStr <$> Clients cdr !! addr) order) 0 None.

End cdr.

(** ** What agreement means *)

Section quorum.
Context {G : GPDNS}.

Definition failures (rs : list (result error (list CAA))) : Z :=
  Z.of_nat (length (filter (fun r => is_ok r = false) rs)).

(** [records] has the canonical form of the set [recs], which was answered first. *)
Definition agrees (recs records : list CAA) : Prop :=
  exists first b s, marshalCanonicalCAASet first = Ok (recs, b) /\
    marshalCanonicalCAASet records = Ok (s, b) /\ length records = length recs.

(** The same records, in any order: with the times to live aside they have the same wire
    formats. *)
Definition wire (rr : CAA) : result error string :=
  PackRR {| caa_Name := caa_Name rr; caa_Ttl := 0; caa_Flag := caa_Flag rr; caa_Tag := caa_Tag rr; caa_Value := caa_Value rr |}.
Definition same_set (a b : list CAA) : Prop :=
  map wire a ≡ₚ map wire b /\ Forall (fun rr => is_ok (wire rr) = true) b.

(** A client that answers: status 200, at most 1024 bytes of JSON for a response without
    error, and records for the answers of type CAA. *)
Inductive parsed : list GPDNSAnswer -> list CAA -> Prop :=
| parsed_none : parsed [] []
| parsed_other a answers records : gp_Type a <> 257 -> parsed answers records -> parsed (a :: answers) records
| parsed_caa a answers rr records : gp_Type a = 257 ->
    NewRR (gp_Name a ++s " " ++s itoa (gp_TTL a) ++s " IN CAA " ++s gp_Data a) = Ok rr ->
    parsed answers records -> parsed (a :: answers) (option_list rr ++ records).
Definition answered (uriStr ic : string) (records : list CAA) : Prop :=
  exists body resp, http_Get uriStr ic = Ok (200, Ok body) /\ json_response (String.substring 0 1024 body) = Ok resp /\
    gp_Status resp = 0 /\ parsed (gp_Answer resp) records.

Lemma parseAnswer_spec as_ records : parseAnswer as_ = Ok records <-> parsed as_ records.
Proof.
  revert records. induction as_ as [|a as_ IH]; intros records; cbn [parseAnswer].
  - split; [intros [= <-]; constructor|by inversion 1].
  - change Bdns.TypeCAA with 257. destruct (Z.eqb_spec (gp_Type a) 257) as [E|E]; cbn [negb].
    + split.
      * destruct (NewRR _) as [rr|] eqn:En; [|done]. cbn [rbind]. destruct (parseAnswer as_) as [rrs|]; [|done]. intros [= <-].
        assert (parsed as_ rrs) by (by apply IH). destruct rr as [rr|]; [by apply (parsed_caa a _ (Some rr))|by apply (parsed_caa a _ None)].
      * inversion 1 as [| |a' answers rr rrs _ Hn Hp]; subst; [done|]. rewrite Hn. cbn [rbind]. apply IH in Hp as ->. by destruct rr.
    + rewrite IH. split; [by constructor|]. by inversion 1.
Qed.
Lemma queryCAA_spec uriStr ic records : queryCAA uriStr ic = Ok records <-> answered uriStr ic records.
Proof.
  unfold queryCAA, answered, rbind. split.
  - destruct (http_Get uriStr ic) as [[status [body|]]|]; try done. destruct (Z.eqb_spec status 200) as [->|]; [|done]. simpl.
    destruct (json_response _) as [resp|] eqn:Ej; [|done]. change Bdns.RcodeSuccess with 0.
    destruct (Z.eqb_spec (gp_Status resp) 0); [|done]. simpl. intros H%parseAnswer_spec. by exists body, resp.
  - intros (body & resp & -> & Hj & Hs & Hp%parseAnswer_spec). cbn [negb Z.eqb Pos.eqb]. rewrite Hj.
    change Bdns.RcodeSuccess with 0. by rewrite Hs.
Qed.

Lemma marshal_nil b s : marshalCanonicalCAASet [] = Ok (s, b) -> GPDNSLaws G -> s = [] /\ b = EmptyString.
Proof.
  intros H L. unfold marshalCanonicalCAASet in H.
  assert (sort_caaSet [] = []) as E by (apply Permutation_nil_r, sort_perm). rewrite E in H. simpl in H.
  by injection H as <- <-.
Qed.

Context {L : GPDNSLaws G}.

Lemma marshal_length first recs b : marshalCanonicalCAASet first = Ok (recs, b) -> length recs = length first.
Proof.
  unfold marshalCanonicalCAASet, rbind. destruct (pack_all _ _); [|done]. intros [= <- <-].
  apply Permutation_length, sort_perm.
Qed.

(** Equal packings of as many records pack the same records. *)
Lemma pack_all_wires l : forall l' n n' b, length l = length l' -> pack_all n l = Ok b -> pack_all n' l' = Ok b ->
  map wire l = map wire l' /\ Forall (fun rr => is_ok (wire rr) = true) l'.
Proof.
  enough (forall l' n n' b s t, length l = length l' -> pack_all n l = Ok b -> forall b', pack_all n' l' = Ok b' ->
    b ++s s = b' ++s t -> map wire l = map wire l' /\ Forall (fun rr => is_ok (wire rr) = true) l') as H.
  { intros l' n n' b Hl H1 H2. by eapply (H l' n n' b EmptyString EmptyString). }
  induction l as [|r l IH]; intros [|r' l'] n n' b s t Hl H1 b' H2 E; try done. simpl in Hl, H1, H2.
  change (PackRR (without_ttl r)) with (wire r) in H1. change (PackRR (without_ttl r')) with (wire r') in H2.
  destruct (wire r) as [x|] eqn:Ex; [|done]. destruct (wire r') as [y|] eqn:Ey; [|done]. simpl in H1, H2.
  destruct (n <? len x); [done|]. destruct (n' <? len y); [done|].
  destruct (pack_all _ l) as [u|] eqn:Eu; [|done]. destruct (pack_all _ l') as [v|] eqn:Ev; [|done]. simpl in H1, H2.
  injection H1 as <-. injection H2 as <-. rewrite !sapp_assoc in E.
  assert (x = y) as -> by (by eapply (PackRR_ends _ _ x y _ _ Ex Ey)).
  assert (u ++s s = v ++s t) as E' by (clear -E; induction y as [|c y IHy]; [done|]; injection E as E; auto).
  destruct (IH l' _ _ u s t ltac:(lia) Eu v Ev E') as [Hm Hf]. split; [cbn [map]; by rewrite Hm, Ex, Ey|]. constructor; [by rewrite Ey|done].
Qed.

Lemma agrees_same recs records : agrees recs records -> same_set recs records.
Proof.
  intros (first & b & s & H1 & H2 & Hl). unfold marshalCanonicalCAASet, rbind in *.
  destruct (pack_all _ (sort_caaSet first)) as [x|] eqn:E1; [|done]. injection H1 as <- ->.
  destruct (pack_all _ (sort_caaSet records)) as [y|] eqn:E2; [|done]. injection H2 as <- ->.
  assert (length (sort_caaSet first) = length (sort_caaSet records)) as Hs
    by (by rewrite <- Hl, (Permutation_length (sort_perm records))).
  destruct (pack_all_wires _ _ _ _ _ Hs E1 E2) as [Hm Hf].
  split; [rewrite Hm; by apply Permutation_map, sort_perm|]. by rewrite (sort_perm records) in Hf.
Qed.

(** Once an answer is recorded, whatever follows agrees with it, and a failure is
    tolerated only when the answer is empty. *)
Lemma collect_after mf rs failed first recs b out : 0 <= failed ->
  marshalCanonicalCAASet first = Ok (recs, b) ->
  collect mf rs failed (Some (recs, b)) = Ok out ->
  out = recs /\ (rs <> [] -> failed + failures rs <= mf \/ failures rs = 0) /\
  (forall records, Ok records ∈ rs -> agrees recs records) /\
  (recs = [] \/ failures rs = 0).
Proof.
  revert failed. induction rs as [|[records|err] rs IH]; intros failed Hf Hm; cbn [collect].
  - intros [= <-]. split_and!; [done|done|by intros ? ?%elem_of_nil|by right].
  - destruct (marshalCanonicalCAASet records) as [[s t]|] eqn:Em; cbn [rbind]; [|done].
    destruct (Nat.eqb_spec (length records) (length recs)) as [El|]; [|done].
    destruct (String.eqb_spec t b) as [->|]; [|done]. simpl negb. cbv iota.
    intros H. destruct (IH failed Hf Hm H) as (-> & Hn & Ha & Hz). split_and!; [done| | |].
    + intros _. change (failures (Ok records :: rs)) with (failures rs).
      destruct rs; [by right|by apply Hn].
    + intros records' Hr. apply elem_of_cons in Hr as [[= ->]|Hr]; [|by apply Ha].
      exists first, b, s. done.
    + destruct Hz as [->|Hz]; [by left|by right].
  - destruct (Z.ltb_spec mf (failed + 1)) as [|Hlt]; [done|].
    destruct (marshalCanonicalCAASet []) as [[s t]|] eqn:Em; cbn [rbind]; [|done].
    destruct (marshal_nil _ _ Em L) as [-> ->].
    destruct (Nat.eqb_spec (length recs) 0) as [El|]; [|done].
    apply length_zero_iff_nil in El as ->. destruct (String.eqb_spec EmptyString b) as [<-|]; [|done].
    simpl negb. cbv iota. intros H. destruct (IH (failed + 1) ltac:(lia) Hm H) as (-> & Hn & Ha & Hz).
    assert (failures (Err err :: rs) = 1 + failures rs) as Hfl by (unfold failures; simpl; lia).
    split_and!; [done| | |by left].
    + intros _. left. rewrite Hfl. destruct rs as [|r rs]; [unfold failures; simpl; lia|].
      destruct (Hn ltac:(done)) as [|H0]; [lia|]. rewrite H0. lia.
    + intros records Hr. apply elem_of_cons in Hr as [|Hr]; [done|by apply Ha].
Qed.

Lemma collect_sound mf rs failed out : 0 <= failed -> failed <= mf ->
  collect mf rs failed None = Ok out ->
  failed + failures rs <= mf /\
  (forall records, Ok records ∈ rs -> agrees out records) /\
  (out <> [] -> exists pre first post, rs = pre ++ Ok first :: post /\
      Forall (fun r => is_ok r = false) pre /\ Forall (fun r => is_ok r = true) post).
Proof.
  revert failed. induction rs as [|[records|err] rs IH]; intros failed Hf Hle; cbn [collect].
  - intros [= <-]. split_and!; [unfold failures; simpl; lia|by intros ? ?%elem_of_nil|done].
  - destruct (marshalCanonicalCAASet records) as [[s t]|] eqn:Em; cbn [rbind]; [|done].
    intros H. destruct (collect_after _ _ _ _ _ _ _ Hf Em H) as (-> & Hn & Ha & Hz).
    change (failures (Ok records :: rs)) with (failures rs). split_and!.
    + destruct rs as [|r rs]; [unfold failures; simpl; lia|]. destruct (Hn ltac:(done)); lia.
    + intros records' Hr. apply elem_of_cons in Hr as [[= ->]|Hr]; [|by apply Ha].
      exists records, t, s. split_and!; [done|done|]. symmetry. by eapply marshal_length.
    + intros Hne. destruct Hz as [|Hz]; [done|]. exists [], records, rs. split_and!; [done|constructor|].
      unfold failures in Hz. apply Forall_forall. intros r Hr.
      destruct (is_ok r) eqn:E; [done|]. exfalso.
      assert (r ∈ filter (fun r => is_ok r = false) rs) as Hin by (by apply list_elem_of_filter).
      destruct (filter _ rs); [by apply elem_of_nil in Hin|simpl in Hz; lia].
  - destruct (Z.ltb_spec mf (failed + 1)) as [|Hlt]; [done|]. intros H.
    destruct (IH (failed + 1) ltac:(lia) ltac:(lia) H) as (Hn & Ha & Hp).
    assert (failures (Err err :: rs) = 1 + failures rs) as Hfl by (unfold failures; simpl; lia).
    split_and!; [lia| |].
    + intros records Hr. apply elem_of_cons in Hr as [|Hr]; [done|by apply Ha].
    + intros Hne. destruct (Hp Hne) as (pre & first & post & -> & H1 & H2).
      exists (Err err :: pre), first, post. split_and!; [done|by constructor|done].
Qed.

(** The answers of the clients, in the order they arrive. *)
Definition answers (cdr : CAADistributedResolver) (uriStr : string) (order : list string)
    : list (result error (list CAA)) :=
  omap (fun addr => queryCAA uriStr <$> Clients cdr !! addr) order.

Lemma LookupCAA_answers cdr order domain out : LookupCAA cdr order domain = Ok out ->
  exists uriStr,
    with_query (URI cdr) ("name=" ++s QueryEscape domain ++s "&type=" ++s itoa Bdns.TypeCAA) = Ok uriStr /\
    collect (maxFailures cdr) (answers cdr uriStr order) 0 None = Ok out.
Proof.
  unfold LookupCAA. destruct (with_query _ _) as [uriStr|]; cbn [rbind]; [|done]. intros H. by exists uriStr.
Qed.

Lemma elem_of_answers cdr uriStr order addr ic : Clients cdr !! addr = Some ic -> addr ∈ order ->
  queryCAA uriStr ic ∈ answers cdr uriStr order.
Proof. intros Hc Ho. apply list_elem_of_omap. exists addr. split; [done|]. by rewrite Hc. Qed.

(** The clients whose queries failed. *)
Definition failing (cdr : CAADistributedResolver) (uriStr : string) (order : list string) : list string :=
  filter (fun addr => (fun ic => is_ok (queryCAA uriStr ic)) <$> Clients cdr !! addr = Some false) order.
Lemma length_failing cdr uriStr order : Z.of_nat (length (failing cdr uriStr order)) = failures (answers cdr uriStr order).
Proof.
  unfold failing, failures, answers. induction order as [|addr order IH]; [done|]. cbn [omap list_omap]. rewrite filter_cons.
  destruct (Clients cdr !! addr) as [ic|]; simpl; [|done].
  rewrite filter_cons. destruct (queryCAA uriStr ic); simpl; lia.
Qed.

(** What is returned is what a client answered. *)
Lemma collect_origin mf rs : forall failed recs out, collect mf rs failed recs = Ok out ->
  match recs with Some (r, _) => out = r | None => out = [] \/ exists records, Ok records ∈ rs /\ out ≡ₚ records end.
Proof.
  induction rs as [|[records|e] rs IH]; intros failed recs out; cbn [collect].
  - intros [= <-]. destruct recs as [[r b]|]; [done|by left].
  - destruct (marshalCanonicalCAASet records) as [[sorted this]|] eqn:Em; [|done]. cbn [rbind]. destruct recs as [[r b]|].
    + destruct (_ || _); [done|]. by intros ?%IH.
    + intros ->%IH. right. exists records. split; [left|]. unfold marshalCanonicalCAASet, rbind in Em.
      destruct (pack_all _ _); [|done]. injection Em as <- <-. apply sort_perm.
  - destruct (_ <? _); [done|]. destruct recs as [[r b]|].
    + destruct (marshalCanonicalCAASet []) as [[sorted this]|]; [|done]. cbn [rbind]. destruct (_ || _); [done|]. by intros ?%IH.
    + intros [->|(records & Hr & Hp)]%IH; [by left|]. right. exists records. split; [by right|done].
Qed.

(** C39. When the distributed lookup returns records for a domain, in whatever order the
    queries ended, all but at most [maxFailures] of the clients answered the question for
    the CAA records of that very domain; every client that answered gave the same set of
    records as is returned, in any order and times to live aside; and what is returned is
    the answer of one of them, or nothing when none answered. *)
Theorem LookupCAA_quorum (cdr : CAADistributedResolver) (order : list string) (domain : string) (out : list CAA) :
  0 <= maxFailures cdr -> order ≡ₚ (map_to_list (Clients cdr)).*1 ->
  LookupCAA cdr order domain = Ok out ->
  exists uriStr failed,
    with_query (URI cdr) ("name=" ++s QueryEscape domain ++s "&type=257") = Ok uriStr /\
    Z.of_nat (length failed) <= maxFailures cdr /\
    (forall addr ic, Clients cdr !! addr = Some ic -> addr ∉ failed -> exists records, answered uriStr ic records) /\
    (forall addr ic records, Clients cdr !! addr = Some ic -> answered uriStr ic records -> same_set out records) /\
    (out = [] \/ exists addr ic records, Clients cdr !! addr = Some ic /\ answered uriStr ic records /\ out ≡ₚ records).
Proof.
  intros Hm Ho H. destruct (LookupCAA_answers _ _ _ _ H) as (uriStr & Hu & Hc). exists uriStr, (failing cdr uriStr order).
  destruct (collect_sound _ _ 0 _ ltac:(lia) Hm Hc) as (Hf & Ha & _).
  assert (forall addr ic, Clients cdr !! addr = Some ic -> addr ∈ order) as Hin.
  { intros addr ic Hi. rewrite Ho. apply list_elem_of_fmap. exists (addr, ic). split; [done|]. by apply elem_of_map_to_list. }
  split; [exact Hu|]. split; [rewrite length_failing; lia|]. split_and!.
  - intros addr ic Hi Hno. destruct (queryCAA uriStr ic) as [records|] eqn:Hq; [exists records; by apply queryCAA_spec|].
    exfalso. apply Hno, list_elem_of_filter. split; [rewrite Hi; simpl; by rewrite Hq|by eapply Hin].
  - intros addr ic records Hi Hq%queryCAA_spec. apply agrees_same, Ha. rewrite <- Hq. apply (elem_of_answers _ _ _ addr); [done|by eapply Hin].
  - destruct (collect_origin _ _ _ _ _ Hc) as [->|(records & Hr & Hp)]; [by left|]. right.
    apply list_elem_of_omap in Hr as (addr & _ & Hr). destruct (Clients cdr !! addr) as [ic|] eqn:Hi; [|done].
    injection Hr as Hr. exists addr, ic, records. split; [done|]. split; [by apply queryCAA_spec|done].
Qed.

(** The tolerance for failures depends on the order of arrival: a failure that
    arrives after a non-empty answer makes the lookup fail, however many failures are
    allowed, because the failed query's empty record set is compared with the
    answer. *)
Theorem late_failure_is_fatal (cdr : CAADistributedResolver) (order : list string) (domain uriStr : string)
    (pre mid post : list (result error (list CAA))) (records : list CAA) (e : error) :
  with_query (URI cdr) ("name=" ++s QueryEscape domain ++s "&type=" ++s itoa Bdns.TypeCAA) = Ok uriStr ->
  answers cdr uriStr order = pre ++ Ok records :: mid ++ Err e :: post -> records <> [] ->
  0 <= maxFailures cdr -> is_ok (LookupCAA cdr order domain) = false.
Proof.
  intros Hu Hans Hne Hm. destruct (LookupCAA cdr order domain) as [out|] eqn:E; [exfalso|done].
  destruct (LookupCAA_answers _ _ _ _ E) as (u & Hu' & Hc). assert (u = uriStr) as -> by congruence.
  rewrite Hans in Hc. destruct (collect_sound _ _ 0 _ ltac:(lia) Hm Hc) as (_ & Ha & Hp).
  destruct (Ha records) as (? & ? & ? & _ & _ & Hlen); [apply elem_of_app; right; left|].
  destruct Hp as (pre' & first & post' & Heq & H1 & H2); [by destruct out, records|].
  assert (forall l l' (r : result error (list CAA)) t t',
    l ++ r :: t = l' ++ Ok first :: t' -> Forall (fun r => is_ok r = false) l' -> is_ok r = true ->
    exists u, t' = u ++ t) as Hsplit.
  { clear. induction l as [|x l IH]; intros [|x' l'] r t t' Heq Hf Hr; simplify_eq/=.
    - by exists [].
    - apply Forall_cons in Hf as [Hx _]. by rewrite Hr in Hx.
    - exists (l ++ [r]). by rewrite <- app_assoc.
    - apply Forall_cons in Hf as [_ Hf]. by eapply IH. }
  destruct (Hsplit _ _ _ _ _ Heq H1 eq_refl) as [u ->].
  apply Forall_app in H2 as [_ H2]. apply Forall_app in H2 as [_ H2]. by apply Forall_cons in H2 as [? _].
Qed.

End quorum.

(** ** Two proxies, one of which fails *)

Definition sample_caa : CAA :=
  {| caa_Name := "example.com."; caa_Ttl := 60; caa_Flag := 0; caa_Tag := "issue"; caa_Value := "ca.example" |}.
Definition value_le (a b : CAA) : Prop := String.ltb (caa_Value b) (caa_Value a) = false.
#[global] Instance value_le_dec : RelDecision value_le.
Proof. intros a b. unfold value_le. apply _. Defined.
(** Records with an end: every byte of a field is announced. *)
Fixpoint field (s rest : string) : string :=
  match s with
  | EmptyString => String "0" rest
  | String c s' => String "1" (String c (field s' rest))
  end.
Definition sample_pack (c : CAA) : string :=
  field (caa_Name c) (field (itoa (caa_Ttl c)) (field (itoa (caa_Flag c)) (field (caa_Tag c) (field (caa_Value c) EmptyString)))).
Lemma field_inj s s' x y t u : field s x ++s t = field s' y ++s u -> s = s' /\ x ++s t = y ++s u.
Proof.
  revert s'. induction s as [|c s IH]; intros [|c' s'] E; simpl in E; simplify_eq; try done.
  match goal with H : _ ++s _ = _ |- _ => apply IH in H as [-> ->] end. done.
Qed.
Lemma sample_pack_ends a b t u : sample_pack a ++s t = sample_pack b ++s u -> sample_pack a = sample_pack b.
Proof.
  unfold sample_pack. intros E. do 5 apply field_inj in E as [? E]. congruence.
Qed.

Definition sample_gpdns : GPDNS := {|
  http_Get := fun _ ic => if String.eqb ic "bad" then Err (PlainError "refused") else Ok (200, Ok ic);
  json_response := fun _ => Ok {| gp_Status := 0; gp_Comment := EmptyString;
    gp_Answer := [{| gp_Name := "example.com."; gp_Type := 257; gp_TTL := 60; gp_Data := "0 issue ca.example" |}] |};
  NewRR := fun _ => Ok (Some sample_caa);
  dns_Len := fun c => len (sample_pack c);
  PackRR := fun c => Ok (sample_pack c);
  rcode_text := itoa;
  sort_caaSet := merge_sort value_le;
  proxy_host := fun p => Ok p;
  with_query := fun u q => Ok (u ++s "?" ++s q) |}.

Lemma ltb_total s t : String.ltb s t = true -> String.ltb t s = false.
Proof.
  unfold String.ltb. rewrite (String.compare_antisym t s). by destruct (String.compare s t).
Qed.

Lemma sample_gpdns_laws : GPDNSLaws sample_gpdns.
Proof.
  split; [intros l; simpl..|].
  - apply merge_sort_Permutation.
  - apply Sorted_merge_sort. intros a b. unfold value_le. destruct (String.ltb (caa_Value b) (caa_Value a)) eqn:E; [right|by left].
    by apply ltb_total.
  - intros a b x y s t [= <-] [= <-]. apply sample_pack_ends.
Qed.

Definition sample_cdr : CAADistributedResolver :=
  {| URI := apiURI; Clients := {[ "p1" := "good"; "p2" := "bad" ]}; maxFailures := 1 |}.

(** The failure first: the answer is accepted. *)
Lemma LookupCAA_quorum_witness :
  LookupCAA (G := sample_gpdns) sample_cdr ["p2"; "p1"] "example.com" = Ok [sample_caa] /\
  exists failed : list string, Z.of_nat (length failed) <= 1 /\
    forall records, answered (G := sample_gpdns) "https://dns.google.com/resolve?name=example.com&type=257" "good" records ->
      same_set (G := sample_gpdns) [sample_caa] records.
Proof.
  assert (LookupCAA (G := sample_gpdns) sample_cdr ["p2"; "p1"] "example.com" = Ok [sample_caa]) as E
    by (vm_compute; reflexivity).
  split; [exact E|].
  destruct (LookupCAA_quorum (G := sample_gpdns) (L := sample_gpdns_laws) sample_cdr ["p2"; "p1"]
    "example.com" [sample_caa]) as (u & failed & Hu & Hf & _ & Ha & _).
  - simpl. lia.
  - vm_compute. first [reflexivity|apply perm_swap].
  - exact E.
  - exists failed. split; [exact Hf|]. injection Hu as <-. intros records Hr. by apply (Ha "p1" "good" records).
Defined.

(** The same two answers in the other order: the lookup fails. *)
Lemma late_failure_is_fatal_witness :
  is_ok (LookupCAA (G := sample_gpdns) sample_cdr ["p1"; "p2"] "example.com") = false.
Proof.
  refine (late_failure_is_fatal (G := sample_gpdns) (L := sample_gpdns_laws) sample_cdr ["p1"; "p2"]
    "example.com" _ [] [] [] [sample_caa] (PlainError "refused") eq_refl _ _ _).
  - vm_compute. reflexivity.
  - discriminate.
  - simpl. lia.
Defined.

End Cdr.
