(* ===== verification/Features.v ===== *)
(** * features/features.go: feature flags

    The package keeps two Go maps, [features] and [initial].  A Go map is a
    reference, and [Reset] assigns one variable to the other, so the model has
    a heap of maps and two variables holding references into it. *)

From S2P Require Import Prelude GoStd.

Module Features.

(** [type FeatureFlag int] and its constants. *)
Notation unused := 0 (only parsing).
Notation IDNASupport := 1 (only parsing).
Notation AllowAccountDeactivation := 2 (only parsing).
Notation AllowKeyRollover := 3 (only parsing).
Notation ResubmitMissingSCTsOnly := 4 (only parsing).
Notation GoogleSafeBrowsingV4 := 5 (only parsing).
Notation UseAIAIssuerURL := 6 (only parsing).
Notation AllowTLS02Challenges := 7 (only parsing).
Notation GenerateOCSPEarly := 8 (only parsing).

(** [var features = map[FeatureFlag]bool{...}]. *)
Definition default_features : gmap Z bool :=
  list_to_map [(unused, false); (IDNASupport, false); (AllowAccountDeactivation, false);
    (AllowKeyRollover, false); (ResubmitMissingSCTsOnly, false); (GoogleSafeBrowsingV4, false);
    (UseAIAIssuerURL, false); (AllowTLS02Challenges, false); (GenerateOCSPEarly, false)].

(** [nameToFeature], filled by [init] with the generated [String] method. *)
Definition nameToFeature : gmap string Z :=
  list_to_map [("unused", unused); ("IDNASupport", IDNASupport);
    ("AllowAccountDeactivation", AllowAccountDeactivation); ("AllowKeyRollover", AllowKeyRollover);
    ("ResubmitMissingSCTsOnly", ResubmitMissingSCTsOnly);
    ("GoogleSafeBrowsingV4", GoogleSafeBrowsingV4); ("UseAIAIssuerURL", UseAIAIssuerURL);
    ("AllowTLS02Challenges", AllowTLS02Challenges); ("GenerateOCSPEarly", GenerateOCSPEarly)].

(** The package state: a heap of maps and the two package variables. *)
Record state := {
  heap : gmap nat (gmap Z bool);
  features : nat;
  initial : nat
}.

Definition deref (st : state) (l : nat) : gmap Z bool := default ∅ (heap st !! l).

(** [init]: [initial] is a copy of [features]. *)
Definition init_ : state :=
  {| heap := <[0%nat := default_features]> {[1%nat := default_features]};
     features := 0%nat; initial := 1%nat |}.

(** [features[f] = v] writes through the reference held by [features]. *)
Definition assign (f : Z) (v : bool) (st : state) : state :=
  {| heap := <[features st := <[f := v]> (deref st (features st))]> (heap st);
     features := features st; initial := initial st |}.

(** [Set]: the argument's entries in the order the map iteration yields them;
    an unknown name stops the loop with the earlier entries applied. *)
Fixpoint Set_ (featureSet : list (string * bool)) (st : state) : result string unit * state :=
  match featureSet with
  | [] => (Ok tt, st)
  | (n, v) :: rest =>
      match nameToFeature !! n with
      | None => (Err ("feature '" ++s n ++s "' doesn't exist"), st)
      | Some f => Set_ rest (assign f v st)
      end
  end.

(** [Enabled]: [None] is the panic on an unknown flag. *)
Definition Enabled (n : Z) (st : state) : option bool := deref st (features st) !! n.

Definition Reset (st : state) : state :=
  {| heap := heap st; features := initial st; initial := initial st |}.

(** The two variables refer to existing, distinct maps and [initial] is intact. *)
Definition unaliased (st : state) : Prop :=
  features st <> initial st /\ deref st (initial st) = default_features.

(** The last value given to each flag by a list of settings. *)
Definition apply_settings (featureSet : list (string * bool)) (m : gmap Z bool) : gmap Z bool :=
  fold_left (fun m '(n, v) => match nameToFeature !! n with Some f => <[f := v]> m | None => m end)
    featureSet m.

Lemma deref_assign_same f v st :
  deref (assign f v st) (features (assign f v st)) = <[f := v]> (deref st (features st)).
Proof. unfold deref at 1. simpl. by rewrite lookup_insert_eq. Qed.

Lemma deref_assign_other f v st l : l <> features st -> deref (assign f v st) l = deref st l.
Proof. intros H. unfold deref. simpl. by rewrite lookup_insert_ne. Qed.

Lemma assign_unaliased f v st : unaliased st -> unaliased (assign f v st).
Proof. intros [H1 H2]. split; [done|]. by rewrite deref_assign_other by (simpl; congruence). Qed.

Lemma Set_unaliased fs : forall st r st', unaliased st -> Set_ fs st = (r, st') -> unaliased st'.
Proof.
  induction fs as [|[n v] fs IH]; intros st r st' Hu H; simpl in H; [by simplify_eq|].
  destruct (nameToFeature !! n); [|by simplify_eq].
  eapply IH; [|exact H]. by apply assign_unaliased.
Qed.

Lemma init_unaliased : unaliased init_.
Proof. split; [done|reflexivity]. Qed.

(** A successful [Set] makes exactly its settings visible through [Enabled],
    the last one winning, and leaves every other flag as it was. *)
Theorem Set_then_Enabled fs : forall st st' n,
  Set_ fs st = (Ok tt, st') ->
  Enabled n st' = apply_settings fs (deref st (features st)) !! n.
Proof.
  unfold Enabled, apply_settings. induction fs as [|[m v] fs IH]; intros st st' n H; simpl in H |- *.
  - by simplify_eq.
  - destruct (nameToFeature !! m) as [f|]; [|done]. rewrite (IH _ _ _ H).
    by rewrite deref_assign_same.
Qed.

(** The first [Reset] of a process restores the defaults, whatever was set
    before it. *)
Theorem first_Reset_restores_defaults fs r st n :
  Set_ fs init_ = (r, st) -> Enabled n (Reset st) = default_features !! n.
Proof.
  intros H. destruct (Set_unaliased _ _ _ _ init_unaliased H) as [_ Hd].
  unfold Enabled, Reset. simpl. unfold deref in *. simpl. by rewrite Hd.
Qed.

(** [Reset] makes [features] and [initial] the same map, so a flag set after
    one [Reset] is still set after the next: the defaults are gone. *)
Theorem Reset_does_not_restore_after_a_Reset :
  let st := Reset init_ in
  let st' := snd (Set_ [("IDNASupport", true)] st) in
  Enabled IDNASupport st = Some false /\ Enabled IDNASupport (Reset st') = Some true.
Proof. split; vm_compute; reflexivity. Qed.

Lemma Set_then_Enabled_witness :
  Enabled IDNASupport (snd (Set_ [("IDNASupport", true)] init_)) = Some true.
Proof.
  rewrite (Set_then_Enabled [("IDNASupport", true)] init_ (snd (Set_ [("IDNASupport", true)] init_)));
  vm_compute; reflexivity.
Defined.

Lemma first_Reset_restores_defaults_witness :
  Enabled IDNASupport (Reset (snd (Set_ [("IDNASupport", true)] init_))) = Some false.
Proof.
  rewrite (first_Reset_restores_defaults [("IDNASupport", true)] (Ok tt)
    (snd (Set_ [("IDNASupport", true)] init_))); vm_compute; reflexivity.
Defined.

End Features.
