(* ===== verification/Core.v ===== *)
(** * core/: the data model and its helpers

    [core/objects.go], [core/challenges.go] and the string, serial, digest and
    token helpers of [core/util.go].  String-typed Go enums ([AcmeStatus],
    [IdentifierType], ...) stay strings, since any string can come out of a
    database row or an RPC; a nil-able pointer or slice is an [option]. *)

From S2P Require Import Prelude GoStd Errors Features.

(** ** Keys and the cryptographic library *)

Inductive Curve := P224 | P256 | P384 | P521 | OtherCurve (name : string).

(** [crypto.PublicKey]: the dynamic types the code distinguishes. *)
Inductive PublicKey :=
| RSAKey (N E : Z)
| ECDSAKey (curve : Curve) (X Y : Z)
| UnknownKey (typeName : string).

#[global] Instance Curve_eq_dec : EqDecision Curve.
Proof. solve_decision. Defined.
#[global] Instance PublicKey_eq_dec : EqDecision PublicKey.
Proof. solve_decision. Defined.

(** [jose.JsonWebKey]: the key and the algorithm it is meant for, which may be empty. *)
Record JsonWebKey := { Key : PublicKey; Algorithm : string }.

(** What the code takes from crypto/sha256, crypto/x509 and go-jose. *)
Class Crypto := {
  sha256 : string -> string;
  MarshalPKIXPublicKey : PublicKey -> option string;
  Thumbprint : PublicKey -> option string
}.

(** SHA-256 digests are 32 bytes long; a JWK thumbprint is such a digest. *)
Class CryptoLaws (Cr : Crypto) : Prop := {
  sha256_len : forall s, len (sha256 s) = 32;
  Thumbprint_len : forall k t, Thumbprint k = Some t -> len t = 32
}.

(** ** core/objects.go: data *)

Definition AcmeStatus := string.
Notation StatusUnknown := "unknown"%string (only parsing).
Notation StatusPending := "pending"%string (only parsing).
Notation StatusProcessing := "processing"%string (only parsing).
Notation StatusValid := "valid"%string (only parsing).
Notation StatusInvalid := "invalid"%string (only parsing).
Notation StatusRevoked := "revoked"%string (only parsing).
Notation StatusDeactivated := "deactivated"%string (only parsing).

Notation IdentifierDNS := "dns"%string (only parsing).

Notation OCSPStatusGood := "good"%string (only parsing).
Notation OCSPStatusRevoked := "revoked"%string (only parsing).

Notation ChallengeTypeHTTP01 := "http-01"%string (only parsing).
Notation ChallengeTypeTLSSNI01 := "tls-sni-01"%string (only parsing).
Notation ChallengeTypeTLSSNI02 := "tls-sni-02"%string (only parsing).
Notation ChallengeTypeDNS01 := "dns-01"%string (only parsing).

Record AcmeIdentifier := { idType : string; idValue : string }.
#[global] Instance AcmeIdentifier_eq_dec : EqDecision AcmeIdentifier.
Proof. solve_decision. Defined.

Record Registration := {
  reg_ID : Z;
  reg_Key : option JsonWebKey;
  reg_Contact : option (list string);
  reg_Agreement : string;
  reg_InitialIP : option string;
  reg_CreatedAt : Z;
  reg_Status : AcmeStatus
}.

Record ValidationRecord := {
  vr_Authorities : list string;
  vr_URL : string;
  vr_Hostname : string;
  vr_Port : string;
  vr_AddressesResolved : list string;
  vr_AddressUsed : option string
}.
#[global] Instance ValidationRecord_eq_dec : EqDecision ValidationRecord.
Proof. solve_decision. Defined.

Record Challenge := {
  ch_ID : Z;
  ch_Type : string;
  ch_Status : AcmeStatus;
  ch_Error : option Probs.ProblemDetails;
  ch_URI : string;
  ch_Token : string;
  ch_ProvidedKeyAuthorization : string;
  ch_ValidationRecord : list ValidationRecord
}.
#[global] Instance Challenge_eq_dec : EqDecision Challenge.
Proof. solve_decision. Defined.

Record Authorization := {
  az_ID : string;
  az_Identifier : AcmeIdentifier;
  az_RegistrationID : Z;
  az_Status : AcmeStatus;
  az_Expires : option Z;
  az_Challenges : list Challenge;
  az_Combinations : list (list Z)
}.
#[global] Instance Authorization_eq_dec : EqDecision Authorization.
Proof. solve_decision. Defined.

Record Certificate := {
  cert_RegistrationID : Z;
  cert_Serial : string;
  cert_Digest : string;
  cert_DER : string;
  cert_Issued : Z;
  cert_Expires : Z
}.

(** [core.CertificateStatus] and [sa.certStatusModel] have the same fields. *)
Record CertificateStatus := {
  cs_Serial : string;
  cs_SubscriberApproved : bool;
  cs_Status : string;
  cs_OCSPLastUpdated : Z;
  cs_RevokedDate : Z;
  cs_RevokedReason : Z;
  cs_LastExpirationNagSent : Z;
  cs_OCSPResponse : string;
  cs_NotAfter : Z;
  cs_IsExpired : bool;
  cs_LockCol : Z
}.

Record SignedCertificateTimestamp := {
  sct_ID : Z;
  sct_SCTVersion : Z;
  sct_LogID : string;
  sct_Timestamp : Z;
  sct_Extensions : string;
  sct_Signature : string;
  sct_CertificateSerial : string;
  sct_LockCol : Z
}.

Record FQDNSet := {
  fs_ID : Z;
  fs_SetHash : string;
  fs_Serial : string;
  fs_Issued : Z;
  fs_Expires : Z
}.

(** ** core/util.go *)

Definition flag (st : Features.state) (f : Z) : bool := default false (Features.Enabled f st).

Definition ValidChallenge (fs : Features.state) (name : string) : bool :=
  if bool_decide (name = ChallengeTypeHTTP01) then true
  else if bool_decide (name = ChallengeTypeTLSSNI01) then true
  else if bool_decide (name = ChallengeTypeDNS01) then true
  else if bool_decide (name = ChallengeTypeTLSSNI02) then flag fs Features.AllowTLS02Challenges
  else false.

(** [RandomString] on the bytes read from [rand.Reader]. *)
Definition RandomString (b : string) : string := b64_encode false b.

(** Regexp character class: ASCII word characters and the dash. *)
Definition is_token_char (c : ascii) : bool :=
  in_range "a" "z" c || in_range "A" "Z" c || in_range "0" "9" c || Ascii.eqb c "_" || Ascii.eqb c "-".

(** [tokenFormat]: exactly 43 such characters. *)
Definition LooksLikeAToken (token : string) : bool :=
  (len token =? 43) && all_chars is_token_char token.

(** [base64.StdEncoding]: the URL alphabet with two characters exchanged. *)
Definition std_char (c : ascii) : ascii :=
  if Ascii.eqb c "-" then "+"%char else if Ascii.eqb c "_" then "/"%char else c.
Definition std_encode (s : string) : string := smap std_char (b64_encode true s).
Definition url_char (c : ascii) : ascii :=
  if Ascii.eqb c "+" then "-"%char else if Ascii.eqb c "/" then "_"%char else c.
Definition std_decode (s : string) : option string :=
  if has_char "-" s || has_char "_" s then None else b64_decode true (smap url_char s).

(** The dynamic types [KeyDigest] switches on. *)
Inductive KeyArg :=
| JwkPtr (k : option JsonWebKey)
| JwkVal (k : JsonWebKey)
| RawKey (k : PublicKey).

Section digests.
Context {Cr : Crypto}.

Definition Fingerprint256 (data : string) : string := b64_encode false (sha256 data).

Definition KeyDigest_raw (key : PublicKey) : result error string :=
  match MarshalPKIXPublicKey key with
  | None => Err (PlainError "x509: only RSA and ECDSA public keys supported")
  | Some keyDER => Ok (std_encode (sha256 keyDER))
  end.

Definition KeyDigest (key : KeyArg) : result error string :=
  match key with
  | JwkPtr None => Err (PlainError "Cannot compute digest of nil key")
  | JwkPtr (Some t) => KeyDigest_raw (Key t)
  | JwkVal t => KeyDigest_raw (Key t)
  | RawKey k => KeyDigest_raw k
  end.

Definition KeyDigestEquals (j k : KeyArg) : bool :=
  match KeyDigest j, KeyDigest k with
  | Ok digestJ, Ok digestK => String.eqb digestJ digestK
  | _, _ => false
  end.

(** [PublicKeysEqual]; a nil argument is [None]. *)
Definition PublicKeysEqual (a b : option PublicKey) : result error bool :=
  match a, b with
  | Some a, Some b =>
      match MarshalPKIXPublicKey a, MarshalPKIXPublicKey b with
      | Some aBytes, Some bBytes => Ok (String.eqb aBytes bBytes)
      | _, _ => Err (PlainError "x509: only RSA and ECDSA public keys supported")
      end
  | _, _ => Err (PlainError "One or more nil arguments to PublicKeysEqual")
  end.

(** [Challenge.ExpectedKeyAuthorization]. *)
Definition ExpectedKeyAuthorization (ch : Challenge) (key : option JsonWebKey) : result error string :=
  match key with
  | None => Err (PlainError "Cannot authorize a nil key")
  | Some key =>
      match Thumbprint (Key key) with
      | None => Err (PlainError "square/go-jose: unknown key type")
      | Some thumbprint => Ok (ch_Token ch ++s "." ++s b64_encode false thumbprint)
      end
  end.

End digests.

(** [fmt.Sprintf("%036x", serial)]. *)
Definition SerialToString (serial : Z) : string :=
  let ds := chars_of hex_char (digits 16 (Z.abs serial)) in
  let sign := if serial <? 0 then "-" else EmptyString in
  sign ++s repeat_char "0" (Z.to_nat (36 - len sign - len ds)) ++s ds.

(** [hex.DecodeString] succeeds: an even number of hexadecimal digits. *)
Definition is_hex (c : ascii) : bool := match hex_val c with Some _ => true | None => false end.
Definition hex_decodes (s : string) : bool := all_chars is_hex s && Z.even (len s).

Definition ValidSerial (serial : string) : bool :=
  if (len serial <? 32) && (36 <? len serial) then false
  else hex_decodes serial.

(** [fmt.Sscanf(serial, "%036x", &n)] on a string of hexadecimal digits: at most
    36 of them are read, and at least one must be there. *)
Definition scan_hex36 (s : string) : option Z :=
  match vals_of hex_val (String.substring 0 36 s) with
  | Some (d :: ds) => Some (value 16 (d :: ds))
  | _ => None
  end.

Definition StringToSerial (serial : string) : result error Z :=
  if negb (ValidSerial serial) then Err (PlainError "Invalid serial number")
  else match scan_hex36 serial with
       | Some n => Ok n
       | None => Err (PlainError "unexpected EOF")
       end.

(** [base64URLEncode] and [base64URLDecode] of core/objects.go. *)
Definition base64URLEncode (data : string) : string := trim_right "=" (b64_encode true data).
Definition base64URLDecode (data : string) : result error string :=
  let missing := (4 - len data mod 4) mod 4 in
  match b64_decode true (data ++s repeat_char "=" (Z.to_nat missing)) with
  | Some b => Ok b
  | None => Err (PlainError "illegal base64 data")
  end.

Definition IsASCII (str : string) : bool := is_ascii str.

Section names.
Context {GL : GoLib}.

(** [UniqueLowerNames]: the keys of a map, in some order, then sorted. *)
Definition UniqueLowerNames (names : list string) : list string :=
  let nameMap : gset string := list_to_set (map ToLower names) in
  sort_strings (elements nameMap).

End names.

(** ** Challenges and their sanity checks *)

(** [newChallenge], on the token it draws. *)
Definition newChallenge (challengeType token : string) : Challenge :=
  {| ch_ID := 0; ch_Type := challengeType; ch_Status := StatusPending; ch_Error := None;
     ch_URI := EmptyString; ch_Token := token; ch_ProvidedKeyAuthorization := EmptyString;
     ch_ValidationRecord := [] |}.
Definition HTTPChallenge01 (token : string) := newChallenge ChallengeTypeHTTP01 token.
Definition TLSSNIChallenge01 (token : string) := newChallenge ChallengeTypeTLSSNI01 token.
Definition TLSSNIChallenge02 (token : string) := newChallenge ChallengeTypeTLSSNI02 token.
Definition DNSChallenge01 (token : string) := newChallenge ChallengeTypeDNS01 token.

Definition looksLikeKeyAuthorization (str : string) : result error unit :=
  match split_on "." str with
  | [p0; p1] =>
      if negb (LooksLikeAToken p0) then
        Err (PlainError "Invalid key authorization: malformed token")
      else if negb (LooksLikeAToken p1) then
        Err (PlainError "Invalid key authorization: malformed key thumbprint")
      else Ok tt
  | _ => Err (PlainError "Invalid key authorization: does not look like a key authorization")
  end.

Definition is_empty (s : string) : bool := String.eqb s EmptyString.
Definition is_nil {A} (o : option A) : bool := match o with None => true | Some _ => false end.

Definition RecordsSane (ch : Challenge) : bool :=
  match ch_ValidationRecord ch with
  | [] => false
  | rec0 :: rest =>
      if bool_decide (ch_Type ch = ChallengeTypeHTTP01) then
        forallb (fun rec =>
          negb (is_empty (vr_URL rec) || is_empty (vr_Hostname rec) || is_empty (vr_Port rec)
                || is_nil (vr_AddressUsed rec) || bool_decide (vr_AddressesResolved rec = [])))
          (rec0 :: rest)
      else if bool_decide (ch_Type ch = ChallengeTypeTLSSNI01)
              || bool_decide (ch_Type ch = ChallengeTypeTLSSNI02) then
        if (1 <? Z.of_nat (length (rec0 :: rest))) then false
        else if negb (is_empty (vr_URL rec0)) then false
        else if is_empty (vr_Hostname rec0) || is_empty (vr_Port rec0)
                || is_nil (vr_AddressUsed rec0) || bool_decide (vr_AddressesResolved rec0 = [])
             then false
        else true
      else if bool_decide (ch_Type ch = ChallengeTypeDNS01) then
        if (1 <? Z.of_nat (length (rec0 :: rest))) then false
        else if is_empty (vr_Hostname rec0) then false
        else true
      else false
  end.

Definition IsSane (ch : Challenge) (completed : bool) : bool :=
  if negb (String.eqb (ch_Status ch) StatusPending) then false
  else if negb (LooksLikeAToken (ch_Token ch)) then false
  else if negb completed && negb (is_empty (ch_ProvidedKeyAuthorization ch)) then false
  else if completed && negb (is_ok (looksLikeKeyAuthorization (ch_ProvidedKeyAuthorization ch))) then false
  else true.

Definition IsSaneForClientOffer (ch : Challenge) : bool := IsSane ch false.
Definition IsSaneForValidation (ch : Challenge) : bool := IsSane ch true.

(** [Authorization.FindChallenge]. *)
Fixpoint find_challenge (challs : list Challenge) (challengeID : Z) (i : Z) : Z :=
  match challs with
  | [] => -1
  | c :: challs' => if ch_ID c =? challengeID then i else find_challenge challs' challengeID (i + 1)
  end.
Definition FindChallenge (authz : Authorization) (challengeID : Z) : Z :=
  find_challenge (az_Challenges authz) challengeID 0.

(** ** revocation/reasons.go *)

Definition UserAllowedReasons : gset Z := {[ 0; 1; 3; 4; 5 ]}.
Definition reasons : gmap Z string := list_to_map [(0, "unspecified"); (1, "keyCompromise"); (2, "cACompromise");
  (3, "affiliationChanged"); (4, "superseded"); (5, "cessationOfOperation"); (6, "certificateHold");
  (8, "removeFromCRL"); (9, "privilegeWithdrawn"); (10, "aAcompromise")].
Definition ReasonToString (r : Z) : string := default EmptyString (reasons !! r).

(** ** Open authorizations *)

(** Nothing has decided the authorization yet: no challenge is valid, and every
    combination asks for one. *)
Definition undecided (a : Authorization) : Prop :=
  Forall (fun c => ch_Status c <> StatusValid) (az_Challenges a) /\
  Forall (fun combo => combo <> []) (az_Combinations a).

(** ** Validation records *)

(** A record that names a server: host, port, addresses, and the one used. *)
Definition names_server (rec : ValidationRecord) : Prop :=
  vr_Hostname rec <> EmptyString /\ vr_Port rec <> EmptyString /\ vr_AddressUsed rec <> None /\
  vr_AddressesResolved rec <> [].

(** Records as they must be kept: for HTTP at least one, each with its URL; otherwise
    just one, which for TLS names the server and has no URL. *)
Definition sane_records (type : string) (records : list ValidationRecord) : Prop :=
  (type = ChallengeTypeHTTP01 /\ records <> [] /\
   Forall (fun rec => vr_URL rec <> EmptyString /\ names_server rec) records) \/
  ((type = ChallengeTypeTLSSNI01 \/ type = ChallengeTypeTLSSNI02) /\
   exists rec, records = [rec] /\ vr_URL rec = EmptyString /\ names_server rec) \/
  (type = ChallengeTypeDNS01 /\ exists rec, records = [rec] /\ vr_Hostname rec <> EmptyString).

Lemma is_empty_spec s : is_empty s = true <-> s = EmptyString.
Proof. apply String.eqb_eq. Qed.

Lemma server_missing rec : is_empty (vr_Hostname rec) || is_empty (vr_Port rec) || is_nil (vr_AddressUsed rec)
    || bool_decide (vr_AddressesResolved rec = []) = false <-> names_server rec.
Proof.
  unfold names_server. rewrite !orb_false_iff, <- !not_true_iff_false, !is_empty_spec, bool_decide_eq_true.
  assert (is_nil (vr_AddressUsed rec) = true <-> vr_AddressUsed rec = None) as -> by (by destruct (vr_AddressUsed rec)).
  tauto.
Qed.

Lemma one_record (rec0 : ValidationRecord) rest (P : ValidationRecord -> Prop) (b : bool) : (b = true <-> P rec0) ->
  (if 1 <? Z.of_nat (length (rec0 :: rest)) then false else b) = true <-> exists rec, rec0 :: rest = [rec] /\ P rec.
Proof.
  intros Hb. destruct rest as [|rec1 rest]; simpl.
  - rewrite Hb. split; [eauto|by intros (? & [= <-] & ?)].
  - destruct (Z.ltb_spec 1 (Z.of_nat (S (S (length rest))))); [|lia]. split; [done|by intros (? & ? & _)].
Qed.

Lemma RecordsSane_spec ch : RecordsSane ch = true <-> sane_records (ch_Type ch) (ch_ValidationRecord ch).
Proof.
  unfold RecordsSane, sane_records. destruct (ch_ValidationRecord ch) as [|rec0 rest].
  { split; [done|]. intros [(_ & ? & _)|[(_ & ? & ? & _)|(_ & ? & ? & _)]]; done. }
  destruct (bool_decide_reflect (ch_Type ch = ChallengeTypeHTTP01)) as [H1|H1];
    [|destruct (bool_decide_reflect (ch_Type ch = ChallengeTypeTLSSNI01)) as [H2|H2];
    [|destruct (bool_decide_reflect (ch_Type ch = ChallengeTypeTLSSNI02)) as [H3|H3];
    [|destruct (bool_decide_reflect (ch_Type ch = ChallengeTypeDNS01)) as [H4|H4]]]]; cbn [orb].
  - rewrite forallb_forall, Forall_forall. setoid_rewrite <- list_elem_of_In. setoid_rewrite negb_true_iff.
    assert (forall x, is_empty (vr_URL x) || is_empty (vr_Hostname x) || is_empty (vr_Port x) || is_nil (vr_AddressUsed x)
      || bool_decide (vr_AddressesResolved x = []) = false <-> vr_URL x <> EmptyString /\ names_server x) as Hx.
    { intros x. rewrite <- server_missing, <- !orb_assoc, orb_false_iff, <- not_true_iff_false, is_empty_spec. done. }
    setoid_rewrite Hx. rewrite H1. intuition congruence.
  - rewrite (one_record _ _ (fun rec => vr_URL rec = EmptyString /\ names_server rec)); [rewrite H2; intuition congruence|].
    rewrite <- is_empty_spec, <- server_missing. destruct (is_empty (vr_URL rec0)); [|by split; [|intros []]]. simpl.
    match goal with |- context [if ?b then false else true] => destruct b end; intuition congruence.
  - rewrite (one_record _ _ (fun rec => vr_URL rec = EmptyString /\ names_server rec)); [rewrite H3; intuition congruence|].
    rewrite <- is_empty_spec, <- server_missing. destruct (is_empty (vr_URL rec0)); [|by split; [|intros []]]. simpl.
    match goal with |- context [if ?b then false else true] => destruct b end; intuition congruence.
  - rewrite (one_record _ _ (fun rec => vr_Hostname rec <> EmptyString)); [rewrite H4; intuition congruence|].
    rewrite <- is_empty_spec. destruct (is_empty (vr_Hostname rec0)); intuition congruence.
  - intuition congruence.
Qed.

(** ** Tokens *)

Lemma is_b64_token c : is_b64 c = true -> is_token_char c = true.
Proof.
  intros H. enough (forall c, implb (is_b64 c) (is_token_char c) = true) as Himp.
  { specialize (Himp c). by rewrite H in Himp. }
  apply ascii_forall. vm_compute. reflexivity.
Qed.

Lemma is_token_char_no_dot c : is_token_char c = true -> negb (Ascii.eqb c ".") = true.
Proof. destruct (Ascii.eqb_spec c ".") as [->|]; [by vm_compute|done]. Qed.

(** 32 random bytes give a 43-character token. *)
Lemma RandomString_token b : len b = 32 -> LooksLikeAToken (RandomString b) = true.
Proof.
  intros H. unfold LooksLikeAToken, RandomString. rewrite b64_encode_length, H.
  simpl ((32 * 4 + 2) / 3 =? 43). rewrite andb_true_l.
  apply (all_chars_impl _ _ _ is_b64_token), b64_encode_chars.
Qed.

Lemma token_no_dot t : LooksLikeAToken t = true -> has_char "." t = false.
Proof.
  unfold LooksLikeAToken, has_char. intros [_ H]%andb_true_iff.
  by rewrite (all_chars_impl _ _ _ is_token_char_no_dot H).
Qed.

(** Every freshly drawn challenge passes the sanity check that gates its
    offer to the client, for each of the four challenge types. *)
Theorem new_challenges_are_sane (b : string) :
  len b = 32 ->
  Forall (fun ch => IsSaneForClientOffer ch = true /\ IsSaneForValidation ch = false)
    [HTTPChallenge01 (RandomString b); TLSSNIChallenge01 (RandomString b);
     TLSSNIChallenge02 (RandomString b); DNSChallenge01 (RandomString b)].
Proof.
  intros H. pose proof (RandomString_token b H) as HT.
  repeat constructor; unfold IsSaneForClientOffer, IsSaneForValidation, IsSane; cbn [ch_Token ch_Status newChallenge HTTPChallenge01 TLSSNIChallenge01 TLSSNIChallenge02 DNSChallenge01];
  rewrite HT; reflexivity.
Qed.

Section key_authorizations.
Context {Cr : Crypto}.

(** The key authorization the server computes for an offered challenge is
    one that completes it: storing it makes the challenge ready for the VA. *)
Theorem expected_key_authorization_completes {CL : CryptoLaws Cr} ch key ka :
  IsSaneForClientOffer ch = true -> ExpectedKeyAuthorization ch key = Ok ka ->
  looksLikeKeyAuthorization ka = Ok tt /\
  IsSaneForValidation {| ch_ID := ch_ID ch; ch_Type := ch_Type ch; ch_Status := ch_Status ch;
    ch_Error := ch_Error ch; ch_URI := ch_URI ch; ch_Token := ch_Token ch;
    ch_ProvidedKeyAuthorization := ka; ch_ValidationRecord := ch_ValidationRecord ch |} = true.
Proof.
  unfold IsSaneForClientOffer, IsSaneForValidation, IsSane, ExpectedKeyAuthorization.
  destruct (negb (String.eqb (ch_Status ch) _)) eqn:E1; [done|].
  destruct (negb (LooksLikeAToken (ch_Token ch))) eqn:E2; [done|]. intros _ Hk.
  destruct key as [k|]; [|done]. destruct (Thumbprint (Key k)) as [t|] eqn:Et; [|done].
  apply Ok_inj in Hk as <-. apply Thumbprint_len in Et.
  pose proof (RandomString_token t Et) as HT. unfold RandomString in HT.
  assert (looksLikeKeyAuthorization (ch_Token ch ++s "." ++s b64_encode false t) = Ok tt) as HL.
  { unfold looksLikeKeyAuthorization. change ("." ++s ?x) with (String "." x).
    rewrite split_on_app by (apply token_no_dot; bool_solve; assumption). rewrite split_on_single by (apply token_no_dot; bool_solve; assumption).
    by rewrite E2, HT. }
  split; [exact HL|]. cbn [ch_Status ch_Token ch_ProvidedKeyAuthorization].
  rewrite E1, E2, HL. reflexivity.
Qed.

End key_authorizations.

(** ** base64url with stripped padding *)

Lemma base64URLEncode_raw data : base64URLEncode data = b64_encode false data.
Proof.
  unfold base64URLEncode. destruct (b64_encode_pad data) as [n ->]. apply trim_right_app.
  eapply all_chars_impl; [|apply b64_encode_chars]. intros c Hc.
  unfold is_b64 in Hc. destruct (b64_val c) eqn:E; [|done]. by rewrite (b64_not_pad c z).
Qed.

Lemma b64_encode_padding s :
  b64_encode true s = b64_encode false s ++s
    repeat_char "=" (Z.to_nat ((4 - len (b64_encode false s) mod 4) mod 4)).
Proof.
  induction s as [s IH] using string_len_ind.
  destruct s as [|a [|b [|c s]]]; [reflexivity..|].
  specialize (IH s ltac:(simpl; lia)). cbn [b64_encode]. rewrite IH at 1.
  cbn [String.append]. do 5 f_equal. unfold len. cbn [String.length].
  f_equal. f_equal. rewrite !Nat2Z.inj_succ.
  replace (Z.succ (Z.succ (Z.succ (Z.succ (Z.of_nat (String.length (b64_encode false s)))))))
    with (Z.of_nat (String.length (b64_encode false s)) + 1 * 4) by lia.
  by rewrite Z.mod_add by lia.
Qed.

(** JOSE-style base64url: decoding restores the padding that encoding
    stripped and gives the bytes back; the encoding is the raw URL encoding. *)
Theorem base64URL_roundtrip (data : string) :
  base64URLEncode data = b64_encode false data /\
  base64URLDecode (base64URLEncode data) = Ok data.
Proof.
  split; [apply base64URLEncode_raw|]. unfold base64URLDecode.
  rewrite base64URLEncode_raw, <- b64_encode_padding. by rewrite b64_decode_encode.
Qed.

(** ** Serial numbers *)

Lemma vals_of_app f s t ds es :
  vals_of f s = Some ds -> vals_of f t = Some es -> vals_of f (s ++s t) = Some (ds ++ es).
Proof.
  revert ds. induction s as [|c s IH]; intros ds Hs Ht; simpl in *; [by simplify_eq|].
  destruct (f c); [|done]. destruct (vals_of f s); [|done]. simplify_eq. by erewrite IH.
Qed.

Lemma vals_of_repeat0 n : vals_of hex_val (repeat_char "0" n) = Some (replicate n 0).
Proof. induction n as [|n IH]; [done|]. simpl. by rewrite IH. Qed.

Lemma hex_digits_vals z : 0 <= z -> vals_of hex_val (chars_of hex_char (digits 16 z)) = Some (digits 16 z).
Proof.
  intros Hz. apply vals_of_chars_of. eapply Forall_impl; [apply digits_range; lia|].
  intros d Hd. by apply hex_val_char.
Qed.

Lemma vals_of_is_hex s ds : vals_of hex_val s = Some ds -> all_chars is_hex s = true.
Proof.
  revert ds. induction s as [|c s IH]; intros ds H; simpl in *; [done|].
  unfold is_hex. destruct (hex_val c); [|done]. destruct (vals_of hex_val s); [|done]. eauto.
Qed.

Lemma SerialToString_shape n : 0 <= n < 16 ^ 36 ->
  len (SerialToString n) = 36 /\
  exists k, vals_of hex_val (SerialToString n) = Some (replicate k 0 ++ digits 16 n).
Proof.
  intros Hn. unfold SerialToString. destruct (Z.ltb_spec n 0); [lia|].
  rewrite Z.abs_eq by lia. rewrite len_chars_of.
  assert (length (digits 16 n) <= 36)%nat by (apply digits_length; simpl; lia).
  split.
  - simpl String.append. rewrite len_app, len_repeat_char, len_chars_of.
    change (len EmptyString) with 0. lia.
  - eexists. simpl String.append. apply vals_of_app; [apply vals_of_repeat0|apply hex_digits_vals; lia].
Qed.

(** Serial numbers below 16^36 (144 bits, the CA's serials) survive the trip
    through their 36-digit string form, and that form is a valid serial. *)
Theorem serial_roundtrip (n : Z) :
  0 <= n < 16 ^ 36 ->
  len (SerialToString n) = 36 /\ ValidSerial (SerialToString n) = true /\
  StringToSerial (SerialToString n) = Ok n.
Proof.
  intros Hn. destruct (SerialToString_shape n Hn) as (HL & k & HV).
  assert (ValidSerial (SerialToString n) = true) as HVS.
  { unfold ValidSerial, hex_decodes. rewrite HL. simpl. by rewrite (vals_of_is_hex _ _ HV). }
  split_and!; [done..|]. unfold StringToSerial. rewrite HVS. simpl negb. cbv iota.
  unfold scan_hex36. rewrite substring_all by (unfold len in HL; lia). rewrite HV.
  destruct (digits_cons 16 n ltac:(lia) ltac:(lia)) as (d & ds & E).
  destruct (replicate k 0 ++ digits 16 n) as [|x xs] eqn:EL.
  { apply app_eq_nil in EL as [_ EL]. rewrite EL in E. discriminate. }
  rewrite <- EL, value_zeros, value_digits by lia. done.
Qed.

Lemma ValidSerial_spec s : ValidSerial s = all_chars is_hex s && Z.even (len s).
Proof.
  unfold ValidSerial. destruct (Z.ltb_spec (len s) 32), (Z.ltb_spec 36 (len s)); try done; lia.
Qed.

(** The length test of [ValidSerial] never fires: hexadecimal strings of any
    even length are accepted, the empty string included, and
    [StringToSerial] then maps distinct over-long strings to one number. *)
Theorem ValidSerial_ignores_length :
  (forall s, ValidSerial s = all_chars is_hex s && Z.even (len s)) /\
  ValidSerial EmptyString = true /\ ValidSerial "ff" = true /\
  exists s t, s <> t /\ StringToSerial s = StringToSerial t /\ is_ok (StringToSerial s) = true.
Proof.
  split_and!; [apply ValidSerial_spec|done..|].
  exists (SerialToString 1 ++s "00"), (SerialToString 1 ++s "01"). vm_compute. done.
Qed.

(** ** Name sets *)

Section name_facts.
Context {GL : GoLib}.

Lemma elem_of_UniqueLowerNames x names :
  x ∈ UniqueLowerNames names <-> x ∈ map ToLower names.
Proof.
  unfold UniqueLowerNames. rewrite sort_strings_perm, elem_of_elements, elem_of_list_to_set. done.
Qed.

Lemma UniqueLowerNames_NoDup names : NoDup (UniqueLowerNames names).
Proof. unfold UniqueLowerNames. rewrite sort_strings_perm. apply NoDup_elements. Qed.

Lemma UniqueLowerNames_ext ns ms :
  (forall x, x ∈ map ToLower ns <-> x ∈ map ToLower ms) -> UniqueLowerNames ns = UniqueLowerNames ms.
Proof.
  intros H. unfold UniqueLowerNames. f_equal. f_equal. apply set_eq. intros x.
  rewrite !elem_of_list_to_set. apply H.
Qed.

(** [UniqueLowerNames] returns the lower-cased names, sorted and without
    duplicates, and its result depends on nothing but the set of lower-cased
    names: order, repetition and letter case of the input do not matter. *)
Theorem UniqueLowerNames_canonical (names : list string) :
  StronglySorted str_le (UniqueLowerNames names) /\ NoDup (UniqueLowerNames names) /\
  (forall x, x ∈ UniqueLowerNames names <-> exists n, n ∈ names /\ x = ToLower n) /\
  (forall names', (forall x, x ∈ map ToLower names <-> x ∈ map ToLower names') ->
     UniqueLowerNames names = UniqueLowerNames names').
Proof.
  split_and!.
  - apply sort_strings_sorted.
  - apply UniqueLowerNames_NoDup.
  - intros x. rewrite elem_of_UniqueLowerNames, list_elem_of_fmap. naive_solver.
  - intros names'. apply UniqueLowerNames_ext.
Qed.

Lemma UniqueLowerNames_idem names :
  Forall (fun n => is_ascii n = true) names ->
  UniqueLowerNames (UniqueLowerNames names) = UniqueLowerNames names.
Proof.
  intros Hf. apply UniqueLowerNames_ext. intros x. rewrite !list_elem_of_fmap.
  setoid_rewrite elem_of_UniqueLowerNames. setoid_rewrite list_elem_of_fmap.
  rewrite Forall_forall in Hf. split.
  - intros (y & -> & z & -> & Hz). exists z. by rewrite ToLower_idem by auto.
  - intros (y & -> & Hy). exists (ToLower y). split; [by rewrite ToLower_idem by auto|eauto].
Qed.

End name_facts.

(** ** Challenge lookup *)

Lemma find_challenge_spec challs cid i :
  (find_challenge challs cid i = -1 /\ Forall (fun c => ch_ID c <> cid) challs) \/
  exists k c, find_challenge challs cid i = i + Z.of_nat k /\ challs !! k = Some c /\ ch_ID c = cid /\
    Forall (fun c => ch_ID c <> cid) (take k challs).
Proof.
  revert i. induction challs as [|c challs IH]; intros i; simpl; [left; by repeat constructor|].
  destruct (Z.eqb_spec (ch_ID c) cid).
  - right. exists 0%nat, c. split_and!; try done. lia.
  - destruct (IH (i + 1)) as [[H1 H2]|(k & c' & H1 & H2 & H3 & H4)].
    + left. split; [done|by constructor].
    + right. exists (S k), c'. split_and!; try done; [lia|by constructor].
Qed.

(** [FindChallenge] returns the position of the first challenge with the
    wanted ID, and -1 exactly when there is none. *)
Theorem FindChallenge_spec (authz : Authorization) (cid : Z) :
  (FindChallenge authz cid = -1 /\ Forall (fun c => ch_ID c <> cid) (az_Challenges authz)) \/
  exists k c, FindChallenge authz cid = Z.of_nat k /\ az_Challenges authz !! k = Some c /\
    ch_ID c = cid /\ Forall (fun c => ch_ID c <> cid) (take k (az_Challenges authz)).
Proof. apply (find_challenge_spec _ cid 0). Qed.

(** ** Witnesses *)

Definition toy_crypto : Crypto := {|
  sha256 := fun s => String.substring 0 32 (s ++s repeat_char "000" 32);
  MarshalPKIXPublicKey := fun k =>
    match k with
    | RSAKey n e => Some (itoa n ++s "," ++s itoa e)
    | ECDSAKey c x y => Some (itoa x ++s ";" ++s itoa y)
    | UnknownKey _ => None
    end;
  Thumbprint := fun k => match k with UnknownKey _ => None | _ => Some (repeat_char "t" 32) end |}.

Lemma substring_len n s : (n <= String.length s)%nat -> String.length (String.substring 0 n s) = n.
Proof.
  revert n. induction s as [|c s IH]; intros [|n] H; simpl in *; try done; [lia|].
  rewrite IH; lia.
Qed.

Lemma toy_crypto_laws : CryptoLaws toy_crypto.
Proof.
  split.
  - intros s. simpl. unfold len. rewrite substring_len; [done|]. rewrite slength_app. simpl. lia.
  - intros [] t; simpl; intros [= <-]; reflexivity.
Qed.

Definition toy_bytes : string := "0123456789abcdef0123456789abcdef".

Lemma new_challenges_are_sane_witness :
  IsSaneForClientOffer (HTTPChallenge01 (RandomString toy_bytes)) = true.
Proof.
  pose proof (new_challenges_are_sane toy_bytes eq_refl) as H. inversion H as [|? ? [H1 _] _]. exact H1.
Defined.

Lemma expected_key_authorization_completes_witness :
  exists ka, @ExpectedKeyAuthorization toy_crypto (HTTPChallenge01 (RandomString toy_bytes))
    (Some {| Key := RSAKey 15 3; Algorithm := EmptyString |}) = Ok ka /\ looksLikeKeyAuthorization ka = Ok tt.
Proof.
  eexists. split; [reflexivity|].
  apply (@expected_key_authorization_completes toy_crypto toy_crypto_laws
    (HTTPChallenge01 (RandomString toy_bytes)) (Some {| Key := RSAKey 15 3; Algorithm := EmptyString |})); reflexivity.
Defined.

Lemma serial_roundtrip_witness : StringToSerial (SerialToString 4660) = Ok 4660.
Proof. apply (serial_roundtrip 4660). lia. Defined.
