(* ===== verification/Grpc.v ===== *)
(** * The wire format (grpc/pb-marshalling.go, core/proto, sa/proto)

    The protobuf messages the servers exchange, and the conversions between them and
    the values of the core package.  A proto2 field that may be absent is an option;
    a repeated field is a list, and an empty one arrives as the nil slice.

    Every conversion is followed back by its inverse: what arrives is computed by
    [wire_record], [wire_challenge], [wire_authz], ..., which say exactly what a value
    loses on the way (the URI of a challenge, the type of an identifier, the length
    of an address, a missing expiry), and the values that arrive unchanged are
    characterised. *)

From S2P Require Import Prelude GoStd Net Errors Features Core.

(** ** Messages *)

Record PbProblemDetails := {
  pp_problemType : option string;
  pp_detail : option string;
  pp_httpStatus : option Z
}.

Record PbValidationRecord := {
  pv_hostname : option string;
  pv_port : option string;
  pv_addressesResolved : list string;
  pv_addressUsed : option string;
  pv_authorities : list string;
  pv_url : option string
}.

Record PbChallenge := {
  pc_id : option Z;
  pc_type : option string;
  pc_status : option string;
  pc_uri : option string;
  pc_token : option string;
  pc_keyAuthorization : option string;
  pc_validationrecords : list PbValidationRecord;
  pc_error : option PbProblemDetails
}.

Record PbCertificate := {
  pt_registrationID : option Z;
  pt_serial : option string;
  pt_digest : option string;
  pt_der : option string;
  pt_issued : option Z;
  pt_expires : option Z
}.

Record PbRegistration := {
  pr_id : option Z;
  pr_key : option string;
  pr_contact : list string;
  pr_contactsPresent : option bool;
  pr_agreement : option string;
  pr_initialIP : option string;
  pr_createdAt : option Z;
  pr_status : option string
}.

Record PbAuthorization := {
  pa_id : option string;
  pa_identifier : option string;
  pa_registrationID : option Z;
  pa_status : option string;
  pa_expires : option Z;
  pa_challenges : list PbChallenge;
  pa_combinations : option string
}.

Record PbCertificateStatus := {
  ps_serial : option string;
  ps_subscriberApproved : option bool;
  ps_status : option string;
  ps_ocspLastUpdated : option Z;
  ps_revokedDate : option Z;
  ps_revokedReason : option Z;
  ps_lastExpirationNagSent : option Z;
  ps_ocspResponse : option string;
  ps_notAfter : option Z;
  ps_isExpired : option bool
}.

Record PbSCT := {
  px_id : option Z;
  px_sctVersion : option Z;
  px_logID : option string;
  px_timestamp : option Z;
  px_extensions : option string;
  px_signature : option string;
  px_certificateSerial : option string
}.

(** [JsonWebKey.MarshalJSON] and [UnmarshalJSON] of go-jose, and encoding/json on
    a [[][]int]. *)
Class PbJSON := {
  jwk_MarshalJSON : JsonWebKey -> result error string;
  jwk_UnmarshalJSON : string -> result error JsonWebKey;
  marshal_combinations : list (list Z) -> string;
  unmarshal_combinations : string -> result error (list (list Z))
}.

Class PbJSONLaws (J : PbJSON) : Prop := {
  jwk_roundtrip k s : jwk_MarshalJSON k = Ok s -> jwk_UnmarshalJSON s = Ok k;
  combinations_roundtrip c : unmarshal_combinations (marshal_combinations c) = Ok c
}.

(** [for i, v := range l { out[i], err = f(v) ... }]: stops at the first error. *)
Fixpoint mapE {E A B} (f : A -> result E B) (l : list A) : result E (list B) :=
  match l with
  | [] => Ok []
  | x :: l => let? y := f x in let? ys := mapE f l in Ok (y :: ys)
  end.

(** A pointer that is needed: [e] when it is nil. *)
Definition need {A} (e : error) (p : option A) : result error A :=
  match p with Some a => Ok a | None => Err e end.

Module Grpc.

Definition ErrMissingParameters : error :=
  RpcError 9 "required RPC parameter was missing".
Definition errIncompleteRequest : error := PlainError "Incomplete gRPC request message".
Definition errIncompleteResponse : error := PlainError "Incomplete gRPC response message".

(** [Time.UnixNano] (the nanoseconds since 1970, wrapped at 64 bits) and the
    conversion to [int32]; [time.Unix(0, n)] is the time [n]. *)
Definition UnixNano (t : Z) : Z := wrap64 t.
Definition int32 (z : Z) : Z := (z + 2 ^ 31) mod 2 ^ 32 - 2 ^ 31.

(** [net.IP.MarshalText] and [UnmarshalText] on the addresses of the records, where
    [None] is the nil address. *)
Definition ip_text (ip : option string) : result error string :=
  need (PlainError "invalid IP address") (Net.MarshalText (default EmptyString ip)).
Definition text_ip (text : string) : result error (option string) :=
  let? ip := need (PlainError ("invalid IP address: " ++s text)) (Net.UnmarshalText text) in
  Ok (if is_empty ip then None else Some ip).

Section conversions.
Context {J : PbJSON}.

(** [authzMetaToPB] and [pbToAuthzMeta]: only the two IDs travel. *)
Definition authzMetaToPB (authz : Authorization) : option string * option Z :=
  (Some (az_ID authz), Some (az_RegistrationID authz)).
Definition pbToAuthzMeta (in_ : option (option string * option Z)) : result error Authorization :=
  match in_ with
  | Some (Some id, Some regID) =>
      Ok {| az_ID := id; az_Identifier := {| idType := EmptyString; idValue := EmptyString |};
            az_RegistrationID := regID; az_Status := EmptyString; az_Expires := None;
            az_Challenges := []; az_Combinations := [] |}
  | _ => Err ErrMissingParameters
  end.

Definition jwkToString (jwk : option JsonWebKey) : result error string :=
  let? jwk := need nil_dereference jwk in jwk_MarshalJSON jwk.
Definition stringToJWK (in_ : string) : result error (option JsonWebKey) :=
  let? jwk := jwk_UnmarshalJSON in_ in Ok (Some jwk).

Definition problemDetailsToPB (prob : option Probs.ProblemDetails) : option PbProblemDetails :=
  match prob with
  | None => None
  | Some prob => Some {| pp_problemType := Some (Probs.Type_ prob); pp_detail := Some (Probs.Detail prob);
                         pp_httpStatus := Some (int32 (Probs.HTTPStatus prob)) |}
  end.

Definition pbToProblemDetails (in_ : option PbProblemDetails) : result error (option Probs.ProblemDetails) :=
  match in_ with
  | None => Ok None
  | Some in_ =>
      let? type := need ErrMissingParameters (pp_problemType in_) in
      let? detail := need ErrMissingParameters (pp_detail in_) in
      Ok (Some {| Probs.Type_ := type; Probs.Detail := detail;
                  Probs.HTTPStatus := default 0 (pp_httpStatus in_) |})
  end.

Definition validationRecordToPB (record : ValidationRecord) : result error PbValidationRecord :=
  let? addrUsed := ip_text (vr_AddressUsed record) in
  Ok {| pv_hostname := Some (vr_Hostname record); pv_port := Some (vr_Port record);
        pv_addressesResolved := vr_AddressesResolved record; pv_addressUsed := Some addrUsed;
        pv_authorities := vr_Authorities record; pv_url := Some (vr_URL record) |}.

Definition pbToValidationRecord (in_ : option PbValidationRecord) : result error ValidationRecord :=
  let? in_ := need ErrMissingParameters in_ in
  let? addressUsed := need ErrMissingParameters (pv_addressUsed in_) in
  let? hostname := need ErrMissingParameters (pv_hostname in_) in
  let? port := need ErrMissingParameters (pv_port in_) in
  let? url := need ErrMissingParameters (pv_url in_) in
  let? addrUsed := text_ip addressUsed in
  Ok {| vr_Hostname := hostname; vr_Port := port; vr_AddressesResolved := pv_addressesResolved in_;
        vr_AddressUsed := addrUsed; vr_Authorities := pv_authorities in_; vr_URL := url |}.

Definition challengeToPB (challenge : Challenge) : result error PbChallenge :=
  let? recordAry := mapE validationRecordToPB (ch_ValidationRecord challenge) in
  Ok {| pc_id := Some (ch_ID challenge); pc_type := Some (ch_Type challenge);
        pc_status := Some (ch_Status challenge); pc_uri := None; pc_token := Some (ch_Token challenge);
        pc_keyAuthorization := Some (ch_ProvidedKeyAuthorization challenge);
        pc_validationrecords := recordAry; pc_error := problemDetailsToPB (ch_Error challenge) |}.

Definition pbToChallenge (in_ : option PbChallenge) : result error Challenge :=
  let? in_ := need ErrMissingParameters in_ in
  let? id := need ErrMissingParameters (pc_id in_) in
  let? type := need ErrMissingParameters (pc_type in_) in
  let? status := need ErrMissingParameters (pc_status in_) in
  let? token := need ErrMissingParameters (pc_token in_) in
  let? keyAuthorization := need ErrMissingParameters (pc_keyAuthorization in_) in
  let? recordAry := mapE (fun v => pbToValidationRecord (Some v)) (pc_validationrecords in_) in
  let? prob := pbToProblemDetails (pc_error in_) in
  Ok {| ch_ID := id; ch_Type := type; ch_Status := status; ch_Token := token;
        ch_ProvidedKeyAuthorization := keyAuthorization; ch_Error := prob; ch_URI := EmptyString;
        ch_ValidationRecord := recordAry |}.

(** [vapb.ValidationResult] and [vapb.PerformValidationRequest] are the tuples of
    their fields. *)
Definition validationResultToPB (records : list ValidationRecord) (prob : option Probs.ProblemDetails)
    : result error (list PbValidationRecord * option PbProblemDetails) :=
  let? recordAry := mapE validationRecordToPB records in
  Ok (recordAry, problemDetailsToPB prob).

Definition pbToValidationResult (in_ : option (list PbValidationRecord * option PbProblemDetails))
    : result error (list ValidationRecord * option Probs.ProblemDetails) :=
  let? (records, problems) := need ErrMissingParameters in_ in
  let? recordAry := mapE (fun v => pbToValidationRecord (Some v)) records in
  let? prob := pbToProblemDetails problems in
  Ok (recordAry, prob).

Definition performValidationReqToArgs
    (in_ : option (option string * option PbChallenge * option (option string * option Z)))
    : result error (string * Challenge * Authorization) :=
  let? (domain, challenge, authz) := need ErrMissingParameters in_ in
  let? domain := need ErrMissingParameters domain in
  let? challenge := pbToChallenge challenge in
  let? authz := pbToAuthzMeta authz in
  Ok (domain, challenge, authz).

Definition argsToPerformValidationRequest (domain : string) (challenge : Challenge) (authz : Authorization)
    : result error (option string * option PbChallenge * option (option string * option Z)) :=
  let? pbChall := challengeToPB challenge in
  Ok (Some domain, Some pbChall, Some (authzMetaToPB authz)).

Definition registrationToPB (reg : Registration) : result error PbRegistration :=
  let? key := need nil_dereference (reg_Key reg) in
  let? keyBytes := jwk_MarshalJSON key in
  let? ipBytes := ip_text (reg_InitialIP reg) in
  Ok {| pr_id := Some (reg_ID reg); pr_key := Some keyBytes; pr_contact := default [] (reg_Contact reg);
        pr_contactsPresent := Some (bool_decide (is_Some (reg_Contact reg)));
        pr_agreement := Some (reg_Agreement reg); pr_initialIP := Some ipBytes;
        pr_createdAt := Some (UnixNano (reg_CreatedAt reg)); pr_status := Some (reg_Status reg) |}.

(** A nil [Key] or [InitialIP] is the empty input to its decoder. *)
Definition pbToRegistration (pb : PbRegistration) : result error Registration :=
  let? key := jwk_UnmarshalJSON (default EmptyString (pr_key pb)) in
  let? initialIP := text_ip (default EmptyString (pr_initialIP pb)) in
  let? contactsPresent := need nil_dereference (pr_contactsPresent pb) in
  let? id := need nil_dereference (pr_id pb) in
  let? agreement := need nil_dereference (pr_agreement pb) in
  let? createdAt := need nil_dereference (pr_createdAt pb) in
  let? status := need nil_dereference (pr_status pb) in
  Ok {| reg_ID := id; reg_Key := Some key;
        reg_Contact := if contactsPresent : bool then Some (pr_contact pb) else None;
        reg_Agreement := agreement; reg_InitialIP := initialIP; reg_CreatedAt := createdAt;
        reg_Status := status |}.

Definition authzToPB (authz : Authorization) : result error PbAuthorization :=
  let? challs := mapE challengeToPB (az_Challenges authz) in
  let comboBytes := marshal_combinations (az_Combinations authz) in
  let expires := match az_Expires authz with Some e => UnixNano e | None => 0 end in
  Ok {| pa_id := Some (az_ID authz); pa_identifier := Some (idValue (az_Identifier authz));
        pa_registrationID := Some (az_RegistrationID authz); pa_status := Some (az_Status authz);
        pa_expires := Some expires; pa_challenges := challs; pa_combinations := Some comboBytes |}.

Definition pbToAuthz (pb : PbAuthorization) : result error Authorization :=
  let? challs := mapE (fun c => pbToChallenge (Some c)) (pa_challenges pb) in
  let? combos := unmarshal_combinations (default EmptyString (pa_combinations pb)) in
  let? expires := need nil_dereference (pa_expires pb) in
  let? id := need nil_dereference (pa_id pb) in
  let? identifier := need nil_dereference (pa_identifier pb) in
  let? registrationID := need nil_dereference (pa_registrationID pb) in
  let? status := need nil_dereference (pa_status pb) in
  Ok {| az_ID := id; az_Identifier := {| idType := IdentifierDNS; idValue := identifier |};
        az_RegistrationID := registrationID; az_Status := status; az_Expires := Some expires;
        az_Challenges := challs; az_Combinations := combos |}.

Definition absent {A} (p : option A) : bool := match p with None => true | Some _ => false end.

Definition registrationValid (reg : PbRegistration) : bool :=
  negb (absent (pr_id reg) || absent (pr_key reg) || absent (pr_agreement reg) || absent (pr_initialIP reg)
        || absent (pr_createdAt reg) || absent (pr_status reg) || absent (pr_contactsPresent reg)).
Definition authorizationValid (authz : PbAuthorization) : bool :=
  negb (absent (pa_id authz) || absent (pa_identifier authz) || absent (pa_registrationID authz)
        || absent (pa_status authz) || absent (pa_expires authz)).
Definition certificateValid (cert : PbCertificate) : bool :=
  negb (absent (pt_registrationID cert) || absent (pt_serial cert) || absent (pt_digest cert)
        || absent (pt_der cert) || absent (pt_issued cert) || absent (pt_expires cert)).
Definition sctValid (sct : PbSCT) : bool :=
  negb (absent (px_id sct) || absent (px_sctVersion sct) || absent (px_logID sct) || absent (px_timestamp sct)
        || absent (px_signature sct) || absent (px_certificateSerial sct)).

(** The byte slices of certificates and SCTs come out of a database row, a PEM block
    or a parsed response, and are not nil. *)
Definition sctToPB (sct : SignedCertificateTimestamp) : PbSCT :=
  {| px_id := Some (wrap64 (sct_ID sct)); px_sctVersion := Some (sct_SCTVersion sct);
     px_logID := Some (sct_LogID sct); px_timestamp := Some (wrap64 (sct_Timestamp sct));
     px_extensions := Some (sct_Extensions sct); px_signature := Some (sct_Signature sct);
     px_certificateSerial := Some (sct_CertificateSerial sct) |}.

Definition pbToSCT (pb : PbSCT) : result error SignedCertificateTimestamp :=
  let? id := need nil_dereference (px_id pb) in
  let? version := need nil_dereference (px_sctVersion pb) in
  let? logID := need nil_dereference (px_logID pb) in
  let? timestamp := need nil_dereference (px_timestamp pb) in
  let? serial := need nil_dereference (px_certificateSerial pb) in
  Ok {| sct_ID := id; sct_SCTVersion := version mod 2 ^ 8; sct_LogID := logID;
        sct_Timestamp := timestamp mod 2 ^ 64; sct_Extensions := default EmptyString (px_extensions pb);
        sct_Signature := default EmptyString (px_signature pb); sct_CertificateSerial := serial;
        sct_LockCol := 0 |}.

Definition certToPB (cert : Certificate) : PbCertificate :=
  {| pt_registrationID := Some (cert_RegistrationID cert); pt_serial := Some (cert_Serial cert);
     pt_digest := Some (cert_Digest cert); pt_der := Some (cert_DER cert);
     pt_issued := Some (UnixNano (cert_Issued cert)); pt_expires := Some (UnixNano (cert_Expires cert)) |}.

Definition pbToCert (pb : PbCertificate) : result error Certificate :=
  let? registrationID := need nil_dereference (pt_registrationID pb) in
  let? serial := need nil_dereference (pt_serial pb) in
  let? digest := need nil_dereference (pt_digest pb) in
  let? issued := need nil_dereference (pt_issued pb) in
  let? expires := need nil_dereference (pt_expires pb) in
  Ok {| cert_RegistrationID := registrationID; cert_Serial := serial; cert_Digest := digest;
        cert_DER := default EmptyString (pt_der pb); cert_Issued := issued; cert_Expires := expires |}.

End conversions.

(** ** What arrives *)

Definition wire_addr (ip : option string) : option string :=
  let a := default EmptyString ip in if is_empty a then None else Some (Net.To16 a).
Definition wire_problem (p : Probs.ProblemDetails) : Probs.ProblemDetails :=
  {| Probs.Type_ := Probs.Type_ p; Probs.Detail := Probs.Detail p;
     Probs.HTTPStatus := int32 (Probs.HTTPStatus p) |}.
Definition wire_record (r : ValidationRecord) : ValidationRecord :=
  {| vr_Authorities := vr_Authorities r; vr_URL := vr_URL r; vr_Hostname := vr_Hostname r;
     vr_Port := vr_Port r; vr_AddressesResolved := vr_AddressesResolved r;
     vr_AddressUsed := wire_addr (vr_AddressUsed r) |}.
Definition wire_challenge (c : Challenge) : Challenge :=
  {| ch_ID := ch_ID c; ch_Type := ch_Type c; ch_Status := ch_Status c;
     ch_Error := option_map wire_problem (ch_Error c); ch_URI := EmptyString; ch_Token := ch_Token c;
     ch_ProvidedKeyAuthorization := ch_ProvidedKeyAuthorization c;
     ch_ValidationRecord := map wire_record (ch_ValidationRecord c) |}.
Definition wire_authz (a : Authorization) : Authorization :=
  {| az_ID := az_ID a;
     az_Identifier := {| idType := IdentifierDNS; idValue := idValue (az_Identifier a) |};
     az_RegistrationID := az_RegistrationID a; az_Status := az_Status a;
     az_Expires := Some (match az_Expires a with Some e => UnixNano e | None => 0 end);
     az_Challenges := map wire_challenge (az_Challenges a); az_Combinations := az_Combinations a |}.
Definition wire_registration (r : Registration) : Registration :=
  {| reg_ID := reg_ID r; reg_Key := reg_Key r; reg_Contact := reg_Contact r;
     reg_Agreement := reg_Agreement r; reg_InitialIP := wire_addr (reg_InitialIP r);
     reg_CreatedAt := UnixNano (reg_CreatedAt r); reg_Status := reg_Status r |}.
Definition wire_cert (c : Certificate) : Certificate :=
  {| cert_RegistrationID := cert_RegistrationID c; cert_Serial := cert_Serial c;
     cert_Digest := cert_Digest c; cert_DER := cert_DER c; cert_Issued := UnixNano (cert_Issued c);
     cert_Expires := UnixNano (cert_Expires c) |}.
Definition wire_sct (s : SignedCertificateTimestamp) : SignedCertificateTimestamp :=
  {| sct_ID := wrap64 (sct_ID s); sct_SCTVersion := sct_SCTVersion s mod 2 ^ 8; sct_LogID := sct_LogID s;
     sct_Timestamp := sct_Timestamp s mod 2 ^ 64; sct_Extensions := sct_Extensions s;
     sct_Signature := sct_Signature s; sct_CertificateSerial := sct_CertificateSerial s; sct_LockCol := 0 |}.

(** The values that can be sent: every address is nil, or has 4 or 16 bytes. *)
Definition addr_ok (ip : option string) : bool :=
  let n := len (default EmptyString ip) in (n =? 0) || (n =? 4) || (n =? 16).
Definition record_ok (r : ValidationRecord) : bool := addr_ok (vr_AddressUsed r).
Definition challenge_ok (c : Challenge) : bool := forallb record_ok (ch_ValidationRecord c).
Definition authz_ok (a : Authorization) : bool := forallb challenge_ok (az_Challenges a).
Definition bad_ip : error := PlainError "invalid IP address".

Section roundtrips.
Context {J : PbJSON} {JL : PbJSONLaws J}.

Lemma len0 s : len s = 0 -> s = EmptyString.
Proof. destruct s; [done|]. rewrite Net.len_String. pose proof (len_nonneg s). lia. Qed.

Lemma addr_trip ip :
  (addr_ok ip = true -> exists t, ip_text ip = Ok t /\ text_ip t = Ok (wire_addr ip)) /\
  (addr_ok ip = false -> ip_text ip = Err bad_ip).
Proof.
  unfold addr_ok, ip_text, text_ip, wire_addr. set (a := default EmptyString ip). clearbody a. split.
  - intros [[->%Z.eqb_eq%len0|H%Z.eqb_eq]%orb_true_iff|H%Z.eqb_eq]%orb_true_iff; [by exists EmptyString| |];
      assert (len a = 0 \/ len a = 4 \/ len a = 16) as Hl by auto.
    all: destruct (Net.UnmarshalText_MarshalText a Hl) as (t & -> & Ht);
      exists t; simpl; rewrite Ht; simpl; split; [done|]; unfold Net.To16; rewrite H; by destruct a.
  - unfold Net.MarshalText. intros [[-> H4]%orb_false_iff H16]%orb_false_iff. by rewrite H4, H16.
Qed.

Lemma mapE_Ok {A B C} (f : A -> result error B) (g : B -> result error C) (h : A -> C) (ok : A -> bool) l :
  (forall x, ok x = true -> exists y, f x = Ok y /\ g y = Ok (h x)) ->
  forallb ok l = true -> exists ys, mapE f l = Ok ys /\ mapE g ys = Ok (map h l).
Proof.
  intros Hf. induction l as [|x l IH]; simpl; [by exists []|].
  intros [Hx Hl]%andb_true_iff. destruct (Hf x Hx) as (y & -> & Hy). destruct (IH Hl) as (ys & -> & Hys).
  exists (y :: ys). split; [done|]. simpl. by rewrite Hy; simpl; rewrite Hys.
Qed.

Lemma mapE_Err {A B} (f : A -> result error B) (ok : A -> bool) (e : error) l :
  (forall x, ok x = true -> is_ok (f x) = true) -> (forall x, ok x = false -> f x = Err e) ->
  forallb ok l = false -> mapE f l = Err e.
Proof.
  intros Hok Hbad. induction l as [|x l IH]; [done|]. simpl. destruct (ok x) eqn:Ex; simpl.
  - intros Hl. specialize (Hok x Ex). destruct (f x); [|done]. simpl. by rewrite IH.
  - intros _. by rewrite Hbad.
Qed.

Lemma problem_trip p : pbToProblemDetails (problemDetailsToPB p) = Ok (option_map wire_problem p).
Proof. by destruct p. Qed.

Lemma record_trip r :
  (record_ok r = true -> exists pb, validationRecordToPB r = Ok pb /\ pbToValidationRecord (Some pb) = Ok (wire_record r)) /\
  (record_ok r = false -> validationRecordToPB r = Err bad_ip).
Proof.
  unfold record_ok, validationRecordToPB. destruct (addr_trip (vr_AddressUsed r)) as [H1 H2].
  split; intros H; [|by rewrite H2].
  destruct (H1 H) as (t & -> & Ht). eexists. split; [done|]. unfold pbToValidationRecord. simpl. by rewrite Ht.
Qed.

Lemma challenge_trip c :
  (challenge_ok c = true -> exists pb, challengeToPB c = Ok pb /\ pbToChallenge (Some pb) = Ok (wire_challenge c)) /\
  (challenge_ok c = false -> challengeToPB c = Err bad_ip).
Proof.
  unfold challenge_ok, challengeToPB. split; intros H.
  - destruct (mapE_Ok validationRecordToPB (fun v => pbToValidationRecord (Some v)) wire_record record_ok _
      (fun r => proj1 (record_trip r)) H) as (pbs & -> & Hp).
    eexists. split; [done|]. unfold pbToChallenge. simpl. rewrite Hp. simpl. by rewrite problem_trip.
  - rewrite (mapE_Err _ record_ok bad_ip); try done; [|apply record_trip].
    intros r Hr. by destruct (proj1 (record_trip r) Hr) as (? & -> & _).
Qed.

Lemma authz_trip a :
  (authz_ok a = true -> exists pb, authzToPB a = Ok pb /\ authorizationValid pb = true /\
     pbToAuthz pb = Ok (wire_authz a)) /\
  (authz_ok a = false -> authzToPB a = Err bad_ip).
Proof.
  unfold authz_ok, authzToPB. split; intros H.
  - destruct (mapE_Ok challengeToPB (fun v => pbToChallenge (Some v)) wire_challenge challenge_ok _
      (fun r => proj1 (challenge_trip r)) H) as (pbs & -> & Hp).
    eexists. split_and!; [done..|]. unfold pbToAuthz. simpl. rewrite Hp. simpl. by rewrite combinations_roundtrip.
  - rewrite (mapE_Err _ challenge_ok bad_ip); try done; [|apply challenge_trip].
    intros r Hr. by destruct (proj1 (challenge_trip r) Hr) as (? & -> & _).
Qed.

(** What sending a registration does: nil keys panic, keys that have no JSON form and
    addresses of a wrong length are refused, every other registration arrives. *)
Definition registration_sent (r : Registration) : result error Registration :=
  match reg_Key r with
  | None => Err nil_dereference
  | Some k =>
      match jwk_MarshalJSON k with
      | Err e => Err e
      | Ok _ => if addr_ok (reg_InitialIP r) then Ok (wire_registration r) else Err bad_ip
      end
  end.

Lemma registration_trip r :
  match registration_sent r with
  | Ok r' => exists pb, registrationToPB r = Ok pb /\ registrationValid pb = true /\ pbToRegistration pb = Ok r'
  | Err e => registrationToPB r = Err e
  end.
Proof.
  unfold registration_sent, registrationToPB. destruct (reg_Key r) as [k|] eqn:Ek; [|done]. simpl.
  destruct (jwk_MarshalJSON k) as [s|] eqn:Es; [|done]. simpl. apply jwk_roundtrip in Es.
  destruct (addr_trip (reg_InitialIP r)) as [H1 H2]. destruct (addr_ok _); [|by rewrite H2].
  destruct (H1 eq_refl) as (t & -> & Ht). eexists. split_and!; [done..|].
  unfold pbToRegistration. simpl. rewrite Es. simpl. rewrite Ht. simpl. unfold wire_registration.
  rewrite Ek. by destruct (reg_Contact r).
Qed.

Lemma cert_trip c : certificateValid (certToPB c) = true /\ pbToCert (certToPB c) = Ok (wire_cert c).
Proof. done. Qed.

Lemma wrap64_mod z : wrap64 z mod 2 ^ 64 = z mod 2 ^ 64.
Proof. unfold wrap64. rewrite <- Zminus_mod_idemp_l, Zmod_mod, Zminus_mod_idemp_l. f_equal. lia. Qed.

Lemma sct_trip s : sctValid (sctToPB s) = true /\ pbToSCT (sctToPB s) = Ok (wire_sct s).
Proof.
  split; [done|]. unfold pbToSCT, wire_sct. simpl. by rewrite wrap64_mod.
Qed.

(** An authorization sent over gRPC is refused when the address of a validation
    record has a length other than 0, 4 and 16; otherwise it passes the receiver's
    completeness check and arrives as [wire_authz] says. *)
Theorem authz_roundtrip a :
  (let? pb := authzToPB a in
   if authorizationValid pb then pbToAuthz pb else Err errIncompleteRequest) =
  (if authz_ok a then Ok (wire_authz a) else Err bad_ip).
Proof.
  destruct (authz_trip a) as [H1 H2]. destruct (authz_ok a); [|by rewrite H2].
  destruct (H1 eq_refl) as (pb & -> & Hv & Hp). simpl. by rewrite Hv.
Qed.

(** A registration arrives with its contacts as they were, a nil list and an empty
    one kept apart although the repeated field cannot tell them. *)
Theorem registration_roundtrip r :
  (let? pb := registrationToPB r in
   if registrationValid pb then pbToRegistration pb else Err errIncompleteRequest) = registration_sent r.
Proof.
  pose proof (registration_trip r) as H. destruct (registration_sent r); [|by rewrite H].
  destruct H as (pb & -> & Hv & Hp). simpl. by rewrite Hv.
Qed.

End roundtrips.

(** ** Values that arrive unchanged *)

Lemma int32_id z : int32 z = z <-> - 2 ^ 31 <= z < 2 ^ 31.
Proof.
  unfold int32. pose proof (Z.mod_pos_bound (z + 2 ^ 31) (2 ^ 32)). split; [lia|].
  intros. rewrite Z.mod_small; lia.
Qed.

Lemma UnixNano_id t : UnixNano t = t <-> int64_ok t.
Proof. split; [intros <-; apply wrap64_ok|apply wrap64_id]. Qed.

(** An address in the form the net package decodes to: nil, or 16 bytes. *)
Definition addr_canonical (ip : option string) : Prop := forall a, ip = Some a -> len a = 16.
Definition challenge_carried (c : Challenge) : Prop :=
  ch_URI c = EmptyString /\
  (forall p, ch_Error c = Some p -> - 2 ^ 31 <= Probs.HTTPStatus p < 2 ^ 31) /\
  Forall (fun r => addr_canonical (vr_AddressUsed r)) (ch_ValidationRecord c).
Definition authz_carried (a : Authorization) : Prop :=
  idType (az_Identifier a) = IdentifierDNS /\ (exists e, az_Expires a = Some e /\ int64_ok e) /\
  Forall challenge_carried (az_Challenges a).

Lemma wire_addr_id ip : addr_ok ip = true -> wire_addr ip = ip <-> addr_canonical ip.
Proof.
  unfold addr_ok, wire_addr, addr_canonical. destruct ip as [a|]; simpl; [|by intros].
  intros H. destruct (is_empty a) eqn:Ea.
  - destruct a; [|done]. split; [done|]. intros Hc. by specialize (Hc _ eq_refl).
  - unfold Net.To16. split.
    + intros Ha%(inj Some) ? [= <-]. destruct (Z.eqb_spec (len a) 4) as [E4|E4].
      * apply (f_equal len) in Ha. rewrite len_app in Ha. change (len Net.v4InV6Prefix) with 12 in Ha. lia.
      * destruct (Z.eqb_spec (len a) 16) as [E|E]; [done|]. by subst a.
    + intros Hc. specialize (Hc _ eq_refl). by rewrite Hc.
Qed.

Lemma map_id_iff {A} (f : A -> A) (P : A -> Prop) (ok : A -> bool) l :
  (forall x, ok x = true -> f x = x <-> P x) -> forallb ok l = true -> map f l = l <-> Forall P l.
Proof.
  intros Hf. induction l as [|x l IH]; simpl; [by split|].
  intros [Hx Hl]%andb_true_iff. rewrite Forall_cons, <- (Hf x Hx), <- (IH Hl).
  split; [by intros [= -> ->]|by intros [-> ->]].
Qed.

Lemma wire_challenge_id c : challenge_ok c = true -> wire_challenge c = c <-> challenge_carried c.
Proof.
  unfold challenge_ok, challenge_carried. intros H.
  assert (map wire_record (ch_ValidationRecord c) = ch_ValidationRecord c <->
          Forall (fun r => addr_canonical (vr_AddressUsed r)) (ch_ValidationRecord c)) as <-.
  { apply (map_id_iff _ _ record_ok); [|done]. intros r Hr. rewrite <- wire_addr_id by done.
    destruct r; unfold wire_record; simpl. split; [by intros [=]|by intros ->]. }
  destruct c as [i t s e u k ka rs]; unfold wire_challenge; simpl. split.
  - intros [= He Hu Hr]. split_and!; [done| |done]. intros p ->. simpl in He.
    destruct p; injection He as He. by apply int32_id.
  - intros (-> & He & ->). f_equal. destruct e as [p|]; [|done]. simpl. f_equal.
    specialize (He p eq_refl). apply int32_id in He. destruct p; unfold wire_problem; simpl in *. by rewrite He.
Qed.

(** Exactly the authorizations that arrive unchanged: a DNS identifier, an expiry
    that fits 64 bits of nanoseconds, and challenges without URI whose addresses are in
    16-byte form and whose problem statuses fit 32 bits. *)
Theorem wire_authz_id a : authz_ok a = true -> wire_authz a = a <-> authz_carried a.
Proof.
  unfold authz_ok, authz_carried. intros H.
  rewrite <- (map_id_iff wire_challenge challenge_carried challenge_ok _ wire_challenge_id H).
  destruct a as [i [ty v] r s e cs co]; unfold wire_authz; simpl. split.
  - intros [= Ht He Hc]. split_and!; [done| |done]. destruct e as [e|]; [|done].
    exists e. split; [done|]. by apply UnixNano_id; injection He.
  - intros (-> & (x & -> & Hx) & ->). do 2 f_equal. by apply UnixNano_id.
Qed.

End Grpc.
