(* ===== verification/GoodKey.v ===== *)
(** * goodkey/good_key.go: which public keys are acceptable

    RSA moduli are checked for size, exponent and small factors; ECDSA points by
    the NIST SP800-56A routine.  The curve constants and the scalar
    multiplication of crypto/elliptic are the class [Elliptic]; the curve
    equation is the documented one, [y^2 = x^3 - 3x + b mod p]. *)

From S2P Require Import Prelude GoStd Errors Core.

(** [elliptic.CurveParams] and [Curve.ScalarMult] (the scalar is given as the
    number its bytes denote). *)
Class Elliptic := {
  curve_P : Curve -> Z;
  curve_N : Curve -> Z;
  curve_B : Curve -> Z;
  curve_Name : Curve -> string;
  ScalarMult : Curve -> Z -> Z -> Z -> Z * Z
}.

Module GoodKey.

Definition smallPrimeInts : list Z :=
  [2; 3; 5; 7; 11; 13; 17; 19; 23; 29; 31; 37; 41; 43; 47;
   53; 59; 61; 67; 71; 73; 79; 83; 89; 97; 101; 103; 107;
   109; 113; 127; 131; 137; 139; 149; 151; 157; 163; 167;
   173; 179; 181; 191; 193; 197; 199; 211; 223; 227; 229;
   233; 239; 241; 251; 257; 263; 269; 271; 277; 281; 283;
   293; 307; 311; 313; 317; 331; 337; 347; 349; 353; 359;
   367; 373; 379; 383; 389; 397; 401; 409; 419; 421; 431;
   433; 439; 443; 449; 457; 461; 463; 467; 479; 487; 491;
   499; 503; 509; 521; 523; 541; 547; 557; 563; 569; 571;
   577; 587; 593; 599; 601; 607; 613; 617; 619; 631; 641;
   643; 647; 653; 659; 661; 673; 677; 683; 691; 701; 709;
   719; 727; 733; 739; 743; 751].

Record KeyPolicy := {
  AllowRSA : bool;
  AllowECDSANISTP256 : bool;
  AllowECDSANISTP384 : bool
}.

Definition NewKeyPolicy : KeyPolicy :=
  {| AllowRSA := true; AllowECDSANISTP256 := true; AllowECDSANISTP384 := true |}.

(** [big.Int.BitLen]: the bits of the absolute value. *)
Definition BitLen (n : Z) : Z := if n =? 0 then 0 else Z.log2 (Z.abs n) + 1.

(** [big.Int.Mod] is Euclidean; the divisors here are positive. *)
Fixpoint divisible_by_any (primes : list Z) (i : Z) : bool :=
  match primes with
  | [] => false
  | prime :: primes' => if i mod prime =? 0 then true else divisible_by_any primes' i
  end.
Definition checkSmallPrimes (i : Z) : bool := divisible_by_any smallPrimeInts i.

Definition malformed (msg : string) : error := BoulderError Berrors.Malformed msg.

Definition goodKeyRSA (policy : KeyPolicy) (N E : Z) : result error unit :=
  if negb (AllowRSA policy) then Err (malformed "RSA keys are not allowed")
  else
    let modulusBitLen := BitLen N in
    let maxKeySize := 4096 in
    if modulusBitLen <? 2048 then Err (malformed ("key too small: " ++s itoa modulusBitLen))
    else if maxKeySize <? modulusBitLen then
      Err (malformed ("key too large: " ++s itoa modulusBitLen ++s " > " ++s itoa maxKeySize))
    else if negb (Z.rem modulusBitLen 8 =? 0) then
      Err (malformed ("key length wasn't a multiple of 8: " ++s itoa modulusBitLen))
    else if (Z.rem E 2 =? 0) || (E <? Z.shiftl 1 16 + 1) then
      Err (malformed ("key exponent should be odd and >2^16: " ++s itoa E))
    else if checkSmallPrimes N then Err (malformed "key divisible by small prime")
    else Ok tt.

Definition isPointAtInfinityNISTP (x y : Z) : bool := (x =? 0) && (y =? 0).

Section ecdsa.
Context {EC : Elliptic}.

(** [params == elliptic.P256().Params()] compares pointers to package-level
    singletons: it holds for that curve and no other. *)
Definition goodCurve (policy : KeyPolicy) (c : Curve) : result error unit :=
  if AllowECDSANISTP256 policy && bool_decide (c = P256) then Ok tt
  else if AllowECDSANISTP384 policy && bool_decide (c = P384) then Ok tt
  else Err (malformed ("ECDSA curve " ++s curve_Name c ++s " not allowed")).

Definition IsOnCurve (c : Curve) (x y : Z) : bool :=
  y * y mod curve_P c =? (x * x * x - 3 * x + curve_B c) mod curve_P c.

Definition goodKeyECDSA (policy : KeyPolicy) (c : Curve) (X Y : Z) : result error unit :=
  let? _ := goodCurve policy c in
  if isPointAtInfinityNISTP X Y then Err (malformed "key x, y must not be the point at infinity")
  else if (X <? 0) || (Y <? 0) then Err (malformed "key x, y must not be negative")
  else if (curve_P c <=? X) || (curve_P c <=? Y) then Err (malformed "key x, y must not exceed P-1")
  else if negb (IsOnCurve c X Y) then Err (malformed "key point is not on the curve")
  else
    let '(ox, oy) := ScalarMult c X Y (curve_N c) in
    if negb (isPointAtInfinityNISTP ox oy) then Err (malformed "public key does not have correct order")
    else Ok tt.

Definition GoodKey (policy : KeyPolicy) (key : PublicKey) : result error unit :=
  match key with
  | RSAKey N E => goodKeyRSA policy N E
  | ECDSAKey c X Y => goodKeyECDSA policy c X Y
  | UnknownKey typeName => Err (malformed ("unknown key type " ++s typeName))
  end.

End ecdsa.

(** ** What an accepted key looks like *)

Lemma divisible_by_any_false primes i :
  divisible_by_any primes i = false <-> Forall (fun p => i mod p <> 0) primes.
Proof.
  induction primes as [|p ps IH]; simpl; [by split; [constructor|]|].
  rewrite Forall_cons. destruct (Z.eqb_spec (i mod p) 0); [naive_solver|]. rewrite IH. naive_solver.
Qed.

(** The table holds a divisor of every number from 2 to 751: no prime is missing. *)
Lemma small_numbers_have_listed_factors d :
  2 <= d < 752 -> exists p, p ∈ smallPrimeInts /\ d mod p = 0.
Proof.
  intros Hd.
  assert (forallb (fun d => existsb (fun p => d mod p =? 0) smallPrimeInts) (seqZ 2 750) = true) as H
    by (vm_compute; reflexivity).
  rewrite forallb_forall in H. specialize (H d). apply existsb_exists in H as (p & Hp & E).
  - exists p. split; [by apply list_elem_of_In|by apply Z.eqb_eq].
  - apply list_elem_of_In, elem_of_seqZ. lia.
Qed.

Lemma smallPrimes_range p : p ∈ smallPrimeInts -> 2 <= p < 752.
Proof.
  assert (forallb (fun p => (2 <=? p) && (p <? 752)) smallPrimeInts = true) as H
    by (vm_compute; reflexivity).
  rewrite forallb_forall in H. intros Hp%list_elem_of_In%H. bool_solve. lia.
Qed.

Lemma checkSmallPrimes_spec N :
  checkSmallPrimes N = false <-> forall d, 2 <= d < 752 -> N mod d <> 0.
Proof.
  unfold checkSmallPrimes. rewrite divisible_by_any_false, Forall_forall. split.
  - intros H d Hd Hm. destruct (small_numbers_have_listed_factors d Hd) as (p & Hp & E).
    apply (H p Hp). apply smallPrimes_range in Hp.
    apply Z.mod_divide; [lia|]. apply Z.divide_trans with d; apply Z.mod_divide; lia.
  - intros H p Hp. apply H. by apply smallPrimes_range.
Qed.

Lemma BitLen_bounds N k l : 1 <= k -> k <= l ->
  k <= BitLen N <= l <-> 2 ^ (k - 1) <= Z.abs N < 2 ^ l.
Proof.
  intros Hk Hl. unfold BitLen. destruct (Z.eqb_spec N 0) as [->|Hn].
  - split; [lia|]. simpl. pose proof (Z.pow_pos_nonneg 2 (k - 1)). lia.
  - assert (0 < Z.abs N) as Hp by lia.
    pose proof (Z.log2_le_pow2 (Z.abs N) (k - 1) Hp). pose proof (Z.log2_lt_pow2 (Z.abs N) l Hp). lia.
Qed.

(** The properties an accepted RSA key has, in arithmetic terms. *)
Definition strong_rsa (N E : Z) : Prop :=
  2 ^ 2047 <= Z.abs N < 2 ^ 4096 /\ (8 | BitLen N) /\ Z.Odd E /\ 2 ^ 16 < E /\
  forall d, 2 <= d < 752 -> ~ (d | N).

Lemma goodKeyRSA_spec policy N E :
  goodKeyRSA policy N E = Ok tt <-> AllowRSA policy = true /\ strong_rsa N E.
Proof.
  unfold goodKeyRSA, strong_rsa. rewrite <- (BitLen_bounds N 2048 4096) by lia.
  assert (checkSmallPrimes N = false <-> forall d, 2 <= d < 752 -> ~ (d | N)) as HS.
  { rewrite checkSmallPrimes_spec. split; intros H d Hd Hx; apply (H d Hd), Z.mod_divide; auto; lia. }
  assert ((Z.rem (BitLen N) 8 =? 0) = true <-> (8 | BitLen N)) as H8.
  { rewrite Z.eqb_eq, Z.rem_divide; [done|lia]. }
  assert ((Z.rem E 2 =? 0) = false <-> Z.Odd E) as HO.
  { rewrite Z.eqb_neq, Z.rem_divide by lia. rewrite <- Z.odd_spec, <- Z.negb_even, negb_true_iff.
    rewrite <- not_true_iff_false, Z.even_spec. unfold Z.divide, Z.Even.
    split; intros H [x Hx]; apply H; exists x; lia. }
  rewrite <- HS, <- H8, <- HO. change (Z.shiftl 1 16 + 1) with (2 ^ 16 + 1).
  destruct (AllowRSA policy); [|naive_solver]. simpl negb. cbv iota zeta.
  destruct (Z.ltb_spec (BitLen N) 2048); [split; [done|lia]|].
  destruct (Z.ltb_spec 4096 (BitLen N)); [split; [done|lia]|].
  destruct (Z.rem (BitLen N) 8 =? 0); [|split; naive_solver]. simpl negb. cbv iota.
  destruct (Z.rem E 2 =? 0); [split; naive_solver|]. simpl orb.
  destruct (Z.ltb_spec E (2 ^ 16 + 1)); [split; [done|lia]|].
  destruct (checkSmallPrimes N); [split; naive_solver|]. split; [intros _; split_and!; lia|done].
Qed.

Section specs.
Context {EC : Elliptic}.

Lemma goodCurve_spec policy c :
  goodCurve policy c = Ok tt <->
  (c = P256 /\ AllowECDSANISTP256 policy = true) \/ (c = P384 /\ AllowECDSANISTP384 policy = true).
Proof. unfold goodCurve. destruct c, policy as [? [] []]; simpl; naive_solver. Qed.

Definition sound_point (c : Curve) (X Y : Z) : Prop :=
  0 <= X < curve_P c /\ 0 <= Y < curve_P c /\ (X, Y) <> (0, 0) /\
  Y ^ 2 mod curve_P c = (X ^ 3 - 3 * X + curve_B c) mod curve_P c /\
  ScalarMult c X Y (curve_N c) = (0, 0).

Lemma infinity_spec x y : isPointAtInfinityNISTP x y = true <-> (x, y) = (0, 0).
Proof. unfold isPointAtInfinityNISTP. rewrite andb_true_iff, !Z.eqb_eq. naive_solver. Qed.

Lemma goodKeyECDSA_spec policy c X Y :
  goodKeyECDSA policy c X Y = Ok tt <-> goodCurve policy c = Ok tt /\ sound_point c X Y.
Proof.
  unfold goodKeyECDSA, sound_point, IsOnCurve.
  replace (Y ^ 2) with (Y * Y) by ring. replace (X ^ 3) with (X * X * X) by ring.
  destruct (goodCurve policy c) as [[]|]; simpl rbind; [|naive_solver].
  destruct (isPointAtInfinityNISTP X Y) eqn:EI.
  { apply infinity_spec in EI. split; [done|]. naive_solver. }
  rewrite <- not_true_iff_false, infinity_spec in EI.
  destruct (Z.ltb_spec X 0); [split; [done|lia]|]. destruct (Z.ltb_spec Y 0); [split; [done|lia]|]. simpl orb.
  destruct (Z.leb_spec (curve_P c) X); [split; [done|lia]|].
  destruct (Z.leb_spec (curve_P c) Y); [split; [done|lia]|]. simpl orb. cbv iota.
  destruct (Z.eqb_spec (Y * Y mod curve_P c) ((X * X * X - 3 * X + curve_B c) mod curve_P c));
    simpl negb; cbv iota; [|naive_solver].
  destruct (ScalarMult c X Y (curve_N c)) as [ox oy].
  destruct (isPointAtInfinityNISTP ox oy) eqn:EO.
  - apply infinity_spec in EO. naive_solver lia.
  - rewrite <- not_true_iff_false, infinity_spec in EO. naive_solver.
Qed.

(** C35. [GoodKey] accepts exactly: an RSA key, where the policy allows RSA, of
    2048 to 4096 bits with a bit length divisible by 8, an odd exponent above
    2^16 and no factor from 2 to 751; or a P-256 or P-384 key, where allowed,
    whose point is in range, on the curve, of order N and not the point at
    infinity.  Nothing else is accepted. *)
Theorem GoodKey_accepts_exactly (policy : KeyPolicy) (key : PublicKey) :
  GoodKey policy key = Ok tt <->
  match key with
  | RSAKey N E => AllowRSA policy = true /\ strong_rsa N E
  | ECDSAKey c X Y =>
      ((c = P256 /\ AllowECDSANISTP256 policy = true) \/ (c = P384 /\ AllowECDSANISTP384 policy = true)) /\
      sound_point c X Y
  | UnknownKey _ => False
  end.
Proof.
  destruct key; simpl.
  - apply goodKeyRSA_spec.
  - rewrite goodKeyECDSA_spec, goodCurve_spec. done.
  - done.
Qed.

Lemma goodCurve_error policy c e : goodCurve policy c = Err e -> Berrors.Is e Berrors.Malformed = true.
Proof. unfold goodCurve. intros H. repeat case_in H. by simplify_eq. Qed.

(** Every rejection is a malformed-request error. *)
Lemma GoodKey_error policy key e : GoodKey policy key = Err e -> Berrors.Is e Berrors.Malformed = true.
Proof.
  destruct key; simpl; unfold goodKeyRSA, goodKeyECDSA, rbind; intros H;
    repeat case_in H; simplify_eq; eauto using goodCurve_error.
Qed.

End specs.

End GoodKey.
