(* ===== verification/PublicSuffix.v ===== *)
(** * The public suffix list library (vendor/github.com/weppos/publicsuffix-go)

    Rule matching, rule lookup and the decomposition of a name at its public
    suffix.  The rule table itself (rules.go, generated) is a parameter of
    every definition.  [Decompose] builds a regular expression; the model is
    what that expression matches. *)

From S2P Require Import Prelude GoStd Errors.

Module PublicSuffix.

Inductive RuleType := NormalType | WildcardType | ExceptionType.
#[global] Instance RuleType_eq_dec : EqDecision RuleType.
Proof. solve_decision. Defined.

Record Rule := { Type_ : RuleType; Value : string; Length : Z; Private : bool }.
#[global] Instance Rule_eq_dec : EqDecision Rule.
Proof. solve_decision. Defined.

Record FindOptions := { IgnorePrivate : bool; opt_DefaultRule : option Rule }.

Definition Labels (name : string) : list string := split_on "." name.

Definition DefaultRule : Rule :=
  {| Type_ := WildcardType; Value := EmptyString; Length := 2; Private := false |}.
Definition DefaultFindOptions : FindOptions :=
  {| IgnorePrivate := false; opt_DefaultRule := Some DefaultRule |}.

Definition Match (r : Rule) (name : string) : bool :=
  let left_ := TrimSuffix name (Value r) in
  if String.eqb left_ EmptyString then negb (bool_decide (Type_ r = WildcardType))
  else ends_with "." left_.

Definition selectRules (rules : list Rule) (name : string) (options : FindOptions) : list Rule :=
  filter (fun r => Match r name = true /\ ~ (IgnorePrivate options = true /\ Private r = true)) rules.

(** The loop of [Find].  [bestRule = &r] stores the address of the loop variable,
    which every iteration overwrites: the pointer, once set, always reads the
    rule of the current iteration, [cell]. *)
Fixpoint find_loop (found : list Rule) (cell : option Rule) (bestRule_set : bool) : option Rule :=
  match found with
  | [] => if bestRule_set then cell else None
  | r :: found' =>
      if bool_decide (Type_ r = ExceptionType) then Some r
      else if negb bestRule_set || (Length r <? Length r) then find_loop found' (Some r) true
      else find_loop found' (Some r) bestRule_set
  end.

Definition Find (rules : list Rule) (name : string) (options : FindOptions) : option Rule :=
  match find_loop (selectRules rules name options) None false with
  | Some r => Some r
  | None => opt_DefaultRule options
  end.

Definition parts (r : Rule) : list string :=
  let labels := Labels (Value r) in
  if bool_decide (Type_ r = ExceptionType) then tail labels
  else if bool_decide (Type_ r = WildcardType) && String.eqb (Value r) EmptyString then []
  else labels.

(** No dot of a regular expression matches a newline. *)
Definition newline : ascii := Ascii.ascii_of_nat 10.
Definition plus_group (left_ : string) : bool :=
  negb (String.eqb left_ EmptyString) && negb (has_char newline left_).

(** [^(.+)\.(suffix)$] *)
Definition match_fixed (suffix name : string) : option (string * string) :=
  match strip_suffix (String "." suffix) name with
  | Some left_ => if plus_group left_ then Some (left_, suffix) else None
  | None => None
  end.

(** [^(.+)\.(.*?\.suffix)$], or [^(.+)\.(.*?)$] when there are no further parts:
    the first group is greedy, so the second starts after the last dot that can
    precede it. *)
Definition match_wildcard (rest : list string) (name : string) : option (string * string) :=
  let tail_ := match rest with [] => EmptyString | _ => String "." (join "." rest) end in
  match strip_suffix tail_ name with
  | Some base =>
      match split_last "." base with
      | Some (left_, x) =>
          if plus_group left_ && negb (has_char newline x) then Some (left_, x ++s tail_) else None
      | None => None
      end
  | None => None
  end.

Definition Decompose (r : Rule) (name : string) : string * string :=
  let matches :=
    if bool_decide (Type_ r = WildcardType) then match_wildcard (parts r) name
    else match_fixed (join "." (parts r)) name in
  default (EmptyString, EmptyString) matches.

Section domains.
Context {GL : GoLib}.

Definition normalize (name : string) : result error string :=
  let ret := ToLower name in
  match ret with
  | EmptyString => Err (PlainError "Name is blank")
  | String c _ =>
      if Ascii.eqb c "." then Err (PlainError ("Name " ++s ret ++s " starts with a dot")) else Ok ret
  end.

Record DomainName := { TLD : string; SLD : string; TRD : string }.

Definition decompose (r : Rule) (name : string) : DomainName :=
  let '(left_, tld) := Decompose r name in
  match split_last "." left_ with
  | None => {| TLD := tld; SLD := left_; TRD := EmptyString |}
  | Some (trd, sld) => {| TLD := tld; SLD := sld; TRD := trd |}
  end.

(** [Find] can return nil only when there is no default rule, and then
    [Decompose] on the nil pointer panics; the error stands for that panic. *)
Definition ParseFromListWithOptions (rules : list Rule) (name : string) (options : FindOptions)
    : result error DomainName :=
  let? n := normalize name in
  match Find rules n options with
  | None => Err (PlainError "invalid memory address or nil pointer dereference")
  | Some r =>
      if String.eqb (snd (Decompose r n)) EmptyString then Err (PlainError (n ++s " is a suffix"))
      else Ok (decompose r n)
  end.

Definition DomainFromListWithOptions (rules : list Rule) (name : string) (options : FindOptions)
    : result error string :=
  let? dn := ParseFromListWithOptions rules name options in
  Ok (SLD dn ++s "." ++s TLD dn).

Definition Domain (rules : list Rule) (name : string) : result error string :=
  DomainFromListWithOptions rules name DefaultFindOptions.

End domains.

(** ** Lookup *)

Lemma find_loop_set found c : Forall (fun r => Type_ r <> ExceptionType) found ->
  find_loop found (Some c) true = Some (default c (last found)).
Proof.
  revert c. induction found as [|r found IH]; intros c Hf; [done|]. cbn [find_loop].
  apply Forall_cons in Hf as [Hr Hf]. rewrite bool_decide_eq_false_2 by done.
  rewrite Z.ltb_irrefl. simpl. rewrite IH, last_cons by done. by destruct (last found).
Qed.

Lemma find_loop_last found : Forall (fun r => Type_ r <> ExceptionType) found ->
  find_loop found None false = last found.
Proof.
  destruct found as [|r found]; [done|]. intros [Hr Hf]%Forall_cons. cbn [find_loop].
  rewrite bool_decide_eq_false_2 by done. simpl. rewrite find_loop_set, last_cons by done. by destruct (last found).
Qed.

Lemma find_loop_exception found r c b :
  r ∈ found -> Type_ r = ExceptionType ->
  exists e, find_loop found c b = Some e /\ e ∈ found /\ Type_ e = ExceptionType.
Proof.
  revert c b. induction found as [|x found IH]; intros c b Hr Ht; simpl; [set_solver|].
  case_bool_decide as Hx; [exists x; set_solver|].
  apply elem_of_cons in Hr as [->|Hr]; [done|].
  destruct (IH (Some x) true Hr Ht) as (e & He & ? & ?), (IH (Some x) b Hr Ht) as (e' & He' & ? & ?).
  destruct (negb b || _); [exists e|exists e']; set_solver.
Qed.

Lemma elem_of_selectRules r rules name options :
  r ∈ selectRules rules name options <->
  r ∈ rules /\ Match r name = true /\ ~ (IgnorePrivate options = true /\ Private r = true).
Proof. unfold selectRules. rewrite list_elem_of_filter. naive_solver. Qed.

(** ** Decomposition *)

Lemma match_fixed_sound suffix name l s :
  match_fixed suffix name = Some (l, s) -> name = l ++s String "." s /\ l <> EmptyString.
Proof.
  unfold match_fixed, plus_group. destruct (strip_suffix _ _) as [left_|] eqn:E; [|done].
  apply strip_suffix_Some in E as ->. destruct (String.eqb_spec left_ EmptyString); [done|].
  simpl. destruct (has_char newline left_); [done|]. by intros [= <- <-].
Qed.

Lemma match_wildcard_sound rest name l s :
  match_wildcard rest name = Some (l, s) -> name = l ++s String "." s /\ l <> EmptyString.
Proof.
  unfold match_wildcard, plus_group. destruct (strip_suffix _ _) as [base|] eqn:E; [|done].
  apply strip_suffix_Some in E as ->. destruct (split_last "." base) as [[left_ x]|] eqn:E; [|done].
  apply split_last_Some in E as [-> _]. destruct (String.eqb_spec left_ EmptyString); [done|].
  simpl. destruct (negb _ && _); [|done]. intros [= <- <-]. by rewrite sapp_assoc.
Qed.

Lemma sorted_last found r q :
  StronglySorted (fun a b => Length a <= Length b) found ->
  last found = Some r -> q ∈ found -> Length q <= Length r.
Proof.
  induction 1 as [|x l Hs IH Hx]; [done|]. rewrite last_cons, elem_of_cons.
  destruct (last l) as [y|] eqn:E; intros [= ->] [->|Hq].
  - rewrite Forall_forall in Hx. by apply Hx, last_Some_elem_of.
  - by apply IH.
  - lia.
  - apply last_None in E as ->. set_solver.
Qed.

(** [Decompose] splits a name at a dot into a non-empty left part and the
    suffix, or reports that there is no such split with two empty strings. *)
Theorem Decompose_splits (r : Rule) (name : string) :
  Decompose r name = (EmptyString, EmptyString) \/
  exists left_ suffix, Decompose r name = (left_, suffix) /\
    name = left_ ++s "." ++s suffix /\ left_ <> EmptyString.
Proof.
  unfold Decompose. case_bool_decide.
  - destruct (match_wildcard _ _) as [[l s]|] eqn:E; [|by left].
    apply match_wildcard_sound in E. right. by exists l, s.
  - destruct (match_fixed _ _) as [[l s]|] eqn:E; [|by left].
    apply match_fixed_sound in E. right. by exists l, s.
Qed.

(** [Find] returns a matching exception rule if there is one and otherwise
    the last matching rule of the table, whatever the lengths.  That is a longest
    matching rule when later matches are never shorter, as in the shipped table;
    on a table in another order it is not. *)
Theorem Find_returns_last_match :
  (forall rules name options,
     Forall (fun r => Type_ r <> ExceptionType) (selectRules rules name options) ->
     Find rules name options = match last (selectRules rules name options) with
                               | Some r => Some r | None => opt_DefaultRule options end) /\
  (forall rules name options r, r ∈ selectRules rules name options -> Type_ r = ExceptionType ->
     exists e, Find rules name options = Some e /\ e ∈ selectRules rules name options /\
       Type_ e = ExceptionType) /\
  (forall rules name options r q,
     Forall (fun r => Type_ r <> ExceptionType) (selectRules rules name options) ->
     StronglySorted (fun a b => Length a <= Length b) (selectRules rules name options) ->
     q ∈ selectRules rules name options -> Find rules name options = Some r -> Length q <= Length r) /\
  exists rules name r best, Find rules name DefaultFindOptions = Some r /\
    best ∈ selectRules rules name DefaultFindOptions /\ Length r < Length best.
Proof.
  split_and!.
  - intros rules name options H. unfold Find. by rewrite find_loop_last.
  - intros rules name options r Hr Ht. unfold Find.
    destruct (find_loop_exception _ r None false Hr Ht) as (e & -> & ? & ?). eauto.
  - intros rules name options r q Hf Hs Hq. unfold Find. rewrite find_loop_last by done.
    destruct (last (selectRules rules name options)) as [r'|] eqn:E; [|apply last_None in E; rewrite E in Hq; by apply not_elem_of_nil in Hq].
    intros [= ->]. by eapply sorted_last.
  - exists [{| Type_ := NormalType; Value := "co.uk"; Length := 2; Private := false |};
            {| Type_ := NormalType; Value := "uk"; Length := 1; Private := false |}], "a.co.uk".
    do 2 eexists. split; [vm_compute; reflexivity|]. split; [|shelve].
    apply elem_of_selectRules. split; [left|]. split; [reflexivity|]. simpl. naive_solver.
    Unshelve. simpl. lia.
Qed.

End PublicSuffix.
