(* ===== verification/Policy.v ===== *)
(** * policy/pa.go: the policy authority

    Which names the CA may issue for ([WillingToIssue], with the hostname
    blacklists and their hot reload) and which challenges it offers
    ([ChallengesFor]).  The public suffix rule table, punycode decoding and the
    JSON parser are parameters. *)

From S2P Require Import Prelude GoStd Errors Features Core PublicSuffix.

Import PublicSuffix(Rule, FindOptions, Find, Decompose).

(** ** net.ParseIP on text without a colon: four decimal octets *)

Definition is_octet (s : string) : bool :=
  match vals_of dec_val s with
  | Some (d :: ds) => value 10 (d :: ds) <=? 255
  | _ => false
  end.
Definition is_ipv4 (s : string) : bool :=
  match split_on "." s with
  | [a; b; c; d] => is_octet a && is_octet b && is_octet c && is_octet d
  | _ => false
  end.

Module Policy.

Record AuthorityImpl := {
  blacklist : option (gset string);
  exactBlacklist : option (gset string);
  enabledChallenges : gmap string bool
}.

Record blacklistJSON := { Blacklist : list string; ExactBlacklist : list string }.

(** What the package takes from its environment: the suffix table, whether
    [idna.ToUnicode] accepts a label, and [json.Unmarshal] into [blacklistJSON]. *)
Class PolicyEnv := {
  suffix_rules : list Rule;
  idna_ok : string -> bool;
  unmarshal_blacklist : string -> result error blacklistJSON
}.

Definition New (challengeTypes : gmap string bool) : AuthorityImpl :=
  {| blacklist := None; exactBlacklist := None; enabledChallenges := challengeTypes |}.

Definition maxLabels : Z := 10.
Definition maxLabelLength : Z := 63.
Definition maxDNSIdentifierLength : Z := 253.

Definition isDNSCharacter (ch : ascii) : bool :=
  in_range "a" "z" ch || in_range "A" "Z" ch || in_range "0" "9" ch
  || Ascii.eqb ch "." || Ascii.eqb ch "-".

(** [dnsLabelRegexp]: a lower-case letter or digit, then at most 62 of those or dashes. *)
Definition is_lower_alnum (c : ascii) : bool := in_range "a" "z" c || in_range "0" "9" c.
Definition dnsLabelRegexp (label : string) : bool :=
  match label with
  | EmptyString => false
  | String c rest =>
      is_lower_alnum c && all_chars (fun c => is_lower_alnum c || Ascii.eqb c "-") rest
      && (len rest <=? 62)
  end.
Definition punycodeRegexp (label : string) : bool := String.prefix "xn--" label.

(** The loop of [suffixMatch] at index [i]. *)
Fixpoint suffixMatch_from (i : nat) (labels : list string) (suffixSet : gset string)
    (properSuffix : bool) : bool :=
  match labels with
  | [] => false
  | _ :: labels' =>
      if bool_decide (join "." labels ∈ suffixSet) then negb properSuffix || (0 <? Z.of_nat i)
      else suffixMatch_from (S i) labels' suffixSet properSuffix
  end.
Definition suffixMatch (labels : list string) (suffixSet : gset string) (properSuffix : bool) : bool :=
  suffixMatch_from 0 labels suffixSet properSuffix.

Section pa.
Context {GL : GoLib} {PE : PolicyEnv}.

Notation errInvalidIdentifier := (Berrors.MalformedError "Invalid identifier type") (only parsing).
Notation errNonPublic := (Berrors.MalformedError "Name does not end in a public suffix") (only parsing).
Notation errICANNTLD := (Berrors.MalformedError "Name is an ICANN TLD") (only parsing).
Notation errBlacklisted := (Berrors.RejectedIdentifierError "Policy forbids issuing for name") (only parsing).
Notation errInvalidDNSCharacter := (Berrors.MalformedError "Invalid character in DNS name") (only parsing).
Notation errNameTooLong := (Berrors.MalformedError "DNS name too long") (only parsing).
Notation errIPAddress := (Berrors.MalformedError "Issuance for IP addresses not supported") (only parsing).
Notation errTooManyLabels := (Berrors.MalformedError "DNS name has too many labels") (only parsing).
Notation errEmptyName := (Berrors.MalformedError "DNS name was empty") (only parsing).
Notation errNameEndsInDot := (Berrors.MalformedError "DNS name ends in a period") (only parsing).
Notation errTooFewLabels := (Berrors.MalformedError "DNS name does not have enough labels") (only parsing).
Notation errLabelTooShort := (Berrors.MalformedError "DNS label is too short") (only parsing).
Notation errLabelTooLong := (Berrors.MalformedError "DNS label is too long") (only parsing).
Notation errIDNNotSupported := (Berrors.UnsupportedIdentifierError
  "Internationalized domain names (starting with xn--) not yet supported") (only parsing).
Notation errMalformedIDN := (Berrors.MalformedError "DNS label contains malformed punycode") (only parsing).

(** [loadHostnamePolicy]; what it logs is left out. *)
Definition loadHostnamePolicy (b : string) : M AuthorityImpl error unit :=
  let! bl := lift (unmarshal_blacklist b) in
  if bool_decide (Blacklist bl = []) then fail (PlainError "No entries in blacklist.")
  else
    modify (fun pa => {| blacklist := Some (list_to_set (Blacklist bl));
                         exactBlacklist := Some (list_to_set (ExactBlacklist bl));
                         enabledChallenges := enabledChallenges pa |}).

Definition extractDomainIANASuffix (name : string) : result error string :=
  if String.eqb name EmptyString then
    Err (PlainError "Blank name argument passed to ExtractDomainIANASuffix")
  else
    match Find suffix_rules name {| PublicSuffix.IgnorePrivate := true;
                                    PublicSuffix.opt_DefaultRule := None |} with
    | None => Err (PlainError ("Domain " ++s name ++s " has no IANA TLD"))
    | Some rule =>
        let suffix := snd (Decompose rule name) in
        if String.eqb suffix EmptyString then Ok name else Ok suffix
    end.

(** The blacklist loop of [checkHostLists]. *)
Fixpoint blacklisted (bl : gset string) (labels : list string) : bool :=
  match labels with
  | [] => false
  | _ :: labels' => if bool_decide (join "." labels ∈ bl) then true else blacklisted bl labels'
  end.

Definition checkHostLists (pa : AuthorityImpl) (domain : string) : result error unit :=
  match blacklist pa with
  | None => Err (PlainError "Hostname policy not yet loaded.")
  | Some bl =>
      if blacklisted bl (split_on "." domain) then Err errBlacklisted
      else if bool_decide (domain ∈ default ∅ (exactBlacklist pa)) then Err errBlacklisted
      else Ok tt
  end.

(** The body of the loop over labels in [WillingToIssue]. *)
Definition check_label (fs : Features.state) (label : string) : result error unit :=
  if len label <? 1 then Err errLabelTooShort
  else if maxLabelLength <? len label then Err errLabelTooLong
  else if negb (dnsLabelRegexp label) then Err errInvalidDNSCharacter
  else if ends_with "-" label then Err errInvalidDNSCharacter
  else if punycodeRegexp label then
    if flag fs Features.IDNASupport then
      if idna_ok label then Ok tt else Err errMalformedIDN
    else Err errIDNNotSupported
  else Ok tt.

Fixpoint check_labels (fs : Features.state) (labels : list string) : result error unit :=
  match labels with
  | [] => Ok tt
  | label :: labels' => let? _ := check_label fs label in check_labels fs labels'
  end.

Definition WillingToIssue (fs : Features.state) (pa : AuthorityImpl) (id : AcmeIdentifier)
    : result error unit :=
  if negb (String.eqb (idType id) IdentifierDNS) then Err errInvalidIdentifier
  else
    let domain := idValue id in
    if String.eqb domain EmptyString then Err errEmptyName
    else if negb (all_chars isDNSCharacter domain) then Err errInvalidDNSCharacter
    else if maxDNSIdentifierLength <? len domain then Err errNameTooLong
    else if is_ipv4 domain then Err errIPAddress
    else if ends_with "." domain then Err errNameEndsInDot
    else
      let labels := split_on "." domain in
      if maxLabels <? Z.of_nat (length labels) then Err errTooManyLabels
      else if Z.of_nat (length labels) <? 2 then Err errTooFewLabels
      else
        let? _ := check_labels fs labels in
        match extractDomainIANASuffix domain with
        | Err _ => Err errNonPublic
        | Ok icannTLD =>
            if String.eqb icannTLD domain then Err errICANNTLD
            else checkHostLists pa domain
        end.

(** [ChallengesFor]: the tokens the four constructors draw, and the two results
    of [pseudoRNG.Perm]; [None] is an index panic. *)
Definition enabled (pa : AuthorityImpl) (name : string) : bool := default false (enabledChallenges pa !! name).

Definition offered (fs : Features.state) (pa : AuthorityImpl) (tokens : string * string * string * string)
    : list Challenge :=
  let '(t1, t2, t3, t4) := tokens in
  (if enabled pa ChallengeTypeHTTP01 then [HTTPChallenge01 t1] else []) ++
  (if enabled pa ChallengeTypeTLSSNI01 then [TLSSNIChallenge01 t2] else []) ++
  (if flag fs Features.AllowTLS02Challenges && enabled pa ChallengeTypeTLSSNI02
   then [TLSSNIChallenge02 t3] else []) ++
  (if enabled pa ChallengeTypeDNS01 then [DNSChallenge01 t4] else []).

Definition ChallengesFor (fs : Features.state) (pa : AuthorityImpl)
    (tokens : string * string * string * string) (perm1 perm2 : nat -> list nat) (identifier : AcmeIdentifier)
    : option (list Challenge * list (list Z)) :=
  let challenges := offered fs pa tokens in
  let n := length challenges in
  shuffled ← mapM (fun challIdx => challenges !! challIdx) (perm1 n);
  let combinations := imap (fun i _ => [Z.of_nat i]) (perm1 n) in
  shuffledCombos ← mapM (fun comboIdx => combinations !! comboIdx) (perm2 (length combinations));
  Some (shuffled, shuffledCombos).

End pa.

(** ** What the CA is willing to issue for *)

(** The domain is the listed name, or a name below it. *)
Definition within (domain b : string) : Prop :=
  domain = b \/ exists p, domain = p ++s "." ++s b.

Lemma suffixes_within domain b :
  (exists i, (i < length (split_on "." domain))%nat /\ join "." (drop i (split_on "." domain)) = b) <->
  within domain b.
Proof.
  split.
  - intros (i & Hi & <-). destruct i as [|i]; [left; by rewrite drop_0, join_split_on|].
    right. exists (join "." (take (S i) (split_on "." domain))).
    rewrite <- (join_split_on "." domain) at 1.
    rewrite <- (take_drop (S i) (split_on "." domain)) at 1. apply join_app.
    + intros E%(f_equal length). rewrite length_take, length_nil in E. lia.
    + intros E%(f_equal length). rewrite length_drop, length_nil in E. lia.
  - intros [->|[p ->]].
    + exists 0%nat. destruct (split_on_cons "." b) as (x & xs & E). rewrite drop_0, join_split_on.
      rewrite E. simpl. split; [lia|done].
    + change ("." ++s b) with (String "." b). rewrite split_on_mid.
      exists (length (split_on "." p)). rewrite drop_app_length, join_split_on, length_app.
      destruct (split_on_cons "." b) as (x & xs & ->). simpl. split; [lia|done].
Qed.

Lemma blacklisted_spec bl labels :
  blacklisted bl labels = true <->
  exists i, (i < length labels)%nat /\ join "." (drop i labels) ∈ bl.
Proof.
  induction labels as [|l labels IH]; cbn [blacklisted]; [split; [done|intros (i & Hi & _); simpl in Hi; lia]|].
  case_bool_decide as H.
  - split; [|done]. intros _. exists 0%nat. simpl. split; [lia|exact H].
  - rewrite IH. split; intros (i & Hi & Hj).
    + exists (S i). simpl. split; [lia|done].
    + destruct i as [|i]; [by rewrite drop_0 in Hj|]. exists i. simpl in Hi. split; [lia|done].
Qed.

Lemma blacklisted_within bl domain :
  blacklisted bl (split_on "." domain) = true <-> exists b, b ∈ bl /\ within domain b.
Proof.
  rewrite blacklisted_spec. setoid_rewrite <- suffixes_within. naive_solver.
Qed.

(** [suffixMatch] without the proper-suffix flag is the blacklist test. *)
Lemma suffixMatch_blacklisted labels bl : suffixMatch labels bl false = blacklisted bl labels.
Proof.
  unfold suffixMatch. generalize 0%nat as i.
  induction labels as [|l labels IH]; intros i; [done|].
  cbn [suffixMatch_from blacklisted]. case_bool_decide; [done|apply IH].
Qed.

Definition starts_with (c : ascii) (s : string) : bool :=
  match s with String a _ => Ascii.eqb a c | EmptyString => false end.

(** A host name label: letters, digits and inner dashes, lower case, at most 63;
    punycode only with the feature on and only if it decodes. *)
Definition host_label {PE : PolicyEnv} (fs : Features.state) (label : string) : Prop :=
  1 <= len label <= 63 /\
  all_chars (fun c => is_lower_alnum c || Ascii.eqb c "-") label = true /\
  starts_with "-" label = false /\ ends_with "-" label = false /\
  (punycodeRegexp label = true -> flag fs Features.IDNASupport = true /\ idna_ok label = true).

Section issuing.
Context {GL : GoLib} {PE : PolicyEnv}.

Lemma dnsLabelRegexp_spec label :
  dnsLabelRegexp label = true <->
  1 <= len label <= 63 /\ all_chars (fun c => is_lower_alnum c || Ascii.eqb c "-") label = true /\
  starts_with "-" label = false.
Proof.
  unfold len. destruct label as [|c rest]; simpl; [split; [done|lia]|]. unfold len.
  rewrite !andb_true_iff, Z.leb_le. destruct (Ascii.eqb_spec c "-") as [->|].
  - split; [intros [[H _] _]; by vm_compute in H|by intros (_ & _ & ?)].
  - rewrite orb_false_r. split.
    + intros [[? ?] ?]. split_and!; auto; lia.
    + intros (? & [? ?] & ?). split_and!; auto; lia.
Qed.

Lemma check_label_spec fs label : check_label fs label = Ok tt <-> host_label fs label.
Proof.
  unfold check_label, host_label, maxLabelLength. pose proof (dnsLabelRegexp_spec label) as HD.
  destruct (Z.ltb_spec (len label) 1); [split; [done|lia]|].
  destruct (Z.ltb_spec 63 (len label)); [split; [done|lia]|].
  destruct (dnsLabelRegexp label); simpl negb; cbv iota; [|naive_solver].
  destruct (ends_with "-" label); [naive_solver|].
  destruct (punycodeRegexp label), (flag fs Features.IDNASupport), (idna_ok label); naive_solver.
Qed.

Lemma check_labels_spec fs labels : check_labels fs labels = Ok tt <-> Forall (host_label fs) labels.
Proof.
  induction labels as [|l labels IH]; simpl; [by split; [constructor|]|].
  rewrite Forall_cons, <- IH, <- check_label_spec. destruct (check_label fs l) as [[]|]; simpl; naive_solver.
Qed.

Lemma checkHostLists_spec pa domain :
  checkHostLists pa domain = Ok tt <->
  exists bl, blacklist pa = Some bl /\ (forall b, b ∈ bl -> ~ within domain b) /\
    domain ∉ default ∅ (exactBlacklist pa).
Proof.
  unfold checkHostLists. destruct (blacklist pa) as [bl|]; [|naive_solver].
  destruct (blacklisted bl (split_on "." domain)) eqn:E.
  - apply blacklisted_within in E as (b & Hb & Hw). split; [done|]. naive_solver.
  - rewrite <- not_true_iff_false, blacklisted_within in E. case_bool_decide; naive_solver.
Qed.

Lemma dns_chars c : is_lower_alnum c || Ascii.eqb c "-" = true -> isDNSCharacter c = true.
Proof.
  unfold isDNSCharacter, is_lower_alnum.
  destruct (in_range "a" "z" c), (in_range "0" "9" c), (Ascii.eqb c "-"); rewrite ?orb_true_r; done.
Qed.

(** The character and dot checks that precede the label checks are implied by them. *)
Lemma host_labels_chars fs domain :
  Forall (host_label fs) (split_on "." domain) ->
  all_chars isDNSCharacter domain = true /\ ends_with "." domain = false.
Proof.
  intros H. split.
  - rewrite <- (join_split_on "." domain). apply all_chars_join; [done|].
    eapply Forall_impl; [exact H|]. intros l (_ & Hl & _). eapply all_chars_impl; [apply dns_chars|done].
  - destruct (ends_with "." domain) eqn:E; [|done]. exfalso.
    apply ends_with_split in E as [p ->].
    rewrite split_on_mid in H. apply Forall_app in H as [_ H]. apply Forall_inv in H as [H _].
    unfold len in H. simpl in H. lia.
Qed.

(** C33. [WillingToIssue] accepts exactly the identifiers of type dns whose value
    has 2 to 10 host-name labels, at most 253 bytes, is not an IPv4 address, lies
    strictly below an ICANN suffix, and, once a hostname policy is loaded, is
    neither a blacklisted name nor below one, nor on the exact blacklist. *)
Theorem WillingToIssue_accepts_exactly (fs : Features.state) (pa : AuthorityImpl) (id : AcmeIdentifier) :
  WillingToIssue fs pa id = Ok tt <->
  let domain := idValue id in
  let labels := split_on "." domain in
  idType id = "dns" /\ 2 <= Z.of_nat (length labels) <= 10 /\ Forall (host_label fs) labels /\
  len domain <= 253 /\ is_ipv4 domain = false /\
  (exists suffix, extractDomainIANASuffix domain = Ok suffix /\ suffix <> domain) /\
  exists bl, blacklist pa = Some bl /\ (forall b, b ∈ bl -> ~ within domain b) /\
    domain ∉ default ∅ (exactBlacklist pa).
Proof.
  cbv zeta. rewrite <- checkHostLists_spec. unfold WillingToIssue, maxDNSIdentifierLength, maxLabels.
  destruct (String.eqb_spec (idType id) "dns"); simpl negb; cbv iota zeta; [|naive_solver].
  set (domain := idValue id).
  destruct (String.eqb_spec domain EmptyString) as [->|]; [split; [done|simpl; lia]|].
  rewrite <- check_labels_spec.
  destruct (check_labels fs (split_on "." domain)) as [[]|] eqn:EL.
  2:{ split; [|naive_solver]. intros H. repeat case_in H. }
  destruct (host_labels_chars fs domain) as [-> ->]; [by apply check_labels_spec|]. simpl negb. cbv iota.
  destruct (Z.ltb_spec 253 (len domain)); [split; [done|lia]|].
  destruct (is_ipv4 domain); [naive_solver|].
  destruct (Z.ltb_spec 10 (Z.of_nat (length (split_on "." domain)))); [split; [done|lia]|].
  destruct (Z.ltb_spec (Z.of_nat (length (split_on "." domain))) 2); [split; [done|lia]|].
  simpl rbind. destruct (extractDomainIANASuffix domain) as [s|]; [|naive_solver].
  destruct (String.eqb_spec s domain); [naive_solver|]. split; [|naive_solver].
  intros ->. split_and!; try done. eauto.
Qed.

Lemma extractDomainIANASuffix_splits name s :
  extractDomainIANASuffix name = Ok s -> s <> name ->
  exists left_, name = left_ ++s "." ++s s /\ left_ <> EmptyString.
Proof.
  unfold extractDomainIANASuffix. destruct (String.eqb name EmptyString); [done|].
  destruct (Find _ _ _) as [r|]; [|done].
  destruct (String.eqb_spec (snd (Decompose r name)) EmptyString) as [|Hne]; [congruence|].
  unfold Decompose, PublicSuffix.Decompose in *. intros [= <-] _.
  case_bool_decide.
  - destruct (PublicSuffix.match_wildcard _ _) as [[l x]|] eqn:E; [|done].
    apply PublicSuffix.match_wildcard_sound in E. eauto.
  - destruct (PublicSuffix.match_fixed _ _) as [[l x]|] eqn:E; [|done].
    apply PublicSuffix.match_fixed_sound in E. eauto.
Qed.

(** Reloading the hostname policy is atomic: a file that does not parse or has
    no entries leaves the lists as they were, and after a successful load no
    name on the new list, and no name below one, is issued for. *)
Theorem hostname_policy_reload (b : string) (pa : AuthorityImpl) :
  match loadHostnamePolicy b pa with
  | (Err _, pa') => pa' = pa
  | (Ok _, pa') =>
      exists bl, unmarshal_blacklist b = Ok bl /\ Blacklist bl <> [] /\
      enabledChallenges pa' = enabledChallenges pa /\
      forall fs domain e, WillingToIssue fs pa' {| idType := "dns"; idValue := domain |} = Ok tt ->
        (e ∈ Blacklist bl -> ~ within domain e) /\ (e ∈ ExactBlacklist bl -> domain <> e)
  end.
Proof.
  unfold loadHostnamePolicy, mbindM, lift, fail, modify.
  destruct (unmarshal_blacklist b) as [bl|]; [|done]. case_bool_decide as Hb; [done|].
  exists bl. split_and!; [done..|]. intros fs domain e H.
  assert (checkHostLists {| blacklist := Some (list_to_set (Blacklist bl));
    exactBlacklist := Some (list_to_set (ExactBlacklist bl));
    enabledChallenges := enabledChallenges pa |} domain = Ok tt) as HC.
  { unfold WillingToIssue, rbind in H. by repeat case_in H. }
  apply checkHostLists_spec in HC as (l & [= <-] & Hl & Hx). simpl in Hx.
  split; [intros He; apply Hl; set_solver|]. intros He ->. set_solver.
Qed.

(** Before a policy is loaded nothing is issued for. *)
Lemma no_policy_no_issuance fs ct id : WillingToIssue fs (New ct) id <> Ok tt.
Proof. unfold WillingToIssue, rbind. intros H. by repeat case_in H. Qed.

(** ** Challenges offered *)

Lemma mapM_lookup_perm {A} (l : list A) (p : list nat) :
  p ≡ₚ seq 0 (length l) -> exists l', mapM (fun i => l !! i) p = Some l' /\ l' ≡ₚ l.
Proof.
  intros Hp.
  assert (Forall (fun i => is_Some (l !! i)) p) as HF.
  { rewrite Hp. apply Forall_forall. intros i Hi%elem_of_seq. apply lookup_lt_is_Some. lia. }
  apply mapM_is_Some_2 in HF as [l' Hl']. exists l'. split; [done|].
  apply mapM_Some in Hl'.
  assert (forall (p : list nat) l', Forall2 (fun i x => l !! i = Some x) p l' -> l' = omap (fun i => l !! i) p) as Hom.
  { clear. induction 1 as [|i x p l' Hx _ IH]; [done|]. simpl. rewrite Hx. by f_equal. }
  rewrite (Hom _ _ Hl'), Hp. clear. induction l as [|x l IH] using rev_ind; [done|].
  rewrite length_app, Nat.add_1_r, seq_S, omap_app. simpl.
  rewrite lookup_app_r, Nat.sub_diag by lia. simpl. f_equiv.
  etransitivity; [|exact IH]. erewrite list_omap_ext; [reflexivity|]. apply Forall_Forall2_diag, Forall_forall.
  intros i Hi%elem_of_seq. by rewrite lookup_app_l by lia.
Qed.

(** [ChallengesFor] never indexes out of range; it returns each enabled
    challenge exactly once, in some order, each fit to be offered, and as
    combinations exactly the singletons of their positions. *)
Theorem ChallengesFor_spec (fs : Features.state) (pa : AuthorityImpl) (b1 b2 b3 b4 : string)
    (perm1 perm2 : nat -> list nat) (identifier : AcmeIdentifier) :
  len b1 = 32 -> len b2 = 32 -> len b3 = 32 -> len b4 = 32 ->
  (forall n, perm1 n ≡ₚ seq 0 n) -> (forall n, perm2 n ≡ₚ seq 0 n) ->
  let tokens := (RandomString b1, RandomString b2, RandomString b3, RandomString b4) in
  exists challenges combinations,
    ChallengesFor fs pa tokens perm1 perm2 identifier = Some (challenges, combinations) /\
    challenges ≡ₚ offered fs pa tokens /\
    Forall (fun ch => IsSaneForClientOffer ch = true) challenges /\
    combinations ≡ₚ map (fun i => [Z.of_nat i]) (seq 0 (length challenges)).
Proof.
  intros H1 H2 H3 H4 Hp1 Hp2 tokens. unfold ChallengesFor.
  destruct (mapM_lookup_perm (offered fs pa tokens) _ (Hp1 _)) as (chs & -> & Hchs).
  cbn [mbind option_bind]. cbv zeta. set (n := length (offered fs pa tokens)).
  assert (imap (fun i (_ : nat) => [Z.of_nat i]) (perm1 n) = map (fun i => [Z.of_nat i]) (seq 0 n)) as ->.
  { assert (length (perm1 n) = n) as Hn by (rewrite (Hp1 n); apply length_seq).
    apply list_eq. intros i. rewrite list_lookup_imap, list_lookup_fmap.
    destruct (perm1 n !! i) as [x|] eqn:E; simpl.
    - apply lookup_lt_Some in E. rewrite lookup_seq_lt by lia. done.
    - apply lookup_ge_None in E. by rewrite lookup_seq_ge by lia. }
  destruct (mapM_lookup_perm (map (fun i => [Z.of_nat i]) (seq 0 n)) _ (Hp2 _)) as (cs & -> & Hcs).
  cbn [mbind option_bind]. exists chs, cs. split; [done|]. split; [done|].
  split; [|by rewrite Hcs, Hchs]. rewrite Hchs. subst tokens. unfold offered.
  rewrite !Forall_app. split_and!; case_match; repeat constructor;
    unfold IsSaneForClientOffer, IsSane; simpl ch_Token; by rewrite RandomString_token.
Qed.

End issuing.

(** ** Witnesses *)

Definition toy_policy_env : PolicyEnv := {|
  suffix_rules := [{| PublicSuffix.Type_ := PublicSuffix.NormalType; PublicSuffix.Value := "com";
                      PublicSuffix.Length := 1; PublicSuffix.Private := false |}];
  idna_ok := fun _ => true;
  unmarshal_blacklist := fun b => Ok {| Blacklist := [b]; ExactBlacklist := [] |} |}.

Definition toy_pa : AuthorityImpl :=
  {| blacklist := Some {["evil.com"]}; exactBlacklist := None;
     enabledChallenges := {[ChallengeTypeHTTP01 := true; ChallengeTypeDNS01 := true]} |}.

(** Names accepted and names refused by a small policy. *)
Example policy_examples :
  let w := fun d => @WillingToIssue Bcodes.toy_golib toy_policy_env Features.init_ toy_pa
                      {| idType := "dns"; idValue := d |} in
  w "www.example.com" = Ok tt /\ is_ok (w "evil.com") = false /\ is_ok (w "a.b.evil.com") = false /\
  is_ok (w "notevil.com") = true /\ is_ok (w "com") = false /\ is_ok (w "1.2.3.4") = false /\
  is_ok (w "Example.com") = false /\ is_ok (w "-a.com") = false /\ is_ok (w "xn--a.com") = false.
Proof. vm_compute. done. Qed.

Lemma ChallengesFor_spec_witness :
  exists challenges combinations,
    ChallengesFor Features.init_ toy_pa (RandomString toy_bytes, RandomString toy_bytes,
      RandomString toy_bytes, RandomString toy_bytes) (seq 0) (seq 0)
      {| idType := "dns"; idValue := "a.com" |} = Some (challenges, combinations) /\
    length challenges = 2%nat.
Proof.
  destruct (ChallengesFor_spec Features.init_ toy_pa toy_bytes toy_bytes toy_bytes toy_bytes
    (seq 0) (seq 0) {| idType := "dns"; idValue := "a.com" |}) as (chs & cs & E & Hp & _); try done.
  exists chs, cs. split; [exact E|]. rewrite Hp. vm_compute. reflexivity.
Defined.

End Policy.
