(* ===== verification/RateLimit.v ===== *)
(** * ratelimit/rate-limits.go: rate limit policies and their hot reload

    A [limitsImpl] holds the current configuration, or none before the first
    load.  A nil map reads as the empty map. *)

From S2P Require Import Prelude GoStd Errors.

Module RateLimit.

Record RateLimitPolicy := {
  Window : Z;
  Threshold : Z;
  Overrides : gmap string Z;
  RegistrationOverrides : gmap Z Z
}.

Record rateLimitConfig := {
  cfg_TotalCertificates : RateLimitPolicy;
  cfg_CertificatesPerName : RateLimitPolicy;
  cfg_RegistrationsPerIP : RateLimitPolicy;
  cfg_PendingAuthorizationsPerAccount : RateLimitPolicy;
  cfg_InvalidAuthorizationsPerAccount : RateLimitPolicy;
  cfg_CertificatesPerFQDNSet : RateLimitPolicy
}.

(** [RateLimitPolicy{}]. *)
Definition zeroPolicy : RateLimitPolicy :=
  {| Window := 0; Threshold := 0; Overrides := ∅; RegistrationOverrides := ∅ |}.

Record limitsImpl := { rlPolicy : option rateLimitConfig }.

Definition New : limitsImpl := {| rlPolicy := None |}.

Definition policy_of (f : rateLimitConfig -> RateLimitPolicy) (r : limitsImpl) : RateLimitPolicy :=
  match rlPolicy r with None => zeroPolicy | Some c => f c end.
Definition TotalCertificates := policy_of cfg_TotalCertificates.
Definition CertificatesPerName := policy_of cfg_CertificatesPerName.
Definition RegistrationsPerIP := policy_of cfg_RegistrationsPerIP.
Definition PendingAuthorizationsPerAccount := policy_of cfg_PendingAuthorizationsPerAccount.
Definition InvalidAuthorizationsPerAccount := policy_of cfg_InvalidAuthorizationsPerAccount.
Definition CertificatesPerFQDNSet := policy_of cfg_CertificatesPerFQDNSet.

(** [yaml.Unmarshal] into a [rateLimitConfig] is the argument. *)
Definition LoadPolicies (unmarshal : string -> result error rateLimitConfig) (contents : string)
    : M limitsImpl error unit :=
  let! newPolicy := lift (unmarshal contents) in
  put {| rlPolicy := Some newPolicy |}.

Definition Enabled (rlp : RateLimitPolicy) : bool := negb (Threshold rlp =? 0).

Definition GetThreshold (rlp : RateLimitPolicy) (key : string) (regID : Z) : Z :=
  match RegistrationOverrides rlp !! regID with
  | Some override => override
  | None =>
      match Overrides rlp !! key with
      | Some override => override
      | None => Threshold rlp
      end
  end.

Definition WindowBegin (rlp : RateLimitPolicy) (windowEnd : Z) : Z :=
  time_Add windowEnd (wrap64 (-1 * Window rlp)).

(** A failed load keeps the policies in force; without one, no limit is enabled. *)
Lemma LoadPolicies_atomic unmarshal contents r e r' :
  LoadPolicies unmarshal contents r = (Err e, r') -> r' = r.
Proof. unfold LoadPolicies, mbindM, lift, put. destruct (unmarshal contents); naive_solver. Qed.

Lemma unloaded_disabled f : Enabled (policy_of f New) = false.
Proof. done. Qed.

(** The window begins [Window] before its end. *)
Lemma WindowBegin_spec rlp t :
  MinInt64 < Window rlp <= MaxInt64 -> WindowBegin rlp t = t - Window rlp.
Proof.
  unfold WindowBegin, time_Add, MinInt64, MaxInt64. intros H.
  rewrite wrap64_id by (unfold int64_ok; lia). lia.
Qed.

End RateLimit.
