(* ===== verification/Reloader.v ===== *)
(** * reloader/reloader.go: files that are loaded again when they change

    The hostname policy and the rate limit policies are read through a reloader.  What
    [os.Stat] and the reading of the file return at each tick is given; the callbacks are
    those of the user of the reloader. *)

From S2P Require Import Prelude GoStd Errors PublicSuffix Policy RateLimit.

Module Reloader.

(** What a tick finds: the modification time and the contents. *)
Record observation := { o_stat : result error Z; o_read : result error string }.

Section reloader.
Context {P : Type} (dataCallback : string -> M P error unit).

(** [New] up to the start of the loop: the modification time that was seen. *)
Definition New (o : observation) : M P error Z :=
  let! modTime := lift (o_stat o) in
  let! b := lift (o_read o) in
  do! dataCallback b in
  ret modTime.

(** One tick of the loop, with the errors that go to [errorCallback]. *)
Definition tick (o : observation) (modTime : Z) (p : P) : Z * P * list error :=
  match o_stat o with
  | Err err => (modTime, p, [err])
  | Ok current =>
      if negb (time_After current modTime) then (modTime, p, [])
      else
        match o_read o with
        | Err err => (modTime, p, [err])
        | Ok b =>
            match dataCallback b p with
            | (Ok _, p') => (current, p', [])
            | (Err err, p') => (current, p', [err])
            end
        end
  end.

Fixpoint loop (os : list observation) (modTime : Z) (p : P) : Z * P * list error :=
  match os with
  | [] => (modTime, p, [])
  | o :: os' =>
      let '(modTime', p', errs) := tick o modTime p in
      let '(modTime'', p'', errs') := loop os' modTime' p' in
      (modTime'', p'', errs ++ errs')
  end.

(** The contents that reach the callback, each with its modification time. *)
Fixpoint delivered (os : list observation) (modTime : Z) : list (Z * string) :=
  match os with
  | [] => []
  | o :: os' =>
      match o_stat o, o_read o with
      | Ok current, Ok b => if time_After current modTime then (current, b) :: delivered os' current else delivered os' modTime
      | _, _ => delivered os' modTime
      end
  end.

Definition load (p : P) (b : string) : P := snd (dataCallback b p).

(** Each version of the file that is seen, as told by a later modification time, is
    loaded once, in order. *)
Lemma loop_loads os : forall modTime p modTime' p' errs, loop os modTime p = (modTime', p', errs) ->
  p' = foldl load p (delivered os modTime).*2 /\ modTime' = default modTime (last (delivered os modTime).*1) /\
  StronglySorted Z.lt (modTime :: (delivered os modTime).*1).
Proof.
  induction os as [|o os IH]; intros modTime p modTime' p' errs H; simpl in H.
  { injection H as <- <- _. split_and!; [done|done|]. repeat constructor. }
  destruct (tick o modTime p) as [[m1 p1] e1] eqn:E1. destruct (loop os m1 p1) as [[m2 p2] e2] eqn:E2.
  injection H as <- <- _. apply IH in E2 as (-> & -> & Hs). unfold tick in E1. simpl.
  destruct (o_stat o) as [current|]; [|by injection E1 as <- <- _].
  destruct (time_After current modTime) eqn:Et; simpl in E1.
  2:{ injection E1 as <- <- _. by destruct (o_read o). }
  destruct (o_read o) as [b|]; [|by injection E1 as <- <- _].
  assert (m1 = current /\ p1 = load p b) as [-> ->] by (unfold load; destruct (dataCallback b p) as [[] ?]; by injection E1 as <- <- _).
  split_and!; [done| |].
  - cbn [fmap list_fmap fst]. rewrite last_cons. by destruct (last _).
  - constructor; [done|]. apply StronglySorted_inv in Hs as [_ Hs]. apply Z.ltb_lt in Et. constructor; [done|].
    eapply Forall_impl; [exact Hs|]. simpl. lia.
Qed.

End reloader.

(** ** The users of the reloader *)

Section users.
Context {GL : GoLib} {PE : Policy.PolicyEnv} (unmarshal : string -> result error RateLimit.rateLimitConfig).

Definition hostname_policy_loads (b : string) : bool :=
  match Policy.unmarshal_blacklist b with Ok bl => negb (bool_decide (Policy.Blacklist bl = [])) | Err _ => false end.

(** A version of the file that cannot be loaded leaves the policies as they were, so the
    policies in force are those of the last version that could be. *)
Lemma policies_in_force os modTime pa rl modTime' pa' errs rl' errs' :
  loop Policy.loadHostnamePolicy os modTime pa = (modTime', pa', errs) ->
  loop (RateLimit.LoadPolicies unmarshal) os modTime rl = (modTime', rl', errs') ->
  pa' = foldl (load Policy.loadHostnamePolicy) pa (filter (fun b => hostname_policy_loads b = true) (delivered os modTime).*2) /\
  rl' = foldl (load (RateLimit.LoadPolicies unmarshal)) rl (filter (fun b => is_ok (unmarshal b) = true) (delivered os modTime).*2).
Proof.
  intros H1 H2. apply loop_loads in H1 as (-> & _ & _). apply loop_loads in H2 as (-> & _ & _).
  set (bs := (delivered os modTime).*2). clearbody bs. clear. split.
  - revert pa. induction bs as [|b bs IH]; intros pa; [done|]. simpl. rewrite IH. unfold load at 2, Policy.loadHostnamePolicy, mbindM, lift.
    destruct (decide (hostname_policy_loads b = true)) as [E|E].
    + by rewrite filter_cons_True.
    + rewrite filter_cons_False by done. unfold hostname_policy_loads in E.
      destruct (Policy.unmarshal_blacklist b) as [bl|]; [|done]. by destruct (bool_decide _).
  - revert rl. induction bs as [|b bs IH]; intros rl; [done|]. simpl. rewrite IH. unfold load at 2, RateLimit.LoadPolicies, mbindM, lift.
    destruct (unmarshal b) as [c|] eqn:E.
    + rewrite filter_cons_True by (by rewrite E). simpl. unfold load at 3, RateLimit.LoadPolicies, mbindM, lift. by rewrite E.
    + by rewrite filter_cons_False by (by rewrite E).
Qed.

End users.
End Reloader.
