(* ===== verification/Csr.v ===== *)
(** * csr/csr.go: checks on certificate signing requests

    [VerifyCSR] normalises the request in place, then checks it: the model
    returns the normalised request next to the verdict.  Whether the request's
    signature verifies (crypto/x509) is a field of the request; the policy
    authority is an argument. *)

From S2P Require Import Prelude GoStd Errors Core GoodKey.

Inductive SignatureAlgorithm :=
| UnknownSignatureAlgorithm | MD2WithRSA | MD5WithRSA | SHA1WithRSA | SHA256WithRSA
| SHA384WithRSA | SHA512WithRSA | DSAWithSHA1 | DSAWithSHA256 | ECDSAWithSHA1
| ECDSAWithSHA256 | ECDSAWithSHA384 | ECDSAWithSHA512.

(** A CSR attribute that asks for extensions; the value of an extension is [None] when it
    is not a byte string. *)
Record CSRExtension := { ext_Type : list Z; ext_Value : option string }.
Record CSRAttribute := { attr_Type : list Z; attr_Value : list (list CSRExtension) }.

Record CertificateRequest := {
  csr_CommonName : string;
  csr_DNSNames : list string;
  csr_EmailAddresses : list string;
  csr_IPAddresses : list string;
  csr_PublicKey : option PublicKey;
  csr_SignatureAlgorithm : SignatureAlgorithm;
  csr_SignatureOk : bool;
  csr_Attributes : list CSRAttribute;
  csr_Raw : string
}.

(** [x509.Certificate], with the fields the services read; the other parts of
    the subject are together in [x5_OtherSubject]. *)
Inductive ExtKeyUsage := ExtKeyUsageServerAuth | ExtKeyUsageClientAuth | OtherExtKeyUsage (n : Z).
#[global] Instance ExtKeyUsage_eq_dec : EqDecision ExtKeyUsage.
Proof. solve_decision. Defined.

Record X509Certificate := {
  x5_SerialNumber : Z;
  x5_PublicKey : PublicKey;
  x5_CommonName : string;
  x5_OtherSubject : list string;
  x5_DNSNames : list string;
  x5_EmailAddresses : list string;
  x5_IPAddresses : list string;
  x5_NotBefore : Z;
  x5_NotAfter : Z;
  x5_BasicConstraintsValid : bool;
  x5_IsCA : bool;
  x5_ExtKeyUsage : list ExtKeyUsage;
  x5_IssuingCertificateURL : list string
}.

(** [x509.ParseCertificate]. *)
Class X509 := { ParseCertificate : string -> result error X509Certificate }.

Module Csr.

Definition maxCNLength : Z := 64.

Definition badSignatureAlgorithms (alg : SignatureAlgorithm) : bool :=
  match alg with
  | UnknownSignatureAlgorithm | MD2WithRSA | MD5WithRSA | DSAWithSHA1 | DSAWithSHA256
  | ECDSAWithSHA1 => true
  | _ => false
  end.

Notation invalidPubKey := (PlainError "invalid public key in CSR") (only parsing).
Notation unsupportedSigAlg := (PlainError "signature algorithm not supported") (only parsing).
Notation invalidSig := (PlainError "invalid signature on CSR") (only parsing).
Notation invalidEmailPresent := (PlainError "CSR contains one or more email address fields") (only parsing).
Notation invalidIPPresent := (PlainError "CSR contains one or more IP address fields") (only parsing).
Notation invalidNoDNS := (PlainError "at least one DNS name is required") (only parsing).

Definition set_names (csr : CertificateRequest) (cn : string) (names : list string) : CertificateRequest :=
  {| csr_CommonName := cn; csr_DNSNames := names; csr_EmailAddresses := csr_EmailAddresses csr;
     csr_IPAddresses := csr_IPAddresses csr; csr_PublicKey := csr_PublicKey csr;
     csr_SignatureAlgorithm := csr_SignatureAlgorithm csr; csr_SignatureOk := csr_SignatureOk csr;
     csr_Attributes := csr_Attributes csr; csr_Raw := csr_Raw csr |}.

Section csr.
Context {GL : GoLib} {EC : Elliptic}.

Definition normalizeCSR (csr : CertificateRequest) (forceCNFromSAN : bool) : CertificateRequest :=
  let '(cn, names) :=
    if forceCNFromSAN && is_empty (csr_CommonName csr) then
      match csr_DNSNames csr with
      | n :: _ => (n, csr_DNSNames csr)
      | [] => (csr_CommonName csr, csr_DNSNames csr)
      end
    else if negb (is_empty (csr_CommonName csr)) then
      (csr_CommonName csr, csr_DNSNames csr ++ [csr_CommonName csr])
    else (csr_CommonName csr, csr_DNSNames csr) in
  set_names csr (ToLower cn) (UniqueLowerNames names).

(** The names the policy authority refuses, quoted. *)
Definition badNames (willing : AcmeIdentifier -> result error unit) (names : list string) : list string :=
  map Quote (filter (fun name => is_ok (willing {| idType := IdentifierDNS; idValue := name |}) = false) names).

Definition check_csr (csr : CertificateRequest) (maxNames : Z) (keyPolicy : GoodKey.KeyPolicy)
    (willing : AcmeIdentifier -> result error unit) : result error unit :=
  match csr_PublicKey csr with
  | None => Err invalidPubKey
  | Some key =>
      match GoodKey.GoodKey keyPolicy key with
      | Err err => Err (PlainError ("invalid public key in CSR: " ++s Error err))
      | Ok _ =>
          if badSignatureAlgorithms (csr_SignatureAlgorithm csr) then Err unsupportedSigAlg
          else if negb (csr_SignatureOk csr) then Err invalidSig
          else if 0 <? Z.of_nat (length (csr_EmailAddresses csr)) then Err invalidEmailPresent
          else if 0 <? Z.of_nat (length (csr_IPAddresses csr)) then Err invalidIPPresent
          else if (Z.of_nat (length (csr_DNSNames csr)) =? 0) && is_empty (csr_CommonName csr)
               then Err invalidNoDNS
          else if maxCNLength <? len (csr_CommonName csr) then
            Err (PlainError ("CN was longer than " ++s itoa maxCNLength ++s " bytes"))
          else if (0 <? maxNames) && (maxNames <? Z.of_nat (length (csr_DNSNames csr))) then
            Err (PlainError ("CSR contains more than " ++s itoa maxNames ++s " DNS names"))
          else
            let bad := badNames willing (csr_DNSNames csr) in
            if 0 <? Z.of_nat (length bad) then
              Err (PlainError ("policy forbids issuing for: " ++s join ", " bad))
            else Ok tt
      end
  end.

Definition VerifyCSR (csr : CertificateRequest) (maxNames : Z) (keyPolicy : GoodKey.KeyPolicy)
    (willing : AcmeIdentifier -> result error unit) (forceCNFromSAN : bool) (regID : Z)
    : result error unit * CertificateRequest :=
  let csr' := normalizeCSR csr forceCNFromSAN in
  (check_csr csr' maxNames keyPolicy willing, csr').

(** ** Normalisation *)

(** The names a request asks for, before normalisation. *)
Definition requested (csr : CertificateRequest) : list string :=
  csr_DNSNames csr ++ (if is_empty (csr_CommonName csr) then [] else [csr_CommonName csr]).

Lemma normalizeCSR_DNSNames csr force :
  csr_DNSNames (normalizeCSR csr force) = UniqueLowerNames (requested csr).
Proof.
  unfold normalizeCSR, requested, is_empty.
  destruct (String.eqb (csr_CommonName csr) EmptyString), force; simpl;
    try destruct (csr_DNSNames csr) eqn:E; simpl; rewrite ?E, ?app_nil_r; done.
Qed.

Lemma ToLower_empty : ToLower EmptyString = EmptyString.
Proof. done. Qed.

Lemma normalizeCSR_CommonName csr force :
  csr_CommonName (normalizeCSR csr force) = ToLower (csr_CommonName csr) \/
  (csr_CommonName csr = EmptyString /\
   exists n, n ∈ csr_DNSNames csr /\ csr_CommonName (normalizeCSR csr force) = ToLower n).
Proof.
  unfold normalizeCSR, is_empty.
  destruct (String.eqb_spec (csr_CommonName csr) EmptyString) as [->|], force; simpl; auto.
  destruct (csr_DNSNames csr) as [|n ns]; simpl; [auto|]. right. split; [done|]. exists n. set_solver.
Qed.

Lemma normalizeCSR_CN_covered csr force :
  csr_CommonName (normalizeCSR csr force) <> EmptyString ->
  csr_CommonName (normalizeCSR csr force) ∈ csr_DNSNames (normalizeCSR csr force).
Proof.
  intros H. rewrite normalizeCSR_DNSNames, elem_of_UniqueLowerNames. unfold requested, is_empty.
  rewrite map_app, elem_of_app, !list_elem_of_fmap.
  destruct (normalizeCSR_CommonName csr force) as [E|(_ & n & Hn & E)]; rewrite E in *; [right|left; eauto].
  destruct (String.eqb_spec (csr_CommonName csr) EmptyString) as [E'|]; [by rewrite E', ToLower_empty in H|].
  exists (csr_CommonName csr). set_solver.
Qed.

Lemma badNames_nil willing names :
  badNames willing names = [] <->
  Forall (fun n => is_ok (willing {| idType := IdentifierDNS; idValue := n |}) = true) names.
Proof.
  unfold badNames. rewrite Forall_forall. split.
  - intros H%fmap_nil_inv n Hn. destruct (is_ok _) eqn:E; [done|].
    assert (n ∈ @nil string) as Hx; [|by apply not_elem_of_nil in Hx].
    rewrite <- H. by apply list_elem_of_filter.
  - intros H. destruct (filter _ names) as [|n l] eqn:E; [done|].
    assert (n ∈ n :: l) as Hn by set_solver. rewrite <- E in Hn.
    apply list_elem_of_filter in Hn as [H1 H2]. rewrite H in H1; done.
Qed.

(** What an accepted request satisfies. *)
Lemma VerifyCSR_facts csr maxNames keyPolicy willing force regID csr' :
  VerifyCSR csr maxNames keyPolicy willing force regID = (Ok tt, csr') ->
  csr_DNSNames csr' = UniqueLowerNames (requested csr) /\ csr_DNSNames csr' <> [] /\
  (csr_CommonName csr' <> EmptyString -> csr_CommonName csr' ∈ csr_DNSNames csr') /\
  len (csr_CommonName csr') <= 64 /\
  (0 < maxNames -> Z.of_nat (length (csr_DNSNames csr')) <= maxNames) /\
  (forall n, n ∈ csr_DNSNames csr' -> is_ok (willing {| idType := IdentifierDNS; idValue := n |}) = true) /\
  (exists key, csr_PublicKey csr = Some key /\ GoodKey.GoodKey keyPolicy key = Ok tt) /\
  badSignatureAlgorithms (csr_SignatureAlgorithm csr) = false /\ csr_SignatureOk csr = true /\
  csr_EmailAddresses csr = [] /\ csr_IPAddresses csr = [].
Proof.
  unfold VerifyCSR. intros [H <-]%pair_equal_spec.
  pose proof (normalizeCSR_CN_covered csr force) as HCN.
  pose proof (normalizeCSR_DNSNames csr force) as HD.
  assert (forall A (l : list A), (0 <? Z.of_nat (length l)) = false -> l = []) as Hnil
    by (intros A [|]; simpl; [done|intros; bool_solve; lia]).
  assert (exists cn names, normalizeCSR csr force = set_names csr cn names) as (cn & names & EN)
    by (unfold normalizeCSR; case_match; eauto).
  rewrite EN in *. unfold check_csr in H. simpl in *. fold maxCNLength.
  destruct (csr_PublicKey csr) as [key|]; [|done].
  destruct (GoodKey.GoodKey keyPolicy key) as [[]|] eqn:EK; [|done].
  repeat (match goal with H : (if ?b then _ else _) = _ |- _ => destruct b eqn:?; [discriminate|] end).
  split_and!; try done; bool_solve; eauto.
  - intros ->. simpl in *. destruct (is_empty cn) eqn:Ecn; [done|].
    unfold is_empty in Ecn. bool_solve. specialize (HCN Ecn). by apply not_elem_of_nil in HCN.
  - intros Hm. destruct (Z.ltb_spec 0 maxNames); [|lia]. simpl in *. bool_solve. lia.
  - apply Forall_forall, badNames_nil, Hnil. by apply Z.ltb_ge.
  - apply Hnil. by apply Z.ltb_ge.
  - apply Hnil. by apply Z.ltb_ge.
Qed.

(** C34. A request that passes [VerifyCSR] is left with its names lower-cased,
    sorted and distinct, the common name among them, at least one of them and no
    more than allowed; the policy authority is willing to issue for every one; the
    key passes the key policy, the signature verifies under an allowed algorithm,
    and no email or IP address is present. *)
Theorem VerifyCSR_sound csr maxNames keyPolicy willing force regID csr' :
  VerifyCSR csr maxNames keyPolicy willing force regID = (Ok tt, csr') ->
  csr_DNSNames csr' = UniqueLowerNames (requested csr) /\ csr_DNSNames csr' <> [] /\
  (csr_CommonName csr' <> EmptyString -> csr_CommonName csr' ∈ csr_DNSNames csr') /\
  len (csr_CommonName csr') <= 64 /\
  (0 < maxNames -> Z.of_nat (length (csr_DNSNames csr')) <= maxNames) /\
  (forall n, n ∈ csr_DNSNames csr' -> is_ok (willing {| idType := IdentifierDNS; idValue := n |}) = true) /\
  (exists key, csr_PublicKey csr = Some key /\ GoodKey.GoodKey keyPolicy key = Ok tt) /\
  badSignatureAlgorithms (csr_SignatureAlgorithm csr) = false /\ csr_SignatureOk csr = true /\
  csr_EmailAddresses csr = [] /\ csr_IPAddresses csr = [].
Proof. apply VerifyCSR_facts. Qed.

Lemma normalizeCSR_set csr force :
  normalizeCSR csr force = set_names csr (csr_CommonName (normalizeCSR csr force))
                             (csr_DNSNames (normalizeCSR csr force)).
Proof. unfold normalizeCSR. by case_match. Qed.

Lemma requested_ascii_cn csr : Forall (fun n => is_ascii n = true) (requested csr) ->
  is_ascii (csr_CommonName csr) = true.
Proof.
  unfold requested, is_empty. destruct (String.eqb_spec (csr_CommonName csr) EmptyString) as [->|]; [done|].
  rewrite Forall_app. intros [_ H]. by apply Forall_inv in H.
Qed.

(** The normalised common name is already in lower case. *)
Lemma normalizeCSR_CN_lower csr force : Forall (fun n => is_ascii n = true) (requested csr) ->
  ToLower (csr_CommonName (normalizeCSR csr force)) = csr_CommonName (normalizeCSR csr force).
Proof.
  intros H. destruct (normalizeCSR_CommonName csr force) as [->|(_ & n & Hn & ->)]; apply ToLower_idem.
  - by apply requested_ascii_cn.
  - rewrite Forall_forall in H. apply H. unfold requested. set_solver.
Qed.

Lemma normalizeCSR_names_stable csr force force' : Forall (fun n => is_ascii n = true) (requested csr) ->
  csr_DNSNames (normalizeCSR (normalizeCSR csr force) force') = csr_DNSNames (normalizeCSR csr force).
Proof.
  intros H. rewrite !normalizeCSR_DNSNames. unfold requested at 1. rewrite normalizeCSR_DNSNames.
  rewrite <- (UniqueLowerNames_idem (requested csr)) at 2 by done.
  apply UniqueLowerNames_ext. intros x. rewrite map_app, elem_of_app. unfold is_empty.
  destruct (String.eqb_spec (csr_CommonName (normalizeCSR csr force)) EmptyString) as [|E]; [set_solver|].
  pose proof (normalizeCSR_CN_covered csr force E) as HC. rewrite normalizeCSR_DNSNames in HC.
  rewrite !list_elem_of_fmap. set_solver.
Qed.

Lemma normalizeCSR_false_CN csr : csr_CommonName (normalizeCSR csr false) = ToLower (csr_CommonName csr).
Proof. unfold normalizeCSR. simpl. by destruct (is_empty _). Qed.

(** A common name that is still missing stays missing. *)
Lemma normalizeCSR_CN_missing csr force :
  csr_CommonName (normalizeCSR csr force) = EmptyString ->
  Forall (fun n => is_ascii n = true /\ n <> EmptyString) (csr_DNSNames csr) ->
  force = true -> csr_DNSNames (normalizeCSR csr force) = [] \/ csr_CommonName csr <> EmptyString.
Proof.
  intros HC Hf ->. destruct (decide (csr_CommonName csr = EmptyString)) as [E|]; [|by right]. left.
  rewrite normalizeCSR_DNSNames. unfold normalizeCSR, requested in *. rewrite E in *. simpl in *.
  destruct (csr_DNSNames csr) as [|n ns]; [done|]. simpl in HC. apply Forall_cons in Hf as [[Ha Hn] _].
  rewrite ToLower_ascii in HC by done. by destruct n.
Qed.

Lemma lower_nonempty s : is_ascii s = true -> s <> EmptyString -> ToLower s <> EmptyString.
Proof. intros H Hs. rewrite ToLower_ascii by done. by destruct s. Qed.

(** Normalising a request twice is normalising it once, for ASCII names: the
    CA repeats on the same request the checks the RA made and sees the same names. *)
Theorem normalizeCSR_idempotent csr force :
  Forall (fun n => is_ascii n = true /\ n <> EmptyString) (csr_DNSNames csr) ->
  is_ascii (csr_CommonName csr) = true ->
  normalizeCSR (normalizeCSR csr force) force = normalizeCSR csr force.
Proof.
  intros Hf Hc.
  assert (Forall (fun n => is_ascii n = true) (requested csr)) as Ha.
  { unfold requested. apply Forall_app. split; [eapply Forall_impl; [exact Hf|naive_solver]|].
    destruct (is_empty _); by repeat constructor. }
  rewrite (normalizeCSR_set (normalizeCSR csr force)), normalizeCSR_names_stable by done.
  assert (csr_CommonName (normalizeCSR (normalizeCSR csr force) force)
          = csr_CommonName (normalizeCSR csr force)) as ->; [|by rewrite (normalizeCSR_set csr force)].
  destruct (normalizeCSR_CommonName (normalizeCSR csr force) force) as [->|(E & n & Hn & _)];
    [by apply normalizeCSR_CN_lower|].
  destruct force.
  - destruct (normalizeCSR_CN_missing csr true E Hf eq_refl) as [E'|E'];
      [rewrite E' in Hn; by apply not_elem_of_nil in Hn|].
    exfalso. destruct (normalizeCSR_CommonName csr true) as [E2|[E2 _]]; [|done].
    rewrite E2 in E. by apply lower_nonempty in E.
  - rewrite normalizeCSR_false_CN. by apply normalizeCSR_CN_lower.
Qed.

End csr.

(** ** Witnesses *)

Definition toy_elliptic : Elliptic := {|
  curve_P := fun _ => 23; curve_N := fun _ => 2; curve_B := fun _ => 1; curve_Name := fun _ => "toy";
  ScalarMult := fun _ _ _ _ => (0, 0) |}.

Definition toy_csr : CertificateRequest :=
  {| csr_CommonName := EmptyString; csr_DNSNames := ["B.com"; "a.com"; "b.com"];
     csr_EmailAddresses := []; csr_IPAddresses := []; csr_PublicKey := Some (ECDSAKey P256 0 1);
     csr_SignatureAlgorithm := SHA256WithRSA; csr_SignatureOk := true;
     csr_Attributes := []; csr_Raw := "request" |}.

Lemma VerifyCSR_sound_witness :
  exists csr', @VerifyCSR Bcodes.toy_golib toy_elliptic toy_csr 100 GoodKey.NewKeyPolicy
    (fun _ => Ok tt) true 1 = (Ok tt, csr') /\ csr_CommonName csr' ∈ csr_DNSNames csr'.
Proof.
  eexists. split; [vm_compute; reflexivity|].
  eapply (@VerifyCSR_sound Bcodes.toy_golib toy_elliptic toy_csr 100 GoodKey.NewKeyPolicy
    (fun _ => Ok tt) true 1); [vm_compute; reflexivity|done].
Defined.

Lemma normalizeCSR_idempotent_witness :
  @normalizeCSR Bcodes.toy_golib (@normalizeCSR Bcodes.toy_golib toy_csr true) true
  = @normalizeCSR Bcodes.toy_golib toy_csr true.
Proof. apply (@normalizeCSR_idempotent Bcodes.toy_golib toy_csr true); [repeat constructor|]; done. Defined.

End Csr.
