(* ===== verification/GrpcCreds.v ===== *)
(** * grpc/creds: who may connect

    The transport credentials of gRPC clients and servers.  crypto/tls does the
    handshakes; what it reports about a connection is given. *)

From S2P Require Import Prelude GoStd Net Errors Core Csr.

Module GrpcCreds.

(** [tls.ConnectionState]: the certificates the peer presented, verified, leaf first. *)
Record ConnectionState := { PeerCertificates : list X509Certificate }.

(** [tls.Config], as far as the code sets it. *)
Record Config := {
  ServerName : string;
  RootCAs : list string;
  Certificates : list string;
  MinVersion : Z;
  MaxVersion : Z
}.
Definition VersionTLS12 : Z := 771.

Inductive creds_error :=
| SANNotAcceptedErr (got expected : list string)
| OtherErr (err : error).
Definition NilServerConfigErr : creds_error := OtherErr (PlainError "boulder/grpc/creds: `serverConfig` must not be nil").
Definition EmptyPeerCertsErr : creds_error :=
  OtherErr (PlainError "boulder/grpc/creds: validateClient given state with empty PeerCertificates").

Record clientTransportCredentials := { roots : list string; clients : list string }.
Record serverTransportCredentials := { serverConfig : Config; acceptedSANs : gset string }.

Definition NewServerCredentials (config : option Config) (sans : gset string) : result creds_error serverTransportCredentials :=
  match config with
  | None => Err NilServerConfigErr
  | Some c => Ok {| serverConfig := c; acceptedSANs := sans |}
  end.

Definition receivedSANs (leaf : X509Certificate) : list string := x5_DNSNames leaf ++ map Net.IP_String (x5_IPAddresses leaf).

Definition validateClient (tc : serverTransportCredentials) (peerState : ConnectionState) : result creds_error unit :=
  if bool_decide (acceptedSANs tc = ∅) then Ok tt
  else
    match PeerCertificates peerState with
    | [] => Err EmptyPeerCertsErr
    | leaf :: _ =>
        if existsb (fun name => bool_decide (name ∈ acceptedSANs tc)) (receivedSANs leaf) then Ok tt
        else Err (SANNotAcceptedErr (receivedSANs leaf) (elements (acceptedSANs tc)))
    end.

(** [handshake] is [tls.Server(rawConn, config).Handshake()] and the state after it. *)
Definition ServerHandshake (tc : serverTransportCredentials) (handshake : Config -> result error ConnectionState)
    : result creds_error ConnectionState :=
  match handshake (serverConfig tc) with
  | Err err => Err (OtherErr err)
  | Ok state => let? _ := validateClient tc state in Ok state
  end.

(** What ends the wait of [ClientHandshake]: the context, or the handshake. *)
Inductive ending := ContextDone (err : error) | HandshakeDone (r : result error unit).

(** The outcome, and whether the raw connection was closed. *)
Definition ClientHandshake (tc : clientTransportCredentials) (addr : string) (splitError : error) (wait : Config -> ending)
    : result error unit * bool :=
  match Net.SplitHostPort addr with
  | None => (Err splitError, false)
  | Some (host, _) =>
      let config := {| ServerName := host; RootCAs := roots tc; Certificates := clients tc;
                       MinVersion := VersionTLS12; MaxVersion := VersionTLS12 |} in
      match wait config with
      | ContextDone err => (Err err, false)
      | HandshakeDone (Err err) => (Err err, true)
      | HandshakeDone (Ok _) => (Ok tt, false)
      end
  end.

(** ** Only listed clients connect *)

Lemma validateClient_spec tc state : validateClient tc state = Ok tt <->
  acceptedSANs tc = ∅ \/ exists leaf rest name, PeerCertificates state = leaf :: rest /\ name ∈ receivedSANs leaf /\ name ∈ acceptedSANs tc.
Proof.
  unfold validateClient. case_bool_decide as He; [split; [by left|done]|]. destruct (PeerCertificates state) as [|leaf rest].
  - split; [done|]. by intros [?|(leaf & rest & name & ? & _)].
  - destruct (existsb _ _) eqn:E.
    + split; [|done]. intros _. right. apply existsb_exists in E as (name & Hin & Hn). apply bool_decide_eq_true in Hn.
      exists leaf, rest, name. split_and!; [done|by apply list_elem_of_In|done].
    + split; [done|]. intros [?|(leaf' & rest' & name & [= <- <-] & Hin & Hn)]; [done|]. apply not_true_iff_false in E. exfalso.
      apply E, existsb_exists. exists name. split; [by apply list_elem_of_In|]. by apply bool_decide_eq_true.
Qed.

(** When a server has a list of accepted names, a connection is established only with
    a client whose handshake succeeded and whose own certificate, not one of its issuers',
    has a listed DNS name or IP address among its subject alternative names; and with
    every such client. *)
Theorem only_listed_clients_connect config sans tc handshake state :
  NewServerCredentials config sans = Ok tc -> sans <> ∅ ->
  ServerHandshake tc handshake = Ok state <->
  (exists c, config = Some c /\ handshake c = Ok state) /\
  exists leaf rest name, PeerCertificates state = leaf :: rest /\
    (name ∈ x5_DNSNames leaf \/ exists ip, ip ∈ x5_IPAddresses leaf /\ name = Net.IP_String ip) /\ name ∈ sans.
Proof.
  intros Hn Hs. destruct config as [c|]; [|done]. injection Hn as <-.
  assert (forall leaf name, name ∈ receivedSANs leaf <->
    (name ∈ x5_DNSNames leaf \/ exists ip, ip ∈ x5_IPAddresses leaf /\ name = Net.IP_String ip)) as Hr.
  { intros leaf name. unfold receivedSANs. rewrite elem_of_app, list_elem_of_fmap. naive_solver. }
  unfold ServerHandshake. simpl. destruct (handshake c) as [st|e] eqn:E.
  - pose proof (validateClient_spec {| serverConfig := c; acceptedSANs := sans |} st) as Hv. simpl in Hv.
    setoid_rewrite Hr in Hv. destruct (validateClient _ st) as [[]|err]; simpl; split.
    + intros [= <-]. split; [by exists c|]. by destruct (proj1 Hv eq_refl).
    + intros [(c' & [= <-] & Hh) _]. rewrite E in Hh. by injection Hh as <-.
    + done.
    + intros [(c' & [= <-] & Hh) Hl]. rewrite E in Hh. injection Hh as <-. pose proof (proj2 Hv (or_intror Hl)). done.
  - split; [done|]. intros [(c' & [= <-] & Hh) _]. by rewrite E in Hh.
Qed.

End GrpcCreds.
