(* ===== verification/Database.v ===== *)
(** * The database below the storage authority

    The tables of sa/_db/migrations, one field per table, and the database calls
    sa/ makes through gorp.  Every call may fail: the world carries a script of
    faults, and a fault may strike before the statement takes effect or after
    (the reply is lost).  A transaction remembers the tables it started from.
    Calls are executed one after the other; interleaving of transactions is
    left to the database's isolation.

    String keys are compared under the database's collation [coll]; JSON columns
    hold what the marshaller, a parameter, produced. *)

From S2P Require Import Prelude GoStd Errors Features Core.

(** ** Parameters: collation and JSON *)

Class SQL := {
  (** two VARCHAR values compare equal when their collation keys are equal *)
  coll : string -> string;
  (** [x LIKE pattern] *)
  like : string -> string -> bool
}.

(** LIKE with a literal prefix followed by the wildcard: some prefix of the value
    compares equal to the literal. *)
Definition no_wildcard (p : string) : Prop :=
  all_chars (fun c => negb (Ascii.eqb c "%" || Ascii.eqb c "_" || Ascii.eqb c (ascii_of_nat 92))) p = true.
(** Lower-case host names. *)
Definition host_char (c : ascii) : bool :=
  in_range "a" "z" c || in_range "0" "9" c || Ascii.eqb c "-" || Ascii.eqb c ".".
Class SQLLaws (Q : SQL) : Prop := {
  like_prefix : forall p s, no_wildcard p ->
    like (p ++s "%") s = true <-> exists t u, s = t ++s u /\ coll t = coll p;
  (** the collation tells lower-case host names apart *)
  coll_host : forall s t, all_chars host_char s = true -> all_chars host_char t = true ->
    coll s = coll t -> s = t
}.

Class StorageJSON := {
  marshal_identifier : AcmeIdentifier -> string;
  marshal_jwk : option JsonWebKey -> string;
  unmarshal_jwk : string -> result error JsonWebKey;
  marshal_problem : Probs.ProblemDetails -> string;
  unmarshal_problem : string -> result error Probs.ProblemDetails;
  marshal_records : list ValidationRecord -> string;
  unmarshal_records : string -> result error (list ValidationRecord)
}.

(** ** Tables *)

(** [regModelv1] and [regModelv2]: the version without a status column has [None]. *)
Record regModel := {
  rm_ID : Z;
  rm_Key : string;
  rm_KeySHA256 : string;
  rm_Contact : list string;
  rm_Agreement : string;
  rm_InitialIP : string;
  rm_CreatedAt : Z;
  rm_LockCol : Z;
  rm_Status : option string
}.

Record pendingauthzModel := { pa_Authorization : Authorization; pa_LockCol : Z }.

Record challModel := {
  cm_ID : Z;
  cm_AuthorizationID : string;
  cm_Type : string;
  cm_Status : AcmeStatus;
  cm_Error : string;
  cm_Token : string;
  cm_KeyAuthorization : string;
  cm_ValidationRecord : string;
  cm_LockCol : Z
}.

Record issuedNameModel := {
  in_ReversedName : string;
  in_NotBefore : Z;
  in_Serial : string
}.

(** Tables with a string primary key are keyed by its collation key; tables with
    an auto-increment key are lists in insertion order with the next key.  In
    [registrations] the status column is always there. *)
Record Tables := {
  registrations : gmap Z regModel;
  nextRegistration : Z;
  pendingAuthorizations : gmap string pendingauthzModel;
  authz : gmap string Authorization;
  challenges : list challModel;
  nextChallenge : Z;
  issuedNames : list issuedNameModel;
  certificates : gmap string Certificate;
  certificateStatus : gmap string CertificateStatus;
  sctReceipts : list SignedCertificateTimestamp;
  nextSct : Z;
  fqdnSets : list FQDNSet;
  nextFqdnSet : Z
}.

Definition emptyTables : Tables :=
  {| registrations := ∅; nextRegistration := 1; pendingAuthorizations := ∅; authz := ∅;
     challenges := []; nextChallenge := 1; issuedNames := []; certificates := ∅;
     certificateStatus := ∅; sctReceipts := []; nextSct := 1; fqdnSets := []; nextFqdnSet := 1 |}.

(** Setters. *)
Definition set_registrations (t : Tables) (x : gmap Z regModel) (n : Z) : Tables :=
  {| registrations := x; nextRegistration := n; pendingAuthorizations := pendingAuthorizations t;
     authz := authz t; challenges := challenges t; nextChallenge := nextChallenge t;
     issuedNames := issuedNames t; certificates := certificates t;
     certificateStatus := certificateStatus t; sctReceipts := sctReceipts t; nextSct := nextSct t;
     fqdnSets := fqdnSets t; nextFqdnSet := nextFqdnSet t |}.
Definition set_authzs (t : Tables) (p : gmap string pendingauthzModel) (a : gmap string Authorization) : Tables :=
  {| registrations := registrations t; nextRegistration := nextRegistration t;
     pendingAuthorizations := p; authz := a; challenges := challenges t; nextChallenge := nextChallenge t;
     issuedNames := issuedNames t; certificates := certificates t;
     certificateStatus := certificateStatus t; sctReceipts := sctReceipts t; nextSct := nextSct t;
     fqdnSets := fqdnSets t; nextFqdnSet := nextFqdnSet t |}.
Definition set_challenges (t : Tables) (c : list challModel) (n : Z) : Tables :=
  {| registrations := registrations t; nextRegistration := nextRegistration t;
     pendingAuthorizations := pendingAuthorizations t; authz := authz t; challenges := c;
     nextChallenge := n; issuedNames := issuedNames t; certificates := certificates t;
     certificateStatus := certificateStatus t; sctReceipts := sctReceipts t; nextSct := nextSct t;
     fqdnSets := fqdnSets t; nextFqdnSet := nextFqdnSet t |}.
Definition set_certs (t : Tables) (i : list issuedNameModel) (c : gmap string Certificate)
    (s : gmap string CertificateStatus) : Tables :=
  {| registrations := registrations t; nextRegistration := nextRegistration t;
     pendingAuthorizations := pendingAuthorizations t; authz := authz t; challenges := challenges t;
     nextChallenge := nextChallenge t; issuedNames := i; certificates := c; certificateStatus := s;
     sctReceipts := sctReceipts t; nextSct := nextSct t; fqdnSets := fqdnSets t;
     nextFqdnSet := nextFqdnSet t |}.
Definition set_scts (t : Tables) (s : list SignedCertificateTimestamp) (n : Z) : Tables :=
  {| registrations := registrations t; nextRegistration := nextRegistration t;
     pendingAuthorizations := pendingAuthorizations t; authz := authz t; challenges := challenges t;
     nextChallenge := nextChallenge t; issuedNames := issuedNames t; certificates := certificates t;
     certificateStatus := certificateStatus t; sctReceipts := s; nextSct := n; fqdnSets := fqdnSets t;
     nextFqdnSet := nextFqdnSet t |}.
Definition set_fqdnSets (t : Tables) (f : list FQDNSet) (n : Z) : Tables :=
  {| registrations := registrations t; nextRegistration := nextRegistration t;
     pendingAuthorizations := pendingAuthorizations t; authz := authz t; challenges := challenges t;
     nextChallenge := nextChallenge t; issuedNames := issuedNames t; certificates := certificates t;
     certificateStatus := certificateStatus t; sctReceipts := sctReceipts t; nextSct := nextSct t;
     fqdnSets := f; nextFqdnSet := n |}.

(** ** The world of the storage authority *)

Record fault := { f_error : error; f_applied : bool }.

(** [w_faults]: the outcome of the next calls, an exhausted script meaning no
    more faults; [w_ticks]: how much time passes after each reading of the clock;
    [w_rng]: the tokens drawn, in order. *)
Record World := {
  db : Tables;
  tx : option Tables;
  w_faults : list (option fault);
  w_now : Z;
  w_ticks : list Z;
  w_rng : nat -> string;
  w_draws : nat
}.

Definition set_db (w : World) (t : Tables) : World :=
  {| db := t; tx := tx w; w_faults := w_faults w; w_now := w_now w; w_ticks := w_ticks w;
     w_rng := w_rng w; w_draws := w_draws w |}.
Definition set_tx (w : World) (o : option Tables) : World :=
  {| db := db w; tx := o; w_faults := w_faults w; w_now := w_now w; w_ticks := w_ticks w;
     w_rng := w_rng w; w_draws := w_draws w |}.
Definition pop_fault (w : World) : World :=
  {| db := db w; tx := tx w; w_faults := tail (w_faults w); w_now := w_now w; w_ticks := w_ticks w;
     w_rng := w_rng w; w_draws := w_draws w |}.
Definition pop_tick (w : World) : World :=
  {| db := db w; tx := tx w; w_faults := w_faults w; w_now := w_now w + default 0 (head (w_ticks w));
     w_ticks := tail (w_ticks w); w_rng := w_rng w; w_draws := w_draws w |}.
Definition pop_token (w : World) : World :=
  {| db := db w; tx := tx w; w_faults := w_faults w; w_now := w_now w; w_ticks := w_ticks w;
     w_rng := w_rng w; w_draws := S (w_draws w) |}.

Definition next_fault (w : World) : option fault := mjoin (head (w_faults w)).

Definition DB (A : Type) : Type := M World error A.

(** [clk.Now()] *)
Definition Now : DB Z := fun w => (Ok (w_now w), pop_tick w).
(** [core.NewToken()] *)
Definition NewToken : DB string := fun w => (Ok (w_rng w (w_draws w)), pop_token w).

(** One statement: [stmt] computes its result and the tables it leaves. *)
Definition call {A} (stmt : Tables -> result error (A * Tables)) : DB A :=
  fun w =>
    let w' := pop_fault w in
    match next_fault w with
    | Some f =>
        (Err (f_error f),
         match stmt (db w) with
         | Ok (_, t) => if f_applied f then set_db w' t else w'
         | Err _ => w'
         end)
    | None =>
        match stmt (db w) with
        | Ok (a, t) => (Ok a, set_db w' t)
        | Err e => (Err e, w')
        end
    end.

(** A query leaves the tables alone. *)
Definition query {A} (q : Tables -> result error A) : DB A :=
  call (fun t => match q t with Ok a => Ok (a, t) | Err e => Err e end).

(** [dbMap.Begin] *)
Definition Begin : DB unit := fun w =>
  match next_fault w with
  | Some f => (Err (f_error f), pop_fault w)
  | None => (Ok tt, set_tx (pop_fault w) (Some (db w)))
  end.

(** [tx.Commit]: the tables stay as the transaction left them, unless the commit
    failed before taking effect. *)
Definition Commit : DB unit := fun w =>
  match next_fault w with
  | Some f =>
      (Err (f_error f),
       if f_applied f then set_tx (pop_fault w) None
       else set_tx (set_db (pop_fault w) (default (db w) (tx w))) None)
  | None => (Ok tt, set_tx (pop_fault w) None)
  end.

(** [sa.Rollback(tx, err)]: the tables are those the transaction started from,
    whether or not the client hears about it. *)
Definition Rollback {A} (err : error) : DB A := fun w =>
  let w' := set_tx (set_db (pop_fault w) (default (db w) (tx w))) None in
  (Err (RollbackError err (f_error <$> next_fault w)), w').

(** The shape all transactions of sa.go share: begin, roll back on the first
    error, commit at the end. *)
Definition in_tx {A} (body : DB A) : DB A :=
  do! Begin in
  let! r := try body in
  match r with
  | Err e => Rollback e
  | Ok a => do! Commit in ret a
  end.

(** ** Errors of the server and of gorp *)

Definition duplicate_entry (key : string) : error :=
  PlainError ("Error 1062: Duplicate entry for key " ++s key).
Definition foreign_key_fails : error :=
  PlainError "Error 1452: Cannot add or update a child row: a foreign key constraint fails".
Definition optimistic_lock_error : error :=
  PlainError "gorp: OptimisticLockError".

(** gorp's version column: an insert stores the version plus one; an update of a
    row at version [v] requires version [v], or 1 when [v] is zero, because the
    field was set before being bound; it stores [v + 1]. *)
Definition insert_version (v : Z) : Z := v + 1.
Definition where_version (v : Z) : Z := if v =? 0 then 1 else v.

(** The outcome of an update or delete that matched [rows] rows. *)
Definition versioned_result {A} (rows existingVersion : Z) (k : result error A) : result error A :=
  if (rows =? 0) && (0 <? existingVersion) then Err optimistic_lock_error else k.

(** ** Transactions *)

