(* ===== verification/Storage.v ===== *)
(** * sa/: the storage authority's operations

    Every exported method of [SQLStorageAuthority] (sa/sa.go, sa/authz.go,
    sa/model.go, sa/rollback.go) as a state-passing function over the database
    model.  Statements are modelled by what their SQL selects or changes. *)

From S2P Require Import Prelude GoStd Net Errors Features Core Csr Database.

Import Net.

Module Storage.

(** ** Small helpers *)

Definition statusIsPending (status : AcmeStatus) : bool :=
  String.eqb status StatusPending || String.eqb status StatusProcessing || String.eqb status StatusUnknown.

(** The swap loop of [reverseName]: exchanges positions [i] and [j], moving inwards. *)
Fixpoint swap_loop (fuel : nat) (i j : nat) (labels : list string) : list string :=
  match fuel with
  | O => labels
  | S fuel' =>
      if (i <? j)%nat then
        match labels !! i, labels !! j with
        | Some a, Some b => swap_loop fuel' (S i) (pred j) (<[j := a]> (<[i := b]> labels))
        | _, _ => labels
        end
      else labels
  end.
Definition reverseName (domain : string) : string :=
  let labels := split_on "." domain in
  join "." (swap_loop (length labels) 0 (length labels - 1) labels).

Definition incrementIP (ip : string) (index : Z) : string :=
  let bigInt := be_value ip + Z.shiftl 1 (128 - index) in
  let resultBytes := be_bytes bigInt in
  if 16 <? len resultBytes then repeat_char "255" 16
  else repeat_char "000" (Z.to_nat (16 - len resultBytes)) ++s resultBytes.

Definition ipRange (ip : string) : string * string :=
  let ip := To16 ip in
  let maskLength := match To4 ip with Some _ => 128 | None => 48 end in
  let begin := Mask ip (CIDRMask 16 maskLength) in
  let end_ := incrementIP begin maskLength in
  (begin, end_).

Definition mediumBlobSize : Z := 2 ^ 24.

Section sa.
Context {GL : GoLib} {Cr : Crypto} {Q : SQL} {J : StorageJSON} {X : X509}.

Definition ceq (a b : string) : bool := String.eqb (coll a) (coll b).

(** ** sa/model.go: conversions *)

Definition registrationToModel (fs : Features.state) (r : Registration) : result error regModel :=
  let key := marshal_jwk (reg_Key r) in
  let? sha := KeyDigest (JwkPtr (reg_Key r)) in
  match reg_InitialIP r with
  | None => Err (PlainError "initialIP was nil")
  | Some ip =>
      Ok {| rm_ID := reg_ID r; rm_Key := key; rm_KeySHA256 := sha;
            rm_Contact := default [] (reg_Contact r); rm_Agreement := reg_Agreement r;
            rm_InitialIP := To16 ip; rm_CreatedAt := reg_CreatedAt r; rm_LockCol := 0;
            rm_Status := if flag fs Features.AllowAccountDeactivation then Some (reg_Status r) else None |}
  end.

Definition modelToRegistration (fs : Features.state) (rm : regModel) : result error Registration :=
  match unmarshal_jwk (rm_Key rm) with
  | Err err => Err (PlainError ("unable to unmarshal JsonWebKey in db: " ++s Error err))
  | Ok k =>
      Ok {| reg_ID := rm_ID rm; reg_Key := Some k; reg_Contact := Some (rm_Contact rm);
            reg_Agreement := rm_Agreement rm; reg_InitialIP := Some (rm_InitialIP rm);
            reg_CreatedAt := rm_CreatedAt rm;
            reg_Status := if flag fs Features.AllowAccountDeactivation
                          then default EmptyString (rm_Status rm) else EmptyString |}
  end.

Definition challengeToModel (c : Challenge) (authID : string) : result error challModel :=
  let? errJSON :=
    match ch_Error c with
    | None => Ok EmptyString
    | Some problem =>
        let errJSON := marshal_problem problem in
        if mediumBlobSize <? len errJSON then
          Err (PlainError "Error object is too large to store in the database")
        else Ok errJSON
    end in
  let? vrJSON :=
    match ch_ValidationRecord c with
    | [] => Ok EmptyString
    | records =>
        let vrJSON := marshal_records records in
        if mediumBlobSize <? len vrJSON then
          Err (PlainError "Validation Record object is too large to store in the database")
        else Ok vrJSON
    end in
  Ok {| cm_ID := ch_ID c; cm_AuthorizationID := authID; cm_Type := ch_Type c; cm_Status := ch_Status c;
        cm_Error := errJSON; cm_Token := ch_Token c; cm_KeyAuthorization := ch_ProvidedKeyAuthorization c;
        cm_ValidationRecord := vrJSON; cm_LockCol := 0 |}.

Definition modelToChallenge (cm : challModel) : result error Challenge :=
  let? problem :=
    if is_empty (cm_Error cm) then Ok None
    else let? p := unmarshal_problem (cm_Error cm) in Ok (Some p) in
  let? vr :=
    if is_empty (cm_ValidationRecord cm) then Ok [] else unmarshal_records (cm_ValidationRecord cm) in
  Ok {| ch_ID := cm_ID cm; ch_Type := cm_Type cm; ch_Status := cm_Status cm; ch_Error := problem;
        ch_URI := EmptyString; ch_Token := cm_Token cm;
        ch_ProvidedKeyAuthorization := cm_KeyAuthorization cm; ch_ValidationRecord := vr |}.

(** ** Statements *)

(** [selectRegistration] and [selectRegistrationv2]: only the second reads the status. *)
Definition view_registration (fs : Features.state) (rm : regModel) : regModel :=
  {| rm_ID := rm_ID rm; rm_Key := rm_Key rm; rm_KeySHA256 := rm_KeySHA256 rm;
     rm_Contact := rm_Contact rm; rm_Agreement := rm_Agreement rm; rm_InitialIP := rm_InitialIP rm;
     rm_CreatedAt := rm_CreatedAt rm; rm_LockCol := rm_LockCol rm;
     rm_Status := if flag fs Features.AllowAccountDeactivation then rm_Status rm else None |}.

Definition selectRegistration_by_id (fs : Features.state) (id : Z) : DB regModel :=
  query (fun t => match registrations t !! id with
                  | Some rm => Ok (view_registration fs rm)
                  | None => Err ErrNoRows
                  end).

Definition find_by_key (t : Tables) (sha : string) : option regModel :=
  snd <$> head (filter (fun '(_, rm) => ceq (rm_KeySHA256 rm) sha = true) (map_to_list (registrations t))).

Definition selectRegistration_by_key (fs : Features.state) (sha : string) : DB regModel :=
  query (fun t => match find_by_key t sha with
                  | Some rm => Ok (view_registration fs rm)
                  | None => Err ErrNoRows
                  end).

(** Insert into [registrations]: unique key digests, the status defaulting to
    "valid"; gorp sets the new ID and version on the model. *)
Definition insert_registration (rm : regModel) : DB regModel :=
  call (fun t =>
    match find_by_key t (rm_KeySHA256 rm) with
    | Some _ => Err (duplicate_entry "jwk_sha256")
    | None =>
        let id := nextRegistration t in
        let stored st :=
          {| rm_ID := id; rm_Key := rm_Key rm; rm_KeySHA256 := rm_KeySHA256 rm;
             rm_Contact := rm_Contact rm; rm_Agreement := rm_Agreement rm;
             rm_InitialIP := rm_InitialIP rm; rm_CreatedAt := rm_CreatedAt rm;
             rm_LockCol := insert_version (rm_LockCol rm); rm_Status := st |} in
        Ok (stored (rm_Status rm),
            set_registrations t (<[id := stored (Some (default StatusValid (rm_Status rm)))]> (registrations t)) (id + 1))
    end).

(** Update of [registrations] by ID and version; the result is the row count.
    Another row with the new key digest is a duplicate entry. *)
Definition key_taken (t : Tables) (sha : string) (id : Z) : bool :=
  bool_decide (filter (fun '(i, rm) => i <> id /\ ceq (rm_KeySHA256 rm) sha = true)
                 (map_to_list (registrations t)) <> []).
Definition update_registration (rm : regModel) : DB Z :=
  call (fun t =>
    let v := rm_LockCol rm in
    match registrations t !! rm_ID rm with
    | Some old =>
        if rm_LockCol old =? where_version v then
          if key_taken t (rm_KeySHA256 rm) (rm_ID rm) then Err (duplicate_entry "jwk_sha256")
          else
            Ok (1, set_registrations t (<[rm_ID rm :=
              {| rm_ID := rm_ID rm; rm_Key := rm_Key rm; rm_KeySHA256 := rm_KeySHA256 rm;
                 rm_Contact := rm_Contact rm; rm_Agreement := rm_Agreement rm;
                 rm_InitialIP := rm_InitialIP rm; rm_CreatedAt := rm_CreatedAt rm;
                 rm_LockCol := insert_version v;
                 rm_Status := match rm_Status rm with Some s => Some s | None => rm_Status old end |}]>
              (registrations t)) (nextRegistration t))
        else versioned_result 0 v (Ok (0, t))
    | None => versioned_result 0 v (Ok (0, t))
    end).

Definition has_registration (t : Tables) (id : Z) : bool :=
  match registrations t !! id with Some _ => true | None => false end.

(** The columns of [pendingAuthorizations] and [authz]: no challenges. *)
Definition authz_row (a : Authorization) : Authorization :=
  {| az_ID := az_ID a; az_Identifier := az_Identifier a; az_RegistrationID := az_RegistrationID a;
     az_Status := az_Status a; az_Expires := az_Expires a; az_Challenges := [];
     az_Combinations := az_Combinations a |}.
Definition with_status (a : Authorization) (st : AcmeStatus) : Authorization :=
  {| az_ID := az_ID a; az_Identifier := az_Identifier a; az_RegistrationID := az_RegistrationID a;
     az_Status := st; az_Expires := az_Expires a; az_Challenges := az_Challenges a;
     az_Combinations := az_Combinations a |}.
Definition with_challenges (a : Authorization) (cs : list Challenge) : Authorization :=
  {| az_ID := az_ID a; az_Identifier := az_Identifier a; az_RegistrationID := az_RegistrationID a;
     az_Status := az_Status a; az_Expires := az_Expires a; az_Challenges := cs;
     az_Combinations := az_Combinations a |}.
Definition with_id (a : Authorization) (id : string) : Authorization :=
  {| az_ID := id; az_Identifier := az_Identifier a; az_RegistrationID := az_RegistrationID a;
     az_Status := az_Status a; az_Expires := az_Expires a; az_Challenges := az_Challenges a;
     az_Combinations := az_Combinations a |}.

(** The error of [tx.SelectOne(&count, ...)] is dropped: the count stays zero. *)
Definition count_positive (q : Tables -> bool) : DB bool :=
  let! r := try (query (fun t => Ok (if q t then 1 else 0))) in
  ret (match r with Ok count => 0 <? count | Err _ => false end).
Definition existingPending (id : string) : DB bool :=
  count_positive (fun t => bool_decide (is_Some (pendingAuthorizations t !! coll id))).
Definition existingFinal (id : string) : DB bool :=
  count_positive (fun t => bool_decide (is_Some (authz t !! coll id))).
Definition existingRegistration (id : Z) : DB bool :=
  count_positive (fun t => has_registration t id).

Definition selectPendingAuthz (id : string) : DB pendingauthzModel :=
  query (fun t => match pendingAuthorizations t !! coll id with
                  | Some pa => Ok pa | None => Err ErrNoRows end).
Definition selectAuthz (id : string) : DB Authorization :=
  query (fun t => match authz t !! coll id with Some a => Ok a | None => Err ErrNoRows end).

Definition insert_pending (a : Authorization) : DB unit :=
  call (fun t =>
    match pendingAuthorizations t !! coll (az_ID a) with
    | Some _ => Err (duplicate_entry "PRIMARY")
    | None =>
        if has_registration t (az_RegistrationID a) then
          Ok (tt, set_authzs t (<[coll (az_ID a) := {| pa_Authorization := authz_row a;
                                                      pa_LockCol := insert_version 0 |}]>
                                 (pendingAuthorizations t)) (authz t))
        else Err foreign_key_fails
    end).

Definition update_pending (pa : pendingauthzModel) : DB Z :=
  call (fun t =>
    let a := pa_Authorization pa in
    let v := pa_LockCol pa in
    match pendingAuthorizations t !! coll (az_ID a) with
    | Some old =>
        if pa_LockCol old =? where_version v then
          if has_registration t (az_RegistrationID a) then
            Ok (1, set_authzs t (<[coll (az_ID a) := {| pa_Authorization := authz_row a;
                                                        pa_LockCol := insert_version v |}]>
                                   (pendingAuthorizations t)) (authz t))
          else Err foreign_key_fails
        else versioned_result 0 v (Ok (0, t))
    | None => versioned_result 0 v (Ok (0, t))
    end).

Definition delete_pending (pa : pendingauthzModel) : DB Z :=
  call (fun t =>
    let k := coll (az_ID (pa_Authorization pa)) in
    let v := pa_LockCol pa in
    match pendingAuthorizations t !! k with
    | Some old =>
        if pa_LockCol old =? v then Ok (1, set_authzs t (delete k (pendingAuthorizations t)) (authz t))
        else versioned_result 0 v (Ok (0, t))
    | None => versioned_result 0 v (Ok (0, t))
    end).

Definition insert_authz (a : Authorization) : DB unit :=
  call (fun t =>
    match authz t !! coll (az_ID a) with
    | Some _ => Err (duplicate_entry "PRIMARY")
    | None =>
        if has_registration t (az_RegistrationID a) then
          Ok (tt, set_authzs t (pendingAuthorizations t) (<[coll (az_ID a) := authz_row a]> (authz t)))
        else Err foreign_key_fails
    end).

(** [getChallengesQuery]: in ID order, without the version column. *)
Definition no_version (c : challModel) : challModel :=
  {| cm_ID := cm_ID c; cm_AuthorizationID := cm_AuthorizationID c; cm_Type := cm_Type c;
     cm_Status := cm_Status c; cm_Error := cm_Error c; cm_Token := cm_Token c;
     cm_KeyAuthorization := cm_KeyAuthorization c; cm_ValidationRecord := cm_ValidationRecord c;
     cm_LockCol := 0 |}.
Definition getChallenges (authID : string) : DB (list challModel) :=
  query (fun t => Ok (map no_version
    (filter (fun c => ceq (cm_AuthorizationID c) authID = true) (challenges t)))).

Definition set_chall (c : challModel) (id : Z) (version : Z) : challModel :=
  {| cm_ID := id; cm_AuthorizationID := cm_AuthorizationID c; cm_Type := cm_Type c;
     cm_Status := cm_Status c; cm_Error := cm_Error c; cm_Token := cm_Token c;
     cm_KeyAuthorization := cm_KeyAuthorization c; cm_ValidationRecord := cm_ValidationRecord c;
     cm_LockCol := version |}.
Definition insert_challenge (c : challModel) : DB challModel :=
  call (fun t =>
    let c' := set_chall c (nextChallenge t) (insert_version (cm_LockCol c)) in
    Ok (c', set_challenges t (challenges t ++ [c']) (nextChallenge t + 1))).
Definition update_challenge (c : challModel) : DB Z :=
  call (fun t =>
    let v := cm_LockCol c in
    let matches x := (cm_ID x =? cm_ID c) && (cm_LockCol x =? where_version v) in
    let rows := Z.of_nat (length (filter (fun x => matches x = true) (challenges t))) in
    versioned_result rows v
      (Ok (rows, set_challenges t
             (map (fun x => if matches x then set_chall c (cm_ID c) (insert_version v) else x) (challenges t))
             (nextChallenge t)))).

(** The loop of [updateChallenges]. *)
Fixpoint update_each (challs : list challModel) (chs : list Challenge) : DB unit :=
  match challs, chs with
  | cm :: challs', authChall :: chs' =>
      let! chall := lift (challengeToModel authChall (cm_AuthorizationID cm)) in
      do! update_challenge (set_chall chall (cm_ID cm) (cm_LockCol chall)) in
      update_each challs' chs'
  | _, _ => ret tt
  end.
Definition updateChallenges (authID : string) (chs : list Challenge) : DB unit :=
  let! challs := getChallenges authID in
  if negb (length challs =? length chs)%nat then
    fail (PlainError "Invalid number of challenges provided")
  else update_each challs chs.

(** ** Registrations *)

Definition registration_not_found (id : Z) : error :=
  BoulderError Berrors.NotFound ("registration with ID '" ++s itoa id ++s "' not found").

Definition GetRegistration (fs : Features.state) (id : Z) : DB Registration :=
  let! r := try (selectRegistration_by_id fs id) in
  match r with
  | Err ErrNoRows => fail (registration_not_found id)
  | Err err => fail err
  | Ok model => lift (modelToRegistration fs model)
  end.

Definition GetRegistrationByKey (fs : Features.state) (key : option JsonWebKey) : DB Registration :=
  match key with
  | None => fail (PlainError "key argument to GetRegistrationByKey must not be nil")
  | Some key =>
      let! sha := lift (KeyDigest (RawKey (Key key))) in
      let! r := try (selectRegistration_by_key fs sha) in
      match r with
      | Err ErrNoRows =>
          fail (BoulderError Berrors.NotFound ("no registrations with public key sha256 " ++s Quote sha))
      | Err err => fail err
      | Ok model => lift (modelToRegistration fs model)
      end
  end.

Definition set_CreatedAt (r : Registration) (t : Z) : Registration :=
  {| reg_ID := reg_ID r; reg_Key := reg_Key r; reg_Contact := reg_Contact r;
     reg_Agreement := reg_Agreement r; reg_InitialIP := reg_InitialIP r; reg_CreatedAt := t;
     reg_Status := reg_Status r |}.

Definition NewRegistration (fs : Features.state) (reg : Registration) : DB Registration :=
  let! now := Now in
  let! rm := lift (registrationToModel fs (set_CreatedAt reg now)) in
  let! rm := insert_registration rm in
  lift (modelToRegistration fs rm).

Definition set_LockCol (rm : regModel) (v : Z) : regModel :=
  {| rm_ID := rm_ID rm; rm_Key := rm_Key rm; rm_KeySHA256 := rm_KeySHA256 rm;
     rm_Contact := rm_Contact rm; rm_Agreement := rm_Agreement rm; rm_InitialIP := rm_InitialIP rm;
     rm_CreatedAt := rm_CreatedAt rm; rm_LockCol := v; rm_Status := rm_Status rm |}.

(** [UpdateRegistration]: an error of the select other than [ErrNoRows] is
    overwritten by the next assignment, and the empty model's version, 0, is used. *)
Definition UpdateRegistration (fs : Features.state) (reg : Registration) : DB unit :=
  let! r := try (selectRegistration_by_id fs (reg_ID reg)) in
  match r with
  | Err ErrNoRows => fail (registration_not_found (reg_ID reg))
  | _ =>
      let version := match r with Ok model => rm_LockCol model | Err _ => 0 end in
      let! updated := lift (registrationToModel fs reg) in
      let! n := update_registration (set_LockCol updated version) in
      if n =? 0 then fail (registration_not_found (reg_ID reg)) else ret tt
  end.

Definition set_reg_status (rm : regModel) (st : string) : regModel :=
  {| rm_ID := rm_ID rm; rm_Key := rm_Key rm; rm_KeySHA256 := rm_KeySHA256 rm;
     rm_Contact := rm_Contact rm; rm_Agreement := rm_Agreement rm; rm_InitialIP := rm_InitialIP rm;
     rm_CreatedAt := rm_CreatedAt rm; rm_LockCol := rm_LockCol rm; rm_Status := Some st |}.

Definition DeactivateRegistration (id : Z) : DB unit :=
  call (fun t =>
    match registrations t !! id with
    | Some rm =>
        if ceq (default EmptyString (rm_Status rm)) StatusValid then
          Ok (tt, set_registrations t (<[id := set_reg_status rm StatusDeactivated]> (registrations t))
                    (nextRegistration t))
        else Ok (tt, t)
    | None => Ok (tt, t)
    end).

Definition CountRegistrationsByIP (ip : string) (earliest latest : Z) : DB Z :=
  let '(beginIP, endIP) := ipRange ip in
  query (fun t => Ok (Z.of_nat (length (filter (fun '(_, rm) =>
    String.leb beginIP (rm_InitialIP rm) = true /\ String.ltb (rm_InitialIP rm) endIP = true /\
    earliest < rm_CreatedAt rm /\ rm_CreatedAt rm <= latest) (map_to_list (registrations t)))))).

(** ** Authorizations *)

(** The conversion loop of [GetAuthorization]. *)
Fixpoint models_to_challenges (cms : list challModel) : result error (list Challenge) :=
  match cms with
  | [] => Ok []
  | cm :: cms' =>
      let? c := modelToChallenge cm in
      let? cs := models_to_challenges cms' in Ok (c :: cs)
  end.

Definition GetAuthorization (id : string) : DB Authorization :=
  in_tx (
    let! pa := try (selectPendingAuthz id) in
    let! a :=
      match pa with
      | Ok pa => ret (pa_Authorization pa)
      | Err ErrNoRows =>
          let! fa := try (selectAuthz id) in
          match fa with
          | Ok fa => ret fa
          | Err ErrNoRows => fail (PlainError ("No pendingAuthorization or authz with ID " ++s id))
          | Err err => fail err
          end
      | Err err => fail err
      end in
    let! challObjs := getChallenges (az_ID a) in
    let! challs := lift (models_to_challenges challObjs) in
    ret (with_challenges a challs)).

(** The select of [GetValidAuthorizations]; a NULL expiry compares as unknown. *)
Definition valid_row (registrationID now : Z) (idents : list string) (a : Authorization) : bool :=
  (az_RegistrationID a =? registrationID)
  && match az_Expires a with Some e => now <? e | None => false end
  && existsb (fun j => ceq (marshal_identifier (az_Identifier a)) j) idents
  && ceq (az_Status a) StatusValid.

(** The loop that keeps, for each name, the authorization that expires last. *)
Fixpoint latest_by_name (auths : list Authorization) (byName : gmap string Authorization)
    : result error (gmap string Authorization) :=
  match auths with
  | [] => Ok byName
  | auth :: auths' =>
      match az_Expires auth with
      | None => latest_by_name auths' byName
      | Some expires =>
          if negb (String.eqb (idType (az_Identifier auth)) IdentifierDNS) then
            Err (PlainError ("unknown identifier type: " ++s Quote (idType (az_Identifier auth))
                             ++s " on authz id " ++s Quote (az_ID auth)))
          else
            let name := idValue (az_Identifier auth) in
            match byName !! name with
            | None => latest_by_name auths' (<[name := auth]> byName)
            | Some existing =>
                if time_After expires (default 0 (az_Expires existing))
                then latest_by_name auths' (<[name := auth]> byName)
                else latest_by_name auths' byName
            end
      end
  end.

Definition GetValidAuthorizations (registrationID : Z) (names : list string) (now : Z)
    : DB (gmap string Authorization) :=
  if bool_decide (names = []) then fail (Berrors.InternalServerError "no names received")
  else
    let params := map (fun name => marshal_identifier {| idType := IdentifierDNS; idValue := name |}) names in
    let! auths := query (fun t =>
      Ok (filter (fun a => valid_row registrationID now params a = true) (map_to_list (authz t)).*2)) in
    lift (latest_by_name auths ∅).

(** Draws an ID that is in neither table; the loop has no bound of its own. *)
Fixpoint fresh_id (fuel : nat) : DB (option string) :=
  match fuel with
  | O => ret None
  | S fuel' =>
      let! id := NewToken in
      let! pending := existingPending id in
      let! taken := if pending then ret true else existingFinal id in
      if taken then fresh_id fuel' else ret (Some id)
  end.

(** The loop that stores the challenges and reads their new IDs back. *)
Fixpoint insert_challenges (chs : list Challenge) (authID : string) : DB (list Challenge) :=
  match chs with
  | [] => ret []
  | c :: chs' =>
      let! cm := lift (challengeToModel c authID) in
      let! cm := insert_challenge cm in
      let! challenge := lift (modelToChallenge cm) in
      let! rest := insert_challenges chs' authID in
      ret (challenge :: rest)
  end.

(** [None] is a loop that has not found an ID within [fuel] draws. *)
Definition NewPendingAuthorization (fuel : nat) (a : Authorization) : DB (option Authorization) :=
  in_tx (
    let! id := fresh_id fuel in
    match id with
    | None => ret None
    | Some id =>
        let pendingAuthz := with_id a id in
        do! insert_pending pendingAuthz in
        let! chs := insert_challenges (az_Challenges a) id in
        ret (Some (with_challenges pendingAuthz chs))
    end).

Definition UpdatePendingAuthorization (a : Authorization) : DB unit :=
  in_tx (
    if negb (statusIsPending (az_Status a)) then
      fail (Berrors.InternalServerError "authorization is not pending")
    else
      let! final := existingFinal (az_ID a) in
      if final then fail (Berrors.InternalServerError "cannot update a finalized authorization")
      else
        let not_found := BoulderError Berrors.InternalServer
          ("authorization with ID '%!d(string=" ++s az_ID a ++s ")' not found") in
        let! pending := existingPending (az_ID a) in
        if negb pending then fail not_found
        else
          let! r := try (selectPendingAuthz (az_ID a)) in
          match r with
          | Err ErrNoRows => fail not_found
          | Err err => fail err
          | Ok pa =>
              do! update_pending {| pa_Authorization := a; pa_LockCol := pa_LockCol pa |} in
              updateChallenges (az_ID a) (az_Challenges a)
          end).

Definition FinalizeAuthorization (a : Authorization) : DB unit :=
  in_tx (
    let not_found := BoulderError Berrors.InternalServer
      ("authorization with ID " ++s Quote (az_ID a) ++s " not found") in
    let! pending := existingPending (az_ID a) in
    if negb pending then fail not_found
    else if statusIsPending (az_Status a) then
      fail (BoulderError Berrors.InternalServer
              ("authorization with ID " ++s Quote (az_ID a) ++s " is not pending"))
    else
      let! r := try (selectPendingAuthz (az_ID a)) in
      match r with
      | Err ErrNoRows => fail not_found
      | Err err => fail err
      | Ok pa =>
          do! insert_authz a in
          do! delete_pending pa in
          updateChallenges (az_ID a) (az_Challenges a)
      end).

(** sa/authz.go.  [Final] and [Pending] name the two tables. *)
Inductive authz_table := Final | Pending.

Definition revocable (ident : string) (now : Z) (a : Authorization) : bool :=
  ceq (marshal_identifier (az_Identifier a)) ident
  && negb (ceq (az_Status a) StatusInvalid) && negb (ceq (az_Status a) StatusRevoked)
  && match az_Expires a with Some e => now <? e | None => false end.

Definition getAuthorizationIDsMax : nat := Z.to_nat 1000.

Definition getAuthorizationIDsByDomain (tbl : authz_table) (ident : string) (now : Z) : DB (list string) :=
  query (fun t =>
    let rows := match tbl with
                | Final => (map_to_list (authz t)).*2
                | Pending => map (fun kv => pa_Authorization (snd kv)) (map_to_list (pendingAuthorizations t))
                end in
    Ok (take getAuthorizationIDsMax (map az_ID (filter (fun a => revocable ident now a = true) rows)))).

(** The number of rows is that of the rows matched ([ClientFoundRows]). *)
Definition in_ids (authIDs : list string) (a : Authorization) : bool := existsb (ceq (az_ID a)) authIDs.
Definition revoke_final (authIDs : list string) (a : Authorization) : Authorization :=
  if in_ids authIDs a then with_status a StatusRevoked else a.
Definition revoke_pending (authIDs : list string) (pa : pendingauthzModel) : pendingauthzModel :=
  {| pa_Authorization := revoke_final authIDs (pa_Authorization pa); pa_LockCol := pa_LockCol pa |}.
Definition revokeAuthorizations (tbl : authz_table) (authIDs : list string) : DB Z :=
  call (fun t =>
    match tbl with
    | Final =>
        Ok (Z.of_nat (length (filter (fun a => in_ids authIDs a = true) (map_to_list (authz t)).*2)),
            set_authzs t (pendingAuthorizations t) (revoke_final authIDs <$> authz t))
    | Pending =>
        Ok (Z.of_nat (length (filter (fun a => in_ids authIDs (pa_Authorization a) = true)
                                (map_to_list (pendingAuthorizations t)).*2)),
            set_authzs t (revoke_pending authIDs <$> pendingAuthorizations t) (authz t))
    end).

(** The inner loop of [RevokeAuthorizationsByDomain] for one table; [None] when the
    fuel runs out. *)
Fixpoint revoke_loop (fuel : nat) (tbl : authz_table) (ident : string) (now : Z) (count : Z) : DB (option Z) :=
  match fuel with
  | O => ret None
  | S fuel' =>
      let! ids := getAuthorizationIDsByDomain tbl ident now in
      let numAuthz := Z.of_nat (length ids) in
      if numAuthz =? 0 then ret (Some count)
      else
        let! numRevoked := revokeAuthorizations tbl ids in
        let count := count + numRevoked in
        if numRevoked <? numAuthz then fail (PlainError "Didn't revoke all found authorizations")
        else revoke_loop fuel' tbl ident now count
  end.

Definition RevokeAuthorizationsByDomain (fuel : nat) (ident : AcmeIdentifier) : DB (option (Z * Z)) :=
  let identifier := marshal_identifier ident in
  let! now := Now in
  let! r0 := revoke_loop fuel Final identifier now 0 in
  match r0 with
  | None => ret None
  | Some n0 =>
      let! r1 := revoke_loop fuel Pending identifier now 0 in
      match r1 with
      | None => ret None
      | Some n1 => ret (Some (n0, n1))
      end
  end.

Definition DeactivateAuthorization (id : string) : DB unit :=
  in_tx (
    let! pending := existingPending id in
    if pending then
      call (fun t =>
        match pendingAuthorizations t !! coll id with
        | Some pa =>
            if ceq (az_Status (pa_Authorization pa)) StatusPending then
              Ok (tt, set_authzs t (<[coll id := {| pa_Authorization :=
                        with_status (pa_Authorization pa) StatusDeactivated;
                        pa_LockCol := pa_LockCol pa |}]> (pendingAuthorizations t)) (authz t))
            else Ok (tt, t)
        | None => Ok (tt, t)
        end)
    else
      call (fun t =>
        match authz t !! coll id with
        | Some a =>
            if ceq (az_Status a) StatusValid then
              Ok (tt, set_authzs t (pendingAuthorizations t)
                        (<[coll id := with_status a StatusDeactivated]> (authz t)))
            else Ok (tt, t)
        | None => Ok (tt, t)
        end)).

Definition CountPendingAuthorizations (regID : Z) : DB Z :=
  let! now := Now in
  query (fun t => Ok (Z.of_nat (length (filter (fun pa =>
    az_RegistrationID (pa_Authorization pa) = regID /\
    match az_Expires (pa_Authorization pa) with Some e => now <? e | None => false end = true /\
    ceq (az_Status (pa_Authorization pa)) StatusPending = true)
    (map_to_list (pendingAuthorizations t)).*2)))).

Definition CountInvalidAuthorizations (regID : Z) (hostname : string) (earliest latest : Z) : DB Z :=
  let idJSON := marshal_identifier {| idType := IdentifierDNS; idValue := hostname |} in
  query (fun t => Ok (Z.of_nat (length (filter (fun a =>
    az_RegistrationID a = regID /\ ceq (marshal_identifier (az_Identifier a)) idJSON = true /\
    match az_Expires a with Some e => (earliest <? e) && (e <=? latest) | None => false end = true /\
    ceq (az_Status a) StatusInvalid = true) (map_to_list (authz t)).*2)))).

(** ** Certificates *)

Definition SelectCertificate (serial : string) : DB Certificate :=
  query (fun t => match certificates t !! coll serial with Some c => Ok c | None => Err ErrNoRows end).
Definition SelectCertificateStatus (serial : string) : DB CertificateStatus :=
  query (fun t => match certificateStatus t !! coll serial with Some c => Ok c | None => Err ErrNoRows end).

Definition GetCertificate (serial : string) : DB Certificate :=
  if negb (ValidSerial serial) then fail (PlainError ("Invalid certificate serial " ++s serial))
  else
    let! r := try (SelectCertificate serial) in
    match r with
    | Err ErrNoRows =>
        fail (BoulderError Berrors.NotFound ("certificate with serial " ++s Quote serial ++s " not found"))
    | Err err => fail err
    | Ok cert => ret cert
    end.

(** [core.CertificateStatus{}]. *)
Definition zeroCertificateStatus : CertificateStatus :=
  {| cs_Serial := EmptyString; cs_SubscriberApproved := false; cs_Status := EmptyString;
     cs_OCSPLastUpdated := zeroTime; cs_RevokedDate := zeroTime; cs_RevokedReason := 0;
     cs_LastExpirationNagSent := zeroTime; cs_OCSPResponse := EmptyString; cs_NotAfter := zeroTime;
     cs_IsExpired := false; cs_LockCol := 0 |}.

(** [GetCertificateStatus]: a missing row is not an error. *)
Definition GetCertificateStatus (serial : string) : DB CertificateStatus :=
  if negb (ValidSerial serial) then fail (PlainError ("Invalid certificate serial " ++s serial))
  else
    let! statusObj := query (fun t => Ok (certificateStatus t !! coll serial)) in
    ret (default zeroCertificateStatus statusObj).

(** The update of [certificateStatus] by serial and version. *)
Definition revoke_status (c : CertificateStatus) (now reasonCode : Z) : CertificateStatus :=
  {| cs_Serial := cs_Serial c; cs_SubscriberApproved := cs_SubscriberApproved c;
     cs_Status := OCSPStatusRevoked; cs_OCSPLastUpdated := cs_OCSPLastUpdated c;
     cs_RevokedDate := now; cs_RevokedReason := reasonCode;
     cs_LastExpirationNagSent := cs_LastExpirationNagSent c; cs_OCSPResponse := cs_OCSPResponse c;
     cs_NotAfter := cs_NotAfter c; cs_IsExpired := cs_IsExpired c; cs_LockCol := cs_LockCol c |}.
Definition set_version (c : CertificateStatus) (v : Z) : CertificateStatus :=
  {| cs_Serial := cs_Serial c; cs_SubscriberApproved := cs_SubscriberApproved c;
     cs_Status := cs_Status c; cs_OCSPLastUpdated := cs_OCSPLastUpdated c;
     cs_RevokedDate := cs_RevokedDate c; cs_RevokedReason := cs_RevokedReason c;
     cs_LastExpirationNagSent := cs_LastExpirationNagSent c; cs_OCSPResponse := cs_OCSPResponse c;
     cs_NotAfter := cs_NotAfter c; cs_IsExpired := cs_IsExpired c; cs_LockCol := v |}.
Definition update_status (c : CertificateStatus) : DB Z :=
  call (fun t =>
    let v := cs_LockCol c in
    match certificateStatus t !! coll (cs_Serial c) with
    | Some old =>
        if cs_LockCol old =? where_version v then
          Ok (1, set_certs t (issuedNames t) (certificates t)
                   (<[coll (cs_Serial c) := set_version c (insert_version v)]> (certificateStatus t)))
        else versioned_result 0 v (Ok (0, t))
    | None => versioned_result 0 v (Ok (0, t))
    end).

Definition MarkCertificateRevoked (serial : string) (reasonCode : Z) : DB unit :=
  let! r := try (GetCertificate serial) in
  match r with
  | Err _ => fail (PlainError ("Unable to mark certificate " ++s serial ++s " revoked: cert not found."))
  | Ok _ =>
      let! r := try (GetCertificateStatus serial) in
      match r with
      | Err _ =>
          fail (PlainError ("Unable to mark certificate " ++s serial ++s " revoked: cert status not found."))
      | Ok _ =>
          in_tx (
            let! r := try (SelectCertificateStatus serial) in
            match r with
            | Err ErrNoRows => fail (PlainError ("No certificate with serial " ++s serial))
            | Err err => fail err
            | Ok statusObj =>
                let! now := Now in
                let! n := update_status (revoke_status statusObj now reasonCode) in
                if n =? 0 then fail (Berrors.InternalServerError "no certificate updated") else ret tt
            end)
      end
  end.

Definition insert_certificate (c : Certificate) : DB unit :=
  call (fun t =>
    match certificates t !! coll (cert_Serial c) with
    | Some _ => Err (duplicate_entry "PRIMARY")
    | None =>
        if has_registration t (cert_RegistrationID c) then
          Ok (tt, set_certs t (issuedNames t) (<[coll (cert_Serial c) := c]> (certificates t)) (certificateStatus t))
        else Err foreign_key_fails
    end).

Definition insert_certificate_status (c : CertificateStatus) : DB unit :=
  call (fun t =>
    match certificateStatus t !! coll (cs_Serial c) with
    | Some _ => Err (duplicate_entry "PRIMARY")
    | None =>
        Ok (tt, set_certs t (issuedNames t) (certificates t)
                  (<[coll (cs_Serial c) := set_version c (insert_version (cs_LockCol c))]> (certificateStatus t)))
    end).

Definition hashNames (names : list string) : string := sha256 (join "," (UniqueLowerNames names)).

Definition addFQDNSet (names : list string) (serial : string) (issued expires : Z) : DB unit :=
  call (fun t =>
    if existsb (fun f => ceq (fs_Serial f) serial) (fqdnSets t) then Err (duplicate_entry "serial")
    else
      Ok (tt, set_fqdnSets t (fqdnSets t ++ [{| fs_ID := nextFqdnSet t; fs_SetHash := hashNames names;
                fs_Serial := serial; fs_Issued := issued; fs_Expires := expires |}]) (nextFqdnSet t + 1))).

(** One multi-row insert; without names the statement is a syntax error. *)
Definition addIssuedNames (cert : X509Certificate) : DB unit :=
  call (fun t =>
    match x5_DNSNames cert with
    | [] => Err (PlainError "Error 1064: You have an error in your SQL syntax")
    | names =>
        Ok (tt, set_certs t
          (issuedNames t ++ map (fun name => {| in_ReversedName := reverseName name;
                                                in_NotBefore := x5_NotBefore cert;
                                                in_Serial := SerialToString (x5_SerialNumber cert) |}) names)
          (certificates t) (certificateStatus t))
    end).

Definition AddCertificate (certDER : string) (regID : Z) (ocspResponse : string) : DB string :=
  let! parsedCertificate := lift (ParseCertificate certDER) in
  let digest := Fingerprint256 certDER in
  let serial := SerialToString (x5_SerialNumber parsedCertificate) in
  let! issued := Now in
  let cert := {| cert_RegistrationID := regID; cert_Serial := serial; cert_Digest := digest;
                 cert_DER := certDER; cert_Issued := issued; cert_Expires := x5_NotAfter parsedCertificate |} in
  let! ocspLastUpdated := if len ocspResponse =? 0 then ret zeroTime else Now in
  let certStatusOb :=
    {| cs_Serial := serial; cs_SubscriberApproved := false; cs_Status := OCSPStatusGood;
       cs_OCSPLastUpdated := ocspLastUpdated; cs_RevokedDate := zeroTime; cs_RevokedReason := 0;
       cs_LastExpirationNagSent := zeroTime; cs_OCSPResponse := ocspResponse;
       cs_NotAfter := x5_NotAfter parsedCertificate; cs_IsExpired := false; cs_LockCol := 0 |} in
  in_tx (
    do! insert_certificate cert in
    do! insert_certificate_status certStatusOb in
    do! addIssuedNames parsedCertificate in
    do! addFQDNSet (x5_DNSNames parsedCertificate) serial (x5_NotBefore parsedCertificate)
          (x5_NotAfter parsedCertificate) in
    ret digest).

Definition CountCertificatesRange (start end_ : Z) : DB Z :=
  query (fun t => Ok (Z.of_nat (length (filter (fun c => start <= cert_Issued c /\ cert_Issued c < end_)
    (map_to_list (certificates t)).*2)))).

(** [countCertificatesByName]: the variable compared with the maximum is never
    assigned, so that branch is dead; at most [max + 1] rows are read. *)
Definition max_issued_rows : Z := 10000.
Definition issued_row (reversedDomain : string) (earliest latest : Z) (r : issuedNameModel) : bool :=
  (ceq (in_ReversedName r) reversedDomain || like (reversedDomain ++s ".%") (in_ReversedName r))
  && (earliest <? in_NotBefore r) && (in_NotBefore r <=? latest).
Definition countCertificatesByName (domain : string) (earliest latest : Z) : DB Z :=
  let count := 0 in
  let! r := try (query (fun t => Ok (take (Z.to_nat (max_issued_rows + 1))
    (filter (fun r => issued_row (reverseName domain) earliest latest r = true) (issuedNames t))))) in
  match r with
  | Err ErrNoRows => ret 0
  | Err err => fail err
  | Ok serials =>
      if max_issued_rows <? count then
        fail (TooManyCertificatesError ("More than " ++s itoa max_issued_rows ++s
                                        " issuedName entries for " ++s domain ++s "."))
      else ret (Z.of_nat (size (list_to_set (map in_Serial serials) : gset string)))
  end.

Fixpoint count_each (domains : list string) (earliest latest : Z) (ret_ : gmap string Z) : DB (gmap string Z) :=
  match domains with
  | [] => ret ret_
  | domain :: domains' =>
      let! currentCount := countCertificatesByName domain earliest latest in
      count_each domains' earliest latest (<[domain := currentCount]> ret_)
  end.
Definition CountCertificatesByNames (domains : list string) (earliest latest : Z) : DB (gmap string Z) :=
  count_each domains earliest latest ∅.

(** ** FQDN sets and SCT receipts *)

Definition CountFQDNSets (window : Z) (names : list string) : DB Z :=
  let! now := Now in
  query (fun t => Ok (Z.of_nat (length (filter (fun f =>
    fs_SetHash f = hashNames names /\ time_Add now (wrap64 (- window)) < fs_Issued f) (fqdnSets t))))).

Definition FQDNSetExists (names : list string) : DB bool :=
  query (fun t => Ok (0 <? Z.of_nat (length (filter (fun f => fs_SetHash f = hashNames names) (fqdnSets t))))).

Definition selectSctReceipt (serial logID : string) : DB SignedCertificateTimestamp :=
  query (fun t => match filter (fun s => ceq (sct_CertificateSerial s) serial = true /\ ceq (sct_LogID s) logID = true)
                          (sctReceipts t) with
                  | s :: _ => Ok s
                  | [] => Err ErrNoRows
                  end).

Definition GetSCTReceipt (serial logID : string) : DB SignedCertificateTimestamp :=
  let! r := try (selectSctReceipt serial logID) in
  match r with
  | Err ErrNoRows => fail (ErrNoReceipt (Error ErrNoRows))
  | Err err => fail err
  | Ok receipt => ret receipt
  end.

Definition AddSCTReceipt (sct : SignedCertificateTimestamp) : DB unit :=
  let! r := try (call (fun t =>
    if existsb (fun s => ceq (sct_CertificateSerial s) (sct_CertificateSerial sct)
                         && ceq (sct_LogID s) (sct_LogID sct)) (sctReceipts t)
    then Err (duplicate_entry "certificateSerial_logID")
    else
      Ok (tt, set_scts t (sctReceipts t ++
        [{| sct_ID := nextSct t; sct_SCTVersion := sct_SCTVersion sct; sct_LogID := sct_LogID sct;
            sct_Timestamp := sct_Timestamp sct; sct_Extensions := sct_Extensions sct;
            sct_Signature := sct_Signature sct; sct_CertificateSerial := sct_CertificateSerial sct;
            sct_LockCol := insert_version (sct_LockCol sct) |}]) (nextSct t + 1)))) in
  match r with
  | Ok _ => ret tt
  | Err err =>
      if String.prefix "Error 1062: Duplicate entry" (Error err) then ret tt else fail err
  end.

End sa.

End Storage.
