(* ===== verification/SaFrame.v ===== *)
(** * Frame reasoning for the storage authority

    Which tables each database call can change, and how: the relation lemmas that
    let an operation's effect be read off its calls, through transactions,
    rollbacks and faults. *)

From S2P Require Import Prelude GoStd Errors Features Core Csr Database Storage.

Import Storage.

(** A relation on tables, read on worlds inside one transaction. *)
Definition inside (P : Tables -> Tables -> Prop) (w w' : World) : Prop :=
  tx w' = tx w /\ P (db w) (db w').

(** The same for a whole operation, which starts and ends outside transactions. *)
Definition outside (P : Tables -> Tables -> Prop) (w w' : World) : Prop :=
  tx w = None -> tx w' = None /\ P (db w) (db w').

Section frame.
Context (P : Tables -> Tables -> Prop) {PO : PreOrder P}.

#[global] Instance inside_preorder : PreOrder (inside P).
Proof.
  split.
  - intros w. by split.
  - intros w1 w2 w3 [E1 H1] [E2 H2]. split; [congruence|by transitivity (db w2)].
Qed.

#[global] Instance outside_preorder : PreOrder (outside P).
Proof.
  split.
  - intros w. by split.
  - intros w1 w2 w3 H1 H2 E. destruct (H1 E) as [E1 ?]. destruct (H2 E1) as [E2 ?].
    split; [done|by transitivity (db w2)].
Qed.

Lemma preserves_outside {A} (m : DB A) : preserves (inside P) m -> preserves (outside P) m.
Proof. intros H w r w' E Htx. destruct (H w r w' E) as [-> ?]. done. Qed.

Lemma preserves_Now : preserves (inside P) Now.
Proof. intros w r w' [= <- <-]. by split. Qed.

Lemma preserves_NewToken : preserves (inside P) NewToken.
Proof. intros w r w' [= <- <-]. by split. Qed.

Lemma preserves_call {A} (stmt : Tables -> result error (A * Tables)) :
  (forall t a t', stmt t = Ok (a, t') -> P t t') -> preserves (inside P) (call stmt).
Proof.
  intros H w r w'. unfold call.
  destruct (next_fault w) as [f|], (stmt (db w)) as [[a t]|e] eqn:E; intros [= <- <-].
  - destruct (f_applied f); split; simpl; try done. by eapply H.
  - by split.
  - split; [done|]. by eapply H.
  - by split.
Qed.

Lemma preserves_query {A} (q : Tables -> result error A) : preserves (inside P) (query q).
Proof. apply preserves_call. intros t a t'. destruct (q t); [|done]. by intros [= <- <-]. Qed.

Lemma preserves_count q : preserves (inside P) (count_positive q).
Proof.
  apply preserves_bind; [apply _| |intros; apply preserves_ret; apply _].
  apply preserves_try, preserves_query.
Qed.

(** A transaction either leaves what its body made of the tables or leaves them as they were. *)
Lemma preserves_in_tx {A} (body : DB A) : preserves (inside P) body -> preserves (outside P) (in_tx body).
Proof.
  intros Hb w r w'. unfold in_tx, mbindM, Begin, try, Rollback, Commit, ret, outside.
  destruct (next_fault w) as [f|] eqn:Ef; [intros [= <- <-]; by split|].
  destruct (body _) as [[a|e] w1] eqn:Eb; apply Hb in Eb as [Etx Hp]; simpl in Etx.
  - destruct (next_fault w1) as [g|]; [destruct (f_applied g)|]; intros [= <- <-] _; split; try done.
    rewrite Etx. done.
  - intros [= <- <-] _. split; [done|]. simpl. rewrite Etx. done.
Qed.

End frame.

(** ** Successful calls, and calls without faults *)

Lemma call_Ok {A} (stmt : Tables -> result error (A * Tables)) w a w' :
  call stmt w = (Ok a, w') -> stmt (db w) = Ok (a, db w') /\ tx w' = tx w.
Proof.
  unfold call. destruct (next_fault w) as [f|]; [done|].
  destruct (stmt (db w)) as [[x t]|e] eqn:E; [|done]. by intros [= <- <-].
Qed.

Lemma query_Ok {A} (q : Tables -> result error A) w a w' :
  query q w = (Ok a, w') -> q (db w) = Ok a /\ db w' = db w /\ tx w' = tx w.
Proof.
  intros H. apply call_Ok in H as [H Htx]. destruct (q (db w)); [|done]. by simplify_eq.
Qed.

Lemma bind_Now {B} (k : Z -> DB B) w : mbindM Now k w = k (w_now w) (pop_tick w).
Proof. reflexivity. Qed.

Lemma pop_fault_nil w : w_faults w = [] -> pop_fault w = w.
Proof. destruct w; simpl. by intros ->. Qed.

Lemma call_nofault {A} (stmt : Tables -> result error (A * Tables)) w :
  w_faults w = [] ->
  call stmt w = match stmt (db w) with Ok (a, t) => (Ok a, set_db w t) | Err e => (Err e, w) end.
Proof.
  intros H. unfold call, next_fault. rewrite pop_fault_nil, H by done. simpl.
  by destruct (stmt (db w)) as [[a t]|e].
Qed.

Lemma set_db_same w : set_db w (db w) = w.
Proof. by destruct w. Qed.

Lemma query_nofault {A} (q : Tables -> result error A) w :
  w_faults w = [] -> query q w = (q (db w), w).
Proof.
  intros H. unfold query. rewrite call_nofault by done.
  destruct (q (db w)); [by rewrite set_db_same|done].
Qed.

(** Walks through an operation down to its calls, for which [leaf] is called. *)
Ltac frame_step leaf :=
  match goal with
  | |- preserves _ (mbindM (lift _) _) => apply preserves_lift_bind; [apply _|intros ? ?]
  | |- preserves _ (mbindM _ _) => apply preserves_bind; [apply _| |intros ?]
  | |- preserves _ (try _) => apply preserves_try
  | |- preserves _ (ret _) => apply preserves_ret; apply _
  | |- preserves _ (fail _) => apply preserves_fail; apply _
  | |- preserves _ (lift _) => apply preserves_lift; apply _
  | |- preserves (outside _) (in_tx _) => apply preserves_in_tx; [apply _|]
  | |- preserves _ (match ?x with _ => _ end) => destruct x
  | |- preserves (inside _) Now => apply preserves_Now; apply _
  | |- preserves (inside _) NewToken => apply preserves_NewToken; apply _
  | |- preserves (inside _) (query _) => apply preserves_query; apply _
  | |- preserves (inside _) (count_positive _) => apply preserves_count; apply _
  | |- preserves _ _ => solve [leaf]
  | |- preserves (outside _) _ => apply preserves_outside
  end.
Ltac frame := repeat (cbv zeta; frame_step ltac:(eauto 4 with boulder)).

(** One statement: opens the call and splits on the statement's conditions. *)
Ltac statement :=
  apply preserves_call; [apply _|]; intros t a' t' Hs; cbv zeta in Hs;
  unfold versioned_result in Hs; repeat case_in Hs; simplify_eq Hs; intros; subst.
