(* ===== verification/SaInvariants.v ===== *)
(** * Invariants and histories of the storage authority

    Two facts about every sequence of storage operations, whatever faults strike:
    the tables stay well formed (keys, uniqueness, foreign keys), and history is
    never rewritten (certificates and logs only grow, a revoked certificate stays
    revoked, a finalized authorization never regains validity). *)

From S2P Require Import Prelude GoStd Errors Features Core Csr Database Storage SaFrame.

Import Storage.

Module SaInvariants.

Section ops.
Context {GL : GoLib} {Cr : Crypto} {Q : SQL} {J : StorageJSON} {X : X509}.

(** ** The operations of the storage authority, as requests *)

Inductive sa_op :=
| OpGetRegistration (id : Z)
| OpGetRegistrationByKey (key : option JsonWebKey)
| OpNewRegistration (reg : Registration)
| OpUpdateRegistration (reg : Registration)
| OpDeactivateRegistration (id : Z)
| OpCountRegistrationsByIP (ip : string) (earliest latest : Z)
| OpGetAuthorization (id : string)
| OpGetValidAuthorizations (regID : Z) (names : list string) (now : Z)
| OpNewPendingAuthorization (fuel : nat) (a : Authorization)
| OpUpdatePendingAuthorization (a : Authorization)
| OpFinalizeAuthorization (a : Authorization)
| OpRevokeAuthorizationsByDomain (fuel : nat) (ident : AcmeIdentifier)
| OpDeactivateAuthorization (id : string)
| OpCountPendingAuthorizations (regID : Z)
| OpCountInvalidAuthorizations (regID : Z) (hostname : string) (earliest latest : Z)
| OpGetCertificate (serial : string)
| OpGetCertificateStatus (serial : string)
| OpMarkCertificateRevoked (serial : string) (reason : Z)
| OpAddCertificate (der : string) (regID : Z) (ocsp : string)
| OpCountCertificatesRange (start end_ : Z)
| OpCountCertificatesByNames (domains : list string) (earliest latest : Z)
| OpCountFQDNSets (window : Z) (names : list string)
| OpFQDNSetExists (names : list string)
| OpGetSCTReceipt (serial logID : string)
| OpAddSCTReceipt (sct : SignedCertificateTimestamp).

Definition ignore {A} (m : DB A) : DB unit := let! r := try m in ret tt.

Definition exec (fs : Features.state) (op : sa_op) : DB unit :=
  match op with
  | OpGetRegistration id => ignore (GetRegistration fs id)
  | OpGetRegistrationByKey key => ignore (GetRegistrationByKey fs key)
  | OpNewRegistration reg => ignore (NewRegistration fs reg)
  | OpUpdateRegistration reg => ignore (UpdateRegistration fs reg)
  | OpDeactivateRegistration id => ignore (DeactivateRegistration id)
  | OpCountRegistrationsByIP ip a b => ignore (CountRegistrationsByIP ip a b)
  | OpGetAuthorization id => ignore (GetAuthorization id)
  | OpGetValidAuthorizations r n t => ignore (GetValidAuthorizations r n t)
  | OpNewPendingAuthorization f a => ignore (NewPendingAuthorization f a)
  | OpUpdatePendingAuthorization a => ignore (UpdatePendingAuthorization a)
  | OpFinalizeAuthorization a => ignore (FinalizeAuthorization a)
  | OpRevokeAuthorizationsByDomain f i => ignore (RevokeAuthorizationsByDomain f i)
  | OpDeactivateAuthorization id => ignore (DeactivateAuthorization id)
  | OpCountPendingAuthorizations r => ignore (CountPendingAuthorizations r)
  | OpCountInvalidAuthorizations r h a b => ignore (CountInvalidAuthorizations r h a b)
  | OpGetCertificate s => ignore (GetCertificate s)
  | OpGetCertificateStatus s => ignore (GetCertificateStatus s)
  | OpMarkCertificateRevoked s r => ignore (MarkCertificateRevoked s r)
  | OpAddCertificate d r o => ignore (AddCertificate d r o)
  | OpCountCertificatesRange a b => ignore (CountCertificatesRange a b)
  | OpCountCertificatesByNames d a b => ignore (CountCertificatesByNames d a b)
  | OpCountFQDNSets w n => ignore (CountFQDNSets w n)
  | OpFQDNSetExists n => ignore (FQDNSetExists n)
  | OpGetSCTReceipt s l => ignore (GetSCTReceipt s l)
  | OpAddSCTReceipt s => ignore (AddSCTReceipt s)
  end.

(** Any sequence of requests, each under its own feature flags. *)
Definition run (ops : list (Features.state * sa_op)) : DB unit :=
  forM ops (fun '(fs, op) => exec fs op).

(** ** Relations every write respects

    Models are inserted, and challenges updated, at version 0. *)

Lemma challengeToModel_version c id cm : challengeToModel c id = Ok cm -> cm_LockCol cm = 0.
Proof. unfold challengeToModel, rbind. intros H. repeat case_in H; by simplify_eq. Qed.

Lemma registrationToModel_version fs r rm : registrationToModel fs r = Ok rm -> rm_LockCol rm = 0.
Proof. unfold registrationToModel, rbind. intros H. repeat case_in H; by simplify_eq. Qed.

(** [allowed] says which authorizations may be finalized, [opens] whether authorizations
    may be created and answered, [certs] whether certificates may be added and revoked. *)
Class TableRel (allowed : Authorization -> Prop) (opens certs : Prop) (P : Tables -> Tables -> Prop) := {
  tr_preorder :: PreOrder P;
  tr_insert_registration rm : rm_LockCol rm = 0 -> preserves (inside P) (insert_registration rm);
  tr_update_registration rm : preserves (inside P) (update_registration rm);
  tr_deactivate_registration id : preserves (inside P) (DeactivateRegistration id);
  tr_insert_pending a : opens -> preserves (inside P) (insert_pending a);
  tr_update_pending pa : opens -> preserves (inside P) (update_pending pa);
  tr_delete_pending pa : preserves (inside P) (delete_pending pa);
  tr_insert_authz a : allowed a -> preserves (inside P) (insert_authz a);
  tr_insert_challenge c : opens -> cm_LockCol c = 0 -> preserves (inside P) (insert_challenge c);
  tr_update_challenge c : opens -> cm_LockCol c = 0 -> preserves (inside P) (update_challenge c);
  tr_revoke tbl ids : preserves (inside P) (revokeAuthorizations tbl ids);
  tr_deactivate_authorization id : preserves (outside P) (DeactivateAuthorization id);
  tr_update_status c now reason : certs -> preserves (inside P) (update_status (revoke_status c now reason));
  tr_insert_certificate c : certs -> preserves (inside P) (insert_certificate c);
  tr_insert_certificate_status c : certs -> cs_LockCol c = 0 ->
    preserves (inside P) (insert_certificate_status c);
  tr_addFQDNSet n s i e : preserves (inside P) (addFQDNSet n s i e);
  tr_addIssuedNames c : preserves (inside P) (addIssuedNames c);
  tr_AddSCTReceipt s : preserves (inside P) (AddSCTReceipt s)
}.

#[local] Hint Resolve tr_insert_registration tr_update_registration tr_deactivate_registration
  tr_insert_pending tr_update_pending tr_delete_pending tr_insert_authz tr_insert_challenge
  tr_update_challenge tr_revoke tr_update_status tr_insert_certificate tr_insert_certificate_status
  tr_addFQDNSet tr_addIssuedNames tr_AddSCTReceipt challengeToModel_version
  registrationToModel_version : boulder.

Section table_rel.
Context (allowed : Authorization -> Prop) (opens certs : Prop) (P : Tables -> Tables -> Prop) {TR : TableRel allowed opens certs P}.

Definition allows (op : sa_op) : Prop :=
  match op with
  | OpNewPendingAuthorization _ _ | OpUpdatePendingAuthorization _ => opens
  | OpFinalizeAuthorization a => opens /\ allowed a
  | OpMarkCertificateRevoked _ _ | OpAddCertificate _ _ _ => certs
  | _ => True
  end.

Lemma frame_update_each challs chs : opens -> preserves (inside P) (update_each challs chs).
Proof.
  intros Ho. revert chs. induction challs as [|c challs IH]; intros [|ch chs]; simpl; frame.
  apply tr_update_challenge; [done|]. simpl. eauto with boulder.
Qed.
#[local] Hint Resolve frame_update_each : boulder.

Lemma frame_updateChallenges id chs : opens -> preserves (inside P) (updateChallenges id chs).
Proof. intros Ho. unfold updateChallenges, getChallenges. frame. Qed.

Lemma frame_fresh_id fuel : preserves (inside P) (fresh_id fuel).
Proof. induction fuel as [|fuel IH]; simpl; unfold existingPending, existingFinal; frame. Qed.

Lemma frame_insert_challenges chs id : opens -> preserves (inside P) (insert_challenges chs id).
Proof. intros Ho. induction chs as [|c chs IH]; simpl; frame. Qed.

Lemma frame_revoke_loop fuel tbl ident now count :
  preserves (inside P) (revoke_loop fuel tbl ident now count).
Proof.
  revert count. induction fuel as [|fuel IH]; intros count; simpl; unfold getAuthorizationIDsByDomain; frame.
Qed.

Lemma frame_count_each domains earliest latest m :
  preserves (inside P) (count_each domains earliest latest m).
Proof.
  revert m. induction domains as [|d domains IH]; intros m; simpl; unfold countCertificatesByName; frame.
Qed.
#[local] Hint Resolve frame_updateChallenges frame_fresh_id frame_insert_challenges frame_revoke_loop
  frame_count_each tr_deactivate_authorization : boulder.

Lemma frame_exec fs op : allows op -> preserves (outside P) (exec fs op).
Proof.
  intros Hop. destruct op; simpl in Hop; try destruct Hop as [? ?]; unfold exec, ignore;
    try (apply preserves_bind; [apply _| |intros; apply preserves_ret; apply _]; apply preserves_try).
  all: try solve [unfold MarkCertificateRevoked, GetRegistration, GetRegistrationByKey, NewRegistration, UpdateRegistration,
    CountRegistrationsByIP, GetAuthorization, GetValidAuthorizations,
    NewPendingAuthorization, UpdatePendingAuthorization, FinalizeAuthorization,
    RevokeAuthorizationsByDomain, CountPendingAuthorizations,
    CountInvalidAuthorizations, GetCertificate, GetCertificateStatus,
    AddCertificate, CountCertificatesRange, CountCertificatesByNames, CountFQDNSets, FQDNSetExists,
    GetSCTReceipt, selectRegistration_by_id, selectRegistration_by_key, selectPendingAuthz, selectAuthz,
    existingPending, existingFinal, getChallenges, SelectCertificate, SelectCertificateStatus,
    selectSctReceipt; frame].
  all: eauto with boulder.
Qed.

Lemma frame_run ops : (forall op, allows op) -> preserves (outside P) (run ops).
Proof. intros H. apply preserves_forM; [apply _|]. intros [fs op]. by apply frame_exec. Qed.

End table_rel.

(** ** History *)

(** What may become of a finalized authorization. *)
Definition later_authz (a a' : Authorization) : Prop :=
  a' = a \/ a' = with_status a StatusRevoked \/ a' = with_status a StatusDeactivated.

(** What may become of a certificate's status. *)
Definition later_status (c c' : CertificateStatus) : Prop :=
  cs_Status c' = cs_Status c \/ cs_Status c' = OCSPStatusRevoked.

Record grows (t t' : Tables) : Prop := {
  g_authz : forall k a, authz t !! k = Some a -> exists a', authz t' !! k = Some a' /\ later_authz a a';
  g_certificates : certificates t ⊆ certificates t';
  g_status : forall k c, certificateStatus t !! k = Some c ->
    exists c', certificateStatus t' !! k = Some c' /\ later_status c c';
  g_registrations : dom (registrations t) ⊆ dom (registrations t');
  g_issuedNames : issuedNames t `prefix_of` issuedNames t';
  g_fqdnSets : fqdnSets t `prefix_of` fqdnSets t';
  g_sctReceipts : sctReceipts t `prefix_of` sctReceipts t';
  g_challenges : map cm_ID (challenges t) `prefix_of` map cm_ID (challenges t')
}.

Lemma later_authz_trans a b c : later_authz a b -> later_authz b c -> later_authz a c.
Proof. unfold later_authz. intros [->|[->| ->]] [->|[->| ->]]; auto. Qed.

#[global] Instance grows_preorder : PreOrder grows.
Proof.
  split.
  - intros t. split; try done; intros; eexists; (split; [done|by left]).
  - intros t1 t2 t3 [A1 B1 C1 D1 E1 F1 G1 H1] [A2 B2 C2 D2 E2 F2 G2 H2].
    split; try (by etransitivity).
    + intros k a Ha. apply A1 in Ha as (a2 & Ha & L1). apply A2 in Ha as (a3 & Ha & L2).
      exists a3. eauto using later_authz_trans.
    + intros k c Hc. apply C1 in Hc as (c2 & Hc & L1). apply C2 in Hc as (c3 & Hc & L2).
      exists c3. split; [done|]. unfold later_status in *. destruct L1, L2; naive_solver congruence.
Qed.

Lemma lookup_grown {A} (R : A -> A -> Prop) (m : gmap string A) k y :
  Reflexive R -> (forall z, m !! k = Some z -> R z y) ->
  forall j z, m !! j = Some z -> exists z', <[k := y]> m !! j = Some z' /\ R z z'.
Proof.
  intros HR Hk j z Hj. destruct (decide (j = k)) as [->|].
  - exists y. rewrite lookup_insert_eq. auto.
  - exists z. rewrite lookup_insert_ne by done. auto.
Qed.

#[global] Instance later_authz_refl : Reflexive later_authz.
Proof. by left. Qed.
#[global] Instance later_status_refl : Reflexive later_status.
Proof. by left. Qed.

(** Components that are unchanged, inserted at a free key, or extended at the end. *)
Ltac grow :=
  split; simpl; try done;
  try (by (intros; eexists; (split; [eassumption|reflexivity])));
  try (by apply prefix_app_r); try (by rewrite map_app; apply prefix_app_r);
  try (by apply insert_subseteq); try (rewrite dom_insert; set_solver);
  try (by (apply lookup_grown; [apply _|congruence])).

Lemma grows_update_challenge c : preserves (inside grows) (update_challenge c).
Proof.
  unfold update_challenge. statement; grow; rewrite map_map;
    (erewrite map_ext; [reflexivity|]); intros x; simpl;
    (destruct (cm_ID x =? cm_ID c) eqn:E; simpl; [|done]); case_match; simpl; bool_solve; congruence.
Qed.

Lemma grows_revoke tbl ids : preserves (inside grows) (revokeAuthorizations tbl ids).
Proof.
  unfold revokeAuthorizations. statement; grow. intros k a Ha. rewrite lookup_fmap, Ha.
  eexists. split; [reflexivity|]. unfold revoke_final. destruct (in_ids _ _); unfold later_authz; auto.
Qed.

Lemma grows_deactivate_authorization id : preserves (outside grows) (DeactivateAuthorization id).
Proof.
  unfold DeactivateAuthorization, existingPending. frame.
  - statement; grow.
  - statement; grow. apply lookup_grown; [apply _|]. intros z Hz. simplify_eq. unfold later_authz. auto.
Qed.

#[global] Instance grows_rel : TableRel (fun _ => True) True True grows.
Proof.
  split; intros; try apply _; eauto using grows_update_challenge, grows_revoke, grows_deactivate_authorization.
  - unfold insert_registration. statement. grow.
  - unfold update_registration. statement; grow.
  - unfold DeactivateRegistration. statement; grow.
  - unfold insert_pending. statement. grow.
  - unfold update_pending. statement; grow.
  - unfold delete_pending. statement; grow.
  - unfold insert_authz. statement. grow.
  - unfold insert_challenge. statement. grow.
  - unfold update_status. statement; grow. apply lookup_grown; [apply _|]. intros; by right.
  - unfold insert_certificate. statement. grow.
  - unfold insert_certificate_status. statement. grow.
  - unfold addFQDNSet. statement. grow.
  - unfold addIssuedNames. statement. grow.
  - unfold AddSCTReceipt. frame. statement. grow.
Qed.

(** C14. History is never rewritten, whatever sequence of storage operations runs
    and whatever database calls fail on the way: certificates, issued names, FQDN
    sets, SCT receipts and challenges are only ever added; a certificate's status
    can only become revoked, and stays so; a finalized authorization keeps its
    identifier, account and expiry, and its status can only become revoked or
    deactivated. *)
Theorem storage_history_is_append_only ops w r w' :
  tx w = None -> run ops w = (r, w') -> grows (db w) (db w').
Proof. intros Htx Hrun. apply (frame_run _ _ _ grows ops) with (r := r); [by intros []|done|done]. Qed.

(** ** Well-formed tables *)

Definition registered (t : Tables) (id : Z) : Prop := is_Some (registrations t !! id).

Record wf (t : Tables) : Prop := {
  (* primary keys, and versions start at 1 *)
  wf_registrations : forall id rm, registrations t !! id = Some rm ->
    rm_ID rm = id /\ 0 < id < nextRegistration t /\ is_Some (rm_Status rm) /\ 1 <= rm_LockCol rm;
  wf_next : 0 < nextRegistration t;
  wf_pending : forall k pa, pendingAuthorizations t !! k = Some pa ->
    k = coll (az_ID (pa_Authorization pa)) /\ registered t (az_RegistrationID (pa_Authorization pa)) /\
    az_Challenges (pa_Authorization pa) = [] /\ 1 <= pa_LockCol pa;
  wf_authz : forall k a, authz t !! k = Some a ->
    k = coll (az_ID a) /\ registered t (az_RegistrationID a) /\ az_Challenges a = [];
  wf_certificates : forall k c, certificates t !! k = Some c ->
    k = coll (cert_Serial c) /\ registered t (cert_RegistrationID c);
  wf_status : forall k c, certificateStatus t !! k = Some c -> k = coll (cs_Serial c) /\ 1 <= cs_LockCol c;
  (* unique columns *)
  wf_keys : forall i j rm rm', registrations t !! i = Some rm -> registrations t !! j = Some rm' ->
    coll (rm_KeySHA256 rm) = coll (rm_KeySHA256 rm') -> i = j;
  wf_fqdnSets : NoDup (map (fun f => coll (fs_Serial f)) (fqdnSets t));
  wf_scts : NoDup (map (fun s => (coll (sct_CertificateSerial s), coll (sct_LogID s))) (sctReceipts t));
  (* challenges are in ID order, below the next ID, and at version 1 *)
  wf_challenges : StronglySorted Z.lt (map cm_ID (challenges t)) /\
    Forall (fun c => cm_ID c < nextChallenge t /\ cm_LockCol c = 1) (challenges t)
}.

Lemma wf_empty : wf emptyTables.
Proof.
  split; simpl; intros; try (by rewrite lookup_empty in *); try lia; repeat constructor.
Qed.

Definition keeps_wf (t t' : Tables) : Prop := wf t -> wf t'.
#[global] Instance keeps_wf_preorder : PreOrder keeps_wf.
Proof. split; unfold keeps_wf; [by intros t|naive_solver]. Qed.

Lemma ceq_true a b : ceq a b = true <-> coll a = coll b.
Proof. unfold ceq. apply String.eqb_eq. Qed.

Lemma find_by_key_None t sha : find_by_key t sha = None ->
  forall id rm, registrations t !! id = Some rm -> coll (rm_KeySHA256 rm) <> coll sha.
Proof.
  unfold find_by_key. intros H id rm Hid E. apply fmap_None in H.
  assert ((id, rm) ∈ filter (fun '(_, rm) => ceq (rm_KeySHA256 rm) sha = true) (map_to_list (registrations t))) as Hin.
  { apply list_elem_of_filter. split; [by apply ceq_true|by apply elem_of_map_to_list]. }
  destruct (filter _ _); [by apply not_elem_of_nil in Hin|done].
Qed.

Lemma key_taken_false t sha id : key_taken t sha id = false ->
  forall i rm, i <> id -> registrations t !! i = Some rm -> coll (rm_KeySHA256 rm) <> coll sha.
Proof.
  unfold key_taken. intros H i rm Hi Hrm E. apply bool_decide_eq_false_1, dec_stable in H.
  assert ((i, rm) ∈ filter (fun '(i, rm) => i <> id /\ ceq (rm_KeySHA256 rm) sha = true)
            (map_to_list (registrations t))) as Hin.
  { apply list_elem_of_filter. split; [split; [done|by apply ceq_true]|by apply elem_of_map_to_list]. }
  rewrite H in Hin. by apply not_elem_of_nil in Hin.
Qed.

(** Adding registrations keeps every account registered. *)
Lemma registered_insert t id rm n x : registered t x -> registered (set_registrations t (<[id := rm]> (registrations t)) n) x.
Proof.
  unfold registered. simpl. intros [y Hy]. destruct (decide (x = id)) as [->|].
  - rewrite lookup_insert_eq. eauto.
  - rewrite lookup_insert_ne by done. eauto.
Qed.

Lemma has_registration_spec t id : has_registration t id = true <-> registered t id.
Proof. unfold has_registration, registered. destruct (registrations t !! id); naive_solver. Qed.

(** A row stored in [registrations] under its own ID, with a key no other row has. *)
Lemma wf_set_registration t id rm n :
  wf t -> rm_ID rm = id -> 0 < id < n -> nextRegistration t <= n -> is_Some (rm_Status rm) -> 1 <= rm_LockCol rm ->
  (forall i r, i <> id -> registrations t !! i = Some r -> coll (rm_KeySHA256 r) <> coll (rm_KeySHA256 rm)) ->
  wf (set_registrations t (<[id := rm]> (registrations t)) n).
Proof.
  intros [A B C D E F G H I L] H1 H2 H3 H4 H5 Hk. split; simpl; try done; try lia.
  - intros j r Hj. apply lookup_insert_Some in Hj as [[<- <-]|[Hn Hj]]; [done|].
    destruct (A j r Hj) as (? & ? & ? & ?). split_and!; try done; lia.
  - intros k pa Hp. destruct (C k pa Hp) as (? & ? & ? & ?). eauto 6 using registered_insert.
  - intros k a Ha. destruct (D k a Ha) as (? & ? & ?). eauto 6 using registered_insert.
  - intros k c Hc. destruct (E k c Hc) as (? & ?). eauto 6 using registered_insert.
  - intros i j r r' Hi Hj Hc.
    apply lookup_insert_Some in Hi as [[<- <-]|[Hi1 Hi]], Hj as [[<- <-]|[Hj1 Hj]]; try done.
    + exfalso. by eapply (Hk j r').
    + exfalso. by eapply (Hk i r).
    + by eapply G.
Qed.

(** A row stored in [pendingAuthorizations] under its own key. *)
Lemma wf_set_pending t a v :
  wf t -> registered t (az_RegistrationID a) -> az_Challenges a = [] -> 1 <= v ->
  wf (set_authzs t (<[coll (az_ID a) := {| pa_Authorization := a; pa_LockCol := v |}]>
                      (pendingAuthorizations t)) (authz t)).
Proof.
  intros [] Hr Hc Hv. split; simpl; try done.
  intros k pa Hk. apply lookup_insert_Some in Hk as [[<- <-]|[Hn Hk]]; [done|]. eauto.
Qed.

Lemma wf_set_authz t a :
  wf t -> registered t (az_RegistrationID a) -> az_Challenges a = [] ->
  wf (set_authzs t (pendingAuthorizations t) (<[coll (az_ID a) := a]> (authz t))).
Proof.
  intros [] Hr Hc. split; simpl; try done.
  intros k b Hk. apply lookup_insert_Some in Hk as [[<- <-]|[Hn Hk]]; [done|]. eauto.
Qed.

Lemma wf_insert_registration rm : rm_LockCol rm = 0 -> preserves (inside keeps_wf) (insert_registration rm).
Proof.
  intros Hv. unfold insert_registration. statement. intros Hwf. pose proof (wf_next t Hwf).
  apply wf_set_registration; simpl; eauto using find_by_key_None; try lia. unfold insert_version. lia.
Qed.

Lemma where_version_le x v : (x =? where_version v) = true -> 1 <= x -> 1 <= insert_version v.
Proof. unfold where_version, insert_version. intros. bool_solve. destruct (Z.eqb_spec v 0); lia. Qed.
#[local] Hint Resolve where_version_le : boulder.

Lemma wf_update_registration rm : preserves (inside keeps_wf) (update_registration rm).
Proof.
  unfold update_registration. statement; try (by intros ?); intros Hwf;
  match goal with H : registrations ?u !! _ = Some ?old |- _ =>
    destruct (wf_registrations u Hwf _ _ H) as (? & ? & ? & ?) end.
  all: apply wf_set_registration; simpl; eauto using key_taken_false with boulder; lia.
Qed.

Lemma wf_deactivate_registration id : preserves (inside keeps_wf) (DeactivateRegistration id).
Proof.
  unfold DeactivateRegistration. statement; try (by intros ?). intros Hwf.
  match goal with H : registrations t !! _ = Some ?old |- _ =>
    destruct (wf_registrations t Hwf _ _ H) as (? & ? & ? & ?) end.
  apply wf_set_registration; simpl; eauto; try lia.
  intros i r' Hi Hr' E. apply Hi. by eapply (wf_keys t Hwf).
Qed.

Lemma wf_insert_pending a : preserves (inside keeps_wf) (insert_pending a).
Proof.
  unfold insert_pending. statement. intros Hwf. apply (wf_set_pending t (authz_row a)); try done.
  by apply has_registration_spec.
Qed.

Lemma wf_update_pending pa : preserves (inside keeps_wf) (update_pending pa).
Proof.
  unfold update_pending. statement; try (by intros ?). intros Hwf.
  match goal with H : pendingAuthorizations t !! _ = Some ?old |- _ =>
    destruct (wf_pending t Hwf _ _ H) as (? & ? & ? & ?) end.
  apply (wf_set_pending t (authz_row (pa_Authorization pa))); eauto with boulder.
  by apply has_registration_spec.
Qed.

Lemma wf_delete_pending pa : preserves (inside keeps_wf) (delete_pending pa).
Proof.
  unfold delete_pending. statement; try (by intros ?). intros []. split; simpl; try done.
  intros k x [_ Hk]%lookup_delete_Some. eauto.
Qed.

Lemma wf_insert_authz a : preserves (inside keeps_wf) (insert_authz a).
Proof.
  unfold insert_authz. statement. intros Hwf. apply (wf_set_authz t (authz_row a)); try done.
  by apply has_registration_spec.
Qed.

Lemma sorted_snoc l n : StronglySorted Z.lt l -> Forall (fun x => x < n) l -> StronglySorted Z.lt (l ++ [n]).
Proof.
  induction 1 as [|x l Hs IH Hx]; intros Hf; simpl; [repeat constructor|].
  apply Forall_cons in Hf as [? ?]. constructor; [by apply IH|]. apply Forall_app. by repeat constructor.
Qed.

Lemma wf_insert_challenge c : cm_LockCol c = 0 -> preserves (inside keeps_wf) (insert_challenge c).
Proof.
  intros Hv. unfold insert_challenge. statement. intros []. destruct wf_challenges0 as [HS HF].
  split; simpl; try done. split.
  - rewrite map_app. simpl. apply sorted_snoc; [done|]. apply Forall_map.
    eapply Forall_impl; [exact HF|]. naive_solver.
  - apply Forall_app. split; [eapply Forall_impl; [exact HF|]; simpl; intros; lia|].
    repeat constructor; simpl; [lia|]. unfold insert_version. lia.
Qed.

Lemma wf_update_challenge c : cm_LockCol c = 0 -> preserves (inside keeps_wf) (update_challenge c).
Proof.
  intros Hv. unfold update_challenge. rewrite Hv. statement; intros []; destruct wf_challenges0 as [HS HF];
    (split; simpl; try done); (split; [|apply Forall_map; eapply Forall_impl; [exact HF|];
      intros x [? ?]; simpl; case_match; simpl; unfold insert_version; bool_solve; lia]).
  all: rewrite map_map; (erewrite map_ext; [exact HS|]); intros x; simpl;
    case_match; simpl; bool_solve; congruence.
Qed.

Lemma wf_revoke tbl ids : preserves (inside keeps_wf) (revokeAuthorizations tbl ids).
Proof.
  unfold revokeAuthorizations. statement; intros []; split; simpl; try done.
  - intros k a Hk. apply lookup_fmap_Some in Hk as (b & <- & Hb).
    destruct (wf_authz0 _ _ Hb) as (? & ? & ?).
    unfold revoke_final. by destruct (in_ids ids b).
  - intros k a Hk. apply lookup_fmap_Some in Hk as (b & <- & Hb).
    destruct (wf_pending0 _ _ Hb) as (? & ? & ? & ?).
    unfold revoke_pending, revoke_final. simpl. by destruct (in_ids ids _).
Qed.

Lemma wf_deactivate_authorization id : preserves (outside keeps_wf) (DeactivateAuthorization id).
Proof.
  unfold DeactivateAuthorization, existingPending. frame; statement; try (by intros ?); intros Hwf.
  - match goal with H : pendingAuthorizations t !! _ = Some ?pa |- _ =>
      destruct (wf_pending t Hwf _ _ H) as (-> & ? & ? & ?);
      by apply (wf_set_pending t (with_status (pa_Authorization pa) StatusDeactivated)) end.
  - match goal with H : authz t !! _ = Some ?a |- _ =>
      destruct (wf_authz t Hwf _ _ H) as (-> & ? & ?);
      by apply (wf_set_authz t (with_status a StatusDeactivated)) end.
Qed.

Lemma wf_update_status c now reason :
  preserves (inside keeps_wf) (update_status (revoke_status c now reason)).
Proof.
  unfold update_status. statement; try (by intros ?). intros []. split; simpl; try done.
  intros k x Hk. apply lookup_insert_Some in Hk as [[<- <-]|[_ Hk]]; [|eauto]. simpl. split; [done|].
  match goal with H : certificateStatus t !! _ = Some ?old |- _ => destruct (wf_status0 _ _ H) end.
  eauto with boulder.
Qed.

Lemma wf_insert_certificate c : preserves (inside keeps_wf) (insert_certificate c).
Proof.
  unfold insert_certificate. statement. intros []. split; simpl; try done.
  intros k x Hk. apply lookup_insert_Some in Hk as [[<- <-]|[_ Hk]]; [|eauto].
  split; [done|]. by apply has_registration_spec.
Qed.

Lemma wf_insert_certificate_status c : cs_LockCol c = 0 ->
  preserves (inside keeps_wf) (insert_certificate_status c).
Proof.
  intros Hv. unfold insert_certificate_status. statement. intros []. split; simpl; try done.
  intros k x Hk. apply lookup_insert_Some in Hk as [[<- <-]|[_ Hk]]; [|eauto].
  simpl. unfold insert_version. split; [done|lia].
Qed.

Lemma NoDup_map_snoc {A B} (f : A -> B) l x :
  NoDup (map f l) -> f x ∉ map f l -> NoDup (map f (l ++ [x])).
Proof.
  intros H1 H2. rewrite map_app. apply NoDup_app. split_and!; [done| |apply NoDup_singleton].
  intros y Hy. simpl. rewrite list_elem_of_singleton. by intros ->.
Qed.

Lemma existsb_false_elem {A} (p : A -> bool) l x : existsb p l = false -> x ∈ l -> p x = false.
Proof.
  intros H Hx. apply not_true_iff_false. intros Hp. apply not_true_iff_false in H. apply H.
  apply existsb_exists. exists x. split; [by apply list_elem_of_In|done].
Qed.

Lemma wf_addFQDNSet n s i e : preserves (inside keeps_wf) (addFQDNSet n s i e).
Proof.
  unfold addFQDNSet. statement. intros []. split; simpl; try done. apply NoDup_map_snoc; [done|].
  simpl. intros (f & Hf & Hin)%list_elem_of_fmap.
  match goal with H : existsb _ _ = false |- _ => pose proof (existsb_false_elem _ _ _ H Hin) as Hc end.
  apply not_true_iff_false in Hc. apply Hc, ceq_true. congruence.
Qed.

Lemma wf_addIssuedNames c : preserves (inside keeps_wf) (addIssuedNames c).
Proof. unfold addIssuedNames. statement. intros []. by split. Qed.

Lemma wf_AddSCTReceipt s : preserves (inside keeps_wf) (AddSCTReceipt s).
Proof.
  unfold AddSCTReceipt. frame. statement. intros []. split; simpl; try done.
  apply NoDup_map_snoc; [done|]. simpl. intros (f & Hf & Hin)%list_elem_of_fmap.
  match goal with H : existsb _ _ = false |- _ => pose proof (existsb_false_elem _ _ _ H Hin) as Hc end.
  apply not_true_iff_false in Hc. apply Hc. injection Hf as E1 E2.
  apply andb_true_iff. split; by apply ceq_true.
Qed.

#[global] Instance keeps_wf_rel : TableRel (fun _ => True) True True keeps_wf.
Proof.
  split; intros; eauto using wf_insert_registration, wf_update_registration,
    wf_deactivate_registration, wf_insert_pending, wf_update_pending, wf_delete_pending,
    wf_insert_authz, wf_insert_challenge, wf_update_challenge, wf_revoke,
    wf_deactivate_authorization, wf_update_status, wf_insert_certificate,
    wf_insert_certificate_status, wf_addFQDNSet, wf_addIssuedNames, wf_AddSCTReceipt with typeclass_instances.
Qed.

Lemma run_wf ops w r w' : tx w = None -> wf (db w) -> run ops w = (r, w') -> wf (db w').
Proof.
  intros Htx Hwf Hrun. destruct (frame_run _ _ _ keeps_wf ops ltac:(by intros []) w r w' Hrun Htx) as [_ H]. by apply H.
Qed.

(** C15. From empty tables, any sequence of storage operations, with any faults,
    leaves well-formed tables: rows are under their own keys, key digests,
    certificate serials and SCT receipts are unique, every authorization and
    certificate belongs to a registered account, challenge IDs increase, and
    every challenge row stays at the version that the next update will match. *)
Theorem storage_stays_well_formed ops w r w' :
  tx w = None -> db w = emptyTables -> run ops w = (r, w') -> wf (db w').
Proof.
  intros Htx Hdb Hrun. eapply run_wf; [done| |done]. rewrite Hdb. apply wf_empty.
Qed.

End ops.

End SaInvariants.
