(* ===== verification/SaQueries.v ===== *)
(** * What the storage authority's queries return

    Reversed names and subdomain counting, the IP ranges of the registration
    limit, the selection of valid authorizations, and FQDN sets. *)

From S2P Require Import Prelude GoStd Net Errors Features Core Csr Policy Database Storage SaFrame.

Import Net Storage.

Module SaQueries.

(** ** reverseName *)

Lemma swap_loop_rev fuel pre mid post :
  (length mid <= fuel)%nat ->
  swap_loop fuel (length pre) (length pre + length mid - 1) (pre ++ mid ++ post) = pre ++ rev mid ++ post.
Proof.
  revert pre mid post. induction fuel as [|fuel IH]; intros pre mid post Hf.
  { destruct mid; simpl in *; [done|lia]. }
  destruct mid as [|a mid]; cbn [swap_loop].
  { case Nat.ltb_spec; [simpl; lia|done]. }
  destruct mid as [|b mid _] using rev_ind.
  { case Nat.ltb_spec; [simpl; lia|done]. }
  simpl length in *. rewrite length_app in *. simpl length in *.
  destruct (Nat.ltb_spec (length pre) (length pre + S (length mid + 1) - 1)); [|lia].
  rewrite lookup_app_r, Nat.sub_diag by lia. simpl.
  replace (length pre + S (length mid + 1) - 1)%nat with (length pre + S (length mid))%nat by lia.
  replace (pre ++ a :: (mid ++ [b]) ++ post) with (pre ++ (a :: mid) ++ (b :: post))
    by by rewrite <- !app_assoc.
  rewrite (lookup_app_r pre) by lia.
  replace (length pre + S (length mid) - length pre)%nat with (length (a :: mid) + 0)%nat by (simpl; lia).
  rewrite lookup_app_r by lia. replace (length (a :: mid) + 0 - length (a :: mid))%nat with 0%nat by lia. simpl.
  replace (<[length pre := b]> (pre ++ a :: mid ++ b :: post)) with (pre ++ b :: mid ++ b :: post)
    by (rewrite insert_app_r_alt, Nat.sub_diag by lia; done).
  replace (<[(length pre + S (length mid))%nat := a]> (pre ++ b :: mid ++ b :: post))
    with ((pre ++ [b]) ++ mid ++ (a :: post)).
  2:{ rewrite insert_app_r_alt by lia.
      replace (length pre + S (length mid) - length pre)%nat with (S (length mid)) by lia. simpl.
      rewrite insert_app_r_alt, Nat.sub_diag by lia. simpl. by rewrite <- app_assoc. }
  replace (S (length pre)) with (length (pre ++ [b])) by (rewrite length_app; simpl; lia).
  replace (pred (length pre + S (length mid)))%nat with (length (pre ++ [b]) + length mid - 1)%nat
    by (rewrite length_app; simpl; lia).
  rewrite IH by lia. rewrite rev_app_distr. simpl. by rewrite <- !app_assoc.
Qed.

Lemma reverseName_rev d : reverseName d = join "." (rev (split_on "." d)).
Proof.
  unfold reverseName. pose proof (swap_loop_rev (length (split_on "." d)) [] (split_on "." d) []) as H.
  rewrite !app_nil_r in H. simpl in H. by rewrite H by lia.
Qed.

Lemma split_reverseName d : split_on "." (reverseName d) = rev (split_on "." d).
Proof.
  rewrite reverseName_rev. apply split_on_join.
  - destruct (split_on_cons "." d) as (x & xs & ->). simpl. by destruct (rev xs).
  - apply Forall_rev, split_on_no_sep.
Qed.

Lemma reverseName_involutive d : reverseName (reverseName d) = d.
Proof. rewrite reverseName_rev, split_reverseName, rev_involutive. apply join_split_on. Qed.

Lemma reverseName_app p b : reverseName (p ++s "." ++s b) = reverseName b ++s "." ++s reverseName p.
Proof.
  rewrite !reverseName_rev. change ("." ++s b) with (String "." b).
  rewrite split_on_mid, rev_app_distr. apply join_app.
  - destruct (split_on_cons "." b) as (x & xs & ->). simpl. by destruct (rev xs).
  - destruct (split_on_cons "." p) as (x & xs & ->). simpl. by destruct (rev xs).
Qed.

Lemma within_reverse domain base :
  Policy.within domain base <->
  reverseName domain = reverseName base \/ exists rest, reverseName domain = reverseName base ++s "." ++s rest.
Proof.
  split.
  - intros [->|[p ->]]; [by left|]. right. exists (reverseName p). apply reverseName_app.
  - intros [H|[rest H]].
    + left. rewrite <- (reverseName_involutive domain), H. apply reverseName_involutive.
    + right. exists (reverseName rest). rewrite <- (reverseName_involutive domain), H.
      rewrite reverseName_app. by rewrite reverseName_involutive.
Qed.

(** [reverseName] is its own inverse, and a domain is equal to or below
    another exactly when its reversed name is the other's or extends it by a dot
    and more labels: the prefix search over reversed names finds the subdomains. *)
Theorem reverseName_subdomain (domain base : string) :
  reverseName (reverseName domain) = domain /\
  (Policy.within domain base <->
   reverseName domain = reverseName base \/ exists rest, reverseName domain = reverseName base ++s "." ++s rest).
Proof. split; [apply reverseName_involutive|apply within_reverse]. Qed.

(** ** Counting certificates by name *)

Section counting.
Context {GL : GoLib} {Cr : Crypto} {Q : SQL} {J : StorageJSON}.

Lemma host_no_wildcard s : all_chars host_char s = true -> no_wildcard s.
Proof.
  apply all_chars_impl. intros c H.
  enough (forall c, implb (host_char c)
    (negb (Ascii.eqb c "%" || Ascii.eqb c "_" || Ascii.eqb c (ascii_of_nat 92))) = true) as Himp.
  { specialize (Himp c). by rewrite H in Himp. }
  apply ascii_forall. vm_compute. reflexivity.
Qed.

Lemma reverseName_host d : all_chars host_char d = true -> all_chars host_char (reverseName d) = true.
Proof.
  intros H. rewrite reverseName_rev. apply all_chars_join; [done|]. by apply Forall_rev, all_chars_split.
Qed.

(** The WHERE clause selects the names at or below the domain. *)
Lemma issued_row_spec {SL : SQLLaws Q} domain earliest latest r :
  all_chars host_char domain = true -> all_chars host_char (in_ReversedName r) = true ->
  issued_row (reverseName domain) earliest latest r = true <->
  Policy.within (reverseName (in_ReversedName r)) domain /\
  earliest < in_NotBefore r /\ in_NotBefore r <= latest.
Proof.
  intros Hd Hr. rewrite within_reverse.
  rewrite reverseName_involutive. unfold issued_row.
  rewrite !andb_true_iff, orb_true_iff, Z.ltb_lt, Z.leb_le.
  pose proof (reverseName_host domain Hd) as Hrd.
  change (reverseName domain ++s ".%") with (reverseName domain ++s ("." ++s "%")).
  rewrite <- sapp_assoc.
  assert (all_chars host_char (reverseName domain ++s ".") = true) as Hdot
    by by rewrite all_chars_app, Hrd.
  rewrite like_prefix by by apply host_no_wildcard. unfold ceq. rewrite String.eqb_eq.
  assert (coll (in_ReversedName r) = coll (reverseName domain) <-> in_ReversedName r = reverseName domain) as ->
    by (split; [by apply coll_host|by intros ->]).
  assert ((exists t u, in_ReversedName r = t ++s u /\ coll t = coll (reverseName domain ++s ".")) <->
          exists rest, in_ReversedName r = reverseName domain ++s "." ++s rest) as ->; [|tauto].
  split.
  - intros (t & u & E & Ht). exists u. rewrite E, all_chars_app in Hr. bool_solve.
    apply coll_host in Ht; [|done..]. rewrite E, Ht, sapp_assoc. done.
  - intros [rest E]. exists (reverseName domain ++s "."), rest. by rewrite sapp_assoc.
Qed.

(** The certificates-per-name count: over the reversed names of lower-case host
    names, and while at most 10001 rows match, the result is the number of
    distinct serials that have, in the time window, a name equal to the domain or
    below it. *)
Theorem countCertificatesByName_spec {SL : SQLLaws Q} domain earliest latest w :
  w_faults w = [] -> all_chars host_char domain = true ->
  Forall (fun r => all_chars host_char (in_ReversedName r) = true) (issuedNames (db w)) ->
  Z.of_nat (length (filter (fun r => issued_row (reverseName domain) earliest latest r = true)
                      (issuedNames (db w)))) <= 10001 ->
  exists serials : gset string,
    countCertificatesByName domain earliest latest w = (Ok (Z.of_nat (size serials)), w) /\
    forall s, s ∈ serials <-> exists r, r ∈ issuedNames (db w) /\ in_Serial r = s /\
      Policy.within (reverseName (in_ReversedName r)) domain /\
      earliest < in_NotBefore r /\ in_NotBefore r <= latest.
Proof.
  intros Hf Hd HF Hlen. unfold countCertificatesByName, mbindM, try. rewrite query_nofault by done.
  change (max_issued_rows <? 0) with false. cbv iota beta. eexists. split; [reflexivity|].
  intros s. rewrite take_ge by (unfold max_issued_rows; lia). rewrite elem_of_list_to_set, list_elem_of_fmap.
  setoid_rewrite list_elem_of_filter. rewrite Forall_forall in HF. split.
  - intros (r & -> & Hr & Hin). exists r. rewrite <- issued_row_spec by eauto. done.
  - intros (r & Hin & <- & Hr). exists r. rewrite issued_row_spec by eauto. done.
Qed.

(** The count never exceeds 10001 and never reports that there are too many: with
    more matching certificates than the documented maximum the call still succeeds. *)
Theorem too_many_certificates_is_never_reported domain earliest latest w :
  w_faults w = [] ->
  exists n, countCertificatesByName domain earliest latest w = (Ok n, w) /\ 0 <= n <= 10001.
Proof.
  intros Hf. unfold countCertificatesByName, mbindM, try. rewrite query_nofault by done.
  change (max_issued_rows <? 0) with false. cbv iota beta. eexists. split; [reflexivity|].
  set (l := take _ _). assert (Z.of_nat (length l) <= 10001) as Hl
    by (subst l; rewrite length_take; unfold max_issued_rows; lia).
  assert (size (list_to_set (map in_Serial l) : gset string) <= length l)%nat; [|lia].
  clear. induction l as [|r l IH]; [done|]. cbn [map length]. rewrite list_to_set_cons.
  rewrite size_union_alt, size_singleton.
  assert (size ((list_to_set (map in_Serial l) : gset string) ∖ {[in_Serial r]}) <=
          size (list_to_set (map in_Serial l) : gset string))%nat by (apply subseteq_size; set_solver).
  lia.
Qed.

End counting.

(** ** IP ranges *)

Definition ip_value (ip : string) : Z := be_value ip.

Lemma Mask_48 ip : len ip = 16 ->
  len (Mask ip (CIDRMask 16 48)) = 16 /\ ip_value (Mask ip (CIDRMask 16 48)) = ip_value ip / 2 ^ 80 * 2 ^ 80.
Proof.
  intros H. split; [rewrite len_Mask; [done|rewrite length_CIDRMask; unfold len in H; lia]|].
  apply (Mask_value ip 16 48); [done|lia].
Qed.

Lemma Mask_128 ip : len ip = 16 -> Mask ip (CIDRMask 16 128) = ip.
Proof.
  intros H. apply be_value_inj; [rewrite len_Mask; [done|rewrite length_CIDRMask; unfold len in H; lia]|].
  rewrite (Mask_value ip 16 128) by (done || lia). change (2 ^ (8 * Z.of_nat 16 - 128)) with 1.
  by rewrite Z.div_1_r, Z.mul_1_r.
Qed.

(** A 4-in-6 address is far from the top of the address space. *)
Lemma v4_value y v4 : len y = 16 -> To4 y = Some v4 -> be_value y < 2 ^ 128 - 1.
Proof.
  intros Hy. unfold To4. rewrite Hy. simpl (16 =? 4). simpl (16 =? 16).
  destruct (String.eqb_spec (String.substring 0 12 y) v4InV6Prefix) as [E|]; [|done]. intros _.
  destruct (string_split 12 y) as (p & q & -> & Hp); [unfold len in Hy; lia|].
  rewrite substring_app_l in E by done. subst p. rewrite len_app in Hy. simpl (len v4InV6Prefix) in Hy.
  rewrite be_value_app. pose proof (be_value_bound q) as Hq.
  replace (len q) with 4 in * by (change (len v4InV6Prefix) with 12 in Hy; lia).
  change (be_value v4InV6Prefix) with 65535. lia.
Qed.

Lemma incrementIP_spec ip index : len ip = 16 -> 0 <= index <= 128 ->
  len (incrementIP ip index) = 16 /\
  ip_value (incrementIP ip index) =
    let v := ip_value ip + 2 ^ (128 - index) in if v <? 2 ^ 128 then v else 2 ^ 128 - 1.
Proof.
  intros H Hi. unfold incrementIP, ip_value. rewrite Z.shiftl_1_l. cbv zeta.
  pose proof (be_value_bound ip) as Hb. rewrite H in Hb. change (256 ^ 16) with (2 ^ 128) in Hb.
  assert (0 < 2 ^ (128 - index)) by (apply Z.pow_pos_nonneg; lia).
  set (v := be_value ip + 2 ^ (128 - index)) in *. assert (0 <= v) by lia.
  destruct (Z.ltb_spec v (2 ^ 128)) as [Hv|Hv].
  - pose proof (be_bytes_len v 16 ltac:(change (256 ^ 16) with (2 ^ 128); lia) ltac:(lia)) as HL.
    destruct (Z.ltb_spec 16 (len (be_bytes v))); [lia|]. split.
    + rewrite len_app, len_repeat_char. pose proof (len_nonneg (be_bytes v)). lia.
    + by rewrite be_value_pad, be_value_bytes.
  - destruct (Z.ltb_spec 16 (len (be_bytes v))) as [|HL]; [by vm_compute|].
    exfalso. pose proof (be_value_bound (be_bytes v)) as Hc. rewrite be_value_bytes in Hc by done.
    assert (256 ^ len (be_bytes v) <= 256 ^ 16) by (apply Z.pow_le_mono_r; lia).
    change (256 ^ 16) with (2 ^ 128) in *. lia.
Qed.

(** The range the registration limit counts over: for an IPv4 address exactly
    that address; for an IPv6 address exactly the addresses that share its first
    48 bits, except that in the topmost network the all-ones address is left out,
    because the exclusive upper end cannot be represented. *)
Theorem ipRange_spec (ip x : string) :
  (len ip = 4 \/ len ip = 16) -> len x = 16 ->
  let '(begin_, end_) := ipRange ip in
  String.leb begin_ x = true /\ String.ltb x end_ = true <->
  match To4 (To16 ip) with
  | Some _ => x = To16 ip
  | None => ip_value x / 2 ^ 80 = ip_value (To16 ip) / 2 ^ 80 /\ ip_value x < 2 ^ 128 - 1
  end.
Proof.
  intros Hip Hx. unfold ipRange. set (y := To16 ip).
  assert (len y = 16) as Hy.
  { subst y. unfold To16. destruct (Z.eqb_spec (len ip) 4) as [E|E].
    - rewrite len_app, E. reflexivity.
    - destruct Hip as [|Hip]; [lia|]. rewrite Hip. done. }
  pose proof (be_value_bound x) as Bx. rewrite Hx in Bx. change (256 ^ 16) with (2 ^ 128) in Bx.
  pose proof (be_value_bound y) as By. rewrite Hy in By. change (256 ^ 16) with (2 ^ 128) in By.
  destruct (To4 y) as [v4|] eqn:E4; cbv zeta.
  - rewrite Mask_128 by done. destruct (incrementIP_spec y 128 Hy ltac:(lia)) as [HL HV].
    rewrite leb_be_value, ltb_be_value by congruence. unfold ip_value in HV. rewrite HV.
    change (2 ^ (128 - 128)) with 1. cbv zeta.
    assert (be_value y < 2 ^ 128 - 1) as Hlt by (apply (v4_value y v4); done).
    destruct (Z.ltb_spec (be_value y + 1) (2 ^ 128)); [|lia]. split.
    + intros. apply be_value_inj; [congruence|lia].
    + intros ->. lia.
  - destruct (Mask_48 y Hy) as [HM HMV]. destruct (incrementIP_spec _ 48 HM ltac:(lia)) as [HL HV].
    rewrite leb_be_value, ltb_be_value by congruence. unfold ip_value in *. rewrite HV, HMV.
    change (2 ^ (128 - 48)) with (2 ^ 80). cbv zeta.
    pose proof (Z.div_mod (be_value x) (2 ^ 80) ltac:(lia)). pose proof (Z.mod_pos_bound (be_value x) (2 ^ 80) ltac:(lia)).
    assert (be_value y / 2 ^ 80 < 2 ^ 48) by (apply Z.div_lt_upper_bound; lia).
    destruct (Z.ltb_spec (be_value y / 2 ^ 80 * 2 ^ 80 + 2 ^ 80) (2 ^ 128)); split; intros; nia.
Qed.

(** ** Valid authorizations *)

Section valid.
Context {GL : GoLib} {Cr : Crypto} {Q : SQL} {J : StorageJSON}.

(** Every entry is a dns authorization with an expiry, under its own name. *)
Definition by_name (m : gmap string Authorization) : Prop :=
  forall n a, m !! n = Some a -> az_Identifier a = {| idType := IdentifierDNS; idValue := n |} /\
    is_Some (az_Expires a).

(** An entry at least as late as [e]. *)
Definition covered (m : gmap string Authorization) (n : string) (e : Z) : Prop :=
  exists a ea, m !! n = Some a /\ az_Expires a = Some ea /\ e <= ea.

Lemma by_name_insert m a e : by_name m -> az_Expires a = Some e -> idType (az_Identifier a) = IdentifierDNS ->
  by_name (<[idValue (az_Identifier a) := a]> m).
Proof.
  intros Hm He Ht n b Hb. apply lookup_insert_Some in Hb as [[<- <-]|[_ Hb]]; [|by apply Hm].
  rewrite He. destruct (az_Identifier a); simpl in *. subst. eauto.
Qed.

Lemma covered_insert m a e n x : by_name m -> az_Expires a = Some e ->
  (forall b eb, m !! idValue (az_Identifier a) = Some b -> az_Expires b = Some eb -> eb <= e) ->
  covered m n x -> covered (<[idValue (az_Identifier a) := a]> m) n x.
Proof.
  intros Hm He Hmax (b & eb & Hb & Heb & Hle).
  destruct (decide (n = idValue (az_Identifier a))) as [->|].
  - exists a, e. rewrite lookup_insert_eq. specialize (Hmax b eb Hb Heb). split_and!; try done; lia.
  - exists b, eb. by rewrite lookup_insert_ne.
Qed.

Lemma latest_by_name_spec auths : forall m0 m,
  by_name m0 -> latest_by_name auths m0 = Ok m ->
  by_name m /\
  (forall n a, m !! n = Some a -> m0 !! n = Some a \/ a ∈ auths) /\
  (forall n x, covered m0 n x -> covered m n x) /\
  (forall b e, b ∈ auths -> az_Expires b = Some e -> covered m (idValue (az_Identifier b)) e).
Proof.
  induction auths as [|a auths IH]; intros m0 m Hm H; simpl in H.
  { simplify_eq. split_and!; auto. intros b e Hb. by apply not_elem_of_nil in Hb. }
  destruct (az_Expires a) as [e|] eqn:He.
  2:{ destruct (IH m0 m Hm H) as (A & B & C & D). split_and!; try done; [set_solver|].
      intros b eb [->|Hb]%elem_of_cons Heb; [congruence|by eapply D]. }
  destruct (String.eqb_spec (idType (az_Identifier a)) IdentifierDNS) as [Ht|]; [simpl in H|done].
  set (n := idValue (az_Identifier a)) in *.
  assert ((latest_by_name auths (<[n := a]> m0) = Ok m /\
           forall b eb, m0 !! n = Some b -> az_Expires b = Some eb -> eb <= e) \/
          (latest_by_name auths m0 = Ok m /\ covered m0 n e)) as [[HL Hmax]|[HL Hcov]].
  { destruct (m0 !! n) as [b|] eqn:Hb; [|left; split; [done|intros; congruence]].
    destruct (Hm n b Hb) as [_ [eb Heb]]. rewrite Heb in H. simpl in H. unfold time_After in H.
    destruct (Z.ltb_spec eb e); [left|right]; (split; [done|]); [intros; simplify_eq; lia|].
    exists b, eb. split_and!; done. }
  - destruct (IH _ m (by_name_insert m0 a e Hm He Ht) HL) as (A & B & C & D). split_and!; [done| | |].
    + intros x b Hb. destruct (B x b Hb) as [Hi|Hi]; [|set_solver].
      apply lookup_insert_Some in Hi as [[_ <-]|[_ Hi]]; [set_solver|auto].
    + intros x y Hc. apply C. by eapply covered_insert.
    + intros b eb [->|Hb]%elem_of_cons Heb; [|by apply D]. apply C. simplify_eq.
      exists a, e. by rewrite lookup_insert_eq.
  - destruct (IH m0 m Hm HL) as (A & B & C & D). split_and!; try done; [set_solver|].
    intros b eb [->|Hb]%elem_of_cons Heb; [|by apply D]. apply C. by simplify_eq.
Qed.

(** The rows [GetValidAuthorizations] reduces to its map. *)
Lemma GetValidAuthorizations_rows regID names now w m w' :
  GetValidAuthorizations regID names now w = (Ok m, w') ->
  let params := map (fun name => marshal_identifier {| idType := IdentifierDNS; idValue := name |}) names in
  exists auths, db w' = db w /\ latest_by_name auths ∅ = Ok m /\
  forall a, a ∈ auths <-> valid_row regID now params a = true /\ exists k, authz (db w) !! k = Some a.
Proof.
  intros H params. unfold GetValidAuthorizations in H. destruct (bool_decide (names = [])); [done|].
  apply mbindM_Ok in H as (auths & w1 & Hq & Hl). apply query_Ok in Hq as (Hq & Hdb & _).
  apply Ok_inj in Hq. unfold lift in Hl. apply pair_equal_spec in Hl as [Hl <-].
  exists auths. split_and!; [done|done|].
  intros a. rewrite <- Hq, list_elem_of_filter, list_elem_of_fmap. fold params. split.
  - intros [Hv ([k b] & -> & Hb%elem_of_map_to_list)]. eauto.
  - intros [Hv [k Hk]]. split; [done|]. exists (k, a). split; [done|by apply elem_of_map_to_list].
Qed.

Lemma valid_row_true regID now params a :
  valid_row regID now params a = true ->
  az_RegistrationID a = regID /\ coll (az_Status a) = coll StatusValid /\
  (exists e, az_Expires a = Some e /\ now < e) /\
  exists j, j ∈ params /\ coll (marshal_identifier (az_Identifier a)) = coll j.
Proof.
  unfold valid_row. intros Hv. bool_solve.
  match goal with Hex : existsb _ _ = true |- _ => apply existsb_exists in Hex as (j & Hj & Hjc) end.
  unfold ceq in *. bool_solve. apply list_elem_of_In in Hj.
  destruct (az_Expires a) as [e|]; [|done]. bool_solve. split_and!; eauto.
Qed.

(** Each entry is one of those rows, under its own name. *)
Lemma GetValidAuthorizations_entry regID names now w m w' n a :
  GetValidAuthorizations regID names now w = (Ok m, w') -> m !! n = Some a ->
  let params := map (fun name => marshal_identifier {| idType := IdentifierDNS; idValue := name |}) names in
  (exists k, authz (db w) !! k = Some a) /\ valid_row regID now params a = true /\
  az_Identifier a = {| idType := IdentifierDNS; idValue := n |}.
Proof.
  intros H Ha params. apply GetValidAuthorizations_rows in H as (auths & _ & Hl & Hin).
  destruct (latest_by_name_spec auths ∅ m) as (A & B & _); [by intros ? ? ?%lookup_empty_Some|done|].
  destruct (A n a Ha) as [HI _]. destruct (B n a Ha) as [Hx|Hx]; [by apply lookup_empty_Some in Hx|].
  apply Hin in Hx as [Hv Hk]. done.
Qed.

(** C18. What [GetValidAuthorizations] returns for an account, whatever faults
    strike: each entry is a row of the final table, for that account, valid, not
    expired at [now], with a dns identifier that is the entry's name and matches
    a requested one; and no matching row expires later than the entry for its
    name, so in particular every requested name with such a row has an entry. *)
Theorem GetValidAuthorizations_spec regID names now w m w' :
  GetValidAuthorizations regID names now w = (Ok m, w') ->
  let params := map (fun name => marshal_identifier {| idType := IdentifierDNS; idValue := name |}) names in
  db w' = db w /\
  (forall n a, m !! n = Some a ->
     (exists k, authz (db w) !! k = Some a) /\ az_RegistrationID a = regID /\
     coll (az_Status a) = coll StatusValid /\ (exists e, az_Expires a = Some e /\ now < e) /\
     az_Identifier a = {| idType := IdentifierDNS; idValue := n |} /\
     exists name, name ∈ names /\ coll (marshal_identifier (az_Identifier a)) =
       coll (marshal_identifier {| idType := IdentifierDNS; idValue := name |})) /\
  (forall k b e, authz (db w) !! k = Some b -> valid_row regID now params b = true ->
     az_Expires b = Some e -> covered m (idValue (az_Identifier b)) e).
Proof.
  intros H params. destruct (GetValidAuthorizations_rows _ _ _ _ _ _ H) as (auths & Hdb & Hl & Hin).
  split_and!; [done| |].
  - intros n a Ha. destruct (GetValidAuthorizations_entry _ _ _ _ _ _ _ _ H Ha) as (Hk & Hv & HI).
    destruct (valid_row_true _ _ _ _ Hv) as (? & ? & ? & j & Hj & Hc).
    apply list_elem_of_fmap in Hj as (name & -> & Hname). split_and!; eauto.
  - intros k b e Hb Hv He.
    destruct (latest_by_name_spec auths ∅ m) as (_ & _ & _ & D); [by intros ? ? ?%lookup_empty_Some|done|].
    apply D; [|done]. apply Hin. eauto.
Qed.

End valid.

End SaQueries.
