(* ===== verification/SaAuthz.v ===== *)
(** * The life of an authorization in the storage authority

    Creating a pending authorization and reading it back, drawing a fresh ID,
    recording challenge results, finalizing, and revoking by domain. *)

From S2P Require Import Prelude GoStd Errors Features Core Csr Database Storage SaFrame SaInvariants SaTransactions.

Import Storage SaInvariants SaTransactions.

Module SaAuthz.

Section authz.
Context {GL : GoLib} {Cr : Crypto} {Q : SQL} {J : StorageJSON} {X : X509}.

(** ** Challenges as rows *)

(** A challenge that fits the columns and that JSON gives back as it was. *)
Definition storable (ch : Challenge) : Prop :=
  match ch_Error ch with
  | None => True
  | Some p => len (marshal_problem p) <= mediumBlobSize /\ marshal_problem p <> EmptyString /\
              unmarshal_problem (marshal_problem p) = Ok p
  end /\
  match ch_ValidationRecord ch with
  | [] => True
  | rs => len (marshal_records rs) <= mediumBlobSize /\ marshal_records rs <> EmptyString /\
          unmarshal_records (marshal_records rs) = Ok rs
  end.

(** What is read back: the row's ID, and no URI. *)
Definition stored (ch : Challenge) (id : Z) : Challenge :=
  {| ch_ID := id; ch_Type := ch_Type ch; ch_Status := ch_Status ch; ch_Error := ch_Error ch;
     ch_URI := EmptyString; ch_Token := ch_Token ch;
     ch_ProvidedKeyAuthorization := ch_ProvidedKeyAuthorization ch;
     ch_ValidationRecord := ch_ValidationRecord ch |}.

Lemma is_empty_false s : s <> EmptyString -> is_empty s = false.
Proof. unfold is_empty. intros. by apply String.eqb_neq. Qed.

Lemma challenge_roundtrip ch aid : storable ch ->
  exists m, challengeToModel ch aid = Ok m /\ cm_AuthorizationID m = aid /\ cm_LockCol m = 0 /\
    forall id v, modelToChallenge (set_chall m id v) = Ok (stored ch id).
Proof.
  intros [HE HV]. unfold challengeToModel, modelToChallenge, stored, rbind.
  assert (forall s, len s <= mediumBlobSize -> (mediumBlobSize <? len s) = false) as Hsize
    by (intros; by apply Z.ltb_ge).
  destruct (ch_Error ch) as [p|], (ch_ValidationRecord ch) as [|r rs]; cbv zeta in *;
    repeat match goal with H : _ /\ _ /\ _ |- _ => destruct H as (?Hl & ?Hn & ?Hu) end;
    rewrite ?Hsize by done; eexists; (split; [reflexivity|]); (split; [done|]); (split; [done|]);
    intros id v; simpl; rewrite ?is_empty_false by done; rewrite ?Hu, ?Hu0; done.
Qed.

(** ** Drawing an ID *)

Definition used_ids (t : Tables) : gset string := dom (pendingAuthorizations t) ∪ dom (authz t).

Lemma elem_of_used t k : k ∈ used_ids t <-> is_Some (pendingAuthorizations t !! k) \/ is_Some (authz t !! k).
Proof. unfold used_ids. by rewrite elem_of_union, !elem_of_dom. Qed.

Lemma fresh_id_step fuel w : w_faults w = [] ->
  let id := w_rng w (w_draws w) in
  fresh_id (S fuel) w =
  if bool_decide (coll id ∈ used_ids (db w)) then fresh_id fuel (pop_token w) else (Ok (Some id), pop_token w).
Proof.
  intros Hf id. cbn [fresh_id]. unfold mbindM at 1, NewToken. fold id.
  assert (w_faults (pop_token w) = []) as Hf' by done.
  unfold existingPending, existingFinal, count_positive. unfold mbindM, try.
  rewrite query_nofault by done. simpl db.
  pose proof (elem_of_used (db w) (coll id)) as HU.
  case_bool_decide as H1.
  - rewrite bool_decide_true by tauto. reflexivity.
  - simpl. rewrite query_nofault by done. simpl db. case_bool_decide as H2.
    + rewrite bool_decide_true by tauto. reflexivity.
    + rewrite bool_decide_false by tauto. reflexivity.
Qed.

(** Drawing an ID for a new authorization ends: if the tokens are distinct keys,
    one draw more than there are authorizations is enough, and the ID found is
    in neither table. *)
Theorem fresh_id_terminates fuel w :
  w_faults w = [] -> (forall i j, coll (w_rng w i) = coll (w_rng w j) -> i = j) ->
  (size (pendingAuthorizations (db w)) + size (authz (db w)) < fuel)%nat ->
  exists id w', fresh_id fuel w = (Ok (Some id), w') /\ db w' = db w /\
    pendingAuthorizations (db w) !! coll id = None /\ authz (db w) !! coll id = None.
Proof.
  intros Hf Hinj Hfuel.
  assert (forall fuel (seen : gset string) w0, db w0 = db w -> w_rng w0 = w_rng w -> w_faults w0 = [] ->
    (forall k, k ∈ seen -> exists i, (i < w_draws w0)%nat /\ k = coll (w_rng w i)) ->
    (size (used_ids (db w) ∖ seen) < fuel)%nat ->
    exists id w', fresh_id fuel w0 = (Ok (Some id), w') /\ db w' = db w /\ coll id ∉ used_ids (db w)) as Hgen.
  { clear fuel Hfuel. induction fuel as [|fuel IH]; intros seen w0 Hdb Hrng Hf0 Hseen Hlt; [lia|].
    rewrite fresh_id_step, Hdb, Hrng by done. set (id := w_rng w (w_draws w0)).
    case_bool_decide as Hid; [|by exists id, (pop_token w0)].
    apply (IH ({[coll id]} ∪ seen)); try done.
    - intros k [->%elem_of_singleton|Hk]%elem_of_union; [exists (w_draws w0); simpl; split; [lia|done]|].
      destruct (Hseen k Hk) as (i & Hi & ->). exists i. simpl. split; [lia|done].
    - assert (coll id ∉ seen) as Hns.
      { intros Hin. destruct (Hseen _ Hin) as (i & Hi & E). apply Hinj in E. lia. }
      assert (used_ids (db w) ∖ ({[coll id]} ∪ seen) ⊂ used_ids (db w) ∖ seen) as Hsub by set_solver.
      apply subset_size in Hsub. lia. }
  destruct (Hgen fuel ∅ w) as (id & w' & E & Hdb & Hid); try done.
  - rewrite difference_empty_L. unfold used_ids.
    pose proof (size_union_alt (dom (pendingAuthorizations (db w))) (dom (authz (db w)))) as HS.
    assert (size (dom (authz (db w)) ∖ dom (pendingAuthorizations (db w))) <= size (dom (authz (db w))))%nat
      by (apply subseteq_size; set_solver).
    rewrite !size_dom in *. lia.
  - exists id, w'. rewrite elem_of_used in Hid. rewrite !eq_None_not_Some. tauto.
Qed.

(** ** Reading an authorization *)

(** The challenge rows of an authorization, as the query returns them. *)
Definition rows_of (t : Tables) (id : string) : list challModel :=
  filter (fun c => ceq (cm_AuthorizationID c) id = true) (challenges t).

Lemma GetAuthorization_found id w a cs :
  w_faults w = [] -> tx w = None ->
  (pa_Authorization <$> pendingAuthorizations (db w) !! coll id = Some a \/
   pendingAuthorizations (db w) !! coll id = None /\ authz (db w) !! coll id = Some a) ->
  models_to_challenges (map no_version (rows_of (db w) (az_ID a))) = Ok cs ->
  GetAuthorization id w = (Ok (with_challenges a cs), w).
Proof.
  intros Hf Htx Ha Hcs.
  unfold GetAuthorization.
  erewrite (in_tx_nofault _ w (with_challenges a cs) (set_tx w (Some (db w)))); [|done| |done].
  { f_equal. destruct w; simpl in *. by subst. }
  set (u := set_tx w (Some (db w))). assert (w_faults u = []) as Hu by done.
  assert (db u = db w) as Hdb by done.
  unfold selectPendingAuthz, selectAuthz, getChallenges, mbindM, try.
  rewrite query_nofault, Hdb by done.
  destruct Ha as [Ha|[Hp Ha]].
  - apply fmap_Some in Ha as (pa & Hpa & ->). rewrite Hpa. simpl.
    rewrite query_nofault, Hdb by done. simpl. unfold lift. fold (rows_of (db w) (az_ID (pa_Authorization pa))).
    by rewrite Hcs.
  - rewrite Hp. simpl. rewrite query_nofault, Hdb, Ha by done. simpl.
    rewrite query_nofault, Hdb by done. simpl. unfold lift. fold (rows_of (db w) (az_ID a)). by rewrite Hcs.
Qed.

(** ** Creating an authorization *)

Fixpoint stored_from (chs : list Challenge) (id : Z) : list Challenge :=
  match chs with
  | [] => []
  | ch :: chs' => stored ch id :: stored_from chs' (id + 1)
  end.

Lemma insert_challenges_nofault chs aid : forall w,
  w_faults w = [] -> Forall storable chs ->
  exists ms n, insert_challenges chs aid w =
      (Ok (stored_from chs (nextChallenge (db w))),
       set_db w (set_challenges (db w) (challenges (db w) ++ ms) n)) /\
    Forall (fun m => cm_AuthorizationID m = aid) ms /\
    models_to_challenges (map no_version ms) = Ok (stored_from chs (nextChallenge (db w))).
Proof.
  induction chs as [|ch chs IH]; intros w Hf Hs.
  { exists [], (nextChallenge (db w)). split_and!; [|constructor|done]. cbn [insert_challenges]. unfold ret.
    rewrite app_nil_r. do 2 f_equal. destruct w as [[]]; done. }
  apply Forall_cons in Hs as [Hch Hs]. destruct (challenge_roundtrip ch aid Hch) as (m & Hm & Haid & Hv & Hrt).
  set (id := nextChallenge (db w)).
  set (t1 := set_challenges (db w) (challenges (db w) ++ [set_chall m id 1]) (id + 1)).
  destruct (IH (set_db w t1) Hf Hs) as (ms & n & E & HF & HM).
  exists (set_chall m id 1 :: ms), n. split_and!.
  - cbn [insert_challenges]. rewrite Hm, bind_lift. unfold mbindM at 1, insert_challenge.
    rewrite call_nofault, Hv by done. change (insert_version 0) with 1. fold id. fold t1.
    rewrite Hrt, bind_lift. unfold mbindM at 1. rewrite E. unfold ret. simpl. fold id. do 2 f_equal.
    unfold set_challenges, set_db. simpl. by rewrite <- app_assoc.
  - constructor; [done|done].
  - cbn [map models_to_challenges]. unfold no_version at 1. fold (set_chall m id 1).
    change {| cm_ID := cm_ID (set_chall m id 1); cm_AuthorizationID := cm_AuthorizationID (set_chall m id 1);
      cm_Type := cm_Type (set_chall m id 1); cm_Status := cm_Status (set_chall m id 1);
      cm_Error := cm_Error (set_chall m id 1); cm_Token := cm_Token (set_chall m id 1);
      cm_KeyAuthorization := cm_KeyAuthorization (set_chall m id 1);
      cm_ValidationRecord := cm_ValidationRecord (set_chall m id 1); cm_LockCol := 0 |}
      with (set_chall m id 0).
    rewrite Hrt. simpl. rewrite HM. done.
Qed.

(** A new pending authorization can be read back: it is returned, and found
    later, under the token drawn for it, as it was given, with its challenges in
    order and numbered consecutively from the next free ID. *)
Theorem NewPendingAuthorization_roundtrip a fuel w :
  w_faults w = [] -> tx w = None ->
  let id := w_rng w (w_draws w) in
  pendingAuthorizations (db w) !! coll id = None -> authz (db w) !! coll id = None ->
  rows_of (db w) id = [] -> registered (db w) (az_RegistrationID a) ->
  Forall storable (az_Challenges a) ->
  let a' := with_challenges (with_id a id) (stored_from (az_Challenges a) (nextChallenge (db w))) in
  exists w', NewPendingAuthorization (S fuel) a w = (Ok (Some a'), w') /\
    pendingAuthorizations (db w') =
      <[coll id := {| pa_Authorization := authz_row (with_id a id); pa_LockCol := 1 |}]> (pendingAuthorizations (db w)) /\
    GetAuthorization id w' = (Ok a', w').
Proof.
  intros Hf Htx id Hp Ha Hrows Hreg Hs a'.
  set (u := set_tx w (Some (db w))).
  set (t1 := set_authzs (db w) (<[coll id := {| pa_Authorization := authz_row (with_id a id); pa_LockCol := 1 |}]>
               (pendingAuthorizations (db w))) (authz (db w))).
  destruct (insert_challenges_nofault (az_Challenges a) id (set_db (pop_token u) t1) Hf Hs)
    as (ms & n & E & HF & HM).
  eexists. split; [|split].
  - unfold NewPendingAuthorization. apply in_tx_nofault; [done| |].
    + unfold mbindM at 1. fold u. rewrite (fresh_id_step fuel u Hf).
      change (w_rng u (w_draws u)) with id. change (db u) with (db w).
      rewrite bool_decide_false by (rewrite elem_of_used, Hp, Ha; intros [[? ?]|[? ?]]; done).
      unfold mbindM at 1, insert_pending. rewrite call_nofault by done. simpl.
      rewrite Hp. rewrite (proj2 (has_registration_spec _ _) Hreg).
      change (insert_version 0) with 1. fold t1. unfold mbindM at 1. rewrite E. reflexivity.
    + done.
  - reflexivity.
  - subst a'. erewrite (GetAuthorization_found id _ (authz_row (with_id a id))); [reflexivity|done|done| |].
    + left. simpl. by rewrite lookup_insert_eq.
    + simpl. unfold rows_of in *. simpl. rewrite filter_app, Hrows. simpl.
      assert (filter (fun c => ceq (cm_AuthorizationID c) id = true) ms = ms) as ->; [|exact HM].
      clear -HF. induction HF as [|m ms Hm _ IH]; [done|].
      rewrite filter_cons_True, IH by (apply ceq_true; by rewrite Hm). done.
Qed.

(** ** Recording challenge results *)

(** The rows after writing the models [ms] over the rows with IDs [ids]. *)
Fixpoint overwrite (ids : list Z) (ms : list challModel) (c : challModel) : challModel :=
  match ids, ms with
  | id :: ids', m :: ms' => if cm_ID c =? id then set_chall m id 1 else overwrite ids' ms' c
  | _, _ => c
  end.

Lemma overwrite_other ids ms c : cm_ID c ∉ ids -> overwrite ids ms c = c.
Proof.
  revert ms. induction ids as [|id ids IH]; intros [|m ms] H; simpl; try done.
  destruct (Z.eqb_spec (cm_ID c) id); [set_solver|]. apply IH. set_solver.
Qed.

(** The stored challenges again are [chs], in order, with the IDs of the rows. *)
Lemma filter_overwrite aid all ms :
  NoDup (map cm_ID all) ->
  length ms = length (filter (fun c => ceq (cm_AuthorizationID c) aid = true) all) ->
  Forall (fun m => ceq (cm_AuthorizationID m) aid = true) ms ->
  let ids := map cm_ID (filter (fun c => ceq (cm_AuthorizationID c) aid = true) all) in
  filter (fun c => ceq (cm_AuthorizationID c) aid = true) (map (overwrite ids ms) all) =
  zip_with (fun id m => set_chall m id 1) ids ms.
Proof.
  revert ms. induction all as [|c all IH]; intros ms Hnd Hlen HF ids; subst ids; [by destruct ms|].
  cbn [map] in Hnd. apply NoDup_cons in Hnd as [Hc Hnd].
  assert (forall l, l ⊆ all -> cm_ID c ∉ map cm_ID l) as Hfresh.
  { intros l Hl (x & E & Hx)%list_elem_of_fmap. apply Hc. apply list_elem_of_fmap. exists x. auto. }
  destruct (decide (ceq (cm_AuthorizationID c) aid = true)) as [Hceq|Hceq].
  - rewrite (filter_cons_True _ c) in * by done. cbn [map length] in *.
    destruct ms as [|m ms]; [done|]. apply Forall_cons in HF as [Hm HF]. cbn [zip_with overwrite].
    rewrite Z.eqb_refl. rewrite filter_cons_True by done. f_equal.
    rewrite <- IH by (done || (simpl in Hlen; lia)). f_equal. apply map_ext_in. intros x Hx%list_elem_of_In.
    destruct (Z.eqb_spec (cm_ID x) (cm_ID c)) as [E|]; [|done].
    exfalso. apply Hc. rewrite <- E. apply list_elem_of_fmap. eauto.
  - rewrite (filter_cons_False _ c) in * by done. cbn [map]. rewrite overwrite_other.
    + rewrite filter_cons_False by done. by apply IH.
    + apply Hfresh. intros x Hx%list_elem_of_filter. tauto.
Qed.

Definition all_version_1 (t : Tables) : Prop := Forall (fun c => cm_LockCol c = 1) (challenges t).

Lemma update_challenge_nofault m id w :
  w_faults w = [] -> all_version_1 (db w) -> cm_LockCol m = 0 ->
  exists n, update_challenge (set_chall m id (cm_LockCol m)) w =
    (Ok n, set_db w (set_challenges (db w) (map (overwrite [id] [m]) (challenges (db w))) (nextChallenge (db w)))).
Proof.
  intros Hf Hv Hm. unfold update_challenge. rewrite call_nofault, Hm by done. simpl.
  unfold versioned_result. rewrite andb_false_r. eexists. do 3 f_equal.
  apply map_ext_in. intros x Hx%list_elem_of_In. unfold all_version_1 in Hv. rewrite Forall_forall in Hv.
  rewrite (Hv x Hx). change (1 =? where_version 0) with true. rewrite andb_true_r. done.
Qed.

Lemma update_each_nofault challs : forall chs w,
  w_faults w = [] -> all_version_1 (db w) -> NoDup (map cm_ID challs) ->
  length challs = length chs -> Forall storable chs ->
  exists ms, update_each challs chs w =
      (Ok tt, set_db w (set_challenges (db w) (map (overwrite (map cm_ID challs) ms) (challenges (db w)))
                          (nextChallenge (db w)))) /\
    Forall2 (fun c m => cm_AuthorizationID m = cm_AuthorizationID c) challs ms /\
    Forall2 (fun ch m => forall id v, modelToChallenge (set_chall m id v) = Ok (stored ch id)) chs ms.
Proof.
  induction challs as [|c challs IH]; intros [|ch chs] w Hf Hv Hnd Hlen Hs; try done.
  { exists []. split_and!; [|constructor|constructor]. simpl. unfold ret. do 2 f_equal.
    rewrite map_id. destruct w as [[]]; done. }
  cbn [map] in Hnd. apply NoDup_cons in Hnd as [Hc Hnd]. apply Forall_cons in Hs as [Hch Hs].
  destruct (challenge_roundtrip ch (cm_AuthorizationID c) Hch) as (m & Hm & Haid & Hm0 & Hrt).
  destruct (update_challenge_nofault m (cm_ID c) w Hf Hv Hm0) as [n Hn].
  match type of Hn with _ = (_, ?x) => set (w1 := x) in Hn end.
  destruct (IH chs w1 Hf) as (ms & E & HA & HS); [|done|simpl in Hlen; lia|done|].
  { unfold all_version_1 in *. simpl. apply Forall_map. eapply Forall_impl; [exact Hv|].
    intros x Hx. simpl. by destruct (cm_ID x =? cm_ID c). }
  exists (m :: ms). split_and!; [|by constructor|by constructor].
  cbn [update_each]. rewrite Hm, bind_lift. unfold mbindM at 1. rewrite Hn, E. do 2 f_equal.
  unfold w1, set_db, set_challenges. simpl. f_equal. rewrite map_map. apply map_ext. intros x.
  simpl. destruct (Z.eqb_spec (cm_ID x) (cm_ID c)); [|done]. by apply overwrite_other.
Qed.

Lemma NoDup_map_filter {A B} (f : A -> B) (P : A -> Prop) `{forall x, Decision (P x)} (l : list A) :
  NoDup (map f l) -> NoDup (map f (filter P l)).
Proof.
  induction l as [|x l IH]; [done|]. cbn [map]. intros [Hx Hl]%NoDup_cons.
  destruct (decide (P x)); [rewrite filter_cons_True by done|rewrite filter_cons_False by done; auto].
  cbn [map]. apply NoDup_cons. split; [|auto].
  intros (y & E & Hy)%list_elem_of_fmap. apply Hx. apply list_elem_of_fmap. exists y.
  apply list_elem_of_filter in Hy. tauto.
Qed.

(** The effect of [updateChallenges], and what is read back. *)
Lemma updateChallenges_nofault aid chs w :
  w_faults w = [] -> wf (db w) -> length (rows_of (db w) aid) = length chs -> Forall storable chs ->
  exists rows, updateChallenges aid chs w =
      (Ok tt, set_db w (set_challenges (db w) rows (nextChallenge (db w)))) /\
    models_to_challenges (map no_version (filter (fun c => ceq (cm_AuthorizationID c) aid = true) rows)) =
      Ok (zip_with stored chs (map cm_ID (rows_of (db w) aid))).
Proof.
  intros Hf Hwf Hlen Hs. destruct (wf_challenges _ Hwf) as [Hsort Hver].
  assert (NoDup (map cm_ID (challenges (db w)))) as Hnd.
  { clear -Hsort. induction Hsort as [|x l _ IH Hx]; constructor; [|done].
    rewrite Forall_forall in Hx. intros Hin. specialize (Hx x Hin). lia. }
  assert (all_version_1 (db w)) as Hv1 by (eapply Forall_impl; [exact Hver|naive_solver]).
  set (challs := map no_version (rows_of (db w) aid)).
  assert (map cm_ID challs = map cm_ID (rows_of (db w) aid)) as Hids by (subst challs; by rewrite map_map).
  assert (NoDup (map cm_ID challs)) as Hndc.
  { rewrite Hids. by apply NoDup_map_filter. }
  assert (length challs = length chs) as Hl by (subst challs; by rewrite length_map).
  destruct (update_each_nofault challs chs w Hf Hv1 Hndc Hl Hs) as (ms & E & HA & HS).
  exists (map (overwrite (map cm_ID challs) ms) (challenges (db w))). split.
  - unfold updateChallenges, getChallenges. unfold mbindM at 1. rewrite query_nofault by done.
    fold (rows_of (db w) aid). fold challs. rewrite Hl, Nat.eqb_refl. exact E.
  - rewrite Hids. unfold rows_of at 1. rewrite filter_overwrite; [|done| |].
    + fold (rows_of (db w) aid). revert HS Hlen. generalize (rows_of (db w) aid) as rs. clear.
      intros rs HS. revert rs. induction HS as [|ch m chs ms Hm HS IH]; intros [|r rs] Hl; try done.
      cbn [map zip_with models_to_challenges]. change (no_version (set_chall m (cm_ID r) 1)) with (set_chall m (cm_ID r) 0).
      rewrite Hm. simpl. rewrite IH by (simpl in Hl; lia). done.
    + fold (rows_of (db w) aid). apply Forall2_length in HA. subst challs. by rewrite length_map in HA.
    + assert (Forall (fun c => ceq (cm_AuthorizationID c) aid = true) challs) as Hall.
      { subst challs. apply Forall_map, Forall_forall. intros c Hc%list_elem_of_filter. by destruct Hc. }
      clear -HA Hall. induction HA as [|c m challs ms Hm _ IH]; [constructor|].
      apply Forall_cons in Hall as [? ?]. constructor; [by rewrite Hm|auto].
Qed.

(** ** Finalizing *)

(** The pending row has become a final one, and nothing but challenges changed besides. *)
Definition finalized (a : Authorization) (t t' : Tables) : Prop :=
  let k := coll (az_ID a) in
  is_Some (pendingAuthorizations t !! k) /\ authz t !! k = None /\ statusIsPending (az_Status a) = false /\
  pendingAuthorizations t' = delete k (pendingAuthorizations t) /\
  authz t' = <[k := authz_row a]> (authz t) /\
  registrations t' = registrations t /\ certificates t' = certificates t /\
  certificateStatus t' = certificateStatus t.

Definition same_but_challenges (t t' : Tables) : Prop :=
  exists cs n, t' = set_challenges t cs n.
#[local] Instance same_but_challenges_preorder : PreOrder same_but_challenges.
Proof.
  split.
  - intros t. exists (challenges t), (nextChallenge t). by destruct t.
  - intros t1 t2 t3 (c & n & ->) (c' & n' & ->). by exists c', n'.
Qed.

Lemma updateChallenges_frame aid chs : preserves (inside same_but_challenges) (updateChallenges aid chs).
Proof.
  unfold updateChallenges, getChallenges. frame.
  match goal with |- preserves _ (update_each ?l _) => revert chs; induction l as [|c l IH] end;
    intros [|ch chs]; simpl; frame.
  unfold update_challenge. apply preserves_call; [apply _|]. intros t n t' Hs. cbv zeta in Hs.
  unfold versioned_result in Hs. case_in Hs. simplify_eq Hs. intros <- <-. by eexists _, _.
Qed.

Lemma count_positive_true q w w' : count_positive q w = (Ok true, w') ->
  q (db w) = true /\ db w' = db w /\ tx w' = tx w.
Proof.
  unfold count_positive, mbindM, try. destruct (query _ w) as [[c|e] w1] eqn:E; [|done].
  intros [= Hc ->]. apply query_Ok in E as (E & ? & ?). injection E as <-. by destruct (q (db w)).
Qed.

Lemma try_Ok {A} (m : DB A) w r w' : try m w = (Ok r, w') -> m w = (r, w').
Proof. unfold try. destruct (m w). by intros [= <- <-]. Qed.

(** The steps of a successful body of [FinalizeAuthorization]. *)
Lemma finalize_steps a w w3 w4 w5 pa n :
  wf (db w) -> pendingAuthorizations (db w) !! coll (az_ID a) = Some pa ->
  statusIsPending (az_Status a) = false ->
  insert_authz a w = (Ok tt, w3) -> delete_pending pa w3 = (Ok n, w4) ->
  updateChallenges (az_ID a) (az_Challenges a) w4 = (Ok tt, w5) -> finalized a (db w) (db w5).
Proof.
  intros Hwf Hpa Hst (t3 & H3 & Hd3)%call_inv (t4 & H4 & Hd4)%call_inv H5.
  destruct (authz (db w) !! coll (az_ID a)) eqn:Ea; [done|].
  destruct (has_registration _ _); [|done]. injection H3 as <-. rewrite Hd3 in H4. simpl in H4.
  destruct (wf_pending _ Hwf _ _ Hpa) as (Hk & _). rewrite <- Hk, Hpa, Z.eqb_refl in H4. injection H4 as <- <-.
  apply updateChallenges_frame in H5 as (_ & cs & m & Hd5). rewrite Hd5, Hd4.
  unfold finalized. simpl. split_and!; eauto.
Qed.

(** C16. [FinalizeAuthorization] is all or nothing, whatever faults strike: on success
    a pending row with that ID existed, is gone, and the final row stands in a
    place that was free; on error the tables are as before, unless only the reply
    to the commit was lost. *)
Theorem FinalizeAuthorization_all_or_nothing a w r w' :
  wf (db w) -> tx w = None -> FinalizeAuthorization a w = (r, w') ->
  match r with
  | Ok _ => finalized a (db w) (db w')
  | Err _ => db w' = db w \/ finalized a (db w) (db w')
  end.
Proof.
  intros Hwf Htx H. unfold FinalizeAuthorization in H.
  apply (in_tx_atomic _ (fun _ t t' => wf t -> finalized a t t')) in H; [|clear w r w' Hwf Htx H|clear|done].
  - destruct H as [_ H]. destruct r; [auto|]. destruct H as [|[_ ?]]; auto.
  - intros w [] w5 H Hwf. cbv zeta in H. apply mbindM_Ok in H as ([|] & w1 & H1 & H); [|done].
    apply count_positive_true in H1 as (_ & Hd1 & _). cbv [negb] in H.
    destruct (statusIsPending (az_Status a)) eqn:Est; [done|].
    apply mbindM_Ok in H as (rp & w2 & H2%try_Ok & H). destruct rp as [pa|e]; [|by destruct e].
    apply query_Ok in H2 as (H2 & Hd2 & _). rewrite Hd1 in *.
    destruct (pendingAuthorizations (db w) !! coll (az_ID a)) as [pa'|] eqn:Epa; [|done]. apply Ok_inj in H2 as ->.
    apply mbindM_Ok in H as ([] & w3 & H3 & H). apply mbindM_Ok in H as (n & w4 & H4 & H5).
    rewrite <- Hd2 in *. by eapply finalize_steps.
  - unfold existingPending, selectPendingAuthz. frame; unfold insert_authz, delete_pending; try (by apply preserves_call; [apply _|]).
    intros w0 r0 w1 H. apply updateChallenges_frame in H as [? _]. by split.
Qed.

(** On well-formed tables and without faults, finalizing a pending authorization
    with a final status succeeds, and the authorization is then read back with
    that status and with the challenge results it was given. *)
Theorem FinalizeAuthorization_works a pa w :
  wf (db w) -> w_faults w = [] -> tx w = None ->
  pendingAuthorizations (db w) !! coll (az_ID a) = Some pa -> authz (db w) !! coll (az_ID a) = None ->
  registered (db w) (az_RegistrationID a) -> statusIsPending (az_Status a) = false ->
  length (rows_of (db w) (az_ID a)) = length (az_Challenges a) -> Forall storable (az_Challenges a) ->
  exists w', FinalizeAuthorization a w = (Ok tt, w') /\ finalized a (db w) (db w') /\
    GetAuthorization (az_ID a) w' =
      (Ok (with_challenges a (zip_with stored (az_Challenges a) (map cm_ID (rows_of (db w) (az_ID a))))), w').
Proof.
  intros Hwf Hf Htx Hp Ha Hreg Hst Hlen Hs. set (k := coll (az_ID a)) in *.
  set (u := set_tx w (Some (db w))).
  set (t3 := set_authzs (db w) (pendingAuthorizations (db w)) (<[k := authz_row a]> (authz (db w)))).
  set (t4 := set_authzs t3 (delete k (pendingAuthorizations t3)) (authz t3)).
  destruct (wf_pending _ Hwf _ _ Hp) as (Hk & _). fold k in Hk.
  assert (insert_authz a u = (Ok tt, set_db u t3)) as H3.
  { unfold insert_authz. rewrite call_nofault by done. simpl. fold k. rewrite Ha.
    by rewrite (proj2 (has_registration_spec _ _) Hreg). }
  assert (exists n, delete_pending pa (set_db u t3) = (Ok n, set_db u t4)) as [n H4].
  { unfold delete_pending. rewrite call_nofault by done. simpl. rewrite <- Hk, Hp, Z.eqb_refl. by eexists. }
  assert (wf t4) as Hwf4.
  { assert (keeps_wf (db w) t3) as Hw3 by (apply (wf_insert_authz a u _ _ H3)).
    apply (wf_delete_pending pa _ _ _ H4). by apply Hw3. }
  destruct (updateChallenges_nofault (az_ID a) (az_Challenges a) (set_db u t4)) as (rows & H5 & Hrows); try done.
  eexists. split; [|split].
  - unfold FinalizeAuthorization. apply in_tx_nofault; [done| |].
    + fold u. unfold existingPending, count_positive, selectPendingAuthz. unfold mbindM at 1 2, try at 1.
      rewrite query_nofault by done. change (db u) with (db w). fold k. rewrite Hp. simpl.
      rewrite Hst. unfold mbindM at 1, try at 1. rewrite query_nofault by done. change (db u) with (db w).
      fold k. rewrite Hp. unfold mbindM at 1. rewrite H3. unfold mbindM at 1. rewrite H4. exact H5.
    + done.
  - exact (finalize_steps a u _ _ _ pa n Hwf Hp Hst H3 H4 H5).
  - erewrite (GetAuthorization_found (az_ID a) _ (authz_row a)); [reflexivity|done|done| |exact Hrows].
    right. simpl. fold k. by rewrite lookup_delete_eq, lookup_insert_eq.
Qed.

(** ** Revoking by domain *)

Definition auths (tbl : authz_table) (t : Tables) : gmap string Authorization :=
  match tbl with Final => authz t | Pending => pa_Authorization <$> pendingAuthorizations t end.
Definition rows (m : gmap string Authorization) : list Authorization := (map_to_list m).*2.

Definition own_keys (m : gmap string Authorization) : Prop := forall k a, m !! k = Some a -> k = coll (az_ID a).

Lemma wf_own_keys tbl t : wf t -> own_keys (auths tbl t).
Proof.
  intros Hwf k a. destruct tbl; simpl.
  - intros H. by apply (wf_authz t Hwf).
  - intros (pa & <- & H)%lookup_fmap_Some. by apply (wf_pending t Hwf).
Qed.

(** What one round finds. *)
Definition found (ident : string) (now : Z) (m : gmap string Authorization) : list string :=
  take getAuthorizationIDsMax (map az_ID (filter (fun a => revocable ident now a = true) (rows m))).

Lemma elem_of_rows m a : a ∈ rows m <-> exists k, m !! k = Some a.
Proof.
  unfold rows. rewrite list_elem_of_fmap. split.
  - intros ([k b] & -> & H%elem_of_map_to_list). eauto.
  - intros [k H]. exists (k, a). split; [done|by apply elem_of_map_to_list].
Qed.

Lemma rows_NoDup m : own_keys m -> NoDup (rows m).
Proof.
  intros Hk. unfold rows. apply (NoDup_fmap_2_strong snd).
  - intros [k a] [k' a'] H%elem_of_map_to_list H'%elem_of_map_to_list E. simpl in E. subst a'.
    by rewrite (Hk k a), (Hk k' a).
  - apply NoDup_map_to_list.
Qed.

Lemma getIDs_nofault tbl ident now w : w_faults w = [] ->
  getAuthorizationIDsByDomain tbl ident now w = (Ok (found ident now (auths tbl (db w))), w).
Proof.
  intros Hf. unfold getAuthorizationIDsByDomain. rewrite query_nofault by done.
  unfold found, rows. destruct tbl; simpl; [done|]. do 5 f_equal.
  rewrite map_to_list_fmap, <- list_fmap_compose. done.
Qed.

Lemma length_filter_fmap {A B} (f : A -> B) (p : B -> bool) (l : list A) :
  length (filter (fun x => p x = true) (f <$> l)) = length (filter (fun x => p (f x) = true) l).
Proof.
  induction l as [|x l IH]; [done|]. rewrite fmap_cons.
  destruct (p (f x)) eqn:E.
  - rewrite (filter_cons_True _ x), (filter_cons_True _ (f x)) by done. simpl. by rewrite IH.
  - rewrite (filter_cons_False _ x), (filter_cons_False _ (f x)) by congruence. done.
Qed.

Lemma revoke_nofault tbl ids w : w_faults w = [] ->
  exists t', revokeAuthorizations tbl ids w =
      (Ok (Z.of_nat (length (filter (fun a => in_ids ids a = true) (rows (auths tbl (db w)))))), set_db w t') /\
    auths tbl t' = revoke_final ids <$> auths tbl (db w) /\
    (forall tbl', tbl' <> tbl -> auths tbl' t' = auths tbl' (db w)).
Proof.
  intros Hf. unfold revokeAuthorizations. rewrite call_nofault by done. destruct tbl; simpl.
  - eexists. split; [reflexivity|]. split; [done|]. by intros [].
  - exists (set_authzs (db w) (revoke_pending ids <$> pendingAuthorizations (db w)) (authz (db w))).
    split; [|split; [|by intros []]].
    + unfold rows. rewrite map_to_list_fmap, <- list_fmap_compose.
      rewrite (list_fmap_ext _ (pa_Authorization ∘ snd)) by done.
      rewrite (list_fmap_compose snd pa_Authorization), (length_filter_fmap pa_Authorization (in_ids ids)).
      reflexivity.
    + simpl. rewrite <- !map_fmap_compose. apply map_fmap_ext. done.
Qed.

Lemma filter_length_lt {A} (p q : A -> bool) (l : list A) x :
  (forall y, q y = true -> p y = true) -> x ∈ l -> p x = true -> q x = false ->
  (length (filter (fun y => q y = true) l) < length (filter (fun y => p y = true) l))%nat.
Proof.
  intros Hqp. assert (forall l, length (filter (fun y => q y = true) l) <= length (filter (fun y => p y = true) l))%nat as Hle.
  { clear l x. intros l. induction l as [|y l IH]; [done|]. destruct (q y) eqn:Eq.
    - rewrite !filter_cons_True by auto. simpl. lia.
    - rewrite (filter_cons_False (fun y => q y = true)) by congruence. rewrite filter_cons.
      destruct (decide _); simpl; lia. }
  intros Hx Hp Hq. induction Hx as [|x y l _ IH].
  - rewrite (filter_cons_False (fun y => q y = true)) by congruence.
    rewrite filter_cons_True by done. simpl. specialize (Hle l). lia.
  - specialize (IH Hp Hq). destruct (q y) eqn:Eq.
    + rewrite !filter_cons_True by auto. simpl. lia.
    + rewrite (filter_cons_False (fun y => q y = true)) by congruence. rewrite filter_cons.
      destruct (decide _); simpl; lia.
Qed.

Section rounds.
Context (ident : string) (now : Z).

(** The specification: exactly the revocable rows become revoked. *)
Definition revoke_all (a : Authorization) : Authorization :=
  if revocable ident now a then with_status a StatusRevoked else a.

Lemma revoked_not_revocable a : revocable ident now (with_status a StatusRevoked) = false.
Proof.
  unfold revocable. simpl. rewrite (proj2 (ceq_true StatusRevoked StatusRevoked) eq_refl).
  simpl. by rewrite andb_false_r.
Qed.

Lemma found_spec m id : id ∈ found ident now m -> exists b, b ∈ rows m /\ revocable ident now b = true /\ az_ID b = id.
Proof.
  intros H. apply (subseteq_take getAuthorizationIDsMax) in H. apply list_elem_of_fmap in H as (b & -> & Hb).
  apply list_elem_of_filter in Hb as [? ?]. eauto.
Qed.

(** Only revocable rows are hit: IDs are unique keys. *)
Lemma in_found_revocable m k a : own_keys m -> m !! k = Some a ->
  in_ids (found ident now m) a = true -> revocable ident now a = true.
Proof.
  intros Hk Ha H. unfold in_ids in H. apply existsb_exists in H as (id & Hid & Hc).
  apply list_elem_of_In, found_spec in Hid as (b & Hb & Hr & <-). apply elem_of_rows in Hb as [k' Hb].
  apply ceq_true in Hc. assert (k = k') as -> by (rewrite (Hk _ _ Ha), (Hk _ _ Hb); done). congruence.
Qed.

Lemma revoke_all_round m : own_keys m ->
  revoke_all <$> (revoke_final (found ident now m) <$> m) = revoke_all <$> m.
Proof.
  intros Hk. rewrite <- map_fmap_compose. apply map_fmap_ext. intros k a Ha. unfold compose, revoke_final.
  destruct (in_ids (found ident now m) a) eqn:E; [|done].
  pose proof (in_found_revocable m k a Hk Ha E) as Hr. unfold revoke_all. by rewrite revoked_not_revocable, Hr.
Qed.

Lemma own_keys_round ids m : own_keys m -> own_keys (revoke_final ids <$> m).
Proof.
  intros Hk k a (b & <- & Hb)%lookup_fmap_Some. unfold revoke_final. destruct (in_ids ids b); by apply Hk in Hb.
Qed.

(** Everything found is hit. *)
Lemma found_all_hit m : own_keys m ->
  (length (found ident now m) <= length (filter (fun a => in_ids (found ident now m) a = true) (rows m)))%nat.
Proof.
  intros Hk. set (F := take getAuthorizationIDsMax (filter (fun a => revocable ident now a = true) (rows m))).
  assert (found ident now m = map az_ID F) as HF by (unfold found, F; by rewrite fmap_take).
  rewrite HF at 1. rewrite length_map. apply submseteq_length, NoDup_submseteq.
  - unfold F. eapply sublist_NoDup; [apply rows_NoDup; exact Hk|].
    etransitivity; [apply sublist_take|apply sublist_filter].
  - intros a Ha. apply list_elem_of_filter. split.
    + unfold in_ids. apply existsb_exists. exists (az_ID a). rewrite HF. split; [|by apply ceq_true].
      apply list_elem_of_In, list_elem_of_fmap. eauto.
    + unfold F in Ha. apply subseteq_take, list_elem_of_filter in Ha. by destruct Ha.
Qed.

Definition todo (m : gmap string Authorization) : nat :=
  length (filter (fun a => revocable ident now a = true) (rows m)).

Lemma todo_round m : own_keys m -> found ident now m <> [] ->
  (todo (revoke_final (found ident now m) <$> m) < todo m)%nat.
Proof.
  intros Hk Hne. unfold todo, rows. rewrite map_to_list_fmap, <- list_fmap_compose.
  rewrite (list_fmap_ext _ (revoke_final (found ident now m) ∘ snd)) by done.
  rewrite (list_fmap_compose snd), (length_filter_fmap (revoke_final (found ident now m)) (revocable ident now)).
  destruct (found ident now m) as [|id ids] eqn:E; [done|].
  destruct (found_spec m id) as (b & Hb & Hr & Hid); [rewrite E; set_solver|].
  eapply (filter_length_lt _ _ _ b); [|exact Hb|done|].
  - intros y. unfold revoke_final. destruct (in_ids _ y); [by rewrite revoked_not_revocable|done].
  - unfold revoke_final, in_ids. simpl. rewrite Hid, (proj2 (ceq_true id id) eq_refl). simpl.
    apply revoked_not_revocable.
Qed.

Lemma nothing_found m : found ident now m = [] -> revoke_all <$> m = m.
Proof.
  intros H. rewrite <- (map_fmap_id m) at 2. apply map_fmap_ext. intros k a Ha. unfold revoke_all.
  destruct (revocable ident now a) eqn:E; [|done]. exfalso. unfold found in H.
  destruct (filter _ _) as [|b l] eqn:EF; [|done].
  assert (a ∈ filter (fun a => revocable ident now a = true) (rows m)) as Hin
    by (apply list_elem_of_filter; split; [done|apply elem_of_rows; eauto]).
  rewrite EF in Hin. by apply not_elem_of_nil in Hin.
Qed.

Lemma revoke_loop_nofault tbl fuel : forall count w,
  w_faults w = [] -> own_keys (auths tbl (db w)) -> (todo (auths tbl (db w)) < fuel)%nat ->
  exists n t', revoke_loop fuel tbl ident now count w = (Ok (Some n), set_db w t') /\
    auths tbl t' = revoke_all <$> auths tbl (db w) /\
    (forall tbl', tbl' <> tbl -> auths tbl' t' = auths tbl' (db w)).
Proof.
  induction fuel as [|fuel IH]; intros count w Hf Hk Hlt; [lia|]. cbn [revoke_loop].
  set (m := auths tbl (db w)) in *. unfold mbindM at 1. rewrite getIDs_nofault by done. fold m.
  destruct (Z.eqb_spec (Z.of_nat (length (found ident now m))) 0) as [E|E].
  - exists count, (db w). rewrite set_db_same. split_and!; [done| |done].
    symmetry. apply nothing_found. apply length_zero_iff_nil. fold m. lia.
  - destruct (revoke_nofault tbl (found ident now m) w Hf) as (t1 & HR & H1 & Ho1). fold m in HR, H1.
    unfold mbindM at 1. rewrite HR. pose proof (found_all_hit m Hk).
    destruct (Z.ltb_spec (Z.of_nat (length (filter (fun a => in_ids (found ident now m) a = true) (rows m))))
      (Z.of_nat (length (found ident now m)))); [lia|].
    set (hits := Z.of_nat (length (filter (fun a => in_ids (found ident now m) a = true) (rows m)))).
    destruct (IH (count + hits) (set_db w t1)) as (n & t' & HL & H2 & Ho2); [done| | |].
    + simpl. rewrite H1. by apply own_keys_round.
    + simpl. rewrite H1. assert (found ident now m <> []) as Hne by (intros Hn; rewrite Hn in E; done).
      pose proof (todo_round m Hk Hne). lia.
    + exists n, t'. split; [exact HL|]. simpl in H2, Ho2. split.
      * rewrite H2, H1. by apply revoke_all_round.
      * intros tbl' Hne. rewrite Ho2, Ho1 by done. done.
Qed.

End rounds.

(** [RevokeAuthorizationsByDomain] ends, in at most one round more than there are
    authorizations, and without faults it revokes exactly the authorizations, pending
    and final, for that identifier that have not expired and are neither invalid
    nor already revoked; every other row is left as it was. *)
Theorem RevokeAuthorizationsByDomain_complete ident fuel w :
  wf (db w) -> w_faults w = [] ->
  (size (authz (db w)) < fuel)%nat -> (size (pendingAuthorizations (db w)) < fuel)%nat ->
  exists n0 n1 w', RevokeAuthorizationsByDomain fuel ident w = (Ok (Some (n0, n1)), w') /\
    forall tbl, auths tbl (db w') =
      revoke_all (marshal_identifier ident) (w_now w) <$> auths tbl (db w).
Proof.
  intros Hwf Hf Hs1 Hs2. unfold RevokeAuthorizationsByDomain. rewrite bind_Now.
  set (j := marshal_identifier ident). set (now := w_now w). set (w0 := pop_tick w).
  assert (forall m, todo j now m <= size m)%nat as Htodo.
  { intros m. unfold todo. etransitivity; [apply length_filter|]. unfold rows. by rewrite length_fmap, length_map_to_list. }
  destruct (revoke_loop_nofault j now Final fuel 0 w0) as (n0 & t0 & E0 & H0 & Ho0); [done|by apply wf_own_keys| |].
  { specialize (Htodo (authz (db w))). simpl. lia. }
  assert (auths Pending t0 = auths Pending (db w)) as HP by (apply Ho0; done).
  destruct (revoke_loop_nofault j now Pending fuel 0 (set_db w0 t0)) as (n1 & t1 & E1 & H1 & Ho1); [done| | |].
  { simpl db. rewrite HP. by apply wf_own_keys. }
  { simpl db. rewrite HP. specialize (Htodo (auths Pending (db w))). simpl in *. rewrite map_size_fmap in Htodo. lia. }
  exists n0, n1. eexists. split.
  - unfold mbindM at 1. rewrite E0. unfold mbindM at 1. rewrite E1. reflexivity.
  - intros []; simpl db in *; [rewrite Ho1, H0 by done; done|]. by rewrite H1, HP.
Qed.

End authz.

End SaAuthz.
