(* ===== verification/SaCertificates.v ===== *)
(** * Rows of stored certificates

    What a row of the table [certificates] says about its certificate is what the
    certificate says, in every history of the storage authority. *)

From S2P Require Import Prelude GoStd Errors Features Core Csr Database Storage SaFrame SaInvariants SaTransactions.

Module SaCertificates.
Import Storage SaInvariants SaTransactions.

Section certificates.
Context {GL : GoLib} {Cr : Crypto} {Q : SQL} {J : StorageJSON} {X : X509}.

(** Operations that leave certificates alone. *)
Definition same_certs (t t' : Tables) : Prop :=
  certificates t' = certificates t /\ certificateStatus t' = certificateStatus t.
#[export] Instance same_certs_preorder : PreOrder same_certs.
Proof. split; [by split|]. intros t1 t2 t3 [] []. split; congruence. Qed.

#[export] Instance same_certs_rel : TableRel (fun _ => True) True False same_certs.
Proof.
  split; intros; try done; try apply _.
  - unfold insert_registration. by statement.
  - unfold update_registration. by statement.
  - unfold DeactivateRegistration. by statement.
  - unfold insert_pending. by statement.
  - unfold update_pending. by statement.
  - unfold delete_pending. by statement.
  - unfold insert_authz. by statement.
  - unfold insert_challenge. by statement.
  - unfold update_challenge. by statement.
  - unfold revokeAuthorizations. frame; by statement.
  - unfold DeactivateAuthorization, existingPending. frame; by statement.
  - unfold addFQDNSet. by statement.
  - unfold addIssuedNames. by statement.
  - unfold AddSCTReceipt. frame. by statement.
Qed.

(** The operations that do not. *)
Lemma certificate_ops op : allows (fun _ => True) True False op \/ (exists serial reason, op = OpMarkCertificateRevoked serial reason) \/
  exists der regID ocsp, op = OpAddCertificate der regID ocsp.
Proof. destruct op; simpl; eauto 10. Qed.

(** A row that matches its certificate. *)
Definition faithful (c : Certificate) : Prop :=
  exists x, ParseCertificate (cert_DER c) = Ok x /\ cert_Serial c = SerialToString (x5_SerialNumber x) /\
    cert_Digest c = Fingerprint256 (cert_DER c) /\ cert_Expires c = x5_NotAfter x.
Definition all_faithful (t : Tables) : Prop := forall k c, certificates t !! k = Some c -> faithful c.

Definition same_certificates (t t' : Tables) : Prop := certificates t' = certificates t.
#[local] Instance same_certificates_preorder : PreOrder same_certificates.
Proof. split; [by intros t|]. intros t1 t2 t3. unfold same_certificates. congruence. Qed.

Lemma mark_certificates serial reason : preserves (outside same_certificates) (MarkCertificateRevoked serial reason).
Proof.
  unfold MarkCertificateRevoked, GetCertificate, GetCertificateStatus, SelectCertificate, SelectCertificateStatus, update_status.
  frame. by statement.
Qed.

Lemma exec_faithful fs op w r w' : tx w = None -> all_faithful (db w) -> exec fs op w = (r, w') ->
  tx w' = None /\ all_faithful (db w').
Proof.
  intros Htx Hw H. destruct (certificate_ops op) as [Ha|[(serial & reason & ->)|(der & regID & ocsp & ->)]].
  - destruct (frame_exec _ _ _ same_certs fs op Ha _ _ _ H Htx) as [Htx' [E _]]. split; [done|]. intros k c. rewrite E. apply Hw.
  - unfold exec, ignore, mbindM, try in H. destruct (MarkCertificateRevoked serial reason w) as [x w1] eqn:E. injection H as _ <-.
    destruct (mark_certificates _ _ _ _ _ E Htx) as [Htx' E']. split; [done|]. intros k c. rewrite E'. apply Hw.
  - unfold exec, ignore, mbindM, try in H. destruct (AddCertificate der regID ocsp w) as [x w1] eqn:E. injection H as _ <-.
    apply AddCertificate_outcome in E as [Htx' E]; [|done]. split; [done|].
    assert (db w1 = db w \/ added der regID ocsp (db w) (db w1)) as [->|(y & issued & upd & HP & _ & _ & _ & _ & ->)]; [|done|].
    { destruct x; [right; by destruct E|done]. }
    intros k c. simpl. destruct (decide (coll (SerialToString (x5_SerialNumber y)) = k)) as [<-|Hne].
    + rewrite lookup_insert_eq. intros [= <-]. by exists y.
    + rewrite lookup_insert_ne by done. apply Hw.
Qed.

Lemma run_faithful ops : forall w r w', tx w = None -> all_faithful (db w) -> run ops w = (r, w') -> all_faithful (db w').
Proof.
  induction ops as [|[fs op] ops IH]; intros w r w' Htx Hw H; [by injection H as <- <-|].
  unfold run in H. simpl in H. unfold mbindM in H. destruct (exec fs op w) as [[[]|e] w1] eqn:E;
    apply exec_faithful in E as [Htx' Hw']; try done; [by eapply IH|by injection H as <- <-].
Qed.

End certificates.
End SaCertificates.
