(* ===== verification/SaOpen.v ===== *)
(** * Open authorizations in the storage authority

    A challenge is valid in the database only if its authorization has been finalized,
    and a finalized authorization is never finalized again.  So an authorization read
    from storage is undecided, or will not be decided any more, whatever faults strike. *)

From S2P Require Import Prelude GoStd Errors Features Core Csr Database Storage SaFrame SaInvariants SaTransactions.

Import Storage SaInvariants SaTransactions.

Module SaOpen.

Section open.
Context {GL : GoLib} {Cr : Crypto} {Q : SQL} {J : StorageJSON} {X : X509}.

Definition has_final (t : Tables) (id : string) : Prop := is_Some (authz t !! coll id).

Record open_wf (t : Tables) : Prop := {
  open_challenges : Forall (fun c => cm_Status c = StatusValid -> has_final t (cm_AuthorizationID c)) (challenges t);
  open_pending : forall k pa, pendingAuthorizations t !! k = Some pa ->
    Forall (fun combo => combo <> []) (az_Combinations (pa_Authorization pa)) \/ is_Some (authz t !! k)
}.

Lemma open_wf_empty : open_wf emptyTables.
Proof. split; [constructor|]. intros k pa. simpl. by rewrite lookup_empty. Qed.

(** What every operation does: finalized authorizations stay so, and under [C] the
    invariant is kept. *)
Definition settles (C : Tables -> Prop) (t t' : Tables) : Prop :=
  dom (authz t) ⊆ dom (authz t') /\ (open_wf t -> C t -> open_wf t').

Lemma has_final_mono t t' id : dom (authz t) ⊆ dom (authz t') -> has_final t id -> has_final t' id.
Proof. unfold has_final. rewrite <- !elem_of_dom. set_solver. Qed.

(** An authorization that may be written: undecided, or finalized already. *)
Definition writable (a : Authorization) (t : Tables) : Prop := undecided a \/ has_final t (az_ID a).

Notation keeps_open := (settles (fun _ => True)).

#[global] Instance keeps_open_preorder : PreOrder keeps_open.
Proof.
  split; [by intros t; split|]. intros t1 t2 t3 [D1 H1] [D2 H2]. split; [set_solver|auto].
Qed.
#[global] Instance writes_preorder a : PreOrder (settles (writable a)).
Proof.
  split; [by intros t; split|]. intros t1 t2 t3 [D1 H1] [D2 H2]. split; [set_solver|].
  intros Ho Hw. apply H2; [by apply H1|]. destruct Hw; [by left|right]. by eapply has_final_mono.
Qed.

Lemma settles_weaken C t t' : keeps_open t t' -> settles C t t'.
Proof. intros [D H]. split; [done|]. intros. by apply H. Qed.

Lemma inside_weaken {A} a (m : DB A) : preserves (inside keeps_open) m -> preserves (inside (settles (writable a))) m.
Proof. intros H w r w' E. destruct (H w r w' E) as [? ?]. split; [done|]. by apply settles_weaken. Qed.

(** Authorizations and challenges as before. *)
Lemma keeps_open_same t t' : authz t' = authz t -> challenges t' = challenges t ->
  pendingAuthorizations t' ⊆ pendingAuthorizations t -> keeps_open t t'.
Proof.
  intros EA EC EP. split; [by rewrite EA|]. intros [Hc Hp] _. split.
  - rewrite EC. unfold has_final. by rewrite EA.
  - intros k pa Hk. rewrite EA. apply Hp. by eapply lookup_weaken.
Qed.

Lemma keeps_open_authz t p z :
  dom (authz t) ⊆ dom z -> (forall k pa, p !! k = Some pa -> exists pa0, pendingAuthorizations t !! k = Some pa0 /\
    az_Combinations (pa_Authorization pa) = az_Combinations (pa_Authorization pa0)) ->
  keeps_open t (set_authzs t p z).
Proof.
  intros HD HP. split; [done|]. intros [Hc Hp] _. split; simpl.
  - eapply Forall_impl; [exact Hc|]. intros c Hs Hv. eapply has_final_mono; [|by apply Hs]. done.
  - intros k pa (pa0 & H0 & ->)%HP. destruct (Hp _ _ H0) as [|Hs]; [by left|right].
    rewrite <- elem_of_dom in *. set_solver.
Qed.

#[local] Ltac unchanged := by apply keeps_open_same.

#[global] Instance keeps_open_rel : TableRel (fun _ => True) False True keeps_open.
Proof.
  split; intros; try done; try apply _.
  - unfold insert_registration. statement. unchanged.
  - unfold update_registration. statement; unchanged.
  - unfold DeactivateRegistration. statement; unchanged.
  - unfold delete_pending. statement; try reflexivity. apply keeps_open_same; [done|done|]. simpl. apply delete_subseteq.
  - unfold insert_authz. statement. apply keeps_open_authz; [rewrite dom_insert; set_solver|eauto].
  - unfold revokeAuthorizations. statement; apply keeps_open_authz; try done; [by rewrite dom_fmap|eauto|].
    intros k pa. rewrite lookup_fmap. intros (b & Hb & ->)%fmap_Some. exists b. split; [done|].
    unfold revoke_pending, revoke_final. simpl. by destruct (in_ids _ _).
  - unfold DeactivateAuthorization, existingPending. frame; statement; try reflexivity; apply keeps_open_authz; try done.
    + intros k pa' [[<- <-]|[_ Hk]]%lookup_insert_Some; eauto.
    + rewrite dom_insert. set_solver.
    + eauto.
  - unfold update_status. statement; unchanged.
  - unfold insert_certificate. statement. unchanged.
  - unfold insert_certificate_status. statement. unchanged.
  - unfold addFQDNSet. statement. unchanged.
  - unfold addIssuedNames. statement. unchanged.
  - unfold AddSCTReceipt. frame. statement. unchanged.
Qed.

(** ** Writing an authorization *)

Lemma writes_update_pending a v : preserves (inside (settles (writable a))) (update_pending {| pa_Authorization := a; pa_LockCol := v |}).
Proof.
  unfold update_pending. cbn [pa_Authorization pa_LockCol]. statement; try reflexivity. split; [done|].
  intros [Hc Hp] Hw. split; [done|]. simpl. intros k pa [[<- <-]|[_ Hk]]%lookup_insert_Some; [|by apply Hp].
  destruct Hw as [[_ Hu]|Hd]; [by left|by right].
Qed.

Lemma writes_update_challenge a c : coll (cm_AuthorizationID c) = coll (az_ID a) ->
  (undecided a -> cm_Status c <> StatusValid) -> preserves (inside (settles (writable a))) (update_challenge c).
Proof.
  intros Hid Hst. unfold update_challenge. statement; (split; [done|]); intros [Hc Hp] Hw; (split; [|done]); simpl.
  all: apply Forall_map; eapply Forall_impl; [exact Hc|]; intros x Hx; cbn beta; case_match; [|exact Hx]; simpl; intros Hv.
  all: destruct Hw as [Hu|Hd]; [by destruct (Hst Hu)|]; unfold has_final in *; by rewrite Hid.
Qed.

Lemma writes_update_each a challs chs : Forall (fun c => coll (cm_AuthorizationID c) = coll (az_ID a)) challs ->
  chs ⊆ az_Challenges a -> preserves (inside (settles (writable a))) (update_each challs chs).
Proof.
  intros HF. revert chs. induction HF as [|c challs Hc _ IH]; intros [|ch chs] Hs; simpl; try (apply preserves_ret; apply _).
  apply preserves_lift_bind; [apply _|]. intros cm Hcm. apply preserves_bind; [apply _| |intros; apply IH; set_solver].
  apply writes_update_challenge; simpl.
  - unfold challengeToModel, rbind in Hcm. repeat case_in Hcm; by simplify_eq.
  - intros [Hu _]. rewrite Forall_forall in Hu. specialize (Hu ch ltac:(set_solver)).
    unfold challengeToModel, rbind in Hcm. repeat case_in Hcm; by simplify_eq.
Qed.

Lemma writes_updateChallenges a : preserves (inside (settles (writable a))) (updateChallenges (az_ID a) (az_Challenges a)).
Proof.
  intros w r w'. unfold updateChallenges, getChallenges, mbindM. destruct (query _ w) as [[challs|e] w1] eqn:E.
  - pose proof (preserves_query (settles (writable a)) _ _ _ _ E) as HP. apply query_Ok in E as ([= <-] & _ & _).
    destruct (negb _); [intros [= <- <-]; exact HP|]. intros H. etransitivity; [exact HP|].
    eapply writes_update_each; [|reflexivity|exact H]. apply Forall_map, Forall_forall. intros c [Hc _]%list_elem_of_filter.
    simpl. by apply ceq_true.
  - intros [= <- <-]. by eapply (preserves_query (settles (writable a))).
Qed.

(** ** The operations *)

Lemma update_pending_authorization a : preserves (outside (settles (writable a))) (UpdatePendingAuthorization a).
Proof.
  unfold UpdatePendingAuthorization, existingFinal, existingPending, selectPendingAuthz. frame.
  - apply writes_update_pending.
  - apply writes_updateChallenges.
Qed.

Lemma insert_authz_settles a w w' : insert_authz a w = (Ok tt, w') -> has_final (db w') (az_ID a).
Proof.
  intros H. apply call_Ok in H as [H _]. repeat case_in H; simplify_eq. rewrite <- H. unfold has_final. simpl.
  rewrite lookup_insert_eq. eauto.
Qed.

(** What [FinalizeAuthorization] writes. *)
Lemma keeps_finalizing a pa : preserves (inside keeps_open)
  (do! insert_authz a in do! delete_pending pa in updateChallenges (az_ID a) (az_Challenges a)).
Proof.
  intros w r w'. unfold mbindM at 1. destruct (insert_authz a w) as [[[]|e] w1] eqn:E1;
    pose proof (tr_insert_authz (P := keeps_open) a I _ _ _ E1) as [T1 H1]; [|by intros [= <- <-]].
  apply insert_authz_settles in E1. intros H.
  assert (preserves (inside (settles (writable a)))
    (do! delete_pending pa in updateChallenges (az_ID a) (az_Challenges a))) as HW.
  { apply preserves_bind; [apply _|apply inside_weaken, tr_delete_pending|intros; apply writes_updateChallenges]. }
  destruct (HW _ _ _ H) as [T2 [D2 H2]]. destruct H1 as [D1 H1]. split; [congruence|]. split; [set_solver|].
  intros Ho _. apply H2; [by apply H1|by right].
Qed.

Lemma finalize_authorization a : preserves (outside keeps_open) (FinalizeAuthorization a).
Proof.
  unfold FinalizeAuthorization, existingPending, selectPendingAuthz.
  repeat (cbv zeta; first [apply keeps_finalizing | frame_step ltac:(idtac; fail)]).
Qed.

(** A second time, it changes nothing. *)
Definition once (a : Authorization) (t t' : Tables) : Prop := has_final t (az_ID a) -> t' = t.
#[global] Instance once_preorder a : PreOrder (once a).
Proof.
  split; [by intros t|]. intros t1 t2 t3 H1 H2 Hs. rewrite <- (H1 Hs). apply H2. by rewrite (H1 Hs).
Qed.

Lemma finalizing_once a pa : preserves (inside (once a))
  (do! insert_authz a in do! delete_pending pa in updateChallenges (az_ID a) (az_Challenges a)).
Proof.
  intros w r w' H. split; [by apply keeps_finalizing in H as [? _]|]. intros [z Hz]. unfold mbindM at 1 in H.
  destruct (insert_authz a w) as [[[]|e] w1] eqn:E1.
  - apply call_Ok in E1 as [E1 _]. by rewrite Hz in E1.
  - injection H as <- <-. unfold insert_authz, call in E1. rewrite Hz in E1. by destruct (next_fault w); injection E1 as _ <-.
Qed.

Lemma finalize_once a : preserves (outside (once a)) (FinalizeAuthorization a).
Proof.
  unfold FinalizeAuthorization, existingPending, selectPendingAuthz.
  repeat (cbv zeta; first [apply finalizing_once | frame_step ltac:(idtac; fail)]).
Qed.

(** A new authorization is undecided. *)
Lemma insert_pending_open a : Forall (fun combo => combo <> []) (az_Combinations a) ->
  preserves (inside keeps_open) (insert_pending a).
Proof.
  intros Hc. unfold insert_pending. statement. split; [done|]. intros [H1 H2] _. split; [done|]. simpl.
  intros k pa [[<- <-]|[_ Hk]]%lookup_insert_Some; [by left|by apply H2].
Qed.

Lemma insert_challenges_open chs id : Forall (fun c => ch_Status c <> StatusValid) chs ->
  preserves (inside keeps_open) (insert_challenges chs id).
Proof.
  induction 1 as [|c chs Hc _ IH]; simpl; [apply preserves_ret; apply _|].
  apply preserves_lift_bind; [apply _|]. intros cm Hcm. apply preserves_bind; [apply _| |intros; frame].
  unfold insert_challenge. statement. split; [done|]. intros [H1 H2] _. split; [|done]. simpl.
  apply Forall_app. split; [done|]. apply Forall_singleton. simpl.
  unfold challengeToModel, rbind in Hcm. repeat case_in Hcm; by simplify_eq.
Qed.

Lemma new_pending_authorization fuel a : undecided a -> preserves (outside keeps_open) (NewPendingAuthorization fuel a).
Proof.
  intros [Hch Hco]. unfold NewPendingAuthorization. apply preserves_in_tx; [apply _|].
  apply preserves_bind; [apply _|eapply frame_fresh_id; apply _|]. intros [id|]; [|apply preserves_ret; apply _].
  apply preserves_bind; [apply _|by apply insert_pending_open|]. intros [].
  apply preserves_bind; [apply _|by apply insert_challenges_open|]. intros; apply preserves_ret; apply _.
Qed.

(** What is read is undecided, or has been finalized. *)
Lemma models_to_challenges_status cms : forall chs, models_to_challenges cms = Ok chs -> map ch_Status chs = map cm_Status cms.
Proof.
  induction cms as [|cm cms IH]; intros chs; simpl; [by intros [= <-]|]. unfold rbind.
  destruct (modelToChallenge cm) as [c|] eqn:E; [|done]. destruct (models_to_challenges cms) as [cs|]; [|done].
  intros [= <-]. simpl. rewrite (IH cs) by done. f_equal. unfold modelToChallenge, rbind in E. repeat case_in E; by simplify_eq.
Qed.

Lemma read_challenges t a chs : open_wf t ->
  models_to_challenges (map no_version (filter (fun c => ceq (cm_AuthorizationID c) (az_ID a) = true) (challenges t))) = Ok chs ->
  Forall (fun c => ch_Status c <> StatusValid) chs \/ has_final t (az_ID a).
Proof.
  intros Ho H%models_to_challenges_status. destruct (decide (is_Some (authz t !! coll (az_ID a)))); [by right|left].
  enough (Forall (fun st => st <> StatusValid) (map ch_Status chs)) as HF; [exact (proj1 (Forall_map ch_Status _ chs) HF)|].
  rewrite H, map_map. apply Forall_map.
  apply Forall_forall. intros c [Hc Hin]%list_elem_of_filter Hv. simpl in Hv. apply ceq_true in Hc.
  destruct Ho as [Ho _]. rewrite Forall_forall in Ho. specialize (Ho c Hin Hv). unfold has_final in Ho. by rewrite Hc in Ho.
Qed.

Lemma selected_pending id w pa w' : wf (db w) -> open_wf (db w) -> selectPendingAuthz id w = (Ok pa, w') ->
  db w' = db w /\ (Forall (fun combo => combo <> []) (az_Combinations (pa_Authorization pa)) \/
                   has_final (db w) (az_ID (pa_Authorization pa))).
Proof.
  intros Hwf Ho (H & HD & _)%query_Ok. destruct (pendingAuthorizations (db w) !! coll id) as [pa0|] eqn:E; [|done].
  apply Ok_inj in H as ->. split; [done|]. destruct (wf_pending _ Hwf _ _ E) as (Hk & _). unfold has_final. rewrite <- Hk.
  by apply (open_pending _ Ho).
Qed.

Lemma selected_final id w a w' : wf (db w) -> selectAuthz id w = (Ok a, w') -> db w' = db w /\ has_final (db w) (az_ID a).
Proof.
  intros Hwf (H & HD & _)%query_Ok. destruct (authz (db w) !! coll id) as [a0|] eqn:E; [|done]. apply Ok_inj in H as ->.
  split; [done|]. destruct (wf_authz _ Hwf _ _ E) as (Hk & _). unfold has_final. rewrite <- Hk. eauto.
Qed.

Lemma GetAuthorization_open id w a w' : tx w = None ->
  wf (db w) -> open_wf (db w) -> GetAuthorization id w = (Ok a, w') -> undecided a \/ has_final (db w) (az_ID a).
Proof.
  intros Htx Hwf Ho H. unfold GetAuthorization in H.
  apply (in_tx_atomic _ (fun a t _ => wf t -> open_wf t -> undecided a \/ has_final t (az_ID a))) in H as [_ H]; [by apply H| | |done].
  2:{ unfold selectPendingAuthz, selectAuthz, getChallenges. frame. }
  clear -Q. intros w a w' H Hwf Ho. apply mbindM_Ok in H as (pa & w1 & H1 & H). unfold try in H1.
  destruct (selectPendingAuthz id w) as [x w2] eqn:E. injection H1 as <- <-.
  apply mbindM_Ok in H as (b & w3 & H3 & H).
  assert (db w3 = db w /\ (Forall (fun combo => combo <> []) (az_Combinations b) \/ has_final (db w) (az_ID b))) as [E3 Hb].
  { destruct x as [pa|[]]; try done.
    - injection H3 as <- <-. by eapply selected_pending.
    - assert (db w2 = db w) as E2 by (unfold selectPendingAuthz, query, call in E; repeat case_match; by simplify_eq).
      apply mbindM_Ok in H3 as (fa & w4 & H4 & H3). unfold try in H4. destruct (selectAuthz id w2) as [y w5] eqn:E5.
      injection H4 as <- <-. destruct y as [fa|[]]; try done. injection H3 as <- <-.
      apply selected_final in E5; [|by rewrite E2]. rewrite E2 in E5. naive_solver. }
  apply mbindM_Ok in H as (rows & w6 & (H6 & _ & _)%query_Ok & H). apply mbindM_Ok in H as (chs & w7 & H7 & [= <- _]).
  unfold lift in H7. apply pair_equal_spec in H7 as [H7 _]. apply Ok_inj in H6 as <-. rewrite E3 in H7.
  apply read_challenges in H7; [|done]. simpl. unfold undecided. simpl. tauto.
Qed.

End open.

End SaOpen.
