(* ===== verification/ValidationAuthority.v ===== *)
(** * va/: the validation authority

    va/va.go and va/gsb.go: the four challenge validations, the CAA check with its
    fallback to the distributed resolver, [PerformValidation], and the safe browsing
    check.  The resolver is an interface that bdns/ implements; the web servers and TLS
    servers the VA connects to are a parameter ([Internet]).  The CAA check and the
    challenge validation run in parallel but share no state, so the model runs one
    after the other. *)

From S2P Require Import Prelude GoStd Net Errors Features Core Grpc GoodKey Csr Bdns.

(** ** Interfaces *)

(** [bdns.DNSResolver], as far as the VA uses it.  The number identifies the call
    within a validation. *)
Class DNSResolver := {
  res_LookupTXT : nat -> string -> result error (list string * list string);
  res_LookupHost : nat -> string -> result error (list string);
  res_LookupCAA : nat -> string -> result error (list CAA)
}.

(** Connection errors, by the dynamic types [parseHTTPConnError] looks at. *)
Inductive opCause := CauseDNS (timeout temporary : bool) | CauseTLSAlert | CauseOther.
Inductive connError :=
| UrlError (err : connError)
| RecordHeaderError (header : string)
| NetOpError (cause : opCause)
| ConnOther (text : string).

Record URL := { url_Scheme : string; url_Host : string; url_Text : string }.

(** What comes back from one request: an error, a redirect that net/http would follow,
    or a response with its status and body (or the error met while reading the body). *)
Inductive httpAnswer :=
| HttpFailed (err : connError)
| HttpRedirect (location : URL)
| HttpResponse (status : Z) (body : result string string).

(** The servers of the Internet, by the address and port connected to, and net/url. *)
Class Internet := {
  http_Do : nat -> URL -> string -> httpAnswer;
  tls_Dial : string -> string -> result connError (list X509Certificate);
  URL_String : string -> string -> string -> string;
  request_ok : string -> bool
}.

Module VA.

Definition maxRedirect : nat := 10.
Definition maxResponseSize : Z := 128.
Definition whitespaceCutset (c : ascii) : bool :=
  bool_decide (c ∈ ["010"; "013"; "009"; " "]%char).

Record CAASet := {
  Issue : list CAA;
  Issuewild : list CAA;
  Iodef : list CAA;
  Unknown : list CAA
}.

(** The immutable configuration; [caaDR] is the distributed resolver's lookup. *)
Record ValidationAuthorityImpl := {
  issuerDomain : string;
  httpPort : Z;
  httpsPort : Z;
  tlsPort : Z;
  caaDR : option (nat -> string -> result error (list CAA))
}.

(** ** Connection errors *)

Definition badTLSHeader : string := "HTTP/".

Definition parseHTTPConnError (detail : string) (err : connError) : Probs.ProblemDetails :=
  let err := match err with UrlError e => e | _ => err end in
  match err with
  | RecordHeaderError header =>
      if String.eqb header badTLSHeader
      then Probs.Malformed (detail ++s ": Server only speaks HTTP, not TLS")
      else Probs.ConnectionFailure detail
  | NetOpError (CauseDNS timeout temporary) =>
      if negb timeout && negb temporary then Probs.UnknownHost detail else Probs.ConnectionFailure detail
  | NetOpError CauseTLSAlert => Probs.TLSError detail
  | _ => Probs.ConnectionFailure detail
  end.

(** ** CAA *)

Definition criticalUnknown (caaSet : CAASet) : bool :=
  if (0 <? length (Unknown caaSet))%nat then
    existsb (fun caaRecord => negb (Z.land (caa_Flag caaRecord) (Z.lor 128 1) =? 0)) (Unknown caaSet)
  else false.

Definition newCAASet (CAAs : list CAA) : CAASet :=
  fold_left (fun filtered caaRecord =>
    let add (t : string) l := if String.eqb (caa_Tag caaRecord) t then l ++ [caaRecord] else l in
    let known := bool_decide (caa_Tag caaRecord ∈ ["issue"; "issuewild"; "iodef"]) in
    {| Issue := add "issue" (Issue filtered); Issuewild := add "issuewild" (Issuewild filtered);
       Iodef := add "iodef" (Iodef filtered);
       Unknown := if known then Unknown filtered else Unknown filtered ++ [caaRecord] |})
    CAAs {| Issue := []; Issuewild := []; Iodef := []; Unknown := [] |}.

(** The first error or non-empty answer decides. *)
Fixpoint parseResults (results : list (result error (list CAA))) : result error (option CAASet) :=
  match results with
  | [] => Ok None
  | Err err :: _ => Err err
  | Ok records :: results' =>
      if (0 <? length records)%nat then Ok (Some (newCAASet records)) else parseResults results'
  end.

(** One lookup for the name and one for each of its parents. *)
Definition parallelCAALookup (name : string) (lookuper : nat -> string -> result error (list CAA))
    : list (result error (list CAA)) :=
  let labels := split_on "." name in
  map (fun i => lookuper i (join "." (drop i labels))) (seq 0 (length labels)).

Definition extractIssuerDomain (caa : CAA) : string :=
  let ws c := Ascii.eqb c " " || Ascii.eqb c "009" in
  let v := Trim ws (caa_Value caa) in
  match Net.split_first ";" v with
  | None => v
  | Some (domain, _) => Trim ws domain
  end.

(** Whether records are present, and whether they allow issuance. *)
Definition validateCAASet (va : ValidationAuthorityImpl) (caaSet : option CAASet) : bool * bool :=
  match caaSet with
  | None => (false, true)
  | Some caaSet =>
      if criticalUnknown caaSet then (true, false)
      else if (length (Issue caaSet) =? 0)%nat then (true, true)
      else (true, existsb (fun caa => String.eqb (extractIssuerDomain caa) (issuerDomain va)) (Issue caaSet))
  end.

(** [core.DNSPrefix] and [core.TLSSNISuffix]. *)
Definition DNSPrefix : string := "_acme-challenge".
Definition TLSSNISuffix : string := "acme.invalid".

Section va.
Context {GL : GoLib} {Cr : Crypto} {R : DNSResolver} {I : Internet}.
Context (va : ValidationAuthorityImpl).

Definition getCAASet (hostname : string) : result error (option CAASet) :=
  let hostname := trim_right "." hostname in
  parseResults (parallelCAALookup hostname res_LookupCAA).

Definition checkCAARecords (identifier : AcmeIdentifier) : result error (bool * bool) :=
  let hostname := ToLower (idValue identifier) in
  let? caaSet := getCAASet hostname in
  Ok (validateCAASet va caaSet).

Definition checkCAAInternal (ident : AcmeIdentifier) : option Probs.ProblemDetails :=
  match checkCAARecords ident with
  | Err err => Some (Probs.ConnectionFailure (Error err))
  | Ok (present, valid) =>
      if negb valid then
        Some (Probs.ConnectionFailure ("CAA record for " ++s idValue ident ++s " prevents issuance"))
      else None
  end.

Definition checkGPDNS (lookup : nat -> string -> result error (list CAA)) (identifier : AcmeIdentifier)
    : option Probs.ProblemDetails :=
  match parseResults (parallelCAALookup (idValue identifier) lookup) with
  | Err err => Some (Probs.ConnectionFailure (Error err))
  | Ok set =>
      let '(present, valid) := validateCAASet va set in
      if negb valid then
        Some {| Probs.Type_ := Probs.ConnectionProblem;
                Probs.Detail := "CAA records prevents issuance for " ++s idValue identifier;
                Probs.HTTPStatus := 0 |}
      else None
  end.

Definition checkCAA (identifier : AcmeIdentifier) : option Probs.ProblemDetails :=
  let prob := checkCAAInternal identifier in
  match caaDR va, prob with
  | Some lookup, Some p =>
      if String.eqb (Probs.Type_ p) Probs.ConnectionProblem then checkGPDNS lookup identifier else prob
  | _, _ => prob
  end.

(** ** Addresses *)

(** The chosen address ([net.IP{}] on failure), all addresses, the problem. *)
Definition getAddr (call : nat) (hostname : string) : string * list string * option Probs.ProblemDetails :=
  match res_LookupHost call hostname with
  | Err err => (EmptyString, [], Some (Probs.ConnectionFailure (Error err)))
  | Ok [] => (EmptyString, [], Some (Probs.UnknownHost ("No valid IP addresses found for " ++s hostname)))
  | Ok (addr :: addrs) => (addr, addr :: addrs, None)
  end.

Definition resolveAndConstructDialer (call : nat) (name : string) (port : Z)
    : ValidationRecord * option Probs.ProblemDetails :=
  let d addrs used := {| vr_Authorities := []; vr_URL := EmptyString; vr_Hostname := name;
                         vr_Port := itoa port; vr_AddressesResolved := addrs; vr_AddressUsed := used |} in
  match getAddr call name with
  | (_, _, Some err) => (d [] None, Some err)
  | (addr, allAddrs, None) => (d allAddrs (Some addr), None)
  end.

(** [dialer.Dial] connects to the resolved address, whatever the request names. *)
Definition Dial (record : ValidationRecord) : string :=
  Net.JoinHostPort (Net.IP_String (default EmptyString (vr_AddressUsed record))) (vr_Port record).

Definition with_URL (record : ValidationRecord) (url : string) : ValidationRecord :=
  {| vr_Authorities := vr_Authorities record; vr_URL := url; vr_Hostname := vr_Hostname record;
     vr_Port := vr_Port record; vr_AddressesResolved := vr_AddressesResolved record;
     vr_AddressUsed := vr_AddressUsed record |}.

(** ** HTTP *)

(** The port of a redirect target. *)
Definition redirect_port (url : URL) : result connError (string * Z) :=
  match Net.SplitHostPort (url_Host url) with
  | Some (h, p) =>
      match Atoi p with
      | None => Err (ConnOther (atoi_error p))
      | Some reqPort =>
          if (reqPort <=? 0) || (65535 <? reqPort) then
            Err (ConnOther ("Invalid port number " ++s itoa reqPort ++s " in redirect"))
          else Ok (h, reqPort)
      end
  | None => Ok (url_Host url, if String.eqb (ToLower (url_Scheme url)) "https" then 443 else 80)
  end.

(** The [CheckRedirect] callback: the records it leaves, the host named in later
    messages, and the address to dial next. *)
Definition logRedirect (records : list ValidationRecord) (urlHost : string) (url : URL)
    : list ValidationRecord * string * result connError string :=
  if (maxRedirect <=? length records)%nat then (records, urlHost, Err (ConnOther "Too many redirects"))
  else match redirect_port url with
       | Err err => (records, url_Host url, Err err)
       | Ok (reqHost, reqPort) =>
           let '(record, err) := resolveAndConstructDialer (length records) reqHost reqPort in
           let record := with_URL record (url_Text url) in
           let records := records ++ [record] in
           match err with
           | Some prob => (records, url_Host url, Err (ConnOther (Probs.Error prob)))
           | None => (records, url_Host url, Ok (Dial record))
           end
       end.

(** [client.Do]: requests until an answer is not a redirect.  [left] bounds the
    redirects still followed; [logRedirect] refuses before it runs out
    ([follow_enough]). *)
Fixpoint follow (left : nat) (url : URL) (dial : string) (records : list ValidationRecord) (urlHost : string)
    : list ValidationRecord * string * result connError (Z * result string string) :=
  match http_Do (length records) url dial with
  | HttpFailed err => (records, urlHost, Err (UrlError err))
  | HttpResponse status body => (records, urlHost, Ok (status, body))
  | HttpRedirect location =>
      match left with
      | O => (records, urlHost, Err (UrlError (ConnOther "Too many redirects")))
      | S left' =>
          match logRedirect records urlHost location with
          | (records, urlHost, Err err) => (records, urlHost, Err (UrlError err))
          | (records, urlHost, Ok dial) => follow left' location dial records urlHost
          end
      end
  end.

Definition fetchHTTP (identifier : AcmeIdentifier) (path : string) (useTLS : bool)
    : list ValidationRecord * result Probs.ProblemDetails string :=
  let host := idValue identifier in
  let '(scheme, port) := if useTLS then ("https", httpsPort va) else ("http", httpPort va) in
  let urlHost := if (String.eqb scheme "http" && (port =? 80)) || (String.eqb scheme "https" && (port =? 443))
                 then host else Net.JoinHostPort host (itoa port) in
  let text := URL_String scheme urlHost path in
  if negb (request_ok text) then ([], Err (Probs.Malformed "URL provided for HTTP was invalid"))
  else
    let '(record, prob) := resolveAndConstructDialer 0 host port in
    let record := with_URL record text in
    match prob with
    | Some prob => ([record], Err prob)
    | None =>
        let url := {| url_Scheme := scheme; url_Host := urlHost; url_Text := text |} in
        match follow maxRedirect url (Dial record) [record] urlHost with
        | (records, urlHost, Err err) =>
            (records, Err (parseHTTPConnError ("Could not connect to " ++s urlHost) err))
        | (records, _, Ok (status, Err err)) =>
            (records, Err (Probs.Unauthorized ("Error reading HTTP response body: " ++s err)))
        | (records, _, Ok (status, Ok full)) =>
            let body := String.substring 0 (Z.to_nat maxResponseSize) full in
            if maxResponseSize <=? len body then
              (records, Err (Probs.Unauthorized ("Invalid response from " ++s text ++s ": " ++s dquote
                                                 ++s body ++s dquote)))
            else if negb (status =? 200) then
              (records, Err (Probs.Unauthorized ("Invalid response from " ++s text ++s " ["
                 ++s Net.IP_String (default EmptyString (vr_AddressUsed record)) ++s "]: " ++s itoa status)))
            else (records, Ok body)
        end
    end.

Definition validateHTTP01 (identifier : AcmeIdentifier) (challenge : Challenge)
    : list ValidationRecord * option Probs.ProblemDetails :=
  if negb (String.eqb (idType identifier) IdentifierDNS) then
    ([], Some (Probs.Malformed "Identifier type for HTTP validation was not DNS"))
  else
    let path := ".well-known/acme-challenge/" ++s ch_Token challenge in
    match fetchHTTP identifier path false with
    | (records, Err prob) => (records, Some prob)
    | (records, Ok body) =>
        let payload := TrimRight whitespaceCutset body in
        if negb (String.eqb payload (ch_ProvidedKeyAuthorization challenge)) then
          (records, Some (Probs.Unauthorized
            ("The key authorization file from the server did not match this challenge ["
             ++s ch_ProvidedKeyAuthorization challenge ++s "] != [" ++s payload ++s "]")))
        else (records, None)
    end.

(** ** TLS-SNI *)

Definition certNames (cert : X509Certificate) : list string :=
  UniqueLowerNames ((if String.eqb (x5_CommonName cert) EmptyString then [] else [x5_CommonName cert])
                    ++ x5_DNSNames cert).

(** The certificates a server presents, never none. *)
Definition getTLSSNICerts (hostPort : string) (challenge : Challenge) (zName : string)
    : result Probs.ProblemDetails (X509Certificate * nat) :=
  match tls_Dial hostPort zName with
  | Err err => Err (parseHTTPConnError ("Failed to connect to " ++s hostPort ++s " for "
                                        ++s ch_Type challenge ++s " challenge") err)
  | Ok [] => Err (Probs.Unauthorized ("No certs presented for " ++s ch_Type challenge ++s " challenge"))
  | Ok (leaf :: rest) => Ok (leaf, S (length rest))
  end.

(** What both versions do: resolve, connect with [sni], and hand the leaf certificate
    to [judge]. *)
Definition tls_sni (identifier : AcmeIdentifier) (challenge : Challenge) (sni : string)
    (judge : X509Certificate -> nat -> string -> option Probs.ProblemDetails)
    : list ValidationRecord * option Probs.ProblemDetails :=
  let '(addr, allAddrs, problem) := getAddr 0 (idValue identifier) in
  let record port := {| vr_Authorities := []; vr_URL := EmptyString; vr_Hostname := idValue identifier;
                        vr_Port := port; vr_AddressesResolved := allAddrs; vr_AddressUsed := Some addr |} in
  match problem with
  | Some problem => ([record EmptyString], Some problem)
  | None =>
      let portString := itoa (tlsPort va) in
      let hostPort := Net.JoinHostPort (Net.IP_String addr) portString in
      match getTLSSNICerts hostPort challenge sni with
      | Err problem => ([record portString], Some problem)
      | Ok (leafCert, n) => ([record portString], judge leafCert n hostPort)
      end
  end.

Definition incorrect_cert (challenge : Challenge) (zName hostPort : string) (n : nat) (leafCert : X509Certificate) :=
  Probs.Unauthorized ("Incorrect validation certificate for " ++s ch_Type challenge ++s " challenge. Requested "
    ++s zName ++s " from " ++s hostPort ++s ". Received " ++s itoa (Z.of_nat n)
    ++s " certificate(s), first certificate had names " ++s Quote (join ", " (certNames leafCert))).

Definition validateTLSSNI01WithZName (identifier : AcmeIdentifier) (challenge : Challenge) (zName : string) :=
  tls_sni identifier challenge zName (fun leafCert n hostPort =>
    if existsb (fun name => String.eqb name zName) (x5_DNSNames leafCert) then None
    else Some (incorrect_cert challenge zName hostPort n leafCert)).

Definition validateTLSSNI02WithZNames (identifier : AcmeIdentifier) (challenge : Challenge)
    (sanAName sanBName : string) :=
  tls_sni identifier challenge sanAName (fun leafCert n hostPort =>
    if negb (length (x5_DNSNames leafCert) =? 2)%nat then
      Some (Probs.Malformed (ch_Type challenge
        ++s " challenge certificate doesn't include exactly 2 DNSName entries. Received "
        ++s itoa (Z.of_nat n) ++s " certificate(s), first certificate had names "
        ++s Quote (join ", " (certNames leafCert))))
    else if existsb (fun name => String.eqb name sanAName) (x5_DNSNames leafCert)
            && existsb (fun name => String.eqb name sanBName) (x5_DNSNames leafCert) then None
    else Some (incorrect_cert challenge sanAName hostPort n leafCert)).

(** A digest in hexadecimal, split after 32 digits. *)
Definition split_digest (s : string) : string :=
  let z := hex_string (sha256 s) in
  String.substring 0 32 z ++s "." ++s String.substring 32 (String.length z - 32) z.

Definition validateTLSSNI01 (identifier : AcmeIdentifier) (challenge : Challenge)
    : list ValidationRecord * option Probs.ProblemDetails :=
  if negb (String.eqb (idType identifier) "dns") then
    ([], Some (Probs.Malformed "Identifier type for TLS-SNI-01 was not DNS"))
  else
    let ZName := split_digest (ch_ProvidedKeyAuthorization challenge) ++s "." ++s TLSSNISuffix in
    validateTLSSNI01WithZName identifier challenge ZName.

Definition validateTLSSNI02 (identifier : AcmeIdentifier) (challenge : Challenge)
    : list ValidationRecord * option Probs.ProblemDetails :=
  if negb (String.eqb (idType identifier) "dns") then
    ([], Some (Probs.Malformed "Identifier type for TLS-SNI-02 was not DNS"))
  else
    let sanAName := split_digest (ch_Token challenge) ++s ".token." ++s TLSSNISuffix in
    let sanBName := split_digest (ch_ProvidedKeyAuthorization challenge) ++s ".ka." ++s TLSSNISuffix in
    validateTLSSNI02WithZNames identifier challenge sanAName sanBName.

(** ** DNS *)

Definition validateDNS01 (identifier : AcmeIdentifier) (challenge : Challenge)
    : list ValidationRecord * option Probs.ProblemDetails :=
  if negb (String.eqb (idType identifier) IdentifierDNS) then
    ([], Some (Probs.Malformed "Identifier type for DNS was not itself DNS"))
  else
    let authorizedKeysDigest := b64_encode false (sha256 (ch_ProvidedKeyAuthorization challenge)) in
    let challengeSubdomain := DNSPrefix ++s "." ++s idValue identifier in
    match res_LookupTXT 0 challengeSubdomain with
    | Err err => ([], Some (Probs.ConnectionFailure (Error err)))
    | Ok (txts, authorities) =>
        if (length txts =? 0)%nat then
          ([], Some (Probs.Unauthorized "No TXT records found for DNS challenge"))
        else if existsb (fun element => String.eqb element authorizedKeysDigest) txts then
          ([{| vr_Authorities := authorities; vr_URL := EmptyString; vr_Hostname := idValue identifier;
               vr_Port := EmptyString; vr_AddressesResolved := []; vr_AddressUsed := None |}], None)
        else ([], Some (Probs.Unauthorized "Correct value not found for DNS challenge"))
    end.

(** ** Validation *)

Definition validateChallenge (identifier : AcmeIdentifier) (challenge : Challenge)
    : list ValidationRecord * option Probs.ProblemDetails :=
  if negb (IsSaneForValidation challenge) then
    ([], Some (Probs.Malformed "Challenge failed sanity check."))
  else if String.eqb (ch_Type challenge) ChallengeTypeHTTP01 then validateHTTP01 identifier challenge
  else if String.eqb (ch_Type challenge) ChallengeTypeTLSSNI01 then validateTLSSNI01 identifier challenge
  else if String.eqb (ch_Type challenge) ChallengeTypeTLSSNI02 then validateTLSSNI02 identifier challenge
  else if String.eqb (ch_Type challenge) ChallengeTypeDNS01 then validateDNS01 identifier challenge
  else ([], Some (Probs.Malformed ("invalid challenge type " ++s ch_Type challenge))).

Definition validateChallengeAndCAA (identifier : AcmeIdentifier) (challenge : Challenge)
    : list ValidationRecord * option Probs.ProblemDetails :=
  match validateChallenge identifier challenge with
  | (records, Some err) => (records, Some err)
  | (records, None) => (records, checkCAA identifier)
  end.

(** The records and the problem, if any. *)
Definition PerformValidation (domain : string) (challenge : Challenge)
    : list ValidationRecord * option Probs.ProblemDetails :=
  let '(records, prob) := validateChallengeAndCAA {| idType := "dns"; idValue := domain |} challenge in
  let challenge := {| ch_ID := ch_ID challenge; ch_Type := ch_Type challenge; ch_Status := ch_Status challenge;
                      ch_Error := ch_Error challenge; ch_URI := ch_URI challenge; ch_Token := ch_Token challenge;
                      ch_ProvidedKeyAuthorization := ch_ProvidedKeyAuthorization challenge;
                      ch_ValidationRecord := records |} in
  if negb (RecordsSane challenge) && is_nil prob then
    (records, Some (Probs.ServerInternal "Records for validation failed sanity check"))
  else (records, prob).

End va.

(** ** va/gsb.go *)

Inductive sbError := ErrOutOfDateHashes | SbOther (err : error).


(** [IsSafeDomain]; the request and its domain may be missing. *)
Definition IsSafeDomain (safeBrowsing : option (string -> result sbError string)) (req : option (option string))
    : result error bool :=
  match req with
  | Some (Some domain) =>
      match safeBrowsing with
      | None => Ok true
      | Some IsListed =>
          match IsListed domain with
          | Err ErrOutOfDateHashes => Ok true
          | Err (SbOther err) => Err err
          | Ok list => Ok (String.eqb list EmptyString)
          end
      end
  | _ => Err Grpc.ErrMissingParameters
  end.

(** ** The resolver of bdns/ *)

Definition bdns_resolver {EX : Exchanger} (r : Bdns.DNSResolverImpl) : DNSResolver := {|
  res_LookupTXT := Bdns.LookupTXT r;
  res_LookupHost := Bdns.LookupHost r;
  res_LookupCAA := Bdns.LookupCAA r |}.

End VA.
