(* ===== verification/VaChecks.v ===== *)
(** * What the validation authority accepts

    Soundness of [PerformValidation] (an accepted challenge was answered, and CAA
    allows the issuance), the CAA decision, the bound on redirects, and, with the
    resolver of bdns/, that only servers at public addresses can influence a
    validation. *)

From S2P Require Import Prelude GoStd Net Errors Features Core GoodKey Csr Bdns Cdr ValidationAuthority.

Import VA.

Module VaChecks.

(** ** Redirects *)

Section redirects.
Context {GL : GoLib} {R : DNSResolver} {I : Internet}.

Lemma logRedirect_records records urlHost url :
  match logRedirect records urlHost url with
  | (records', _, Ok dial) =>
      exists rec, records' = records ++ [rec] /\ dial = Dial rec /\ vr_URL rec = url_Text url /\
        (length records < maxRedirect)%nat
  | (records', _, Err _) => exists extra, records' = records ++ extra /\ (length records' <= Nat.max maxRedirect (length records))%nat
  end.
Proof.
  unfold logRedirect. destruct (Nat.leb_spec maxRedirect (length records)).
  { exists []. rewrite app_nil_r. split; [done|lia]. }
  destruct (redirect_port url) as [[h p]|]; [|exists []; rewrite app_nil_r; split; [done|lia]].
  destruct (resolveAndConstructDialer _ _ _) as [rec [prob|]].
  - eexists [_]. split; [done|]. rewrite length_app. simpl. lia.
  - eexists. split_and!; [done|done|done|done].
Qed.

(** The record of a connection to [host] and [port]: the address used is the first that
    the lookup number [call] returned. *)
Definition resolved (call : nat) (host : string) (port : Z) (rec : ValidationRecord) : Prop :=
  vr_Hostname rec = host /\ vr_Port rec = itoa port /\
  exists addr rest, res_LookupHost call host = Ok (addr :: rest) /\ vr_AddressUsed rec = Some addr /\
    vr_AddressesResolved rec = addr :: rest.

(** Where a URL points to: the port it names, or that of its scheme. *)
Definition target (url : URL) (host : string) (port : Z) : Prop :=
  (exists p, Net.SplitHostPort (url_Host url) = Some (host, p) /\ Atoi p = Some port /\ 0 < port <= 65535) \/
  (Net.SplitHostPort (url_Host url) = None /\ host = url_Host url /\
   port = if String.eqb (ToLower (url_Scheme url)) "https" then 443 else 80).

(** [chain n url rec records body]: request number [n], for [url] at the address of [rec],
    leads through the redirects in [records], of which [rec] is the first, to a response
    with status 200 and this body. *)
Inductive chain : nat -> URL -> ValidationRecord -> list ValidationRecord -> result string string -> Prop :=
| chain_end n url rec body : http_Do n url (Dial rec) = HttpResponse 200 body -> chain n url rec [rec] body
| chain_hop n url rec url' host port rec' records body :
    http_Do n url (Dial rec) = HttpRedirect url' -> target url' host port -> resolved n host port rec' ->
    vr_URL rec' = url_Text url' -> chain (S n) url' rec' records body -> chain n url rec (rec :: records) body.

Lemma resolveAndConstructDialer_resolved call host port rec : resolveAndConstructDialer call host port = (rec, None) ->
  resolved call host port rec.
Proof.
  unfold resolveAndConstructDialer, getAddr. destruct (res_LookupHost call host) as [[|addr rest]|] eqn:E; try done.
  intros [= <-]. split_and!; [done|done|]. exists addr, rest. by rewrite E.
Qed.

Lemma redirect_port_target url host port : redirect_port url = Ok (host, port) -> target url host port.
Proof.
  unfold redirect_port, target. destruct (Net.SplitHostPort (url_Host url)) as [[h p]|]; [|intros [= <- <-]; by right].
  destruct (Atoi p) as [n|] eqn:E; [|done]. destruct (_ || _) eqn:Eb; [done|]. intros [= <- <-]. left. exists p.
  apply orb_false_iff in Eb as [?%Z.leb_gt ?%Z.ltb_ge]. split_and!; [done|done|lia|lia].
Qed.

Lemma logRedirect_hop records urlHost url records' urlHost' dial : logRedirect records urlHost url = (records', urlHost', Ok dial) ->
  exists rec host port, records' = records ++ [rec] /\ dial = Dial rec /\ vr_URL rec = url_Text url /\
    target url host port /\ resolved (length records) host port rec.
Proof.
  unfold logRedirect. destruct (_ <=? _)%nat; [done|]. destruct (redirect_port url) as [[h p]|] eqn:Et; [|done].
  destruct (resolveAndConstructDialer _ _ _) as [rec [|]] eqn:E; [done|]. intros [= <- <- <-].
  apply resolveAndConstructDialer_resolved in E. apply redirect_port_target in Et. by exists (with_URL rec (url_Text url)), h, p.
Qed.

(** Requests are only sent to the addresses in the records, in their order. *)
Lemma follow_chain left : forall url records0 rec urlHost records' urlHost' body,
  follow left url (Dial rec) (records0 ++ [rec]) urlHost = (records', urlHost', Ok (200, body)) ->
  exists records, records' = records0 ++ records /\ chain (S (length records0)) url rec records body.
Proof.
  induction left as [|left IH]; intros url records0 rec urlHost records' urlHost' body H; cbn [follow] in H;
    rewrite length_app, Nat.add_1_r in H; destruct (http_Do _ _ _) as [|location|status b] eqn:E; try done.
  1,3: injection H as <- _ -> ->; exists [rec]; split; [done|by constructor].
  destruct (logRedirect _ _ _) as [[records1 urlHost1] [dial|]] eqn:EL; [|done].
  apply logRedirect_hop in EL as (rec' & host & port & -> & -> & Hu & Ht & Hr).
  apply IH in H as (records & -> & Hc). rewrite length_app, Nat.add_1_r in Hr, Hc. exists (rec :: records).
  split; [by rewrite <- app_assoc|]. by eapply chain_hop.
Qed.

Lemma follow_length left url dial records urlHost : (length records <= maxRedirect)%nat ->
  exists extra, fst (fst (follow left url dial records urlHost)) = records ++ extra /\
    (length (records ++ extra) <= maxRedirect)%nat.
Proof.
  revert url dial records urlHost. induction left as [|left IH]; intros url dial records urlHost Hl; cbn [follow].
  - exists []. rewrite app_nil_r. by destruct (http_Do _ _ _).
  - destruct (http_Do _ _ _) as [|location|status body]; [exists []; by rewrite app_nil_r| |exists []; by rewrite app_nil_r].
    pose proof (logRedirect_records records urlHost location) as HL.
    destruct (logRedirect records urlHost location) as [[records' urlHost'] [dial'|]].
    + destruct HL as (rec' & -> & _ & _ & Hlt).
      destruct (IH location dial' (records ++ [rec']) urlHost') as (extra & E & Hb); [rewrite length_app; simpl; lia|].
      exists (rec' :: extra). rewrite E. rewrite <- app_assoc in *. done.
    + destruct HL as (extra & -> & Hb). exists extra. cbn [fst]. split; [done|lia].
Qed.

(** The bound on redirects inside [follow] is never what stops it. *)
Lemma follow_enough left k url dial records urlHost : (maxRedirect <= length records + left)%nat ->
  follow (left + k) url dial records urlHost = follow left url dial records urlHost.
Proof.
  revert url dial records urlHost. induction left as [|left IH]; intros url dial records urlHost Hl.
  - destruct k as [|k]; [done|]. cbn [Nat.add follow]. destruct (http_Do _ _ _) as [|location|]; [done| |done].
    unfold logRedirect. destruct (Nat.leb_spec maxRedirect (length records)); [done|lia].
  - cbn [Nat.add follow]. destruct (http_Do _ _ _) as [|location|]; [done| |done].
    pose proof (logRedirect_records records urlHost location) as HL.
    destruct (logRedirect records urlHost location) as [[records' urlHost'] [dial'|]]; [|done].
    destruct HL as (rec' & -> & _ & _ & Hlt). apply IH. rewrite length_app. simpl. lia.
Qed.

End redirects.

(** ** The CAA decision *)

Section caa.
Context {GL : GoLib} {R : DNSResolver}.
Context (va : ValidationAuthorityImpl).

Definition known_tags : list string := ["issue"; "issuewild"; "iodef"].

(** A record that forbids issuance because its property is not understood. *)
Definition critical_unknown (c : CAA) : Prop :=
  (caa_Tag c ∉ known_tags) /\ Z.land (caa_Flag c) 129 <> 0.

(** A record set that allows this CA to issue. *)
Definition permits (recs : list CAA) : Prop :=
  (forall c, c ∈ recs -> ~ critical_unknown c) /\
  ((forall c, c ∈ recs -> caa_Tag c <> "issue") \/
   exists c, c ∈ recs /\ caa_Tag c = "issue" /\ extractIssuerDomain c = issuerDomain va).

Lemma newCAASet_fields recs :
  Issue (newCAASet recs) = filter (fun c => caa_Tag c = "issue") recs /\
  Unknown (newCAASet recs) = filter (fun c => caa_Tag c ∉ known_tags) recs.
Proof.
  unfold newCAASet. set (s0 := {| Issue := []; Issuewild := []; Iodef := []; Unknown := [] |}).
  change (filter (fun c => caa_Tag c = "issue") recs) with (Issue s0 ++ filter (fun c => caa_Tag c = "issue") recs).
  change (filter (fun c => caa_Tag c ∉ known_tags) recs) with (Unknown s0 ++ filter (fun c => caa_Tag c ∉ known_tags) recs).
  generalize s0. clear s0. induction recs as [|c recs IH]; intros s0; cbn [fold_left]; [by rewrite !filter_nil, !app_nil_r|].
  destruct (IH {| Issue := if String.eqb (caa_Tag c) "issue" then Issue s0 ++ [c] else Issue s0;
                  Issuewild := if String.eqb (caa_Tag c) "issuewild" then Issuewild s0 ++ [c] else Issuewild s0;
                  Iodef := if String.eqb (caa_Tag c) "iodef" then Iodef s0 ++ [c] else Iodef s0;
                  Unknown := if bool_decide (caa_Tag c ∈ known_tags) then Unknown s0 else Unknown s0 ++ [c] |})
    as [H1 H2].
  rewrite !filter_cons. split.
  - etransitivity; [exact H1|]. cbn [Issue]. destruct (String.eqb_spec (caa_Tag c) "issue"), (decide (caa_Tag c = "issue")); try done.
    by rewrite <- app_assoc.
  - etransitivity; [exact H2|]. cbn [Unknown]. destruct (decide (caa_Tag c ∉ known_tags)).
    + rewrite bool_decide_eq_false_2 by done. by rewrite <- app_assoc.
    + rewrite bool_decide_eq_true_2 by (by apply dec_stable). done.
Qed.

Lemma validateCAASet_permits recs : snd (validateCAASet va (Some (newCAASet recs))) = true <-> permits recs.
Proof.
  unfold validateCAASet, criticalUnknown, permits. destruct (newCAASet_fields recs) as [-> ->].
  set (unk := filter (fun c => caa_Tag c ∉ known_tags) recs). set (iss := filter (fun c => caa_Tag c = "issue") recs).
  assert ((if (0 <? length unk)%nat then existsb (fun c => negb (Z.land (caa_Flag c) (Z.lor 128 1) =? 0)) unk else false) = false
    <-> forall c, c ∈ recs -> ~ critical_unknown c) as HU.
  { destruct (Nat.ltb_spec 0 (length unk)) as [Hl|Hl].
    - rewrite <- not_true_iff_false, existsb_exists. unfold critical_unknown. split.
      + intros H c Hc [Ht Hf]. apply H. exists c. split; [by apply list_elem_of_In, list_elem_of_filter|].
        by apply negb_true_iff, Z.eqb_neq.
      + intros H (c & Hc & Hf). apply list_elem_of_In, list_elem_of_filter in Hc as [Ht Hc].
        apply (H c Hc). split; [done|]. by apply negb_true_iff, Z.eqb_neq in Hf.
    - split; [|done]. intros _ c Hc [Ht _].
      assert (c ∈ unk) as Hin by (by apply list_elem_of_filter). destruct unk; [by apply elem_of_nil in Hin|simpl in Hl; lia]. }
  destruct (if (0 <? length unk)%nat then _ else _) eqn:EU.
  { cbn [snd]. split; [done|]. intros [H _]. by apply HU in H. }
  pose proof (proj1 HU eq_refl) as Hc. destruct (Nat.eqb_spec (length iss) 0) as [Hl|Hl]; cbn [snd].
  - split; [|done]. intros _. split; [done|]. left. intros c Hr Ht.
    assert (c ∈ iss) as Hin by (by apply list_elem_of_filter). destruct iss; [by apply elem_of_nil in Hin|done].
  - rewrite existsb_exists. split.
    + intros (c & Hin & He). apply list_elem_of_In, list_elem_of_filter in Hin as [Ht Hr].
      split; [done|]. right. exists c. split_and!; [done|done|by apply String.eqb_eq].
    + intros [_ [Hn|(c & Hr & Ht & He)]].
      * exfalso. destruct iss as [|c iss'] eqn:E; [done|]. assert (c ∈ iss) as Hin by (rewrite E; left).
        apply list_elem_of_filter in Hin as [Ht Hr]. by apply (Hn c).
      * exists c. split; [by apply list_elem_of_In, list_elem_of_filter|by apply String.eqb_eq].
Qed.

(** The climb: the first answer with records, after empty answers only. *)
Lemma parseResults_Some rs s : parseResults rs = Ok (Some s) <->
  exists i recs, rs !! i = Some (Ok recs) /\ recs <> [] /\ s = newCAASet recs /\
    forall j, (j < i)%nat -> rs !! j = Some (Ok []).
Proof.
  induction rs as [|[recs|err] rs IH]; cbn [parseResults].
  - split; [done|]. by intros (i & recs & H & _).
  - destruct recs as [|c recs]; simpl length; cbn [Nat.ltb Nat.leb].
    + rewrite IH. split.
      * intros (i & recs & Hi & Hne & Hs & Hj). exists (S i), recs. split_and!; try done.
        intros [|j] Hlt; [done|]. apply Hj. lia.
      * intros ([|i] & recs & Hi & Hne & Hs & Hj); simpl in Hi; [by simplify_eq|].
        exists i, recs. split_and!; try done. intros j Hlt. apply (Hj (S j)). lia.
    + split.
      * intros [= <-]. exists 0%nat, (c :: recs). split_and!; try done. lia.
      * intros ([|i] & recs' & Hi & Hne & Hs & Hj); simpl in Hi; [by simplify_eq|].
        specialize (Hj 0%nat ltac:(lia)). by simplify_eq/=.
  - split; [done|]. intros ([|i] & recs' & Hi & Hne & Hs & Hj); simpl in Hi; [done|].
    specialize (Hj 0%nat ltac:(lia)). by simplify_eq/=.
Qed.

Lemma parseResults_None rs : parseResults rs = Ok None <-> Forall (eq (Ok [])) rs.
Proof.
  induction rs as [|[recs|err] rs IH]; cbn [parseResults].
  - split; [constructor|done].
  - rewrite Forall_cons. destruct recs; simpl length; cbn [Nat.ltb Nat.leb]; [rewrite IH; naive_solver|].
    split; [done|]. by intros [? _].
  - rewrite Forall_cons. split; [done|]. by intros [? _].
Qed.

(** Parent number [i] of a name, the name itself being number 0. *)
Definition parent (i : nat) (name : string) : string := join "." (drop i (split_on "." name)).
Definition levels (name : string) : nat := length (split_on "." name).

Definition caa_allows (lookup : nat -> string -> result error (list CAA)) (name : string) : Prop :=
  (forall j, (j < levels name)%nat -> lookup j (parent j name) = Ok []) \/
  exists i recs, (i < levels name)%nat /\ (forall j, (j < i)%nat -> lookup j (parent j name) = Ok []) /\
    lookup i (parent i name) = Ok recs /\ recs <> [] /\ permits recs.

Lemma lookup_parallel name lookup i :
  parallelCAALookup name lookup !! i =
  if (i <? levels name)%nat then Some (lookup i (parent i name)) else None.
Proof.
  unfold parallelCAALookup, levels. rewrite list_lookup_fmap.
  destruct (Nat.ltb_spec i (length (split_on "." name))).
  - by rewrite lookup_seq_lt.
  - by rewrite lookup_seq_ge.
Qed.

Lemma parallel_decision lookup name :
  (exists s, parseResults (parallelCAALookup name lookup) = Ok s /\ snd (validateCAASet va s) = true)
  <-> caa_allows lookup name.
Proof.
  unfold caa_allows. split.
  - intros ([s|] & Hp & Hv).
    + right. apply parseResults_Some in Hp as (i & recs & Hi & Hne & -> & Hj).
      rewrite lookup_parallel in Hi. destruct (Nat.ltb_spec i (levels name)); [|done]. injection Hi as Hi.
      exists i, recs. split_and!; try done; [|by apply validateCAASet_permits].
      intros j Hlt. specialize (Hj j Hlt). rewrite lookup_parallel in Hj.
      destruct (Nat.ltb_spec j (levels name)); [by injection Hj|lia].
    + left. apply parseResults_None in Hp. rewrite Forall_lookup in Hp. intros j Hlt. symmetry.
      apply (Hp j). rewrite lookup_parallel. by apply Nat.ltb_lt in Hlt as ->.
  - intros [Hall|(i & recs & Hi & Hj & Hr & Hne & Hper)].
    + exists None. split; [|done]. apply parseResults_None, Forall_lookup. intros j x Hx.
      rewrite lookup_parallel in Hx. destruct (Nat.ltb_spec j (levels name)); [|done].
      injection Hx as <-. by rewrite Hall.
    + exists (Some (newCAASet recs)). split; [|by apply validateCAASet_permits].
      apply parseResults_Some. exists i, recs. rewrite lookup_parallel. apply Nat.ltb_lt in Hi as Hi'. rewrite Hi', Hr.
      split_and!; try done. intros j Hlt. rewrite lookup_parallel, Hj by done.
      destruct (Nat.ltb_spec j (levels name)); [done|lia].
Qed.

Lemma checkCAAInternal_allows ident :
  checkCAAInternal va ident = None <-> caa_allows res_LookupCAA (trim_right "." (ToLower (idValue ident))).
Proof.
  rewrite <- parallel_decision. unfold checkCAAInternal, checkCAARecords, getCAASet.
  destruct (parseResults _) as [s|]; cbn [rbind]; [|split; [done|by intros (? & ? & _)]].
  destruct (validateCAASet va s) as [present valid] eqn:E. destruct valid; simpl; split; try done.
  - intros _. exists s. by rewrite E.
  - intros (s' & [= <-] & Hv). by rewrite E in Hv.
Qed.

Lemma checkGPDNS_allows lookup ident :
  checkGPDNS va lookup ident = None <-> caa_allows lookup (idValue ident).
Proof.
  rewrite <- parallel_decision. unfold checkGPDNS.
  destruct (parseResults _) as [s|]; [|split; [done|by intros (? & ? & _)]].
  destruct (validateCAASet va s) as [present valid] eqn:E. destruct valid; simpl; split; try done.
  - intros _. exists s. by rewrite E.
  - intros (s' & [= <-] & Hv). by rewrite E in Hv.
Qed.

Lemma checkCAA_cases ident :
  checkCAA va ident = match checkCAAInternal va ident, caaDR va with
                      | Some _, Some lookup => checkGPDNS va lookup ident
                      | prob, _ => prob
                      end.
Proof.
  unfold checkCAA. destruct (checkCAAInternal va ident) as [p|] eqn:E; destruct (caaDR va) as [lookup|]; try done.
  enough (Probs.Type_ p = Probs.ConnectionProblem) as -> by done.
  revert E. unfold checkCAAInternal. destruct (checkCAARecords va ident) as [[? []]|]; intros; by simplify_eq/=.
Qed.

(** CAA allows the issuance for a name: in the zones as the local resolver sees them, or,
    where one is configured, as the distributed resolver does. *)
Definition caa_permitted (n : string) : Prop :=
  caa_allows res_LookupCAA (trim_right "." (ToLower n)) \/
  (exists lookup, caaDR va = Some lookup /\ caa_allows lookup n).

Lemma checkCAA_permitted ident : checkCAA va ident = None <-> caa_permitted (idValue ident).
Proof.
  unfold caa_permitted. rewrite checkCAA_cases, <- checkCAAInternal_allows.
  destruct (checkCAAInternal va ident) as [p|]; [|tauto].
  destruct (caaDR va) as [lookup|].
  - rewrite checkGPDNS_allows. naive_solver.
  - split; [done|]. by intros [|(? & ? & _)].
Qed.

(** C27. The CAA check climbs from the name to its parents: the first name with records
    decides, and an error on the way refuses.  The deciding set allows issuance when
    no record with an unknown property is marked critical (bit 128 or its common
    misreading 1) and either no record restricts issuance or one names this CA.  With
    a distributed resolver, its answers are consulted whenever the local ones do not
    allow issuance. *)
Theorem checkCAA_decision (ident : AcmeIdentifier) :
  checkCAA va ident = None <->
  caa_allows res_LookupCAA (trim_right "." (ToLower (idValue ident))) \/
  (exists lookup, caaDR va = Some lookup /\ caa_allows lookup (idValue ident)).
Proof. apply checkCAA_permitted. Qed.

(** A refusal found in the zone itself does not stand: when the local resolver
    returns records that forbid issuance, and the distributed resolver sees none, the
    check passes, because a refusal is reported with the same problem type as a failed
    lookup. *)
Theorem local_refusal_is_overridden (ident : AcmeIdentifier) (lookup : nat -> string -> result error (list CAA))
    (recs : list CAA) :
  res_LookupCAA 0 (trim_right "." (ToLower (idValue ident))) = Ok recs -> recs <> [] -> ~ permits recs ->
  caaDR va = Some lookup -> (forall i name, lookup i name = Ok []) ->
  checkCAAInternal va ident <> None /\ checkCAA va ident = None.
Proof.
  intros Hr Hne Hp Hd Hl. split.
  - rewrite checkCAAInternal_allows. set (name := trim_right "." (ToLower (idValue ident))) in *.
    assert (parent 0 name = name) as Hn by (unfold parent; rewrite drop_0; apply (join_split_on ".")).
    assert (0 < levels name)%nat as Hlv by (unfold levels; destruct (split_on_cons "." name) as (x & xs & ->); simpl; lia).
    intros [Hall|(i & recs' & Hi & Hj & Hi' & _ & Hper)].
    + specialize (Hall 0%nat Hlv). rewrite Hn in Hall. congruence.
    + destruct i as [|i]; [rewrite Hn in Hi'; congruence|].
      specialize (Hj 0%nat ltac:(lia)). rewrite Hn in Hj. congruence.
  - rewrite checkCAA_cases, Hd. destruct (checkCAAInternal va ident); [|done].
    apply checkGPDNS_allows. left. intros j _. apply Hl.
Qed.

End caa.

(** ** Evidence *)

Section evidence.
Context {GL : GoLib} {Cr : Crypto} {R : DNSResolver} {I : Internet}.
Context (va : ValidationAuthorityImpl).

(** The name's own server, at the first of its addresses, was asked for the file of the
    token; redirects, at most nine, led from there to a response with status 200 and less
    than 128 bytes: the key authorization, white space at its end aside. *)
Definition http_evidence (domain : string) (ch : Challenge) (records : list ValidationRecord) : Prop :=
  exists url rec body,
    url_Text url = URL_String "http" (url_Host url) (".well-known/acme-challenge/" ++s ch_Token ch) /\
    url_Scheme url = "http"%string /\
    url_Host url = (if httpPort va =? 80 then domain else Net.JoinHostPort domain (itoa (httpPort va))) /\
    resolved 0 domain (httpPort va) rec /\ vr_URL rec = url_Text url /\ chain 1 url rec records (Ok body) /\
    len body < 128 /\ (length records <= 10)%nat /\
    TrimRight (fun c => bool_decide (c ∈ ["010"; "013"; "009"; " "]%char)) body = ch_ProvidedKeyAuthorization ch.

(** The TLS server at the name's first address, asked for [sni], presented a
    certificate whose names satisfy [P]. *)
Definition tls_evidence (domain sni : string) (P : list string -> Prop) : Prop :=
  exists addr rest leaf chain, res_LookupHost 0 domain = Ok (addr :: rest) /\
    tls_Dial (Net.JoinHostPort (Net.IP_String addr) (itoa (tlsPort va))) sni = Ok (leaf :: chain) /\
    P (x5_DNSNames leaf).

Definition dns_evidence (domain : string) (ch : Challenge) : Prop :=
  exists txts authorities, res_LookupTXT 0 ("_acme-challenge." ++s domain) = Ok (txts, authorities) /\
    b64_encode false (sha256 (ch_ProvidedKeyAuthorization ch)) ∈ txts.

(** The name for a digest: its hexadecimal digits in two labels, the first of 32. *)
Definition digest_labels (s : string) : string :=
  let z := hex_string (sha256 s) in String.substring 0 32 z ++s "." ++s String.substring 32 (String.length z - 32) z.

Definition evidence (domain : string) (ch : Challenge) (records : list ValidationRecord) : Prop :=
  let ka := ch_ProvidedKeyAuthorization ch in
  if String.eqb (ch_Type ch) ChallengeTypeHTTP01 then http_evidence domain ch records
  else if String.eqb (ch_Type ch) ChallengeTypeTLSSNI01 then
    let z := digest_labels ka ++s ".acme.invalid" in
    tls_evidence domain z (fun names => z ∈ names)
  else if String.eqb (ch_Type ch) ChallengeTypeTLSSNI02 then
    let a := digest_labels (ch_Token ch) ++s ".token.acme.invalid" in
    let b := digest_labels ka ++s ".ka.acme.invalid" in
    tls_evidence domain a (fun names => length names = 2%nat /\ a ∈ names /\ b ∈ names)
  else ch_Type ch = ChallengeTypeDNS01 /\ dns_evidence domain ch.

Lemma existsb_eqb_elem x l : existsb (fun y => String.eqb y x) l = true <-> x ∈ l.
Proof.
  rewrite existsb_exists, list_elem_of_In. split.
  - intros (y & Hy & ->%String.eqb_eq). done.
  - intros H. exists x. split; [done|apply String.eqb_refl].
Qed.

Lemma short_prefix n s : len (String.substring 0 n s) < Z.of_nat n -> String.substring 0 n s = s.
Proof.
  revert n. induction s as [|c s IH]; intros [|n] H; try done. cbn [String.substring] in *.
  rewrite Net.len_String in H. by rewrite IH by lia.
Qed.

Lemma fetchHTTP_evidence ident path records body :
  fetchHTTP va ident path false = (records, Ok body) ->
  exists url rec, url_Text url = URL_String "http" (url_Host url) path /\ url_Scheme url = "http"%string /\
    url_Host url = (if httpPort va =? 80 then idValue ident else Net.JoinHostPort (idValue ident) (itoa (httpPort va))) /\
    resolved 0 (idValue ident) (httpPort va) rec /\ vr_URL rec = url_Text url /\ chain 1 url rec records (Ok body) /\
    len body < 128 /\ (length records <= 10)%nat.
Proof.
  unfold fetchHTTP. cbn [String.eqb Ascii.eqb Bool.eqb andb orb]. rewrite orb_false_r. destruct (negb (request_ok _)); [done|].
  destruct (resolveAndConstructDialer _ _ _) as [rec0 [prob|]] eqn:E0; [done|]. apply resolveAndConstructDialer_resolved in E0.
  match goal with |- context [follow maxRedirect ?u ?d [?rc] ?h] => set (uh := h); set (url0 := u); set (rec1 := rc) end.
  pose proof (follow_chain maxRedirect url0 [] rec1 uh) as HS. simpl app in HS.
  destruct (follow_length maxRedirect url0 (Dial rec1) [rec1] uh) as (extra & HE & HB); [unfold maxRedirect; simpl; lia|].
  destruct (follow _ _ _ _ _) as [[records' uh'] [[status [full|]]|]]; [|done|done].
  destruct (Z.leb_spec maxResponseSize (len (String.substring 0 (Z.to_nat maxResponseSize) full))) as [|Hlen]; [done|].
  rewrite short_prefix in * by (unfold maxResponseSize in *; lia).
  destruct (Z.eqb_spec status 200) as [->|]; [|done]. intros [= <- <-]. cbn [fst] in HE. subst records'.
  destruct (HS _ _ _ eq_refl) as (records & <- & Hc). exists url0, rec1. by split_and!.
Qed.

Lemma tls_sni_evidence ident ch sni judge P records :
  (forall leaf n hp, judge leaf n hp = None -> P (x5_DNSNames leaf)) ->
  tls_sni va ident ch sni judge = (records, None) -> tls_evidence (idValue ident) sni P.
Proof.
  intros HJ. unfold tls_sni, getAddr. destruct (res_LookupHost 0 (idValue ident)) as [[|addr rest]|] eqn:E; try done.
  unfold getTLSSNICerts. destruct (tls_Dial _ _) as [[|leaf chain]|] eqn:Et; try done.
  intros [= _ Hj]. exists addr, rest, leaf, chain. split_and!; [done|done|by eapply HJ].
Qed.

Lemma validateChallenge_evidence domain ch records :
  validateChallenge va {| idType := "dns"; idValue := domain |} ch = (records, None) ->
  IsSaneForValidation ch = true /\ evidence domain ch records.
Proof.
  unfold validateChallenge, evidence. destruct (IsSaneForValidation ch); [|done]. cbv [negb]. intros H. split; [done|].
  destruct (String.eqb (ch_Type ch) ChallengeTypeHTTP01); [|destruct (String.eqb (ch_Type ch) ChallengeTypeTLSSNI01);
    [|destruct (String.eqb (ch_Type ch) ChallengeTypeTLSSNI02); [|destruct (String.eqb_spec (ch_Type ch) ChallengeTypeDNS01); [|done]]]].
  - unfold validateHTTP01 in H. cbn [idType] in H. rewrite String.eqb_refl in H. cbv [negb] in H.
    destruct (fetchHTTP _ _ _ _) as [recs [body|]] eqn:E; [|done].
    destruct (String.eqb_spec (TrimRight whitespaceCutset body) (ch_ProvidedKeyAuthorization ch)); [|done].
    injection H as <-. apply fetchHTTP_evidence in E as (url & rec & ? & ? & ? & ? & ? & ? & ? & ?).
    by exists url, rec, body.
  - eapply (tls_sni_evidence {| idType := "dns"; idValue := domain |}); [|exact H]. intros leaf n hp. cbv beta.
    destruct (existsb _ _) eqn:E; [|done]. intros _. by apply existsb_eqb_elem.
  - eapply (tls_sni_evidence {| idType := "dns"; idValue := domain |}); [|exact H]. intros leaf n hp. cbv beta.
    destruct (Nat.eqb_spec (length (x5_DNSNames leaf)) 2); [|done]. cbv [negb].
    destruct (existsb _ _ && existsb _ _) eqn:E; [|done]. intros _. bool_solve.
    split_and!; [done|by apply existsb_eqb_elem|by apply existsb_eqb_elem].
  - split; [done|]. unfold validateDNS01 in H. cbn [idType idValue] in H. rewrite String.eqb_refl in H. cbv [negb] in H.
    destruct (res_LookupTXT _ _) as [[txts auths]|] eqn:E; [|done].
    destruct (length txts =? 0)%nat; [done|]. destruct (existsb _ _) eqn:Ex; [|done].
    exists txts, auths. split; [done|by apply existsb_eqb_elem].
Qed.

Lemma sound_validation (domain : string) (ch : Challenge) (records : list ValidationRecord) :
  PerformValidation va domain ch = (records, None) ->
  IsSaneForValidation ch = true /\ evidence domain ch records /\
  caa_permitted va domain /\ sane_records (ch_Type ch) records.
Proof.
  unfold PerformValidation, validateChallengeAndCAA. intros H.
  destruct (validateChallenge _ _ _) as [recs [prob|]] eqn:E.
  { destruct (RecordsSane _); by simplify_eq. }
  destruct (validateChallenge_evidence _ _ _ E) as [HS HE].
  destruct (checkCAA va _) as [p|] eqn:EC; destruct (RecordsSane _) eqn:ER; simplify_eq/=.
  split_and!; [done|done|exact (proj1 (checkCAA_permitted va _) EC)|exact (proj1 (RecordsSane_spec _) ER)].
Qed.

(** C7. A validation that reports no problem was earned: the challenge is pending and
    well formed, the applicant's server or zone gave the proof its type demands (the
    key authorization over HTTP, from the token's well-known path on the name's own
    server, possibly through redirects, in at most ten requests; a certificate for the
    digest names over TLS; the digest in a TXT record), CAA allows the issuance, and the
    records are complete: for HTTP one for each request, otherwise one. *)
Theorem PerformValidation_sound (domain : string) (ch : Challenge) (records : list ValidationRecord) :
  PerformValidation va domain ch = (records, None) ->
  IsSaneForValidation ch = true /\ evidence domain ch records /\
  caa_permitted va domain /\ sane_records (ch_Type ch) records.
Proof. apply sound_validation. Qed.

End evidence.

(** ** Only public servers matter *)

Section isolation.
Context {GL : GoLib} {Cr : Crypto} {EX : Exchanger} (r : Bdns.DNSResolverImpl).
Context (va : ValidationAuthorityImpl).
Hypothesis production : Bdns.allowRestrictedAddresses r = false.

(** The special-purpose networks of the RFCs, each as its first address and the length
    of its prefix: private use, loopback, "this network", link local, protocol
    assignments, TEST-NET-1 and -3, 6to4 relays, multicast, class E with the limited
    broadcast address, and carrier-grade NAT.  TEST-NET-2 (198.51.100.0/24) and the
    benchmarking network (198.18.0.0/15) are missing: the resolver does not recognise
    them ([Bdns.reserved_test_networks_pass]). *)
Definition reserved_v4 : list (list Z * Z) := [
  ([10; 0; 0; 0], 8); ([172; 16; 0; 0], 12); ([192; 168; 0; 0], 16); ([127; 0; 0; 0], 8); ([0; 0; 0; 0], 8);
  ([169; 254; 0; 0], 16); ([192; 0; 0; 0], 24); ([192; 0; 2; 0], 24); ([203; 0; 113; 0], 24);
  ([192; 88; 99; 0], 24); ([224; 0; 0; 0], 4); ([240; 0; 0; 0], 4); ([100; 64; 0; 0], 10) ].

(** Unspecified, loopback, discard only, protocol assignments (with benchmarking and
    Teredo), documentation, 6to4, unique local, link local, multicast; the first group of
    16 bits, the second, and the last. *)
Definition reserved_v6 : list (Z * Z * Z * Z) := [
  (0, 0, 0, 128); (0, 0, 1, 128); (0x0100, 0, 0, 64); (0x2001, 0, 0, 23); (0x2001, 0x0db8, 0, 32);
  (0x2002, 0, 0, 16); (0xfc00, 0, 0, 7); (0xfe80, 0, 0, 10); (0xff00, 0, 0, 8) ].

Definition same_prefix (bits ones : Z) (a b : Z) : Prop := a / 2 ^ (bits - ones) = b / 2 ^ (bits - ones).

(** An IPv4 address, of 4 bytes or mapped into 16, or an IPv6 address, in one of them. *)
Definition reserved (addr : string) : Prop :=
  match Net.To4 addr with
  | Some v4 => Exists (fun '(net, ones) => same_prefix 32 ones (be_value v4) (be_value (Net.bytes_of net))) reserved_v4
  | None => Exists (fun '(g0, g1, g7, ones) => same_prefix 128 ones (be_value addr) (g0 * 2 ^ 112 + g1 * 2 ^ 96 + g7)) reserved_v6
  end.

Lemma same_prefix_range bits ones a lo : 0 <= bits - ones -> lo mod 2 ^ (bits - ones) = 0 ->
  same_prefix bits ones a lo -> lo <= a < lo + 2 ^ (bits - ones).
Proof.
  intros Hk Hm He. unfold same_prefix in He. assert (0 < 2 ^ (bits - ones)) by (by apply Z.pow_pos_nonneg).
  pose proof (Z.div_mod a (2 ^ (bits - ones)) ltac:(lia)). pose proof (Z.div_mod lo (2 ^ (bits - ones)) ltac:(lia)).
  pose proof (Z.mod_pos_bound a (2 ^ (bits - ones)) ltac:(lia)). nia.
Qed.

Lemma reserved_in_tables addr : reserved addr ->
  match Net.To4 addr with
  | Some v4 => Bdns.in_ranges 32 Bdns.v4_ranges (be_value v4)
  | None => Bdns.in_ranges 128 Bdns.v6_ranges (be_value addr)
  end.
Proof.
  unfold reserved, reserved_v4, reserved_v6.
  destruct (Net.To4 addr) as [v4|]; rewrite !Exists_cons, Exists_nil; intros HE;
    repeat destruct HE as [HE|HE]; try done; (apply same_prefix_range in HE; [|done|done]).
  all: eexists _, _; split; [|exact HE]; apply list_elem_of_In; vm_compute; tauto.
Qed.

Lemma reserved_not_public addr : reserved addr -> ~ Bdns.public_address addr.
Proof. intros H%reserved_in_tables. unfold Bdns.public_address. destruct (Net.To4 addr); tauto. Qed.

(** A connection to an address that is not reserved. *)
Definition public_dial (d : string) : Prop :=
  exists addr port, (len addr = 4 \/ len addr = 16) /\ ~ reserved addr /\ d = Net.JoinHostPort (Net.IP_String addr) port.

Lemma public_dials addr port : Bdns.public_address addr -> public_dial (Net.JoinHostPort (Net.IP_String addr) port).
Proof.
  intros Hp. exists addr, port. split; [|split; [|done]]; [|intros Hr; by apply (reserved_not_public addr)].
  unfold Bdns.public_address, Net.To4 in Hp. destruct (Z.eqb_spec (len addr) 4); [by left|].
  destruct (Z.eqb_spec (len addr) 16); [by right|]. destruct Hp. lia.
Qed.

(** Two Internets that differ at most in the servers at other addresses. *)
Definition same_public_servers (I1 I2 : Internet) : Prop :=
  (forall n url d, public_dial d -> http_Do (Internet := I1) n url d = http_Do (Internet := I2) n url d) /\
  (forall d sni, public_dial d -> tls_Dial (Internet := I1) d sni = tls_Dial (Internet := I2) d sni) /\
  (forall s h p, URL_String (Internet := I1) s h p = URL_String (Internet := I2) s h p) /\
  (forall u, request_ok (Internet := I1) u = request_ok (Internet := I2) u).

#[local] Instance R : DNSResolver := bdns_resolver r.

Lemma getAddr_public call host addr addrs : getAddr call host = (addr, addrs, None) -> Bdns.public_address addr.
Proof.
  unfold getAddr. cbn. pose proof (Bdns.LookupHost_members r call host production) as H.
  destruct (Bdns.LookupHost r call host) as [[|a l]|]; try done. intros [= <- <-]. apply H. left.
Qed.

Lemma resolve_public call name port rec url :
  resolveAndConstructDialer call name port = (rec, None) -> public_dial (Dial (with_URL rec url)).
Proof.
  unfold resolveAndConstructDialer. destruct (getAddr call name) as [[addr addrs] [|]] eqn:E; [done|].
  intros [= <-]. apply public_dials. by eapply getAddr_public.
Qed.

Lemma logRedirect_public records uh url records' uh' dial :
  logRedirect records uh url = (records', uh', Ok dial) -> public_dial dial.
Proof.
  unfold logRedirect. destruct (maxRedirect <=? _)%nat; [done|]. destruct (redirect_port url) as [[h p]|]; [|done].
  destruct (resolveAndConstructDialer _ _ _) as [rec [|]] eqn:E; [done|]. intros [= <- <- <-].
  by eapply resolve_public.
Qed.

Context (I1 I2 : Internet) (Hsame : same_public_servers I1 I2).

Lemma follow_same left url dial records uh : public_dial dial ->
  follow (I := I1) left url dial records uh = follow (I := I2) left url dial records uh.
Proof.
  revert url dial records uh. induction left as [|left IH]; intros url dial records uh Hd; cbn [follow];
    rewrite (proj1 Hsame) by done; [done|].
  destruct (http_Do _ _ _) as [|location|]; [done| |done].
  destruct (logRedirect records uh location) as [[records' uh'] [dial'|]] eqn:E; [|done].
  apply IH. by eapply logRedirect_public.
Qed.

Lemma fetchHTTP_same ident path useTLS :
  fetchHTTP (I := I1) va ident path useTLS = fetchHTTP (I := I2) va ident path useTLS.
Proof.
  destruct Hsame as (_ & _ & HU & HR). unfold fetchHTTP. destruct useTLS; rewrite !HU, HR.
  all: destruct (negb _); [done|]; destruct (resolveAndConstructDialer _ _ _) as [rec [|]] eqn:E; [done|].
  all: rewrite follow_same by (by eapply resolve_public); done.
Qed.

Lemma tls_sni_same ident ch sni judge :
  tls_sni (I := I1) va ident ch sni judge = tls_sni (I := I2) va ident ch sni judge.
Proof.
  unfold tls_sni. destruct (getAddr 0 (idValue ident)) as [[addr addrs] [|]] eqn:E; [done|].
  unfold getTLSSNICerts. rewrite (proj1 (proj2 Hsame)); [done|].
  apply public_dials. by eapply getAddr_public.
Qed.

(** C38. With the production resolver, servers at addresses of the special-purpose
    networks in [reserved_v4] and [reserved_v6] (private, loopback, link local and so on,
    but not the two networks the resolver's table misspells) cannot influence a
    validation, whatever the applicant's DNS and redirects say: replacing all of them
    leaves the result, records and problems included, unchanged. *)
Theorem validation_ignores_reserved_servers (domain : string) (ch : Challenge) :
  PerformValidation (I := I1) va domain ch = PerformValidation (I := I2) va domain ch.
Proof.
  unfold PerformValidation, validateChallengeAndCAA, validateChallenge, validateHTTP01, validateTLSSNI01,
    validateTLSSNI02, validateTLSSNI01WithZName, validateTLSSNI02WithZNames.
  by rewrite fetchHTTP_same, !tls_sni_same.
Qed.

End isolation.

End VaChecks.
