(* ===== verification/RegistrationAuthority.v ===== *)
(** * ra/ra.go: the registration authority

    The decisions of the RA: accepting registrations, offering and updating
    authorizations, checking rate limits, issuing and revoking certificates.  The
    services it calls are interfaces: the storage authority as a class of
    operations on an abstract state, the policy authority, the CA (which itself
    writes to storage) and the VA.  Work the code leaves to goroutines is queued
    in the state and run by its own step. *)

From S2P Require Import Prelude GoStd Net Errors Features Core GoodKey PublicSuffix Policy RateLimit Csr Storage.

(** ** Interfaces *)

(** [core.StorageAuthority], as far as the RA uses it, over a state [S]. *)
Class StorageAuthority (S : Type) := {
  sa_GetRegistration : Z -> M S error Registration;
  sa_GetAuthorization : string -> M S error Authorization;
  sa_GetValidAuthorizations : Z -> list string -> Z -> M S error (gmap string Authorization);
  sa_CountRegistrationsByIP : string -> Z -> Z -> M S error Z;
  sa_CountPendingAuthorizations : Z -> M S error Z;
  sa_CountInvalidAuthorizations : Z -> string -> Z -> Z -> M S error (option Z);
  sa_CountCertificatesRange : Z -> Z -> M S error Z;
  sa_CountCertificatesByNames : list string -> Z -> Z -> M S error (gmap string Z);
  sa_CountFQDNSets : Z -> list string -> M S error Z;
  sa_FQDNSetExists : list string -> M S error bool;
  sa_NewRegistration : Registration -> M S error Registration;
  sa_UpdateRegistration : Registration -> M S error unit;
  sa_NewPendingAuthorization : Authorization -> M S error Authorization;
  sa_UpdatePendingAuthorization : Authorization -> M S error unit;
  sa_FinalizeAuthorization : Authorization -> M S error unit;
  sa_MarkCertificateRevoked : string -> Z -> M S error unit;
  sa_DeactivateRegistration : Z -> M S error unit;
  sa_DeactivateAuthorization : string -> M S error unit
}.

(** [core.PolicyAuthority]; the number of the draw stands for the random choices. *)
Class PolicyAuthority := {
  pa_WillingToIssue : AcmeIdentifier -> result error unit;
  pa_ChallengesFor : nat -> AcmeIdentifier -> list Challenge * list (list Z)
}.

(** [core.CertificateAuthority]: issuing also stores the certificate. *)
Class CertificateAuthority (S : Type) := {
  ca_IssueCertificate : CertificateRequest -> Z -> M S error Certificate
}.

(** The VA's safe-browsing answer, name resolution, and the parts of net/mail,
    net/url and fmt that are used. *)
Class RAEnv := {
  va_IsSafeDomain : string -> result error bool;
  ParseAddressList : string -> option (list string);
  url_Parse : string -> option (string * string);
  LookupMX : string -> result error (list string);
  LookupHost : string -> result error (list string);
  fmt_duration : Z -> string;
  fmt_time : Z -> string;
  fmt_challenge : Challenge -> string
}.

Module RA.

Record Config := {
  keyPolicy : GoodKey.KeyPolicy;
  maxContactsPerReg : Z;
  maxNames : Z;
  forceCNFromSAN : bool;
  reuseValidAuthz : bool;
  authorizationLifetime : Z;
  pendingAuthorizationLifetime : Z;
  (** the storage client is the gRPC one *)
  usingGRPC : bool;
  (** a publisher is configured *)
  hasPublisher : bool
}.

(** What [NewCertificate] writes to the audit log, with its random ID and constant
    request method left out. *)
Record certificateRequestEvent := {
  ev_Requester : Z;
  ev_SerialNumber : string;
  ev_VerifiedFields : list string;
  ev_CommonName : string;
  ev_Names : list string;
  ev_NotBefore : Z;
  ev_NotAfter : Z;
  ev_RequestTime : Z;
  ev_ResponseTime : Z;
  ev_Error : string
}.

(** The RA's mutable fields, its clock, the jobs it has handed to goroutines, its
    audit log, and the requests it has sent to the CA, latest first. *)
Record World (S : Type) := {
  sa : S;
  rlPolicies : RateLimit.limitsImpl;
  totalIssuedCount : Z;
  totalIssuedLastUpdate : Z;
  ra_now : Z;
  ra_ticks : list Z;
  draws : nat;
  vaJobs : list (Authorization * nat);
  ctJobs : list string;
  audit : list (string * certificateRequestEvent);
  caRequests : list (CertificateRequest * Z)
}.
Arguments sa {S} _.
Arguments rlPolicies {S} _.
Arguments totalIssuedCount {S} _.
Arguments totalIssuedLastUpdate {S} _.
Arguments ra_now {S} _.
Arguments ra_ticks {S} _.
Arguments draws {S} _.
Arguments vaJobs {S} _.
Arguments ctJobs {S} _.
Arguments audit {S} _.
Arguments caRequests {S} _.

Definition set_sa {S} (w : World S) (s : S) : World S :=
  {| sa := s; rlPolicies := rlPolicies w; totalIssuedCount := totalIssuedCount w;
     totalIssuedLastUpdate := totalIssuedLastUpdate w; ra_now := ra_now w; ra_ticks := ra_ticks w;
     draws := draws w; vaJobs := vaJobs w; ctJobs := ctJobs w; audit := audit w; caRequests := caRequests w |}.
Definition set_total {S} (w : World S) (count updated : Z) : World S :=
  {| sa := sa w; rlPolicies := rlPolicies w; totalIssuedCount := count; totalIssuedLastUpdate := updated;
     ra_now := ra_now w; ra_ticks := ra_ticks w; draws := draws w; vaJobs := vaJobs w; ctJobs := ctJobs w;
     audit := audit w; caRequests := caRequests w |}.
Definition tick {S} (w : World S) : World S :=
  {| sa := sa w; rlPolicies := rlPolicies w; totalIssuedCount := totalIssuedCount w;
     totalIssuedLastUpdate := totalIssuedLastUpdate w; ra_now := ra_now w + default 0 (head (ra_ticks w));
     ra_ticks := tail (ra_ticks w); draws := draws w; vaJobs := vaJobs w; ctJobs := ctJobs w;
     audit := audit w; caRequests := caRequests w |}.
Definition draw {S} (w : World S) : World S :=
  {| sa := sa w; rlPolicies := rlPolicies w; totalIssuedCount := totalIssuedCount w;
     totalIssuedLastUpdate := totalIssuedLastUpdate w; ra_now := ra_now w; ra_ticks := ra_ticks w;
     draws := Datatypes.S (draws w); vaJobs := vaJobs w; ctJobs := ctJobs w; audit := audit w;
     caRequests := caRequests w |}.
Definition set_vaJobs {S} (w : World S) (j : list (Authorization * nat)) : World S :=
  {| sa := sa w; rlPolicies := rlPolicies w; totalIssuedCount := totalIssuedCount w;
     totalIssuedLastUpdate := totalIssuedLastUpdate w; ra_now := ra_now w; ra_ticks := ra_ticks w;
     draws := draws w; vaJobs := j; ctJobs := ctJobs w; audit := audit w; caRequests := caRequests w |}.
Definition add_ctJob {S} (w : World S) (der : string) : World S :=
  {| sa := sa w; rlPolicies := rlPolicies w; totalIssuedCount := totalIssuedCount w;
     totalIssuedLastUpdate := totalIssuedLastUpdate w; ra_now := ra_now w; ra_ticks := ra_ticks w;
     draws := draws w; vaJobs := vaJobs w; ctJobs := der :: ctJobs w; audit := audit w;
     caRequests := caRequests w |}.
Definition add_audit {S} (w : World S) (e : string * certificateRequestEvent) : World S :=
  {| sa := sa w; rlPolicies := rlPolicies w; totalIssuedCount := totalIssuedCount w;
     totalIssuedLastUpdate := totalIssuedLastUpdate w; ra_now := ra_now w; ra_ticks := ra_ticks w;
     draws := draws w; vaJobs := vaJobs w; ctJobs := ctJobs w; audit := e :: audit w;
     caRequests := caRequests w |}.
Definition add_caRequest {S} (w : World S) (csr : CertificateRequest) (regID : Z) : World S :=
  {| sa := sa w; rlPolicies := rlPolicies w; totalIssuedCount := totalIssuedCount w;
     totalIssuedLastUpdate := totalIssuedLastUpdate w; ra_now := ra_now w; ra_ticks := ra_ticks w;
     draws := draws w; vaJobs := vaJobs w; ctJobs := ctJobs w; audit := audit w;
     caRequests := (csr, regID) :: caRequests w |}.

Section ra.
Context {S : Type} {GL : GoLib} {Cr : Crypto} {EC : Elliptic} {X : X509} {PE : Policy.PolicyEnv}
        {SA : StorageAuthority S} {PA : PolicyAuthority} {CA : CertificateAuthority S} {RE : RAEnv}.
Context (fs : Features.state) (cfg : Config).

Definition RAM (A : Type) : Type := M (World S) error A.

(** [ra.clk.Now()] *)
Definition Now : RAM Z := fun w => (Ok (ra_now w), tick w).

(** A call to the storage authority, or to the CA. *)
Definition rpc {A} (m : M S error A) : RAM A :=
  fun w => let '(r, s) := m (sa w) in (r, set_sa w s).

Definition policies : RAM RateLimit.limitsImpl := fun w => (Ok (rlPolicies w), w).

(** ** Total issuance *)

Definition updateIssuedCount : RAM unit :=
  let! rl := policies in
  let totalCertLimit := RateLimit.TotalCertificates rl in
  if RateLimit.Enabled totalCertLimit then
    let! now := Now in
    let! count := rpc (sa_CountCertificatesRange (time_Add now (wrap64 (- RateLimit.Window totalCertLimit))) now) in
    let! updated := Now in
    modify (fun w => set_total w count updated)
  else ret tt.

Definition checkTotalCertificatesLimit : RAM unit :=
  let! rl := policies in
  let totalCertLimits := RateLimit.TotalCertificates rl in
  let! now := Now in
  let! w := get in
  if time_After now (time_Add (totalIssuedLastUpdate w) (5 * Minute)) || time_IsZero (totalIssuedLastUpdate w) then
    fail (BoulderError Berrors.InternalServer
            ("Total certificate count out of date: updated " ++s fmt_time (totalIssuedLastUpdate w)))
  else if RateLimit.Threshold totalCertLimits <=? totalIssuedCount w then
    fail (Berrors.RateLimitError "global certificate issuance limit reached. Try again in an hour")
  else ret tt.

(** ** Contacts *)

Notation unparseableEmailError := (Berrors.InvalidEmailError "not a valid e-mail address") (only parsing).
Notation emptyDNSResponseError := (Berrors.InvalidEmailError "empty DNS response") (only parsing).
Notation multipleAddressError := (Berrors.InvalidEmailError "more than one e-mail address") (only parsing).

Definition problemIsTimeout {A} (r : result error A) : bool :=
  match r with Err (DNSError true _) => true | _ => false end.

Definition validateEmail (address : string) : result error unit :=
  match ParseAddressList address with
  | None => Err unparseableEmailError
  | Some emails =>
      if 1 <? Z.of_nat (length emails) then Err multipleAddressError
      else
        match emails with
        | [] => Err (PlainError "runtime error: index out of range")
        | email :: _ =>
            let domain := ToLower (default EmptyString (last (split_on "@" email))) in
            let mx := LookupMX domain in
            let a := LookupHost domain in
            if problemIsTimeout mx || problemIsTimeout a then Ok tt
            else
              match mx with
              | Err errMX => Err (Berrors.InvalidEmailError (Error errMX))
              | Ok (_ :: _) => Ok tt
              | Ok [] =>
                  match a with
                  | Err errA => Err (Berrors.InvalidEmailError (Error errA))
                  | Ok (_ :: _) => Ok tt
                  | Ok [] => Err emptyDNSResponseError
                  end
              end
        end
  end.

(** The body of the loop of [validateContacts], with its two clock readings. *)
Definition validate_contact (contact : string) : RAM unit :=
  if is_empty contact then fail (Berrors.MalformedError "empty contact")
  else
    match url_Parse contact with
    | None => fail (Berrors.MalformedError "invalid contact")
    | Some (scheme, opaque) =>
        if negb (String.eqb scheme "mailto") then
          fail (BoulderError Berrors.Malformed ("contact method " ++s scheme ++s " is not supported"))
        else if negb (IsASCII contact) then
          fail (BoulderError Berrors.Malformed
                  ("contact email [" ++s contact ++s "] contains non-ASCII characters"))
        else
          do! Now in
          let err := validateEmail opaque in
          do! Now in
          lift err
    end.

Definition validateContacts (contacts : option (list string)) : RAM unit :=
  match contacts with
  | None | Some [] => ret tt
  | Some cs =>
      if (0 <? maxContactsPerReg cfg) && (maxContactsPerReg cfg <? Z.of_nat (length cs)) then
        fail (BoulderError Berrors.Malformed ("too many contacts provided: " ++s itoa (Z.of_nat (length cs))
                                              ++s " > " ++s itoa (maxContactsPerReg cfg)))
      else forM cs validate_contact
  end.

(** ** Registrations *)

Definition noRegistrationID : Z := -1.

Definition checkRegistrationLimit (ip : option string) : RAM unit :=
  let! rl := policies in
  let limit := RateLimit.RegistrationsPerIP rl in
  if RateLimit.Enabled limit then
    let! now := Now in
    let! count := rpc (sa_CountRegistrationsByIP (default EmptyString ip) (RateLimit.WindowBegin limit now) now) in
    if RateLimit.GetThreshold limit (Net.IP_String (default EmptyString ip)) noRegistrationID <=? count then
      fail (Berrors.RateLimitError "too many registrations for this IP")
    else ret tt
  else ret tt.

(** [contactsEqual]; it sorts both slices in place, so the base's contacts come back
    sorted whenever the lengths agree. *)
Definition contactsEqual (r : Registration) (other : list string) : bool :=
  match reg_Contact r with
  | None => false
  | Some rc =>
      if negb (length other =? length rc)%nat then false
      else bool_decide (sort_strings other = sort_strings rc)
  end.
Definition contacts_after (r : Registration) (other : list string) : option (list string) :=
  match reg_Contact r with
  | None => None
  | Some rc => if negb (length other =? length rc)%nat then Some rc else Some (sort_strings rc)
  end.

(** [mergeUpdate]: the updated base, and whether it changed.  The input's slice is
    sorted by the comparison as well, before it is stored. *)
Definition same_length (r : Registration) (c : list string) : bool :=
  match reg_Contact r with None => false | Some rc => (length c =? length rc)%nat end.

Definition merge_key (r input : Registration) : result error (option JsonWebKey * bool) :=
  match reg_Key input with
  | Some k =>
      if flag fs Features.AllowKeyRollover then
        match reg_Key r with
        | None => Err nil_dereference
        | Some rk =>
            let sameKey := match PublicKeysEqual (Some (Key rk)) (Some (Key k)) with
                           | Ok b => b | Err _ => false end in
            if negb sameKey then Ok (Some k, true) else Ok (Some rk, false)
        end
      else Ok (reg_Key r, false)
  | None => Ok (reg_Key r, false)
  end.

Definition mergeUpdate (r input : Registration) : result error (Registration * bool) :=
  let '(contact, changed1) :=
    match reg_Contact input with
    | None => (reg_Contact r, false)
    | Some c =>
        if contactsEqual r c then (contacts_after r c, false)
        else (Some (if same_length r c then sort_strings c else c), true)
    end in
  let '(agreement, changed2) :=
    if negb (is_empty (reg_Agreement input)) && negb (String.eqb (reg_Agreement input) (reg_Agreement r))
    then (reg_Agreement input, true) else (reg_Agreement r, false) in
  let? (key, changed3) := merge_key r input in
  Ok ({| reg_ID := reg_ID r; reg_Key := key; reg_Contact := contact; reg_Agreement := agreement;
         reg_InitialIP := reg_InitialIP r; reg_CreatedAt := reg_CreatedAt r; reg_Status := reg_Status r |},
      changed1 || changed2 || changed3).

Definition set_InitialIP (r : Registration) (ip : option string) : Registration :=
  {| reg_ID := reg_ID r; reg_Key := reg_Key r; reg_Contact := reg_Contact r;
     reg_Agreement := reg_Agreement r; reg_InitialIP := ip; reg_CreatedAt := reg_CreatedAt r;
     reg_Status := reg_Status r |}.

Definition NewRegistration (init : Registration) : RAM Registration :=
  match reg_Key init with
  | None => fail nil_dereference
  | Some key =>
      match GoodKey.GoodKey (keyPolicy cfg) (Key key) with
      | Err err => fail (BoulderError Berrors.Malformed ("invalid public key: " ++s Error err))
      | Ok _ =>
          do! checkRegistrationLimit (reg_InitialIP init) in
          let reg := {| reg_ID := 0; reg_Key := reg_Key init; reg_Contact := None;
                        reg_Agreement := EmptyString; reg_InitialIP := None; reg_CreatedAt := zeroTime;
                        reg_Status := StatusValid |} in
          let! (reg, _) := lift (mergeUpdate reg init) in
          let reg := set_InitialIP reg (reg_InitialIP init) in
          do! validateContacts (reg_Contact reg) in
          let! r := try (rpc (sa_NewRegistration reg)) in
          match r with
          | Ok reg => ret reg
          | Err err => fail (Berrors.InternalServerError (Error err))
          end
      end
  end.

Definition UpdateRegistration (base update : Registration) : RAM Registration :=
  let! (base, changed) := lift (mergeUpdate base update) in
  if negb changed then ret base
  else
    do! validateContacts (reg_Contact base) in
    let! r := try (rpc (sa_UpdateRegistration base)) in
    match r with
    | Ok _ => ret base
    | Err err => fail (BoulderError Berrors.InternalServer ("Could not update registration: " ++s Error err))
    end.

Definition DeactivateRegistration (reg : Registration) : RAM unit :=
  if negb (String.eqb (reg_Status reg) StatusValid) then
    fail (Berrors.MalformedError "only valid registrations can be deactivated")
  else
    let! r := try (rpc (sa_DeactivateRegistration (reg_ID reg))) in
    match r with
    | Ok _ => ret tt
    | Err err => fail (Berrors.InternalServerError (Error err))
    end.

(** ** Certificate rate limits *)

(** [domainsForRateLimiting]; its error is always nil. *)
Definition base_domain (name : string) : string :=
  match PublicSuffix.Domain Policy.suffix_rules name with Ok domain => domain | Err _ => name end.
Fixpoint domains_loop (names : list string) (domainsMap : gset string) (domains : list string) : list string :=
  match names with
  | [] => domains
  | name :: names' =>
      let domain := base_domain name in
      if bool_decide (domain ∈ domainsMap) then domains_loop names' domainsMap domains
      else domains_loop names' ({[domain]} ∪ domainsMap) (domains ++ [domain])
  end.
Definition domainsForRateLimiting (names : list string) : list string := domains_loop names ∅ [].

(** The names at or above their threshold; an error when a count is missing. *)
Fixpoint over_limit (limit : RateLimit.RateLimitPolicy) (regID : Z) (counts : gmap string Z)
    (tldNames : list string) : result error (list string) :=
  match tldNames with
  | [] => Ok []
  | name :: tldNames' =>
      match counts !! name with
      | None => Err (PlainError "CountCertificatesByNames failed to return a count for every name")
      | Some count =>
          let? rest := over_limit limit regID counts tldNames' in
          Ok (if RateLimit.GetThreshold limit name regID <=? count then name :: rest else rest)
      end
  end.

Definition checkCertificatesPerNameLimit (names : list string) (limit : RateLimit.RateLimitPolicy)
    (regID : Z) : RAM unit :=
  let tldNames := domainsForRateLimiting names in
  let! now := Now in
  let windowBegin := RateLimit.WindowBegin limit now in
  let! counts := rpc (sa_CountCertificatesByNames tldNames windowBegin now) in
  let! badNames := lift (over_limit limit regID counts tldNames) in
  match badNames with
  | [] => ret tt
  | _ =>
      let! exists_ := rpc (sa_FQDNSetExists names) in
      if exists_ : bool then ret tt
      else fail (BoulderError Berrors.RateLimit
                   ("too many certificates already issued for: " ++s join ", " badNames))
  end.

Definition checkCertificatesPerFQDNSetLimit (names : list string) (limit : RateLimit.RateLimitPolicy)
    (regID : Z) : RAM unit :=
  let! count := rpc (sa_CountFQDNSets (RateLimit.Window limit) names) in
  let names := UniqueLowerNames names in
  if RateLimit.GetThreshold limit (join "," names) regID <? count then
    fail (BoulderError Berrors.RateLimit
            ("too many certificates already issued for exact set of domains: " ++s join "," names))
  else ret tt.

Definition checkLimits (names : list string) (regID : Z) : RAM unit :=
  let! rl := policies in
  do! (if RateLimit.Enabled (RateLimit.TotalCertificates rl) then checkTotalCertificatesLimit else ret tt) in
  let! rl := policies in
  let certNameLimits := RateLimit.CertificatesPerName rl in
  do! (if RateLimit.Enabled certNameLimits
       then checkCertificatesPerNameLimit names certNameLimits regID else ret tt) in
  let! rl := policies in
  let fqdnLimits := RateLimit.CertificatesPerFQDNSet rl in
  if RateLimit.Enabled fqdnLimits then checkCertificatesPerFQDNSetLimit names fqdnLimits regID else ret tt.

(** ** Authorizations *)

Definition checkPendingAuthorizationLimit (regID : Z) : RAM unit :=
  let! rl := policies in
  let limit := RateLimit.PendingAuthorizationsPerAccount rl in
  if RateLimit.Enabled limit then
    let! count := rpc (sa_CountPendingAuthorizations regID) in
    if RateLimit.GetThreshold limit EmptyString regID <=? count then
      fail (Berrors.RateLimitError "too many currently pending authorizations")
    else ret tt
  else ret tt.

Definition checkInvalidAuthorizationLimit (regID : Z) (hostname : string) : RAM unit :=
  let! rl := policies in
  let limit := RateLimit.InvalidAuthorizationsPerAccount rl in
  if negb (RateLimit.Enabled limit) || negb (usingGRPC cfg) then ret tt
  else
    let! now := Now in
    let latest := time_Add now (pendingAuthorizationLifetime cfg) in
    let earliest := time_Add latest (wrap64 (- RateLimit.Window limit)) in
    let! count := rpc (sa_CountInvalidAuthorizations regID hostname (wrap64 earliest) (wrap64 latest)) in
    match count with
    | None => fail (PlainError "nil count")
    | Some count =>
        if RateLimit.GetThreshold limit EmptyString regID <=? count then
          fail (CoreRateLimitedError "Too many invalid authorizations recently.")
        else ret tt
    end.

(** The part of [NewAuthorization] under [ra.reuseValidAuthz]: an authorization to
    hand out again, if there is one. *)
Definition reusable (regID : Z) (identifier : AcmeIdentifier) : RAM (option Authorization) :=
  let! now := Now in
  let! auths := try (rpc (sa_GetValidAuthorizations regID [idValue identifier] now)) in
  match auths with
  | Err _ => fail (BoulderError Berrors.InternalServer
                     ("unable to get existing validations for regID: " ++s itoa regID
                      ++s ", identifier: " ++s idValue identifier))
  | Ok auths =>
      match auths !! idValue identifier with
      | None => ret None
      | Some existingAuthz =>
          let! populated := try (rpc (sa_GetAuthorization (az_ID existingAuthz))) in
          match populated with
          | Err _ => fail (BoulderError Berrors.InternalServer
                             ("unable to get existing authorization for auth ID: " ++s az_ID existingAuthz))
          | Ok populatedAuthz =>
              let! now := Now in
              let reuseCutOff := time_Add now (Hour * 24) in
              match az_Expires populatedAuthz with
              | None => fail nil_dereference
              | Some expires =>
                  ret (if time_After expires reuseCutOff then Some populatedAuthz else None)
              end
          end
      end
  end.

Definition checkSafeDomain (identifier : AcmeIdentifier) : RAM unit :=
  if String.eqb (idType identifier) IdentifierDNS then
    match va_IsSafeDomain (idValue identifier) with
    | Err _ => fail (Berrors.InternalServerError "unable to determine if domain was safe")
    | Ok true => ret tt
    | Ok false => fail (BoulderError Berrors.Unauthorized
                          (Quote (idValue identifier) ++s " was considered an unsafe domain by a third-party API"))
    end
  else ret tt.

Definition ChallengesFor (identifier : AcmeIdentifier) : RAM (list Challenge * list (list Z)) :=
  fun w => (Ok (pa_ChallengesFor (draws w) identifier), draw w).

Definition check_offer (challenge : Challenge) : RAM unit :=
  if IsSaneForClientOffer challenge then ret tt
  else fail (BoulderError Berrors.InternalServer
               ("challenge didn't pass sanity check: " ++s fmt_challenge challenge)).

Definition create_authorization (regID : Z) (identifier : AcmeIdentifier) : RAM Authorization :=
  let! (challenges, combinations) := ChallengesFor identifier in
  let! now := Now in
  let expires := time_Add now (pendingAuthorizationLifetime cfg) in
  let authz := {| az_ID := EmptyString; az_Identifier := identifier; az_RegistrationID := regID;
                  az_Status := StatusPending; az_Expires := Some expires;
                  az_Challenges := challenges; az_Combinations := combinations |} in
  let! r := try (rpc (sa_NewPendingAuthorization authz)) in
  match r with
  | Err err => fail (BoulderError Berrors.InternalServer ("invalid authorization request: " ++s Error err))
  | Ok authz => do! forM (az_Challenges authz) check_offer in ret authz
  end.

Definition NewAuthorization (request : Authorization) (regID : Z) : RAM Authorization :=
  let identifier := {| idType := idType (az_Identifier request);
                       idValue := ToLower (idValue (az_Identifier request)) |} in
  do! lift (pa_WillingToIssue identifier) in
  do! checkPendingAuthorizationLimit regID in
  do! checkInvalidAuthorizationLimit regID (idValue identifier) in
  do! checkSafeDomain identifier in
  let! existing := if reuseValidAuthz cfg then reusable regID identifier else ret None in
  match existing with
  | Some authz => ret authz
  | None => create_authorization regID identifier
  end.

Definition set_ProvidedKeyAuthorization (ch : Challenge) (ka : string) : Challenge :=
  {| ch_ID := ch_ID ch; ch_Type := ch_Type ch; ch_Status := ch_Status ch; ch_Error := ch_Error ch;
     ch_URI := ch_URI ch; ch_Token := ch_Token ch; ch_ProvidedKeyAuthorization := ka;
     ch_ValidationRecord := ch_ValidationRecord ch |}.
Definition set_Challenges (a : Authorization) (cs : list Challenge) : Authorization :=
  {| az_ID := az_ID a; az_Identifier := az_Identifier a; az_RegistrationID := az_RegistrationID a;
     az_Status := az_Status a; az_Expires := az_Expires a; az_Challenges := cs;
     az_Combinations := az_Combinations a |}.
Definition set_outcome (a : Authorization) (status : AcmeStatus) (expires : option Z) : Authorization :=
  {| az_ID := az_ID a; az_Identifier := az_Identifier a; az_RegistrationID := az_RegistrationID a;
     az_Status := status; az_Expires := expires; az_Challenges := az_Challenges a;
     az_Combinations := az_Combinations a |}.

(** [UpdateAuthorization]; the last step starts the goroutine. *)
Definition UpdateAuthorization (base : Authorization) (challengeIndex : Z) (response : Challenge)
    : RAM Authorization :=
  match az_Expires base with
  | None => fail (Berrors.MalformedError "expired authorization")
  | Some expires =>
      let! now := Now in
      if time_Before expires now then fail (Berrors.MalformedError "expired authorization")
      else if Z.of_nat (length (az_Challenges base)) <=? challengeIndex then
        fail (BoulderError Berrors.Malformed ("invalid challenge index '" ++s itoa challengeIndex ++s "'"))
      else if challengeIndex <? 0 then fail (PlainError "runtime error: index out of range")
      else
        let i := Z.to_nat challengeIndex in
        match az_Challenges base !! i with
        | None => fail (PlainError "runtime error: index out of range")
        | Some ch =>
            if reuseValidAuthz cfg && String.eqb (az_Status base) StatusValid then ret base
            else
              let! r := try (rpc (sa_GetRegistration (az_RegistrationID base))) in
              match r with
              | Err err => fail (Berrors.InternalServerError (Error err))
              | Ok reg =>
                  match ExpectedKeyAuthorization ch (reg_Key reg) with
                  | Err _ => fail (Berrors.InternalServerError "could not compute expected key authorization value")
                  | Ok expected =>
                      if negb (String.eqb expected (ch_ProvidedKeyAuthorization response)) then
                        fail (Berrors.MalformedError "provided key authorization was incorrect")
                      else
                        let ch := set_ProvidedKeyAuthorization ch (ch_ProvidedKeyAuthorization response) in
                        let authz := set_Challenges base (<[i := ch]> (az_Challenges base)) in
                        if negb (IsSaneForValidation ch) then
                          fail (Berrors.MalformedError "response does not complete challenge")
                        else
                          let! r := try (rpc (sa_UpdatePendingAuthorization authz)) in
                          match r with
                          | Err _ => fail (Berrors.InternalServerError "could not update pending authorization")
                          | Ok _ =>
                              do! modify (fun w => set_vaJobs w (vaJobs w ++ [(authz, i)])) in
                              ret authz
                          end
                  end
              end
        end
  end.

(** ** The validation goroutine *)

Definition validated (authz : Authorization) (i : Z) : bool :=
  if i <? 0 then false
  else match az_Challenges authz !! Z.to_nat i with
       | Some ch => String.eqb (ch_Status ch) StatusValid
       | None => false
       end.

Definition onValidationUpdate (authz : Authorization) : RAM unit :=
  let status := if existsb (forallb (validated authz)) (az_Combinations authz)
                then StatusValid else az_Status authz in
  if negb (String.eqb status StatusValid) then
    rpc (sa_FinalizeAuthorization (set_outcome authz StatusInvalid (az_Expires authz)))
  else
    let! now := Now in
    let exp := time_Add now (authorizationLifetime cfg) in
    rpc (sa_FinalizeAuthorization (set_outcome authz status (Some exp))).

(** The challenge after the VA's answer. *)
Definition with_records (ch : Challenge) (records : list ValidationRecord) : Challenge :=
  {| ch_ID := ch_ID ch; ch_Type := ch_Type ch; ch_Status := ch_Status ch; ch_Error := ch_Error ch;
     ch_URI := ch_URI ch; ch_Token := ch_Token ch;
     ch_ProvidedKeyAuthorization := ch_ProvidedKeyAuthorization ch; ch_ValidationRecord := records |}.
Definition with_outcome (ch : Challenge) (status : AcmeStatus) (err : option Probs.ProblemDetails) : Challenge :=
  {| ch_ID := ch_ID ch; ch_Type := ch_Type ch; ch_Status := status; ch_Error := err;
     ch_URI := ch_URI ch; ch_Token := ch_Token ch;
     ch_ProvidedKeyAuthorization := ch_ProvidedKeyAuthorization ch;
     ch_ValidationRecord := ch_ValidationRecord ch |}.
Definition record_validation (challenge : Challenge) (records : list ValidationRecord)
    (err : option error) : Challenge :=
  let prob := match err with
              | Some (ProblemError p) => Some p
              | Some _ => Some (Probs.ServerInternal "Could not communicate with VA")
              | None => None
              end in
  let challenge := with_records challenge records in
  let prob := if negb (RecordsSane challenge) && is_nil prob
              then Some (Probs.ServerInternal "Records for validation failed sanity check") else prob in
  match prob with
  | Some p => with_outcome challenge StatusInvalid (Some p)
  | None => with_outcome challenge StatusValid (ch_Error challenge)
  end.

(** The body of the goroutine, on the VA's answer; its error is only logged. *)
Definition finish_validation (authz : Authorization) (challengeIndex : nat)
    (records : list ValidationRecord) (err : option error) : RAM unit :=
  match az_Challenges authz !! challengeIndex with
  | None => fail (PlainError "runtime error: index out of range")
  | Some challenge =>
      let challenge := record_validation challenge records err in
      do! try (onValidationUpdate
                 (set_Challenges authz (<[challengeIndex := challenge]> (az_Challenges authz)))) in
      ret tt
  end.

(** Goroutine number [j] receives its answer and finishes. *)
Definition validation_done (j : nat) (records : list ValidationRecord) (err : option error) : RAM unit :=
  let! w := get in
  match vaJobs w !! j with
  | None => ret tt
  | Some (authz, i) =>
      do! put (set_vaJobs w (delete j (vaJobs w))) in
      finish_validation authz i records err
  end.

Definition DeactivateAuthorization (auth : Authorization) : RAM unit :=
  if negb (String.eqb (az_Status auth) StatusValid) && negb (String.eqb (az_Status auth) StatusPending) then
    fail (Berrors.MalformedError "only valid and pending authorizations can be deactivated")
  else
    let! r := try (rpc (sa_DeactivateAuthorization (az_ID auth))) in
    match r with
    | Ok _ => ret tt
    | Err err => fail (Berrors.InternalServerError (Error err))
    end.

(** ** Certificates *)

Definition csr_key (csr : CertificateRequest) : KeyArg :=
  match csr_PublicKey csr with Some k => RawKey k | None => JwkPtr None end.

(** [MatchesCSR].  The two address lists are nil or non-empty, so equality is
    [reflect.DeepEqual]; the names of the CSR are never nil, those of a certificate
    without names are. *)
Definition MatchesCSR (parsedCertificate : X509Certificate) (csr : CertificateRequest) : RAM unit :=
  let hostNames := csr_DNSNames csr in
  let hostNames := if 0 <? len (csr_CommonName csr) then hostNames ++ [csr_CommonName csr] else hostNames in
  let hostNames := UniqueLowerNames hostNames in
  if negb (KeyDigestEquals (RawKey (x5_PublicKey parsedCertificate)) (csr_key csr)) then
    fail (Berrors.InternalServerError "generated certificate public key doesn't match CSR public key")
  else if negb (forceCNFromSAN cfg) && (0 <? len (csr_CommonName csr))
       && negb (String.eqb (x5_CommonName parsedCertificate) (ToLower (csr_CommonName csr))) then
    fail (Berrors.InternalServerError "generated certificate CommonName doesn't match CSR CommonName")
  else
    let parsedNames := sort_strings (x5_DNSNames parsedCertificate) in
    let hostNames := sort_strings hostNames in
    if bool_decide (parsedNames = []) || negb (bool_decide (parsedNames = hostNames)) then
      fail (Berrors.InternalServerError "generated certificate DNSNames don't match CSR DNSNames")
    else if negb (bool_decide (x5_IPAddresses parsedCertificate = csr_IPAddresses csr)) then
      fail (Berrors.InternalServerError "generated certificate IPAddresses don't match CSR IPAddresses")
    else if negb (bool_decide (x5_EmailAddresses parsedCertificate = csr_EmailAddresses csr)) then
      fail (Berrors.InternalServerError "generated certificate EmailAddresses don't match CSR EmailAddresses")
    else if 0 <? Z.of_nat (length (x5_OtherSubject parsedCertificate)) then
      fail (Berrors.InternalServerError
              "generated certificate Subject contains fields other than CommonName, or SerialNumber")
    else
      let! now := Now in
      if Hour * 24 <? time_Sub now (x5_NotBefore parsedCertificate) then
        fail (BoulderError Berrors.InternalServer
                ("generated certificate is back dated "
                 ++s fmt_duration (time_Sub now (x5_NotBefore parsedCertificate))))
      else if negb (x5_BasicConstraintsValid parsedCertificate) then
        fail (Berrors.InternalServerError "generated certificate doesn't have basic constraints set")
      else if x5_IsCA parsedCertificate then
        fail (Berrors.InternalServerError "generated certificate can sign other certificates")
      else if negb (bool_decide (x5_ExtKeyUsage parsedCertificate
                                 = [ExtKeyUsageServerAuth; ExtKeyUsageClientAuth])) then
        fail (Berrors.InternalServerError "generated certificate doesn't have correct key usage extensions")
      else ret tt.

(** The second loop of [checkAuthorizations]. *)
Fixpoint unauthorized_names (auths : gmap string Authorization) (now : Z) (names : list string)
    : result error (list string) :=
  match names with
  | [] => Ok []
  | name :: names' =>
      match auths !! name with
      | None => let? rest := unauthorized_names auths now names' in Ok (name :: rest)
      | Some authz =>
          match az_Expires authz with
          | None => Err (BoulderError Berrors.InternalServer
                           ("found an authorization with a nil Expires field: id " ++s az_ID authz))
          | Some expires =>
              let? rest := unauthorized_names auths now names' in
              Ok (if time_Before expires now then name :: rest else rest)
          end
      end
  end.

Definition checkAuthorizations (names : list string) (registration : Registration) : RAM unit :=
  let! now := Now in
  let names := map ToLower names in
  let! auths := rpc (sa_GetValidAuthorizations (reg_ID registration) names now) in
  let! badNames := lift (unauthorized_names auths now names) in
  match badNames with
  | [] => ret tt
  | _ => fail (BoulderError Berrors.Unauthorized
                 ("authorizations for these names not found or expired: " ++s join ", " badNames))
  end.

(** [ra.CA.IssueCertificate(ctx, *csr, regID)], remembered as sent. *)
Definition IssueCertificate (csr : CertificateRequest) (regID : Z) : RAM Certificate :=
  do! modify (fun w => add_caRequest w csr regID) in
  rpc (ca_IssueCertificate csr regID).

(** The body of [NewCertificate] ends, well or not, with the log event it has
    filled in so far. *)
Definition Logged (A : Type) : Type := M (World S) (error * certificateRequestEvent) A.

Definition with_error (ev : certificateRequestEvent) (e : error) : certificateRequestEvent :=
  {| ev_Requester := ev_Requester ev; ev_SerialNumber := ev_SerialNumber ev;
     ev_VerifiedFields := ev_VerifiedFields ev; ev_CommonName := ev_CommonName ev;
     ev_Names := ev_Names ev; ev_NotBefore := ev_NotBefore ev; ev_NotAfter := ev_NotAfter ev;
     ev_RequestTime := ev_RequestTime ev; ev_ResponseTime := ev_ResponseTime ev; ev_Error := Error e |}.
Definition with_names (ev : certificateRequestEvent) (cn : string) (names : list string) :=
  {| ev_Requester := ev_Requester ev; ev_SerialNumber := ev_SerialNumber ev;
     ev_VerifiedFields := ev_VerifiedFields ev; ev_CommonName := cn; ev_Names := names;
     ev_NotBefore := ev_NotBefore ev; ev_NotAfter := ev_NotAfter ev;
     ev_RequestTime := ev_RequestTime ev; ev_ResponseTime := ev_ResponseTime ev; ev_Error := ev_Error ev |}.
Definition with_verified (ev : certificateRequestEvent) :=
  {| ev_Requester := ev_Requester ev; ev_SerialNumber := ev_SerialNumber ev;
     ev_VerifiedFields := ["subject.commonName"; "subjectAltName"]; ev_CommonName := ev_CommonName ev;
     ev_Names := ev_Names ev; ev_NotBefore := ev_NotBefore ev; ev_NotAfter := ev_NotAfter ev;
     ev_RequestTime := ev_RequestTime ev; ev_ResponseTime := ev_ResponseTime ev; ev_Error := ev_Error ev |}.
Definition with_certificate (ev : certificateRequestEvent) (c : X509Certificate) (now : Z) :=
  {| ev_Requester := ev_Requester ev; ev_SerialNumber := SerialToString (x5_SerialNumber c);
     ev_VerifiedFields := ev_VerifiedFields ev; ev_CommonName := x5_CommonName c; ev_Names := ev_Names ev;
     ev_NotBefore := x5_NotBefore c; ev_NotAfter := x5_NotAfter c;
     ev_RequestTime := ev_RequestTime ev; ev_ResponseTime := now; ev_Error := ev_Error ev |}.

(** [if err != nil { logEvent.Error = err.Error(); return emptyCert, err }], and the
    same without recording the error. *)
Definition logging {A} (ev : certificateRequestEvent) (m : RAM A) : Logged A :=
  fun w => let '(r, w') := m w in
           (match r with Ok a => Ok a | Err e => Err (e, with_error ev e) end, w').
Definition silently {A} (ev : certificateRequestEvent) (m : RAM A) : Logged A :=
  fun w => let '(r, w') := m w in
           (match r with Ok a => Ok a | Err e => Err (e, ev) end, w').

(** What precedes the CA: the verified CSR, with the event so far. *)
Definition check_request (req : CertificateRequest) (regID : Z) (ev : certificateRequestEvent)
    : Logged (CertificateRequest * certificateRequestEvent) :=
  if regID <=? 0 then
    fail (BoulderError Berrors.Malformed ("invalid registration ID: " ++s itoa regID), ev)
  else
    let! registration := logging ev (rpc (sa_GetRegistration regID)) in
    let '(verified, csr) := Csr.VerifyCSR req (maxNames cfg) (keyPolicy cfg) pa_WillingToIssue
                              (forceCNFromSAN cfg) regID in
    match verified with
    | Err err => fail (Berrors.MalformedError (Error err), ev)
    | Ok _ =>
        let ev := with_names ev (csr_CommonName csr) (csr_DNSNames csr) in
        let names := csr_DNSNames csr in
        if Z.of_nat (length names) =? 0 then
          logging ev (fail (Berrors.UnauthorizedError "CSR has no names in it"))
        else if KeyDigestEquals (csr_key csr) (JwkPtr (reg_Key registration)) then
          silently ev (fail (Berrors.MalformedError "certificate public key must be different than account key"))
        else
          do! logging ev (checkLimits names (reg_ID registration)) in
          do! logging ev (checkAuthorizations names registration) in
          ret (csr, with_verified ev)
    end.

Definition parse_issued (der : string) : RAM X509Certificate :=
  match ParseCertificate der with
  | Err err => fail (BoulderError Berrors.InternalServer ("failed to parse certificate: " ++s Error err))
  | Ok c => ret c
  end.

(** What follows the CA's answer. *)
Definition deliver (csr : CertificateRequest) (ev : certificateRequestEvent) (cert : Certificate)
    : Logged (Certificate * certificateRequestEvent) :=
  do! modify (fun w => if hasPublisher cfg then add_ctJob w (cert_DER cert) else w) in
  let! parsedCertificate := logging ev (parse_issued (cert_DER cert)) in
  do! logging ev (MatchesCSR parsedCertificate csr) in
  let! now := silently ev Now in
  ret (cert, with_certificate ev parsedCertificate now).

Definition new_certificate (req : CertificateRequest) (regID : Z) (ev : certificateRequestEvent)
    : Logged (Certificate * certificateRequestEvent) :=
  let! (csr, ev) := check_request req regID ev in
  let! cert := logging ev (IssueCertificate csr regID) in
  deliver csr ev cert.

(** [NewCertificate]: the body, then the deferred audit entry. *)
Definition NewCertificate (req : CertificateRequest) (regID : Z) : RAM Certificate :=
  let! requestTime := Now in
  let ev := {| ev_Requester := regID; ev_SerialNumber := EmptyString; ev_VerifiedFields := [];
               ev_CommonName := EmptyString; ev_Names := []; ev_NotBefore := zeroTime;
               ev_NotAfter := zeroTime; ev_RequestTime := requestTime; ev_ResponseTime := zeroTime;
               ev_Error := EmptyString |} in
  fun w =>
    match new_certificate req regID ev w with
    | (Ok (cert, ev), w') => (Ok cert, add_audit w' ("successful", ev))
    | (Err (e, ev), w') => (Err e, add_audit w' ("error", ev))
    end.

(** ** Revocation *)

Definition revokeEvent (state serial cn : string) (names : list string) (revocationCode : Z) : string :=
  "Revocation - State: " ++s state ++s ", Serial: " ++s serial ++s ", CN: " ++s cn
  ++s ", DNS Names: [" ++s join " " names ++s "], Reason: " ++s ReasonToString revocationCode.

(** The two revocation entry points: the outcome and the line they audit. *)
Definition revoke (cert : X509Certificate) (revocationCode : Z) : RAM (result error unit * string) :=
  let serialString := SerialToString (x5_SerialNumber cert) in
  let! err := try (rpc (sa_MarkCertificateRevoked serialString revocationCode)) in
  let state := match err with Ok _ => "Success" | Err e => "Failure -- " ++s Error e end in
  ret (err, revokeEvent state serialString (x5_CommonName cert) (x5_DNSNames cert) revocationCode).
Definition RevokeCertificateWithReg (cert : X509Certificate) (revocationCode regID : Z)
    : RAM (result error unit * string) :=
  let! (err, event) := revoke cert revocationCode in
  ret (err, event ++s ", Request by registration ID: " ++s itoa regID).
Definition AdministrativelyRevokeCertificate (cert : X509Certificate) (revocationCode : Z) (user : string)
    : RAM (result error unit * string) :=
  let! (err, event) := revoke cert revocationCode in
  ret (err, event ++s ", admin-revoker user: " ++s user).

End ra.

(** Without a valid challenge, no combination is satisfied. *)
Lemma unsatisfied authz :
  Forall (fun c => ch_Status c <> StatusValid) (az_Challenges authz) ->
  Forall (fun combo => combo <> []) (az_Combinations authz) ->
  existsb (forallb (validated authz)) (az_Combinations authz) = false.
Proof.
  intros Hc Hcombo. apply not_true_is_false. intros (combo & Hin & H)%existsb_exists.
  rewrite Forall_forall in Hcombo. apply list_elem_of_In, Hcombo in Hin.
  destruct combo as [|i combo]; [done|]. simpl in H. apply andb_true_iff in H as [H _].
  unfold validated in H. destruct (i <? 0); [done|].
  destruct (az_Challenges authz !! Z.to_nat i) eqn:E; [|done]. apply String.eqb_eq in H.
  rewrite Forall_forall in Hc. by eapply Hc; [eapply list_elem_of_lookup_2|].
Qed.

(** Walks through an operation down to its steps, for which [leaf] is called. *)
Ltac ra_frame leaf :=
  repeat (cbv zeta;
    match goal with
    | |- preserves _ (mbindM (lift _) _) => apply preserves_lift_bind; [apply _|intros ? ?]
    | |- preserves _ (mbindM _ _) => apply preserves_bind; [apply _| |intros ?]
    | |- preserves _ (try _) => apply preserves_try
    | |- preserves _ (ret _) => apply preserves_ret; apply _
    | |- preserves _ (fail _) => apply preserves_fail; apply _
    | |- preserves _ (lift _) => apply preserves_lift; apply _
    | |- preserves _ (forM _ _) => apply preserves_forM; [apply _|intros ?]
    | |- preserves _ (match ?x with _ => _ end) => destruct x
    | |- preserves _ _ => leaf
    end).

End RA.
