(* ===== verification/GrpcStorage.v ===== *)
(** * The storage authority over gRPC (grpc/sa-wrappers.go, grpc/interceptors.go)

    The client wrapper turns the calls of [core.StorageAuthority] into messages, the
    server wrapper checks the messages for completeness and calls the storage
    authority, and the interceptors carry the errors.  [remote_lookups],
    [remote_counts] and [remote_updates] are the three composed: what a server sees
    when its storage authority is another process.

    A message of a few fields that no conversion shares is the tuple of its fields
    in the order of the .proto file; requests and responses are pointers. *)

From S2P Require Import Prelude GoStd Net Errors Features Core Csr Grpc RegistrationAuthority.

(** ** [core.StorageAuthority]

    The three groups follow the order of the source; [StorageAuthority] of the RA and
    [CertificateStorage] of the CA are parts of it. *)

Record StorageLookups (S : Type) := {
  GetRegistration : Z -> M S error Registration;
  GetRegistrationByKey : option JsonWebKey -> M S error Registration;
  GetAuthorization : string -> M S error Authorization;
  GetValidAuthorizations : Z -> list string -> Z -> M S error (gmap string Authorization);
  GetCertificate : string -> M S error Certificate;
  GetCertificateStatus : string -> M S error CertificateStatus
}.

Record StorageCounts (S : Type) := {
  CountCertificatesRange : Z -> Z -> M S error Z;
  CountCertificatesByNames : list string -> Z -> Z -> M S error (gmap string Z);
  CountRegistrationsByIP : option string -> Z -> Z -> M S error Z;
  CountPendingAuthorizations : Z -> M S error Z;
  CountInvalidAuthorizations : Z -> string -> Z -> Z -> M S error (option Z);
  GetSCTReceipt : string -> string -> M S error SignedCertificateTimestamp;
  CountFQDNSets : Z -> list string -> M S error Z;
  FQDNSetExists : list string -> M S error bool
}.

Record StorageUpdates (S : Type) := {
  NewRegistration : Registration -> M S error Registration;
  UpdateRegistration : Registration -> M S error unit;
  NewPendingAuthorization : Authorization -> M S error Authorization;
  UpdatePendingAuthorization : Authorization -> M S error unit;
  FinalizeAuthorization : Authorization -> M S error unit;
  MarkCertificateRevoked : string -> Z -> M S error unit;
  AddCertificate : string -> Z -> string -> M S error string;
  AddSCTReceipt : SignedCertificateTimestamp -> M S error unit;
  RevokeAuthorizationsByDomain : AcmeIdentifier -> M S error (Z * Z);
  DeactivateRegistration : Z -> M S error unit;
  DeactivateAuthorization : string -> M S error unit
}.

(** ** The service of sa/proto/sa.proto, at the server ([handler]) or the client ([stub]) *)

Definition handler (S Req Resp : Type) : Type := option Req -> M S error Resp.
Definition stub (S Req Resp : Type) : Type := Req -> M S error (option Resp).
Definition PbRange : Type := option Z * option Z.

Record SaLookups (F : Type -> Type -> Type) := {
  pb_GetRegistration : F (option Z) PbRegistration;
  pb_GetRegistrationByKey : F (option string) PbRegistration;
  pb_GetAuthorization : F (option string) PbAuthorization;
  pb_GetValidAuthorizations : F (option Z * list string * option Z)%type
                                (list (option string * PbAuthorization));
  pb_GetCertificate : F (option string) PbCertificate;
  pb_GetCertificateStatus : F (option string) PbCertificateStatus
}.

Record SaCounts (F : Type -> Type -> Type) := {
  pb_CountCertificatesRange : F PbRange (option Z);
  pb_CountCertificatesByNames : F (option PbRange * list string)%type (list (option string * option Z));
  pb_CountRegistrationsByIP : F (option string * option PbRange)%type (option Z);
  pb_CountPendingAuthorizations : F (option Z) (option Z);
  pb_CountInvalidAuthorizations : F (Z * string * Z * Z)%type (option Z);
  pb_GetSCTReceipt : F (option string * option string)%type PbSCT;
  pb_CountFQDNSets : F (option Z * list string)%type (option Z);
  pb_FQDNSetExists : F (list string) (option bool)
}.

Record SaUpdates (F : Type -> Type -> Type) := {
  pb_NewRegistration : F PbRegistration PbRegistration;
  pb_UpdateRegistration : F PbRegistration unit;
  pb_NewPendingAuthorization : F PbAuthorization PbAuthorization;
  pb_UpdatePendingAuthorization : F PbAuthorization unit;
  pb_FinalizeAuthorization : F PbAuthorization unit;
  pb_MarkCertificateRevoked : F (option string * option Z)%type unit;
  pb_AddCertificate : F (option string * option Z * option string)%type (option string);
  pb_AddSCTReceipt : F PbSCT unit;
  pb_RevokeAuthorizationsByDomain : F (option string) (option Z * option Z)%type;
  pb_DeactivateRegistration : F (option Z) unit;
  pb_DeactivateAuthorization : F (option string) unit
}.

Module SaWrappers.
Import Grpc.

Section rpc.
Context {GL : GoLib} {PJ : Bcodes.PdJSON} {J : PbJSON} {S : Type}.

(** [serverInterceptor.intercept] without its metrics: the response, or the error with
    its "errortype" trailer.  [info] is nil when gRPC passes no method. *)
Definition server_intercept {Req Resp} (info : option string) (h : handler S Req Resp) (req : Req)
    : M S (error * option string) Resp := fun s =>
  match info with
  | None => (Err (Berrors.InternalServerError "passed nil *grpc.UnaryServerInfo", None), s)
  | Some _ =>
      match h (Some req) s with
      | (Ok resp, s') => (Ok resp, s')
      | (Err err, s') => (Err (Bcodes.wrapError true err), s')
      end
  end.

(** [clientInterceptor.intercept] without its metrics, on a connection that delivers. *)
Definition client_intercept {Req Resp} (invoker : Req -> M S (error * option string) Resp)
    : stub S Req Resp := fun req s =>
  match invoker req s with
  | (Ok resp, s') => (Ok (Some resp), s')
  | (Err (err, md), s') => (Err (Bcodes.unwrapError err (option_map (fun v => [v]) md)), s')
  end.

Definition rpc {Req Resp} (method : string) (h : handler S Req Resp) : stub S Req Resp :=
  client_intercept (server_intercept (Some method) h).

Definition required {A} (p : option A) : M S error A := lift (need errIncompleteRequest p).
Definition received {A} (p : option A) : M S error A := lift (need errIncompleteResponse p).
Definition guard (e : error) (b : bool) : M S error unit := if b then ret tt else fail e.

(** ** The server wrapper *)

Definition server_lookups (inner : StorageLookups S) : SaLookups (handler S) := {|
  pb_GetRegistration := fun request =>
    let! id := required request in let! id := required id in
    let! reg := GetRegistration _ inner id in
    lift (registrationToPB reg);
  pb_GetRegistrationByKey := fun request =>
    let! jwk := required request in let! jwk := required jwk in
    let! jwk := lift (jwk_UnmarshalJSON jwk) in
    let! reg := GetRegistrationByKey _ inner (Some jwk) in
    lift (registrationToPB reg);
  pb_GetAuthorization := fun request =>
    let! id := required request in let! id := required id in
    let! authz := GetAuthorization _ inner id in
    lift (authzToPB authz);
  pb_GetValidAuthorizations := fun request =>
    let! (registrationID, domains, now) := required request in
    let! registrationID := required registrationID in
    do! guard errIncompleteRequest (negb (bool_decide (domains = []))) in
    let! now := required now in
    let! valid := GetValidAuthorizations _ inner registrationID domains now in
    lift (mapE (fun '(k, v) => let? authzPB := authzToPB v in Ok (Some k, authzPB)) (map_to_list valid));
  pb_GetCertificate := fun request =>
    let! serial := required request in let! serial := required serial in
    let! cert := GetCertificate _ inner serial in
    ret (certToPB cert);
  pb_GetCertificateStatus := fun request =>
    let! serial := required request in let! serial := required serial in
    let! certStatus := GetCertificateStatus _ inner serial in
    ret {| ps_serial := Some (cs_Serial certStatus);
           ps_subscriberApproved := Some (cs_SubscriberApproved certStatus);
           ps_status := Some (cs_Status certStatus);
           ps_ocspLastUpdated := Some (UnixNano (cs_OCSPLastUpdated certStatus));
           ps_revokedDate := Some (UnixNano (cs_RevokedDate certStatus));
           ps_revokedReason := Some (cs_RevokedReason certStatus);
           ps_lastExpirationNagSent := Some (UnixNano (cs_LastExpirationNagSent certStatus));
           ps_ocspResponse := Some (cs_OCSPResponse certStatus);
           ps_notAfter := Some (UnixNano (cs_NotAfter certStatus));
           ps_isExpired := Some (cs_IsExpired certStatus) |}
|}.

Definition server_counts (inner : StorageCounts S) : SaCounts (handler S) := {|
  pb_CountCertificatesRange := fun request =>
    let! (earliest, latest) := required request in
    let! earliest := required earliest in let! latest := required latest in
    let! count := CountCertificatesRange _ inner earliest latest in
    ret (Some count);
  pb_CountCertificatesByNames := fun request =>
    let! (range, names) := required request in
    let! (earliest, latest) := required range in
    let! earliest := required earliest in let! latest := required latest in
    do! guard errIncompleteRequest (negb (bool_decide (names = []))) in
    let! byNames := CountCertificatesByNames _ inner names earliest latest in
    ret (map (fun '(k, v) => (Some k, Some v)) (map_to_list byNames));
  pb_CountRegistrationsByIP := fun request =>
    let! (ip, range) := required request in
    let! ip := required ip in
    let! (earliest, latest) := required range in
    let! earliest := required earliest in let! latest := required latest in
    let! count := CountRegistrationsByIP _ inner (Some ip) earliest latest in
    ret (Some count);
  pb_CountPendingAuthorizations := fun request =>
    let! id := required request in let! id := required id in
    let! count := CountPendingAuthorizations _ inner id in
    ret (Some count);
  pb_CountInvalidAuthorizations := fun request =>
    let! (registrationID, hostname, earliest, latest) := lift (need nil_dereference request) in
    CountInvalidAuthorizations _ inner registrationID hostname earliest latest;
  pb_GetSCTReceipt := fun request =>
    let! (serial, logID) := required request in
    let! serial := required serial in let! logID := required logID in
    let! sct := GetSCTReceipt _ inner serial logID in
    ret (sctToPB sct);
  pb_CountFQDNSets := fun request =>
    let! (window, domains) := required request in
    let! window := required window in
    do! guard errIncompleteRequest (negb (bool_decide (domains = []))) in
    let! count := CountFQDNSets _ inner window domains in
    ret (Some count);
  pb_FQDNSetExists := fun request =>
    let! domains := required request in
    do! guard errIncompleteRequest (negb (bool_decide (domains = []))) in
    let! exists_ := FQDNSetExists _ inner domains in
    ret (Some exists_)
|}.

Definition server_updates (inner : StorageUpdates S) : SaUpdates (handler S) := {|
  pb_NewRegistration := fun request =>
    let! request := required request in do! guard errIncompleteRequest (registrationValid request) in
    let! reg := lift (pbToRegistration request) in
    let! newReg := NewRegistration _ inner reg in
    lift (registrationToPB newReg);
  pb_UpdateRegistration := fun request =>
    let! request := required request in do! guard errIncompleteRequest (registrationValid request) in
    let! reg := lift (pbToRegistration request) in
    UpdateRegistration _ inner reg;
  pb_NewPendingAuthorization := fun request =>
    let! request := required request in do! guard errIncompleteRequest (authorizationValid request) in
    let! authz := lift (pbToAuthz request) in
    let! newAuthz := NewPendingAuthorization _ inner authz in
    lift (authzToPB newAuthz);
  pb_UpdatePendingAuthorization := fun request =>
    let! request := required request in do! guard errIncompleteRequest (authorizationValid request) in
    let! authz := lift (pbToAuthz request) in
    UpdatePendingAuthorization _ inner authz;
  pb_FinalizeAuthorization := fun request =>
    let! request := required request in do! guard errIncompleteRequest (authorizationValid request) in
    let! authz := lift (pbToAuthz request) in
    FinalizeAuthorization _ inner authz;
  pb_MarkCertificateRevoked := fun request =>
    let! (serial, code) := required request in
    let! serial := required serial in let! code := required code in
    MarkCertificateRevoked _ inner serial code;
  pb_AddCertificate := fun request =>
    let! (der, regID, ocsp) := required request in
    let! der := required der in let! regID := required regID in
    let! digest := AddCertificate _ inner der regID (default EmptyString ocsp) in
    ret (Some digest);
  pb_AddSCTReceipt := fun request =>
    let! request := required request in do! guard errIncompleteRequest (sctValid request) in
    let! sct := lift (pbToSCT request) in
    AddSCTReceipt _ inner sct;
  pb_RevokeAuthorizationsByDomain := fun request =>
    let! domain := required request in let! domain := required domain in
    let! (finalized, pending) :=
      RevokeAuthorizationsByDomain _ inner {| idType := IdentifierDNS; idValue := domain |} in
    ret (Some finalized, Some pending);
  pb_DeactivateRegistration := fun request =>
    let! id := required request in let! id := required id in
    DeactivateRegistration _ inner id;
  pb_DeactivateAuthorization := fun request =>
    let! id := required request in let! id := required id in
    DeactivateAuthorization _ inner id
|}.

(** ** The client wrapper *)

Definition client_lookups (inner : SaLookups (stub S)) : StorageLookups S := {|
  GetRegistration := fun regID =>
    let! response := pb_GetRegistration _ inner (Some regID) in
    let! response := received response in do! guard errIncompleteResponse (registrationValid response) in
    lift (pbToRegistration response);
  GetRegistrationByKey := fun key =>
    let! key := lift (need nil_dereference key) in
    let! keyBytes := lift (jwk_MarshalJSON key) in
    let! response := pb_GetRegistrationByKey _ inner (Some keyBytes) in
    let! response := received response in do! guard errIncompleteResponse (registrationValid response) in
    lift (pbToRegistration response);
  GetAuthorization := fun authID =>
    let! response := pb_GetAuthorization _ inner (Some authID) in
    let! response := received response in do! guard errIncompleteResponse (authorizationValid response) in
    lift (pbToAuthz response);
  GetValidAuthorizations := fun regID domains now =>
    let! response := pb_GetValidAuthorizations _ inner (Some regID, domains, Some (UnixNano now)) in
    let! response := received response in
    let! elements := lift (mapE (fun '(domain, authz) =>
      let? domain := need errIncompleteResponse domain in
      if authorizationValid authz then let? authz := pbToAuthz authz in Ok (domain, authz)
      else Err errIncompleteResponse) response) in
    ret (foldl (fun auths '(domain, authz) => <[domain := authz]> auths) ∅ elements);
  GetCertificate := fun serial =>
    let! response := pb_GetCertificate _ inner (Some serial) in
    let! response := received response in do! guard errIncompleteResponse (certificateValid response) in
    lift (pbToCert response);
  GetCertificateStatus := fun serial =>
    let! response := pb_GetCertificateStatus _ inner (Some serial) in
    let! response := received response in
    let! serial := received (ps_serial response) in
    let! subscriberApproved := received (ps_subscriberApproved response) in
    let! status := received (ps_status response) in
    let! ocspLastUpdated := received (ps_ocspLastUpdated response) in
    let! revokedDate := received (ps_revokedDate response) in
    let! revokedReason := received (ps_revokedReason response) in
    let! lastExpirationNagSent := received (ps_lastExpirationNagSent response) in
    let! ocspResponse := received (ps_ocspResponse response) in
    let! notAfter := received (ps_notAfter response) in
    let! isExpired := received (ps_isExpired response) in
    ret {| cs_Serial := serial; cs_SubscriberApproved := subscriberApproved; cs_Status := status;
           cs_OCSPLastUpdated := ocspLastUpdated; cs_RevokedDate := revokedDate;
           cs_RevokedReason := revokedReason; cs_LastExpirationNagSent := lastExpirationNagSent;
           cs_OCSPResponse := ocspResponse; cs_NotAfter := notAfter; cs_IsExpired := isExpired;
           cs_LockCol := 0 |}
|}.

Definition client_counts (inner : SaCounts (stub S)) : StorageCounts S := {|
  CountCertificatesRange := fun earliest latest =>
    let! response := pb_CountCertificatesRange _ inner (Some (UnixNano earliest), Some (UnixNano latest)) in
    let! response := received response in received response;
  CountCertificatesByNames := fun domains earliest latest =>
    let! response := pb_CountCertificatesByNames _ inner
      (Some (Some (UnixNano earliest), Some (UnixNano latest)), domains) in
    let! response := received response in
    do! guard errIncompleteResponse (negb (bool_decide (response = []))) in
    let! elements := lift (mapE (fun '(name, count) =>
      let? name := need errIncompleteResponse name in
      let? count := need errIncompleteResponse count in Ok (name, count)) response) in
    ret (foldl (fun names '(name, count) => <[name := count]> names) ∅ elements);
  CountRegistrationsByIP := fun ip earliest latest =>
    let! response := pb_CountRegistrationsByIP _ inner
      (ip, Some (Some (UnixNano earliest), Some (UnixNano latest))) in
    let! response := received response in received response;
  CountPendingAuthorizations := fun regID =>
    let! response := pb_CountPendingAuthorizations _ inner (Some regID) in
    let! response := received response in received response;
  CountInvalidAuthorizations := fun registrationID hostname earliest latest =>
    let! response := pb_CountInvalidAuthorizations _ inner (registrationID, hostname, earliest, latest) in
    lift (need nil_dereference response);
  GetSCTReceipt := fun serial logID =>
    let! response := pb_GetSCTReceipt _ inner (Some serial, Some logID) in
    let! response := received response in do! guard errIncompleteResponse (sctValid response) in
    lift (pbToSCT response);
  CountFQDNSets := fun window domains =>
    let! response := pb_CountFQDNSets _ inner (Some window, domains) in
    let! response := received response in received response;
  FQDNSetExists := fun domains =>
    let! response := pb_FQDNSetExists _ inner domains in
    let! response := received response in received response
|}.

Definition client_updates (inner : SaUpdates (stub S)) : StorageUpdates S := {|
  NewRegistration := fun reg =>
    let! regPB := lift (registrationToPB reg) in
    let! response := pb_NewRegistration _ inner regPB in
    let! response := received response in do! guard errIncompleteResponse (registrationValid response) in
    lift (pbToRegistration response);
  UpdateRegistration := fun reg =>
    let! regPB := lift (registrationToPB reg) in
    do! pb_UpdateRegistration _ inner regPB in ret tt;
  NewPendingAuthorization := fun authz =>
    let! authPB := lift (authzToPB authz) in
    let! response := pb_NewPendingAuthorization _ inner authPB in
    let! response := received response in do! guard errIncompleteResponse (authorizationValid response) in
    lift (pbToAuthz response);
  UpdatePendingAuthorization := fun authz =>
    let! authPB := lift (authzToPB authz) in
    do! pb_UpdatePendingAuthorization _ inner authPB in ret tt;
  FinalizeAuthorization := fun authz =>
    let! authPB := lift (authzToPB authz) in
    do! pb_FinalizeAuthorization _ inner authPB in ret tt;
  MarkCertificateRevoked := fun serial reasonCode =>
    do! pb_MarkCertificateRevoked _ inner (Some serial, Some reasonCode) in ret tt;
  AddCertificate := fun der regID ocspResponse =>
    let! response := pb_AddCertificate _ inner (Some der, Some regID, Some ocspResponse) in
    let! response := received response in received response;
  AddSCTReceipt := fun sct =>
    do! pb_AddSCTReceipt _ inner (sctToPB sct) in ret tt;
  RevokeAuthorizationsByDomain := fun domain =>
    let! response := pb_RevokeAuthorizationsByDomain _ inner (Some (idValue domain)) in
    let! (finalized, pending) := received response in
    let! finalized := received finalized in let! pending := received pending in
    ret (finalized, pending);
  DeactivateRegistration := fun id =>
    do! pb_DeactivateRegistration _ inner (Some id) in ret tt;
  DeactivateAuthorization := fun id =>
    do! pb_DeactivateAuthorization _ inner (Some id) in ret tt
|}.

(** ** The two wrappers connected *)

Definition connect_lookups (h : SaLookups (handler S)) : SaLookups (stub S) := {|
  pb_GetRegistration := rpc "/sa.StorageAuthority/GetRegistration" (pb_GetRegistration _ h);
  pb_GetRegistrationByKey := rpc "/sa.StorageAuthority/GetRegistrationByKey" (pb_GetRegistrationByKey _ h);
  pb_GetAuthorization := rpc "/sa.StorageAuthority/GetAuthorization" (pb_GetAuthorization _ h);
  pb_GetValidAuthorizations := rpc "/sa.StorageAuthority/GetValidAuthorizations" (pb_GetValidAuthorizations _ h);
  pb_GetCertificate := rpc "/sa.StorageAuthority/GetCertificate" (pb_GetCertificate _ h);
  pb_GetCertificateStatus := rpc "/sa.StorageAuthority/GetCertificateStatus" (pb_GetCertificateStatus _ h)
|}.

Definition connect_counts (h : SaCounts (handler S)) : SaCounts (stub S) := {|
  pb_CountCertificatesRange := rpc "/sa.StorageAuthority/CountCertificatesRange" (pb_CountCertificatesRange _ h);
  pb_CountCertificatesByNames :=
    rpc "/sa.StorageAuthority/CountCertificatesByNames" (pb_CountCertificatesByNames _ h);
  pb_CountRegistrationsByIP := rpc "/sa.StorageAuthority/CountRegistrationsByIP" (pb_CountRegistrationsByIP _ h);
  pb_CountPendingAuthorizations :=
    rpc "/sa.StorageAuthority/CountPendingAuthorizations" (pb_CountPendingAuthorizations _ h);
  pb_CountInvalidAuthorizations :=
    rpc "/sa.StorageAuthority/CountInvalidAuthorizations" (pb_CountInvalidAuthorizations _ h);
  pb_GetSCTReceipt := rpc "/sa.StorageAuthority/GetSCTReceipt" (pb_GetSCTReceipt _ h);
  pb_CountFQDNSets := rpc "/sa.StorageAuthority/CountFQDNSets" (pb_CountFQDNSets _ h);
  pb_FQDNSetExists := rpc "/sa.StorageAuthority/FQDNSetExists" (pb_FQDNSetExists _ h)
|}.

Definition connect_updates (h : SaUpdates (handler S)) : SaUpdates (stub S) := {|
  pb_NewRegistration := rpc "/sa.StorageAuthority/NewRegistration" (pb_NewRegistration _ h);
  pb_UpdateRegistration := rpc "/sa.StorageAuthority/UpdateRegistration" (pb_UpdateRegistration _ h);
  pb_NewPendingAuthorization :=
    rpc "/sa.StorageAuthority/NewPendingAuthorization" (pb_NewPendingAuthorization _ h);
  pb_UpdatePendingAuthorization :=
    rpc "/sa.StorageAuthority/UpdatePendingAuthorization" (pb_UpdatePendingAuthorization _ h);
  pb_FinalizeAuthorization := rpc "/sa.StorageAuthority/FinalizeAuthorization" (pb_FinalizeAuthorization _ h);
  pb_MarkCertificateRevoked := rpc "/sa.StorageAuthority/MarkCertificateRevoked" (pb_MarkCertificateRevoked _ h);
  pb_AddCertificate := rpc "/sa.StorageAuthority/AddCertificate" (pb_AddCertificate _ h);
  pb_AddSCTReceipt := rpc "/sa.StorageAuthority/AddSCTReceipt" (pb_AddSCTReceipt _ h);
  pb_RevokeAuthorizationsByDomain :=
    rpc "/sa.StorageAuthority/RevokeAuthorizationsByDomain" (pb_RevokeAuthorizationsByDomain _ h);
  pb_DeactivateRegistration := rpc "/sa.StorageAuthority/DeactivateRegistration" (pb_DeactivateRegistration _ h);
  pb_DeactivateAuthorization := rpc "/sa.StorageAuthority/DeactivateAuthorization" (pb_DeactivateAuthorization _ h)
|}.

Definition remote_lookups (inner : StorageLookups S) : StorageLookups S :=
  client_lookups (connect_lookups (server_lookups inner)).
Definition remote_counts (inner : StorageCounts S) : StorageCounts S :=
  client_counts (connect_counts (server_counts inner)).
Definition remote_updates (inner : StorageUpdates S) : StorageUpdates S :=
  client_updates (connect_updates (server_updates inner)).

End rpc.
End SaWrappers.
