(* ===== verification/RaChecks.v ===== *)
(** * The decisions of the registration authority

    What each check of the RA lets through: certificates returned by the CA, rate
    limits, merged registration updates, the outcome of a validation, and the
    authorizations handed to clients. *)

From S2P Require Import Prelude GoStd Errors Features Core GoodKey PublicSuffix Policy RateLimit Csr RegistrationAuthority.

Import RA.

Module RaChecks.

Section checks.
Context {S : Type} {GL : GoLib} {Cr : Crypto} {EC : Elliptic} {X : X509} {PE : Policy.PolicyEnv}
        {SA : StorageAuthority S} {PA : PolicyAuthority} {CA : CertificateAuthority S} {RE : RAEnv}.
Context (fs : Features.state) (cfg : Config).

(** ** Certificates *)

(** What a certificate must look like for a request, at a time. *)
Definition matches (c : X509Certificate) (csr : CertificateRequest) (now : Z) : Prop :=
  KeyDigestEquals (RawKey (x5_PublicKey c)) (csr_key csr) = true /\
  (forceCNFromSAN cfg = false -> csr_CommonName csr <> EmptyString ->
     x5_CommonName c = ToLower (csr_CommonName csr)) /\
  x5_DNSNames c <> [] /\ Permutation (x5_DNSNames c) (UniqueLowerNames (Csr.requested csr)) /\
  x5_IPAddresses c = csr_IPAddresses csr /\ x5_EmailAddresses c = csr_EmailAddresses csr /\
  x5_OtherSubject c = [] /\ time_Sub now (x5_NotBefore c) <= 24 * Hour /\
  x5_BasicConstraintsValid c = true /\ x5_IsCA c = false /\
  x5_ExtKeyUsage c = [ExtKeyUsageServerAuth; ExtKeyUsageClientAuth].

Lemma len_pos s : (0 <? len s) = negb (is_empty s).
Proof. unfold len, is_empty. by destruct s. Qed.

Lemma length_pos {A} (l : list A) : (0 <? Z.of_nat (length l)) = false <-> l = [].
Proof. by destruct l. Qed.

Lemma sort_strings_perm_eq l k : sort_strings l = sort_strings k <-> Permutation l k.
Proof.
  split; [|apply sort_strings_eq]. intros H.
  transitivity (sort_strings l); [symmetry; apply sort_strings_perm|rewrite H; apply sort_strings_perm].
Qed.

(** A guard lets a computation through exactly when its condition fails. *)
Lemma guard_Ok {A} (b : bool) (e : error) (m : RAM (S := S) A) w a :
  fst ((if b then fail e else m) w) = Ok a <-> b = false /\ fst (m w) = Ok a.
Proof. destruct b; simpl; naive_solver. Qed.

Lemma sort_strings_nil l : sort_strings l <> [] <-> l <> [].
Proof.
  pose proof (sort_strings_perm l) as P. split; intros H E; apply H; [by subst|].
  rewrite E in P. symmetry in P. by apply Permutation_nil_r in P.
Qed.

Lemma forced_or (force : bool) cn (P : Prop) :
  ((force = true \/ is_empty cn = true) \/ P) <-> (force = false -> cn <> EmptyString -> P).
Proof.
  unfold is_empty. destruct force, (String.eqb_spec cn EmptyString); simpl; naive_solver.
Qed.

Lemma MatchesCSR_names csr :
  (if 0 <? len (csr_CommonName csr) then csr_DNSNames csr ++ [csr_CommonName csr] else csr_DNSNames csr)
  = Csr.requested csr.
Proof. rewrite len_pos. unfold Csr.requested. destruct (is_empty _); simpl; by rewrite ?app_nil_r. Qed.

Lemma MatchesCSR_accepts c csr (w : World S) :
  fst (MatchesCSR cfg c csr w) = Ok tt <-> matches c csr (ra_now w).
Proof.
  unfold MatchesCSR, matches. cbv zeta. rewrite MatchesCSR_names, len_pos.
  rewrite !guard_Ok. unfold mbindM, Now. rewrite !guard_Ok.
  rewrite !negb_false_iff, length_pos, !bool_decide_eq_true, !andb_false_iff, orb_false_iff, !negb_false_iff.
  rewrite !bool_decide_eq_true, bool_decide_eq_false, sort_strings_perm_eq, sort_strings_nil, !Z.ltb_ge, String.eqb_eq.
  rewrite (forced_or (forceCNFromSAN cfg)). replace (24 * Hour) with (Hour * 24) by done. simpl. tauto.
Qed.

(** [MatchesCSR] accepts exactly the certificates that carry the key of the
    request, its names and no others (each once), the requested common name unless
    the CA chooses it, no other subject or address fields, that are not back-dated
    by more than a day, cannot sign, and have exactly the two key usages. *)
Theorem MatchesCSR_accepts_exactly c csr (w : World S) :
  fst (MatchesCSR cfg c csr w) = Ok tt <-> matches c csr (ra_now w).
Proof. apply MatchesCSR_accepts. Qed.

(** ** Rate limits *)

Lemma domains_loop_spec names : forall seen acc,
  (forall d, d ∈ seen <-> d ∈ acc) -> NoDup acc ->
  NoDup (domains_loop names seen acc) /\ acc `prefix_of` domains_loop names seen acc /\
  forall d, d ∈ domains_loop names seen acc <-> d ∈ acc \/ exists n, n ∈ names /\ d = base_domain n.
Proof.
  induction names as [|n names IH]; intros seen acc Hs Hnd; simpl.
  - split_and!; [done|done|]. intros d. split; [auto|]. intros [|(n & Hn & _)]; [done|by apply not_elem_of_nil in Hn].
  - case_bool_decide as Hin.
    + destruct (IH seen acc Hs Hnd) as (A & B & C). split_and!; try done. intros d. rewrite C.
      apply Hs in Hin. setoid_rewrite elem_of_cons. naive_solver.
    + destruct (IH ({[base_domain n]} ∪ seen) (acc ++ [base_domain n])) as (A & B & C).
      * intros d. rewrite elem_of_union, elem_of_singleton, Hs, elem_of_app, list_elem_of_singleton. tauto.
      * rewrite Hs in Hin. apply NoDup_app. split_and!; [done| |apply NoDup_singleton].
        intros d Hd ->%list_elem_of_singleton. done.
      * split_and!; [done|by etransitivity; [|exact B]; apply prefix_app_r|]. intros d. rewrite C.
        rewrite elem_of_app, list_elem_of_singleton. setoid_rewrite elem_of_cons. naive_solver.
Qed.

(** [domainsForRateLimiting] lists the registered domain of every name (the name
    itself when it is a public suffix), without duplicates and nothing else. *)
Theorem domainsForRateLimiting_spec names :
  NoDup (domainsForRateLimiting names) /\
  forall d, d ∈ domainsForRateLimiting names <-> exists n, n ∈ names /\ d = base_domain n.
Proof.
  destruct (domains_loop_spec names ∅ []) as (A & _ & C); [set_solver|constructor|].
  split; [done|]. intros d. unfold domainsForRateLimiting. rewrite C. set_solver.
Qed.

Lemma over_limit_nil limit regID counts names :
  over_limit limit regID counts names = Ok [] ->
  forall d, d ∈ names -> exists c, counts !! d = Some c /\ c < RateLimit.GetThreshold limit d regID.
Proof.
  induction names as [|n names IH]; simpl; intros H d Hd; [by apply not_elem_of_nil in Hd|].
  unfold rbind in H. repeat case_in H; simplify_eq. apply elem_of_cons in Hd as [->|Hd]; [|by apply IH].
  bool_solve. eauto.
Qed.

(** A successful call to storage, and what it leaves alone. *)
Lemma rpc_Ok {A} (m : M S error A) w a w' :
  rpc m w = (Ok a, w') ->
  m (sa w) = (Ok a, sa w') /\ rlPolicies w' = rlPolicies w /\ totalIssuedCount w' = totalIssuedCount w /\
  totalIssuedLastUpdate w' = totalIssuedLastUpdate w /\ ra_now w' = ra_now w /\ draws w' = draws w.
Proof. unfold rpc. destruct (m (sa w)) as [x s]. intros [= -> <-]. done. Qed.

Lemma checkTotalCertificatesLimit_Ok (w w' : World S) :
  checkTotalCertificatesLimit w = (Ok tt, w') ->
  w' = tick w /\
  totalIssuedCount w < RateLimit.Threshold (RateLimit.TotalCertificates (rlPolicies w)) /\
  ra_now w <= totalIssuedLastUpdate w + 5 * Minute.
Proof.
  unfold checkTotalCertificatesLimit, mbindM, policies, Now, get. cbv beta iota zeta. simpl.
  unfold time_After, time_Add.
  destruct (_ || _) eqn:E1; [done|]. destruct (_ <=? _) eqn:E2; [done|]. intros [= <-]. bool_solve. done.
Qed.

(** The registered domain of a name, or the name itself if it has none. *)
Definition counted_under (n d : string) : Prop :=
  PublicSuffix.Domain Policy.suffix_rules n = Ok d \/
  ((exists err, PublicSuffix.Domain Policy.suffix_rules n = Err err) /\ d = n).

(** The account's own threshold, else that of the key, else the general one. *)
Definition threshold (limit : RateLimit.RateLimitPolicy) (key : string) (regID : Z) : Z :=
  default (default (RateLimit.Threshold limit) (RateLimit.Overrides limit !! key))
    (RateLimit.RegistrationOverrides limit !! regID).

Lemma GetThreshold_spec limit key regID : RateLimit.GetThreshold limit key regID = threshold limit key regID.
Proof. unfold RateLimit.GetThreshold, threshold. by destruct (RateLimit.RegistrationOverrides _ !! _), (RateLimit.Overrides _ !! _). Qed.

Lemma counted_base n d : counted_under n d <-> d = base_domain n.
Proof. unfold counted_under, base_domain. destruct (PublicSuffix.Domain _ n); naive_solver. Qed.

(** Storage in state [s] counts the certificates issued since the window before [now]
    began, for the registered domain of every name: fewer than its threshold, or
    storage knows the exact set of names.  [s'] is its state afterwards. *)
Definition below_name_limit (limit : RateLimit.RateLimitPolicy) (names : list string) (regID now : Z) (s s' : S) : Prop :=
  exists domains counts s1,
    NoDup domains /\ (forall d, d ∈ domains <-> exists n, n ∈ names /\ counted_under n d) /\
    sa_CountCertificatesByNames domains (now + wrap64 (- RateLimit.Window limit)) now s = (Ok counts, s1) /\
    ((s' = s1 /\ forall n d, n ∈ names -> counted_under n d ->
        exists c, counts !! d = Some c /\ c < threshold limit d regID) \/
     sa_FQDNSetExists names s1 = (Ok true, s')).

Lemma checkCertificatesPerNameLimit_Ok names limit regID (w w' : World S) :
  checkCertificatesPerNameLimit names limit regID w = (Ok tt, w') ->
  rlPolicies w' = rlPolicies w /\ below_name_limit limit names regID (ra_now w) (sa w) (sa w').
Proof.
  unfold checkCertificatesPerNameLimit. cbv zeta. intros H.
  apply mbindM_Ok in H as (now & w1 & [= <- <-] & H).
  apply mbindM_Ok in H as (counts & w2 & (H2 & P2 & _)%rpc_Ok & H).
  apply mbindM_Ok in H as (bad & w3 & H3 & H). unfold lift in H3. apply pair_equal_spec in H3 as [H3 <-].
  destruct (domains_loop_spec names ∅ []) as (HD & _ & HI); [set_solver|constructor|].
  assert (forall d, d ∈ domainsForRateLimiting names <-> exists n, n ∈ names /\ counted_under n d) as HE.
  { intros d. setoid_rewrite counted_base. unfold domainsForRateLimiting. rewrite HI. set_solver. }
  destruct bad as [|b bad].
  - injection H as <-. split; [done|]. eexists _, counts, _. split_and!; [exact HD|exact HE|exact H2|]. left.
    split; [done|]. intros n d Hn Hd. rewrite <- GetThreshold_spec. apply (over_limit_nil _ _ _ _ H3), HE. eauto.
  - apply mbindM_Ok in H as ([] & w4 & (H4 & P4 & _)%rpc_Ok & H); [|done]. injection H as <-.
    split; [by rewrite P4, P2|]. eexists _, counts, _. split_and!; [exact HD|exact HE|exact H2|]. by right.
Qed.

Definition below_set_limit (limit : RateLimit.RateLimitPolicy) (names : list string) (regID : Z) (s s' : S) : Prop :=
  exists count, sa_CountFQDNSets (RateLimit.Window limit) names s = (Ok count, s') /\
    count <= threshold limit (join "," (UniqueLowerNames names)) regID.

Lemma checkCertificatesPerFQDNSetLimit_Ok names limit regID (w w' : World S) :
  checkCertificatesPerFQDNSetLimit names limit regID w = (Ok tt, w') -> below_set_limit limit names regID (sa w) (sa w').
Proof.
  unfold checkCertificatesPerFQDNSetLimit. intros H.
  apply mbindM_Ok in H as (count & w2 & (H2 & _)%rpc_Ok & H). cbv zeta in H. rewrite GetThreshold_spec in H.
  destruct (_ <? count) eqn:E; [done|]. injection H as <-. bool_solve. unfold below_set_limit. eauto.
Qed.

Lemma when_Ok {A} (b : bool) (m : RAM (S := S) A) (a : A) w x w' :
  (if b then m else ret a) w = (Ok x, w') -> (b = true /\ m w = (Ok x, w')) \/ (b = false /\ x = a /\ w' = w).
Proof. destruct b; [by left|]. intros [= <- <-]. by right. Qed.

(** C13. Requests pass [checkLimits] only within the limits in force: with the total
    limit enabled, the count is below it and at most five minutes old; with the
    per-name limit enabled, storage as it is now counted, in the window that ends at
    this reading of the clock, fewer certificates than the threshold for the registered
    domain of every name, or knows the exact set of names; with the set limit enabled,
    storage as that left it counted no more than the threshold. *)
Theorem checkLimits_sound names regID (w w' : World S) :
  checkLimits names regID w = (Ok tt, w') ->
  let rl := rlPolicies w in
  let total := RateLimit.TotalCertificates rl in
  let perName := RateLimit.CertificatesPerName rl in
  let perSet := RateLimit.CertificatesPerFQDNSet rl in
  (RateLimit.Threshold total <> 0 ->
     totalIssuedCount w < RateLimit.Threshold total /\ ra_now w <= totalIssuedLastUpdate w + 5 * Minute) /\
  exists s,
    (if RateLimit.Threshold perName =? 0 then s = sa w
     else below_name_limit perName names regID (ra_now (if RateLimit.Threshold total =? 0 then w else tick w)) (sa w) s) /\
    (if RateLimit.Threshold perSet =? 0 then sa w' = s else below_set_limit perSet names regID s (sa w')).
Proof.
  intros H rl total perName perSet. unfold checkLimits, RateLimit.Enabled in H.
  apply mbindM_Ok in H as (rl1 & w1 & [= <- <-] & H). apply mbindM_Ok in H as ([] & w2 & H2 & H).
  apply mbindM_Ok in H as (rl2 & w3 & [= <- <-] & H). cbv zeta in H.
  apply mbindM_Ok in H as ([] & w4 & H4 & H). apply mbindM_Ok in H as (rl3 & w5 & [= <- <-] & H).
  assert (w2 = (if RateLimit.Threshold total =? 0 then w else tick w) /\ (RateLimit.Threshold total <> 0 ->
     totalIssuedCount w < RateLimit.Threshold total /\ ra_now w <= totalIssuedLastUpdate w + 5 * Minute)) as [E2 HT].
  { subst total rl. destruct (Z.eqb_spec (RateLimit.Threshold (RateLimit.TotalCertificates (rlPolicies w))) 0);
      cbv [negb] in H2; [by injection H2 as <-|].
    apply checkTotalCertificatesLimit_Ok in H2 as (-> & ? & ?). done. }
  split; [done|]. rewrite <- E2.
  assert (rlPolicies w2 = rl) as R2 by (rewrite E2; by destruct (_ =? _)).
  assert (sa w2 = sa w) as S2 by (rewrite E2; by destruct (_ =? _)). rewrite R2 in *. fold perName in H4.
  assert (rlPolicies w4 = rl) as R4.
  { destruct (_ =? _) in H4; cbv [negb] in H4; [by injection H4 as <-|].
    by apply checkCertificatesPerNameLimit_Ok in H4 as [-> _]. }
  rewrite R4 in H. fold perSet in H. exists (sa w4). split.
  - destruct (_ =? _) in H4 |- *; cbv [negb] in H4; [by injection H4 as <-|].
    apply checkCertificatesPerNameLimit_Ok in H4 as [_ H4]. by rewrite S2 in H4.
  - destruct (_ =? _) in H |- *; cbv [negb] in H; [by injection H as <-|]. by apply checkCertificatesPerFQDNSetLimit_Ok in H.
Qed.

(** ** Registrations *)

Lemma merged_contacts r c contact changed :
  (if contactsEqual r c then (contacts_after r c, false)
   else (Some (if same_length r c then sort_strings c else c), true)) = (contact, changed) ->
  (exists c', contact = Some c' /\ Permutation c' c) /\
  (changed = false -> exists rc c', reg_Contact r = Some rc /\ contact = Some c' /\ Permutation c' rc).
Proof.
  unfold contactsEqual, contacts_after, same_length. destruct (reg_Contact r) as [rc|].
  2:{ intros [= <- <-]. split; [eauto|done]. }
  destruct (length c =? length rc)%nat; cbv [negb].
  2:{ intros [= <- <-]. split; [eauto|done]. }
  case_bool_decide as E; intros [= <- <-].
  - apply sort_strings_perm_eq in E. split; [exists (sort_strings rc)|intros _; exists rc, (sort_strings rc)].
    + split; [done|]. by rewrite sort_strings_perm.
    + split_and!; [done|done|apply sort_strings_perm].
  - split; [|done]. exists (sort_strings c). split; [done|apply sort_strings_perm].
Qed.

Lemma merge_key_Ok r input key changed :
  merge_key fs r input = Ok (key, changed) ->
  (flag fs Features.AllowKeyRollover = false -> key = reg_Key r) /\ (changed = false -> key = reg_Key r).
Proof.
  unfold merge_key. intros H. cbv zeta in H. repeat case_in H; simplify_eq; split; congruence.
Qed.

(** [mergeUpdate] never touches the ID, initial IP, creation date or status.  It
    takes the new contacts when they are given and are not the old ones in some
    order, the new agreement when one is given, and the new key only when key
    rollover is enabled; it reports a change exactly when it took something that
    differs: no change means the same contacts up to order and the same rest. *)
Theorem mergeUpdate_spec r input r' changed :
  mergeUpdate fs r input = Ok (r', changed) ->
  reg_ID r' = reg_ID r /\ reg_InitialIP r' = reg_InitialIP r /\ reg_CreatedAt r' = reg_CreatedAt r /\
  reg_Status r' = reg_Status r /\
  match reg_Contact input with
  | None => reg_Contact r' = reg_Contact r
  | Some c => exists c', reg_Contact r' = Some c' /\ Permutation c' c
  end /\
  reg_Agreement r' = (if is_empty (reg_Agreement input) then reg_Agreement r else reg_Agreement input) /\
  (flag fs Features.AllowKeyRollover = false -> reg_Key r' = reg_Key r) /\
  (changed = false ->
     reg_Agreement r' = reg_Agreement r /\ reg_Key r' = reg_Key r /\
     (reg_Contact r' = reg_Contact r \/
      exists c c', reg_Contact r = Some c /\ reg_Contact r' = Some c' /\ Permutation c' c)).
Proof.
  unfold mergeUpdate. intros H.
  destruct (match reg_Contact input with None => _ | Some _ => _ end) as [contact ch1] eqn:E1.
  destruct (if _ && _ then _ else _) as [agreement ch2] eqn:E2.
  unfold rbind in H. destruct (merge_key fs r input) as [[key ch3]|] eqn:E3; [|done].
  apply Ok_inj in H. injection H as <- <-. apply merge_key_Ok in E3 as [K1 K2]. simpl.
  assert (agreement = (if is_empty (reg_Agreement input) then reg_Agreement r else reg_Agreement input) /\
          (ch2 = false -> agreement = reg_Agreement r)) as [A1 A2].
  { destruct (is_empty _); cbn in E2; [by simplify_eq|].
    destruct (String.eqb_spec (reg_Agreement input) (reg_Agreement r)); cbn in E2; by simplify_eq. }
  split_and!; try done.
  - destruct (reg_Contact input); [by apply merged_contacts in E1 as [? _]|congruence].
  - intros [[H1 H2]%orb_false_iff H3]%orb_false_iff. split_and!; auto.
    destruct (reg_Contact input) as [c|]; [right|left; congruence].
    apply merged_contacts in E1 as [_ E1]. destruct (E1 H1) as (rc & c' & ? & ? & ?). eauto.
Qed.

(** ** The outcome of a validation *)

Lemma existsb_singletons i (f : Z -> bool) (combos : list (list Z)) :
  [i] ∈ combos -> f i = true -> existsb (forallb f) combos = true.
Proof.
  intros Hin Hf. apply existsb_exists. exists [i]. split; [by apply list_elem_of_In|]. simpl. by rewrite Hf.
Qed.

(** What becomes of a challenge: its status and its problem. *)
Inductive verdict (ch : Challenge) (records : list ValidationRecord) : option error -> AcmeStatus -> option Probs.ProblemDetails -> Prop :=
| passed : sane_records (ch_Type ch) records -> verdict ch records None StatusValid (ch_Error ch)
| failed p : verdict ch records (Some (ProblemError p)) StatusInvalid (Some p)
| unreachable err : (forall p, err <> ProblemError p) ->
    verdict ch records (Some err) StatusInvalid (Some (Probs.ServerInternal "Could not communicate with VA"))
| insane : ~ sane_records (ch_Type ch) records ->
    verdict ch records None StatusInvalid (Some (Probs.ServerInternal "Records for validation failed sanity check")).

(** The challenge with it, and the authorization as it is finalized. *)
Definition answered (ch : Challenge) (records : list ValidationRecord) (status : AcmeStatus)
    (problem : option Probs.ProblemDetails) : Challenge :=
  {| ch_ID := ch_ID ch; ch_Type := ch_Type ch; ch_Status := status; ch_Error := problem; ch_URI := ch_URI ch;
     ch_Token := ch_Token ch; ch_ProvidedKeyAuthorization := ch_ProvidedKeyAuthorization ch;
     ch_ValidationRecord := records |}.
Definition finalized (authz : Authorization) (i : nat) (ch : Challenge) (now : Z) : Authorization :=
  {| az_ID := az_ID authz; az_Identifier := az_Identifier authz; az_RegistrationID := az_RegistrationID authz;
     az_Status := ch_Status ch;
     az_Expires := if String.eqb (ch_Status ch) StatusValid then Some (now + authorizationLifetime cfg) else az_Expires authz;
     az_Challenges := <[i := ch]> (az_Challenges authz); az_Combinations := az_Combinations authz |}.

Lemma record_validation_verdict ch records err : exists status problem,
  verdict ch records err status problem /\ record_validation ch records err = answered ch records status problem.
Proof.
  unfold record_validation. pose proof (RecordsSane_spec (with_records ch records)) as HR. simpl in HR.
  destruct err as [e|].
  - destruct e; try (exists StatusInvalid; eexists; split; [apply unreachable; by intros|by rewrite andb_false_r]).
    exists StatusInvalid; eexists. split; [constructor|]. by rewrite andb_false_r.
  - destruct (RecordsSane (with_records ch records)); simpl.
    + exists StatusValid, (ch_Error ch). split; [constructor; by apply HR|done].
    + eexists _, _. split; [apply insane; by rewrite <- HR|done].
Qed.

Lemma verdict_status ch records err status problem : verdict ch records err status problem ->
  status = StatusValid \/ status = StatusInvalid.
Proof. destruct 1; auto. Qed.

(** C9. When the VA's answer for a challenge of an open authorization arrives, the
    authorization is finalized once: valid, with its expiry moved to the configured
    lifetime from now, if the VA reported no problem and its records are sane; invalid
    otherwise, with the VA's problem stored in the challenge, or one that says that the
    VA could not be reached or that the records are not sane.  Open means: neither it nor
    one of its challenges is valid; the answered challenge alone is a combination, and no
    combination is empty. *)
Theorem validation_outcome authz i ch records err (w w' : World S) r :
  az_Challenges authz !! i = Some ch -> az_Status authz <> StatusValid -> undecided authz ->
  [Z.of_nat i] ∈ az_Combinations authz ->
  finish_validation cfg authz i records err w = (r, w') ->
  exists status problem, verdict ch records err status problem /\
    sa w' = snd (sa_FinalizeAuthorization (finalized authz i (answered ch records status problem) (ra_now w)) (sa w)).
Proof.
  intros Hi Hst [Hopen Hne] Hin H. unfold finish_validation in H. rewrite Hi in H.
  destruct (record_validation_verdict ch records err) as (status & problem & HV & HE). rewrite HE in H.
  exists status, problem. split; [done|]. set (ch' := answered ch records status problem) in *.
  unfold mbindM, try in H. set (a := set_Challenges authz _) in H.
  destruct (onValidationUpdate cfg a w) as [x w1] eqn:E. injection H as <- <-.
  unfold onValidationUpdate in E. cbv zeta in E.
  destruct (verdict_status _ _ _ _ _ HV) as [Hv|Hv]; subst status.
  - rewrite (existsb_singletons (Z.of_nat i)) in E; [|done|].
    + unfold mbindM, Now, rpc in E. cbn -[sa_FinalizeAuthorization] in E. unfold finalized. cbn -[sa_FinalizeAuthorization].
      destruct (sa_FinalizeAuthorization _ _). by simplify_eq.
    + unfold validated. subst a. simpl. rewrite Nat2Z.id. destruct (Z.ltb_spec (Z.of_nat i) 0); [lia|].
      rewrite list_lookup_insert_eq by (by eapply lookup_lt_Some). done.
  - rewrite (unsatisfied a) in E; [|by apply Forall_insert|done].
    simpl in E. destruct (String.eqb_spec (az_Status authz) StatusValid); [done|]. cbv [negb] in E.
    unfold rpc in E. unfold finalized. cbn -[sa_FinalizeAuthorization]. destruct (sa_FinalizeAuthorization _ _). by simplify_eq.
Qed.

(** ** New authorizations *)

(** Time passes (the clock never goes back), and no challenge is drawn. *)
Definition later (w w' : World S) : Prop :=
  draws w' = draws w /\
  (Forall (Z.le 0) (ra_ticks w) -> Forall (Z.le 0) (ra_ticks w') /\ ra_now w <= ra_now w').
#[global] Instance later_preorder : PreOrder later.
Proof.
  split.
  - intros w. split; [done|]. intros H. split; [done|lia].
  - intros w1 w2 w3 [D1 T1] [D2 T2]. split; [congruence|]. intros H.
    destruct (T1 H) as [H2 ?]. destruct (T2 H2). split; [done|lia].
Qed.

Lemma later_tick (w : World S) : later w (tick w).
Proof.
  split; [done|]. simpl. destruct (ra_ticks w) as [|t ts]; simpl; [split; [done|lia]|].
  intros [? ?]%Forall_cons. split; [done|lia].
Qed.
Lemma later_Now : preserves later (@Now S).
Proof. intros w r w' [= <- <-]. apply later_tick. Qed.
Lemma later_policies : preserves later (@policies S).
Proof. intros w r w' [= <- <-]. reflexivity. Qed.
Lemma later_rpc {A} (m : M S error A) : preserves later (rpc m).
Proof.
  intros w r w'. unfold rpc. destruct (m (sa w)). intros [= <- <-]. split; [done|]. intros H. split; [done|simpl; lia].
Qed.
#[local] Hint Resolve later_Now later_policies later_rpc : boulder.
Ltac time_passes := ra_frame ltac:(solve [eauto with boulder]).

Lemma later_checks regID identifier :
  preserves later (checkPendingAuthorizationLimit (S := S) regID) /\
  preserves later (checkInvalidAuthorizationLimit cfg (S := S) regID (idValue identifier)) /\
  preserves later (checkSafeDomain (S := S) identifier) /\
  preserves later (reusable (S := S) regID identifier).
Proof.
  unfold checkPendingAuthorizationLimit, checkInvalidAuthorizationLimit, checkSafeDomain, reusable.
  split_and!; time_passes.
Qed.

(** An authorization handed out again: storage listed one valid for the name, and
    the one it returned for that ID lasts at least another day. *)
Definition reused (regID : Z) (name : string) (at_ : Z) (a : Authorization) : Prop :=
  exists now auths e s1 s1' s2 s2' expires,
    sa_GetValidAuthorizations regID [name] now s1 = (Ok auths, s1') /\ auths !! name = Some e /\
    sa_GetAuthorization (az_ID e) s2 = (Ok a, s2') /\ az_Expires a = Some expires /\ at_ + 24 * Hour < expires.

Lemma reusable_Some regID identifier w a w' :
  Forall (Z.le 0) (ra_ticks w) -> reusable regID identifier w = (Ok (Some a), w') ->
  reused regID (idValue identifier) (ra_now w) a.
Proof.
  intros Ht H. unfold reusable in H. apply mbindM_Ok in H as (now & w1 & H1 & H).
  pose proof (later_Now _ _ _ H1) as L1. apply mbindM_Ok in H as (auths & w2 & H2 & H).
  unfold try in H2. destruct (rpc _ w1) as [x2 y2] eqn:E2. injection H2 as <- <-.
  pose proof (later_rpc _ _ _ _ E2) as L2. destruct x2 as [auths|]; [|done].
  apply rpc_Ok in E2 as (E2 & _). destruct (auths !! idValue identifier) as [e|] eqn:Ee; [|done].
  apply mbindM_Ok in H as (pop & w3 & H3 & H). unfold try in H3.
  destruct (rpc _ y2) as [x3 y3] eqn:E3. injection H3 as <- <-. pose proof (later_rpc _ _ _ _ E3) as L3.
  destruct x3 as [pop|]; [|done]. apply rpc_Ok in E3 as (E3 & _).
  apply mbindM_Ok in H as (now4 & w4 & [= <- <-] & H). cbv zeta in H.
  destruct (az_Expires pop) as [expires|] eqn:Ex; [|done].
  destruct (time_After expires _) eqn:Ea; injection H as H; [|done]. subst.
  unfold time_After, time_Add in Ea. bool_solve.
  assert (later w y3) as [_ L] by (etransitivity; [exact L1|etransitivity; [exact L2|exact L3]]).
  destruct (L Ht) as [_ ?]. eexists now, auths, e, _, _, _, _, expires. split_and!; eauto. lia.
Qed.

(** An authorization newly stored: pending, for the identifier and account, with the
    challenges the policy authority drew, all of them fit to be offered. *)
Definition created (regID : Z) (identifier : AcmeIdentifier) (w : World S) (a : Authorization) : Prop :=
  exists s s' expires,
    sa_NewPendingAuthorization
      {| az_ID := EmptyString; az_Identifier := identifier; az_RegistrationID := regID;
         az_Status := StatusPending; az_Expires := Some expires;
         az_Challenges := fst (pa_ChallengesFor (draws w) identifier);
         az_Combinations := snd (pa_ChallengesFor (draws w) identifier) |} s = (Ok a, s') /\
    ra_now w + pendingAuthorizationLifetime cfg <= expires /\
    Forall (fun c => IsSaneForClientOffer c = true) (az_Challenges a).

Lemma check_offer_Ok l : forall (w w' : World S),
  forM l check_offer w = (Ok tt, w') -> Forall (fun c => IsSaneForClientOffer c = true) l.
Proof.
  induction l as [|c l IH]; intros w w' H; [constructor|]. simpl in H.
  apply mbindM_Ok in H as ([] & w1 & H1 & H). constructor; [|by eapply IH].
  unfold check_offer in H1. by destruct (IsSaneForClientOffer c).
Qed.

Lemma create_authorization_Ok regID identifier (w0 w : World S) a w' :
  later w0 w -> Forall (Z.le 0) (ra_ticks w0) ->
  create_authorization cfg regID identifier w = (Ok a, w') -> created regID identifier w0 a.
Proof.
  intros [HD HT] Ht H. destruct (HT Ht) as [_ Hle]. unfold create_authorization in H.
  apply mbindM_Ok in H as (cc & w1 & [= <- <-] & H). rewrite HD in H.
  destruct (pa_ChallengesFor (draws w0) identifier) as [challenges combos] eqn:Ec.
  apply mbindM_Ok in H as (now & w2 & [= <- <-] & H). cbv zeta in H.
  apply mbindM_Ok in H as (x & w3 & H3 & H). unfold try in H3.
  destruct (rpc _ (tick (draw w))) as [r y] eqn:E. injection H3 as <- <-. destruct r as [b|]; [|done].
  apply rpc_Ok in E as (E & _). apply mbindM_Ok in H as ([] & w4 & H4 & [= -> <-]).
  apply check_offer_Ok in H4. unfold created. rewrite Ec. eexists _, _, _. split_and!; [exact E| |done].
  unfold time_Add. simpl. lia.
Qed.

(** An authorization that [NewAuthorization] returns is for the lower-cased
    identifier, which the policy authority is willing to issue for and the VA
    considers safe.  It is either one the account already holds for the name, if
    reuse is configured, lasting at least another day; or a new one, stored as
    pending for the configured lifetime with freshly drawn challenges, each fit to
    be offered. *)
Theorem NewAuthorization_result request regID (w w' : World S) a :
  Forall (Z.le 0) (ra_ticks w) -> NewAuthorization cfg request regID w = (Ok a, w') ->
  let identifier := {| idType := idType (az_Identifier request);
                       idValue := ToLower (idValue (az_Identifier request)) |} in
  pa_WillingToIssue identifier = Ok tt /\
  (idType identifier = IdentifierDNS -> va_IsSafeDomain (idValue identifier) = Ok true) /\
  ((reuseValidAuthz cfg = true /\ reused regID (idValue identifier) (ra_now w) a) \/
   created regID identifier w a).
Proof.
  intros Ht H identifier. unfold NewAuthorization in H. cbv zeta in H. fold identifier in H.
  destruct (later_checks regID identifier) as (LP & LI & LS & LR).
  apply mbindM_Ok in H as ([] & w1 & [= HW <-] & H). apply mbindM_Ok in H as ([] & w2 & H2 & H).
  apply mbindM_Ok in H as ([] & w3 & H3 & H). apply mbindM_Ok in H as ([] & w4 & H4 & H).
  assert (later w w4) as L4 by (etransitivity; [by eapply LP|etransitivity; [by eapply LI|by eapply LS]]).
  apply mbindM_Ok in H as (existing & w5 & H5 & H). split_and!; [done| |].
  - intros Hdns. unfold checkSafeDomain in H4. rewrite Hdns in H4. simpl in H4.
    by destruct (va_IsSafeDomain _) as [[]|].
  - destruct (proj2 L4 Ht) as [Ht4 Hle]. apply when_Ok in H5 as [[Hr H5]|(_ & -> & ->)].
    + assert (later w w5) as L5 by (etransitivity; [exact L4|by eapply LR]).
      destruct existing as [b|]; [|right; by eapply create_authorization_Ok].
      injection H as <- <-. left. split; [done|]. apply reusable_Some in H5; [|done].
      destruct H5 as (now & auths & e & s1 & s1' & s2 & s2' & ex & ? & ? & ? & ? & ?).
      exists now, auths, e, s1, s1', s2, s2', ex. split_and!; try done. lia.
    + right. by eapply create_authorization_Ok.
Qed.

(** ** The audit log and what is delivered *)

Definition logs_nothing (w w' : World S) : Prop := audit w' = audit w.
#[global] Instance logs_nothing_preorder : PreOrder logs_nothing.
Proof. split; unfold logs_nothing; [by intros w|congruence]. Qed.

Lemma silent_rpc {A} (m : M S error A) : preserves logs_nothing (rpc m).
Proof. intros w r w'. unfold rpc. destruct (m (sa w)). by intros [= <- <-]. Qed.
Lemma silent_modify {E} (f : World S -> World S) :
  (forall w, audit (f w) = audit w) -> preserves logs_nothing (@modify (World S) E f).
Proof. intros H w r w' [= <- <-]. apply H. Qed.
Lemma silent_Now : preserves logs_nothing (@Now S).
Proof. by intros w r w' [= <- <-]. Qed.
Lemma silent_policies : preserves logs_nothing (@policies S).
Proof. by intros w r w' [= <- <-]. Qed.
Lemma silent_get {E} : preserves logs_nothing (@get (World S) E).
Proof. by intros w r w' [= <- <-]. Qed.
Lemma silent_logging {A} ev (m : RAM A) : preserves logs_nothing m -> preserves logs_nothing (logging ev m).
Proof. intros Hm w r w'. unfold logging. destruct (m w) eqn:E. intros [= <- <-]. by eapply Hm. Qed.
Lemma silent_silently {A} ev (m : RAM A) : preserves logs_nothing m -> preserves logs_nothing (silently ev m).
Proof. intros Hm w r w'. unfold silently. destruct (m w) eqn:E. intros [= <- <-]. by eapply Hm. Qed.
#[local] Hint Resolve silent_Now silent_policies silent_get silent_rpc : boulder.
Ltac stays_silent :=
  ra_frame ltac:(first [ apply silent_logging | apply silent_silently
                       | apply silent_modify; intros ?; try case_match; done | solve [eauto with boulder] ]).

Lemma silent_MatchesCSR c csr : preserves logs_nothing (MatchesCSR cfg c csr).
Proof. unfold MatchesCSR. stays_silent. Qed.
Lemma silent_checkLimits names regID : preserves logs_nothing (checkLimits names regID).
Proof.
  unfold checkLimits, checkTotalCertificatesLimit, checkCertificatesPerNameLimit,
    checkCertificatesPerFQDNSetLimit. stays_silent.
Qed.
Lemma silent_checkAuthorizations names reg : preserves logs_nothing (checkAuthorizations names reg).
Proof. unfold checkAuthorizations. stays_silent. Qed.
#[local] Hint Resolve silent_MatchesCSR silent_checkLimits silent_checkAuthorizations : boulder.
Lemma silent_new_certificate req regID ev : preserves logs_nothing (new_certificate cfg req regID ev).
Proof. unfold new_certificate, check_request, IssueCertificate, deliver, parse_issued. stays_silent. Qed.

(** Each update of the event keeps the requester. *)
Definition by_requester {A} (regID : Z) (r : result (error * certificateRequestEvent) (A * certificateRequestEvent)) : Prop :=
  match r with Ok (_, ev) => ev_Requester ev = regID | Err (_, ev) => ev_Requester ev = regID end.

Lemma check_request_requester req regID ev w :
  by_requester (ev_Requester ev) (fst (check_request cfg req regID ev w)).
Proof.
  unfold check_request. destruct (regID <=? 0); [done|].
  unfold mbindM, logging, silently, fail, ret.
  repeat (case_match; simplify_eq/=; try done).
Qed.

Lemma check_request_verified req regID ev w csr ev' w' :
  check_request cfg req regID ev w = (Ok (csr, ev'), w') ->
  Csr.VerifyCSR req (maxNames cfg) (keyPolicy cfg) pa_WillingToIssue (forceCNFromSAN cfg) regID = (Ok tt, csr).
Proof.
  unfold check_request. destruct (regID <=? 0); [done|]. intros H.
  apply mbindM_Ok in H as (reg & w1 & _ & H).
  destruct (Csr.VerifyCSR _ _ _ _ _ _) as [[[]|] c]; [|done]. cbv zeta in H.
  destruct (_ =? 0); [done|]. destruct (KeyDigestEquals _ _); [done|].
  apply mbindM_Ok in H as (u & w2 & _ & H). apply mbindM_Ok in H as (v & w3 & _ & H).
  apply pair_equal_spec in H as [H _]. apply Ok_inj in H. by simplify_eq.
Qed.

Lemma MatchesCSR_state c csr (w : World S) w' : MatchesCSR cfg c csr w = (Ok tt, w') -> w' = tick w.
Proof.
  unfold MatchesCSR, mbindM, Now, fail, ret. intros H. repeat case_in H; by simplify_eq.
Qed.

(** What [deliver] returns was parsed and matched, and is on its way to the CT logs. *)
Lemma deliver_Ok csr ev cert (w : World S) cert' ev' w' :
  deliver cfg csr ev cert w = (Ok (cert', ev'), w') ->
  cert' = cert /\ ev_Requester ev' = ev_Requester ev /\
  (hasPublisher cfg = true -> cert_DER cert ∈ ctJobs w') /\
  exists c, ParseCertificate (cert_DER cert) = Ok c /\ matches c csr (ra_now w) /\
    ev_SerialNumber ev' = SerialToString (x5_SerialNumber c).
Proof.
  intros H. unfold deliver in H. apply mbindM_Ok in H as (u & w1 & [= <- <-] & H).
  apply mbindM_Ok in H as (c & w2 & H2 & H). unfold logging, parse_issued in H2.
  destruct (ParseCertificate (cert_DER cert)) as [c'|] eqn:Ep; [|done]. injection H2 as -> <-.
  apply mbindM_Ok in H as ([] & w3 & H3 & H). unfold logging in H3.
  destruct (MatchesCSR cfg c csr _) as [[[]|] w4] eqn:Em; [|done]. injection H3 as <-.
  pose proof (proj1 (MatchesCSR_accepts _ _ _) (f_equal fst Em)) as HM. apply MatchesCSR_state in Em as ->.
  injection H as <- <- <-. split_and!; [done|done| |].
  - intros ->. simpl. set_solver.
  - exists c. split_and!; [done| |done]. by destruct (hasPublisher cfg).
Qed.

Lemma deliver_requester csr ev cert (w : World S) :
  by_requester (ev_Requester ev) (fst (deliver cfg csr ev cert w)).
Proof.
  unfold deliver, parse_issued, mbindM, logging, silently, Now, modify.
  repeat (case_match; simplify_eq/=; try done).
Qed.

Lemma new_certificate_requester req regID ev (w : World S) :
  by_requester (ev_Requester ev) (fst (new_certificate cfg req regID ev w)).
Proof.
  unfold new_certificate, mbindM at 1. pose proof (check_request_requester req regID ev w) as H1.
  destruct (check_request _ _ _ _ _) as [[[csr ev1]|[e ev1]] w1]; [|done]. simpl in H1. rewrite <- H1.
  unfold mbindM at 1, logging at 1. destruct (IssueCertificate _ _ _) as [[cert|e] w2]; [|done].
  apply deliver_requester.
Qed.

(** Every [NewCertificate] adds exactly one entry to the audit log, for the
    requesting account, marked successful exactly when a certificate is returned.
    A returned certificate parses and matches the verified CSR, the entry carries
    its serial, and it has been handed to the publisher if there is one. *)
Theorem NewCertificate_delivers req regID (w : World S) :
  let (r, w') := NewCertificate cfg req regID w in
  exists ev, audit w' = (if is_ok r then "successful" else "error", ev) :: audit w /\ ev_Requester ev = regID /\
  match r with
  | Err _ => True
  | Ok cert => exists csr c now,
      Csr.VerifyCSR req (maxNames cfg) (keyPolicy cfg) pa_WillingToIssue (forceCNFromSAN cfg) regID = (Ok tt, csr) /\
      ParseCertificate (cert_DER cert) = Ok c /\ matches c csr now /\
      ev_SerialNumber ev = SerialToString (x5_SerialNumber c) /\
      (hasPublisher cfg = true -> cert_DER cert ∈ ctJobs w')
  end.
Proof.
  unfold NewCertificate, mbindM, Now. set (ev0 := {| ev_Requester := regID |}).
  pose proof (new_certificate_requester req regID ev0 (tick w)) as Hreq.
  destruct (new_certificate cfg req regID ev0 (tick w)) as [r w'] eqn:E.
  pose proof (silent_new_certificate _ _ _ _ _ _ E) as Ha. unfold logs_nothing in Ha. simpl in Ha.
  destruct r as [[cert ev]|[e ev]]; exists ev; simpl; (split_and!; [by rewrite Ha|done|]); [|done].
  unfold new_certificate in E. apply mbindM_Ok in E as ([csr ev1] & w1 & E1%check_request_verified & E).
  apply mbindM_Ok in E as (cert1 & w2 & _ & E). apply deliver_Ok in E as (-> & _ & Hct & c & Hp & Hm & Hs).
  exists csr, c, (ra_now w2). split_and!; done.
Qed.

End checks.

End RaChecks.
