(* ===== verification/RaIssuance.v ===== *)
(** * What the registration authority guarantees about issuance

    Proved against an interface of the storage authority: what the RA relies on is
    the class [StorageSpec], and the theorems hold for every implementation of it.
    The main result follows a history of RA requests and VA answers: no request
    reaches the CA for a name unless the account is authorized for it at that moment,
    and passed a validation of it.  The policy authority is an interface as well. *)

From S2P Require Import Prelude GoStd Errors Features Core GoodKey PublicSuffix Policy RateLimit Csr RegistrationAuthority RaChecks.

Import RA.

(** ** What the RA relies on *)

Section spec.
Context {S : Type}.

(** [s'] is a proper state if [s] is, grants no account a name that [s] does not, and
    keeps every authorization that is settled in [s] settled. *)
Definition no_new (ok : S -> Prop) (authorized : S -> Z -> string -> Z -> Prop) (settled : S -> string -> Prop)
    (s s' : S) : Prop :=
  ok s -> ok s' /\ (forall regID n now, authorized s' regID n now -> authorized s regID n now) /\
    forall id, settled s id -> settled s' id.

#[global] Instance no_new_preorder ok authorized settled : PreOrder (no_new ok authorized settled).
Proof.
  split.
  - intros s H. auto.
  - intros s1 s2 s3 H1 H2 Hok. destruct (H1 Hok) as (Hok2 & ? & ?). destruct (H2 Hok2) as (? & ? & ?). auto.
Qed.

End spec.

(** [authorized s regID n now]: in state [s] the account holds a valid authorization
    for the name that is unexpired at [now].  Only finalizing an authorization can
    grant one, and only for that authorization's account and name.
    [settled s id]: the authorization has been finalized, and cannot be again.  One that
    is read and not settled is undecided. *)
Class StorageSpec (S : Type) {SA : StorageAuthority S} := {
  sa_ok : S -> Prop;
  authorized : S -> Z -> string -> Z -> Prop;
  settled : S -> string -> Prop;
  keeps {A} (m : M S error A) : Prop := preserves (no_new sa_ok authorized settled) m;
  spec_registration regID s reg s' :
    sa_ok s -> sa_GetRegistration regID s = (Ok reg, s') -> reg_ID reg = regID;
  spec_valid regID names now s m s' n a :
    sa_ok s -> sa_GetValidAuthorizations regID names now s = (Ok m, s') -> m !! n = Some a ->
    authorized s regID n now;
  spec_read id s a s' :
    sa_ok s -> sa_GetAuthorization id s = (Ok a, s') -> undecided a \/ settled s (az_ID a);
  spec_write a s r s' :
    sa_ok s -> undecided a \/ settled s (az_ID a) -> sa_UpdatePendingAuthorization a s = (r, s') ->
    no_new sa_ok authorized settled s s';
  spec_update_pending a s s' :
    sa_ok s -> sa_UpdatePendingAuthorization a s = (Ok tt, s') -> az_Status a <> StatusValid;
  spec_finalize a s r s' :
    sa_ok s -> sa_FinalizeAuthorization a s = (r, s') ->
    sa_ok s' /\ (forall regID n now, authorized s' regID n now ->
      authorized s regID n now \/
      (~ settled s (az_ID a) /\ az_RegistrationID a = regID /\ idValue (az_Identifier a) = n)) /\
    forall id, settled s id -> settled s' id;
  spec_finalize_invalid a : az_Status a = StatusInvalid -> keeps (sa_FinalizeAuthorization a);
  keeps_GetRegistration id : keeps (sa_GetRegistration id);
  keeps_GetAuthorization id : keeps (sa_GetAuthorization id);
  keeps_GetValidAuthorizations r n t : keeps (sa_GetValidAuthorizations r n t);
  keeps_CountRegistrationsByIP ip a b : keeps (sa_CountRegistrationsByIP ip a b);
  keeps_CountPendingAuthorizations r : keeps (sa_CountPendingAuthorizations r);
  keeps_CountInvalidAuthorizations r h a b : keeps (sa_CountInvalidAuthorizations r h a b);
  keeps_CountCertificatesRange a b : keeps (sa_CountCertificatesRange a b);
  keeps_CountCertificatesByNames n a b : keeps (sa_CountCertificatesByNames n a b);
  keeps_CountFQDNSets d n : keeps (sa_CountFQDNSets d n);
  keeps_FQDNSetExists n : keeps (sa_FQDNSetExists n);
  keeps_NewRegistration r : keeps (sa_NewRegistration r);
  keeps_UpdateRegistration r : keeps (sa_UpdateRegistration r);
  keeps_NewPendingAuthorization a : undecided a -> keeps (sa_NewPendingAuthorization a);
  keeps_MarkCertificateRevoked s r : keeps (sa_MarkCertificateRevoked s r);
  keeps_DeactivateRegistration id : keeps (sa_DeactivateRegistration id);
  keeps_DeactivateAuthorization id : keeps (sa_DeactivateAuthorization id)
}.
#[global] Hint Resolve spec_finalize_invalid keeps_GetRegistration keeps_GetAuthorization
  keeps_GetValidAuthorizations keeps_CountRegistrationsByIP keeps_CountPendingAuthorizations
  keeps_CountInvalidAuthorizations keeps_CountCertificatesRange keeps_CountCertificatesByNames
  keeps_CountFQDNSets keeps_FQDNSetExists keeps_NewRegistration keeps_UpdateRegistration
  keeps_NewPendingAuthorization keeps_MarkCertificateRevoked
  keeps_DeactivateRegistration keeps_DeactivateAuthorization : boulder.

(** Issuing stores certificates, not authorizations. *)
Class CASpec (S : Type) {SA : StorageAuthority S} {SP : StorageSpec S} {CA : CertificateAuthority S} := {
  keeps_IssueCertificate csr regID : keeps (ca_IssueCertificate csr regID)
}.
#[global] Hint Resolve keeps_IssueCertificate : boulder.

(** The policy authority offers challenges that are still to be answered. *)
Class PolicySpec {PA : PolicyAuthority} : Prop := {
  spec_offer draw id :
    Forall (fun c => ch_Status c <> StatusValid) (fst (pa_ChallengesFor draw id)) /\
    Forall (fun combo => combo <> []) (snd (pa_ChallengesFor draw id))
}.

(** The policy authority of policy/pa.go, on the tokens and permutations it draws. *)
Section policy.
Context {GL : GoLib} {PE : Policy.PolicyEnv}.
Context (fs : Features.state) (pa : Policy.AuthorityImpl) (tokens : nat -> string * string * string * string)
        (perm1 perm2 : nat -> nat -> list nat).

Definition policy_authority : PolicyAuthority := {|
  pa_WillingToIssue := Policy.WillingToIssue fs pa;
  pa_ChallengesFor := fun draw id =>
    default ([], []) (Policy.ChallengesFor fs pa (tokens draw) (perm1 draw) (perm2 draw) id) |}.

Lemma mapM_lookup {A} (l : list A) js xs : mapM (fun i : nat => l !! i) js = Some xs -> xs ⊆ l.
Proof.
  intros H%mapM_Some. induction H as [|i x js xs Hi _ IH]; [set_solver|]. apply list_elem_of_lookup_2 in Hi. set_solver.
Qed.

#[global] Instance policy_spec : PolicySpec (PA := policy_authority).
Proof.
  split. intros draw id. simpl. unfold Policy.ChallengesFor.
  destruct (mapM _ (perm1 draw _)) as [chs|] eqn:E1; [|by split]. cbn [mbind option_bind]. cbv zeta.
  destruct (mapM _ (perm2 draw _)) as [combos|] eqn:E2; [|by split]. simpl.
  apply mapM_lookup in E1. apply mapM_lookup in E2. rewrite !Forall_forall. split.
  - intros c Hc%E1. unfold Policy.offered in Hc. destruct (tokens draw) as [[[t1 t2] t3] t4].
    rewrite !elem_of_app in Hc. destruct Hc as [Hc|[Hc|[Hc|Hc]]]; case_match; apply list_elem_of_In in Hc; simpl in Hc;
      destruct Hc as [<-|[]] || destruct Hc; done.
  - intros combo (i & _ & -> & _)%E2%elem_of_lookup_imap_1. done.
Qed.

End policy.

Module RaIssuance.

Section issuance.
Context {S : Type} {GL : GoLib} {Cr : Crypto} {EC : Elliptic} {X : X509} {PE : Policy.PolicyEnv}
        {SA : StorageAuthority S} {PA : PolicyAuthority} {CA : CertificateAuthority S} {RE : RAEnv}
        {SP : StorageSpec S} {CS : CASpec S} {PS : PolicySpec}.
Context (fs : Features.state) (cfg : Config).

(** ** Histories *)

Inductive op :=
| OpNewRegistration (init : Registration)
| OpUpdateRegistration (base update : Registration)
| OpDeactivateRegistration (reg : Registration)
| OpNewAuthorization (request : Authorization) (regID : Z)
| OpUpdateAuthorization (base : Authorization) (challengeIndex : Z) (response : Challenge)
| OpValidated (j : nat) (records : list ValidationRecord) (err : option error)
| OpDeactivateAuthorization (auth : Authorization)
| OpNewCertificate (req : CertificateRequest) (regID : Z)
| OpRevokeCertificateWithReg (cert : X509Certificate) (revocationCode regID : Z)
| OpAdministrativelyRevokeCertificate (cert : X509Certificate) (revocationCode : Z) (user : string)
| OpUpdateIssuedCount
| OpLoadPolicies (l : RateLimit.limitsImpl).

Definition set_policies (w : World S) (l : RateLimit.limitsImpl) : World S :=
  {| sa := sa w; rlPolicies := l; totalIssuedCount := totalIssuedCount w;
     totalIssuedLastUpdate := totalIssuedLastUpdate w; ra_now := ra_now w; ra_ticks := ra_ticks w;
     draws := draws w; vaJobs := vaJobs w; ctJobs := ctJobs w; audit := audit w; caRequests := caRequests w |}.

Definition exec (o : op) (w : World S) : World S :=
  match o with
  | OpNewRegistration init => snd (NewRegistration fs cfg init w)
  | OpUpdateRegistration base update => snd (UpdateRegistration fs cfg base update w)
  | OpDeactivateRegistration reg => snd (DeactivateRegistration reg w)
  | OpNewAuthorization request regID => snd (NewAuthorization cfg request regID w)
  | OpUpdateAuthorization base i response => snd (UpdateAuthorization cfg base i response w)
  | OpValidated j records err => snd (validation_done cfg j records err w)
  | OpDeactivateAuthorization auth => snd (DeactivateAuthorization auth w)
  | OpNewCertificate req regID => snd (NewCertificate cfg req regID w)
  | OpRevokeCertificateWithReg cert code regID => snd (RevokeCertificateWithReg cert code regID w)
  | OpAdministrativelyRevokeCertificate cert code user =>
      snd (AdministrativelyRevokeCertificate cert code user w)
  | OpUpdateIssuedCount => snd (updateIssuedCount w)
  | OpLoadPolicies l => set_policies w l
  end.

Definition run (ops : list op) (w : World S) : World S := fold_left (fun w o => exec o w) ops w.

(** The authorization a client's response is applied to is one that storage returned at
    some earlier point: the WFE reads it from there and sends it on unchanged. *)
Definition from_storage (ops : list op) (w0 : World S) : Prop :=
  forall pre base i response post, ops = pre ++ OpUpdateAuthorization base i response :: post ->
    exists pre' rest id s', pre = pre' ++ rest /\ sa_GetAuthorization id (sa (run pre' w0)) = (Ok base, s').

(** In the history [ops] from [w0], the VA reported a successful validation, with
    sane records, for a completed challenge of an authorization of this account for
    this name. *)
Definition validated_in (ops : list op) (w0 : World S) (regID : Z) (n : string) : Prop :=
  exists pre j records post authz i ch,
    ops = pre ++ OpValidated j records None :: post /\
    vaJobs (run pre w0) !! j = Some (authz, i) /\
    az_RegistrationID authz = regID /\ idValue (az_Identifier authz) = n /\
    az_Challenges authz !! i = Some ch /\ IsSaneForValidation ch = true /\ sane_records (ch_Type ch) records.

(** ** Frames *)

(** Nothing granted, no job started, nothing sent to the CA. *)
Definition quiet (w w' : World S) : Prop :=
  no_new sa_ok authorized settled (sa w) (sa w') /\ vaJobs w' = vaJobs w /\ caRequests w' = caRequests w.

#[global] Instance quiet_preorder : PreOrder quiet.
Proof.
  split.
  - intros w. split_and!; try done; reflexivity.
  - intros w1 w2 w3 (? & ? & ?) (? & ? & ?). split_and!; try congruence. by etransitivity.
Qed.

Lemma quiet_rpc {A} (m : M S error A) : keeps m -> preserves quiet (rpc m).
Proof.
  intros Hm w r w'. unfold rpc. destruct (m (sa w)) as [x s] eqn:E. intros [= <- <-].
  apply Hm in E. by split_and!.
Qed.

Lemma quiet_same (w w' : World S) :
  sa w' = sa w -> vaJobs w' = vaJobs w -> caRequests w' = caRequests w -> quiet w w'.
Proof. intros E1 E2 E3. split_and!; [rewrite E1; reflexivity|done|done]. Qed.

Lemma quiet_modify {E} (f : World S -> World S) :
  (forall w, sa (f w) = sa w /\ vaJobs (f w) = vaJobs w /\ caRequests (f w) = caRequests w) ->
  preserves quiet (@modify (World S) E f).
Proof. intros H w r w' [= <- <-]. destruct (H w) as (? & ? & ?). by apply quiet_same. Qed.

Lemma quiet_Now : preserves quiet (@Now S).
Proof. intros w r w' [= <- <-]. by apply quiet_same. Qed.
Lemma quiet_policies : preserves quiet (@policies S).
Proof. intros w r w' [= <- <-]. reflexivity. Qed.
Lemma quiet_get {E} : preserves quiet (@get (World S) E).
Proof. intros w r w' [= <- <-]. reflexivity. Qed.
Lemma quiet_ChallengesFor id : preserves quiet (@ChallengesFor S PA id).
Proof. intros w r w' [= <- <-]. by apply quiet_same. Qed.
Lemma quiet_logging {A} ev (m : RAM A) : preserves quiet m -> preserves quiet (logging ev m).
Proof. intros Hm w r w'. unfold logging. destruct (m w) eqn:E. intros [= <- <-]. by eapply Hm. Qed.
Lemma quiet_silently {A} ev (m : RAM A) : preserves quiet m -> preserves quiet (silently ev m).
Proof. intros Hm w r w'. unfold silently. destruct (m w) eqn:E. intros [= <- <-]. by eapply Hm. Qed.
#[local] Hint Resolve quiet_Now quiet_policies quiet_get quiet_ChallengesFor : boulder.

Ltac stays_quiet :=
  ra_frame ltac:(first
    [ apply quiet_logging | apply quiet_silently
    | apply quiet_modify; intros ?; split_and!; done
    | apply quiet_rpc; solve [eauto with boulder]
    | solve [eauto with boulder] ]).

Lemma quiet_validateContacts cs : preserves quiet (validateContacts cfg cs).
Proof. unfold validateContacts, validate_contact. stays_quiet. Qed.
Lemma quiet_checkRegistrationLimit ip : preserves quiet (checkRegistrationLimit ip).
Proof. unfold checkRegistrationLimit. stays_quiet. Qed.
#[local] Hint Resolve quiet_validateContacts quiet_checkRegistrationLimit : boulder.
Lemma quiet_NewRegistration init : preserves quiet (NewRegistration fs cfg init).
Proof. unfold NewRegistration. stays_quiet. Qed.
Lemma quiet_UpdateRegistration base update : preserves quiet (UpdateRegistration fs cfg base update).
Proof. unfold UpdateRegistration. stays_quiet. Qed.
Lemma quiet_DeactivateRegistration reg : preserves quiet (DeactivateRegistration reg).
Proof. unfold DeactivateRegistration. stays_quiet. Qed.
Lemma quiet_create_authorization regID identifier : preserves quiet (create_authorization cfg regID identifier).
Proof.
  intros w r w'. unfold create_authorization. unfold mbindM at 1, ChallengesFor. destruct (spec_offer (draws w) identifier) as [Hch Hco].
  destruct (pa_ChallengesFor (draws w) identifier) as [challenges combinations]. cbn [fst snd] in *. intros H.
  transitivity (draw w); [by apply quiet_same|]. revert H. generalize (draw w) r w'. clear w r w'.
  match goal with |- forall w r w', ?m w = (r, w') -> _ => change (preserves quiet m) end.
  apply preserves_bind; [apply _|solve [eauto with boulder]|]. intros now. cbv zeta.
  apply preserves_bind; [apply _| |intros [a|e]; unfold check_offer; stays_quiet].
  apply preserves_try, quiet_rpc, keeps_NewPendingAuthorization. by split.
Qed.
#[local] Hint Resolve quiet_create_authorization : boulder.
Lemma quiet_NewAuthorization request regID : preserves quiet (NewAuthorization cfg request regID).
Proof.
  unfold NewAuthorization, checkPendingAuthorizationLimit, checkInvalidAuthorizationLimit, checkSafeDomain,
    reusable. stays_quiet.
Qed.
Lemma quiet_DeactivateAuthorization auth : preserves quiet (DeactivateAuthorization auth).
Proof. unfold DeactivateAuthorization. stays_quiet. Qed.
Lemma quiet_checkLimits names regID : preserves quiet (checkLimits names regID).
Proof.
  unfold checkLimits, checkTotalCertificatesLimit, checkCertificatesPerNameLimit,
    checkCertificatesPerFQDNSetLimit. stays_quiet.
Qed.
Lemma quiet_checkAuthorizations names reg : preserves quiet (checkAuthorizations names reg).
Proof. unfold checkAuthorizations. stays_quiet. Qed.
Lemma quiet_MatchesCSR c csr : preserves quiet (MatchesCSR cfg c csr).
Proof. unfold MatchesCSR. stays_quiet. Qed.
Lemma quiet_updateIssuedCount : preserves quiet updateIssuedCount.
Proof. unfold updateIssuedCount. stays_quiet. Qed.
Lemma quiet_revoke cert code : preserves quiet (revoke cert code).
Proof. unfold revoke. stays_quiet. Qed.
#[local] Hint Resolve quiet_NewRegistration quiet_UpdateRegistration quiet_DeactivateRegistration
  quiet_NewAuthorization quiet_DeactivateAuthorization quiet_checkLimits quiet_checkAuthorizations
  quiet_MatchesCSR quiet_updateIssuedCount quiet_revoke : boulder.
Lemma quiet_check_request req regID ev : preserves quiet (check_request cfg req regID ev).
Proof. unfold check_request. stays_quiet. Qed.

(** ** Jobs *)

(** What every queued validation satisfies: its challenge was completed by the client,
    and nothing else can make the authorization valid, unless it is settled already. *)
Definition job_ok (s : S) (job : Authorization * nat) : Prop :=
  let '(authz, i) := job in
  (exists ch, az_Challenges authz !! i = Some ch /\ IsSaneForValidation ch = true) /\
  (undecided authz \/ settled s (az_ID authz)) /\ az_Status authz <> StatusValid.

Lemma job_ok_later s s' jobs : sa_ok s -> no_new sa_ok authorized settled s s' -> Forall (job_ok s) jobs -> Forall (job_ok s') jobs.
Proof.
  intros Hok HN HF. destruct (HN Hok) as (_ & _ & Hs). eapply Forall_impl; [exact HF|]. intros [authz i] (? & [?|?] & ?); split_and!; auto.
Qed.

(** Nothing granted, nothing sent to the CA, only proper jobs queued. *)
Definition queues (w w' : World S) : Prop :=
  no_new sa_ok authorized settled (sa w) (sa w') /\ caRequests w' = caRequests w /\
  exists jobs, vaJobs w' = vaJobs w ++ jobs /\ Forall (job_ok (sa w')) jobs.

Lemma quiet_queues w w' : quiet w w' -> queues w w'.
Proof. intros (? & ? & ?). split_and!; try done. exists []. by rewrite app_nil_r. Qed.

Lemma IsSane_pending ch b : IsSane ch b = true -> ch_Status ch = StatusPending.
Proof. unfold IsSane. destruct (String.eqb_spec (ch_Status ch) StatusPending); done. Qed.

Lemma quiet_tick (w : World S) : quiet w (tick w).
Proof. by apply quiet_same. Qed.

(** The last part of [UpdateAuthorization]. *)
Lemma queue_job authz i e w r w' :
  sa_ok (sa w) -> undecided authz \/ settled (sa w) (az_ID authz) ->
  (exists ch, az_Challenges authz !! i = Some ch /\ IsSaneForValidation ch = true) ->
  (let! r := try (rpc (sa_UpdatePendingAuthorization authz)) in
   match r with
   | Err _ => fail e
   | Ok _ => do! modify (fun w => set_vaJobs w (vaJobs w ++ [(authz, i)])) in ret authz
   end) w = (r, w') -> queues w w'.
Proof.
  intros Hok Hw Hch H. unfold mbindM, try, rpc in H.
  destruct (sa_UpdatePendingAuthorization authz (sa w)) as [[[]|e'] s] eqn:E; injection H as <- <-;
    pose proof (spec_write _ _ _ _ Hok Hw E) as HN; (split; [exact HN|]); (split; [done|]); simpl.
  - exists [(authz, i)]. split; [done|]. apply (job_ok_later (sa w)); [done|done|]. apply Forall_singleton.
    split_and!; [done|done|]. by eapply spec_update_pending.
  - exists []. by rewrite app_nil_r.
Qed.

Lemma UpdateAuthorization_queues base ci response w r w' :
  sa_ok (sa w) -> undecided base \/ settled (sa w) (az_ID base) ->
  UpdateAuthorization cfg base ci response w = (r, w') -> queues w w'.
Proof.
  intros Hok Hb. unfold UpdateAuthorization. destruct (az_Expires base); [|intros [= <- <-]; by apply quiet_queues].
  unfold mbindM at 1, Now at 1. pose proof (quiet_queues _ _ (quiet_tick w)) as QT.
  destruct (time_Before _ _); [by intros [= <- <-]|]. destruct (_ <=? ci); [by intros [= <- <-]|].
  destruct (ci <? 0); [by intros [= <- <-]|]. cbv zeta. set (i := Z.to_nat ci).
  destruct (az_Challenges base !! i) as [ch|] eqn:Hi; [|by intros [= <- <-]].
  destruct (_ && _); [by intros [= <- <-]|]. unfold mbindM at 1, try at 1.
  destruct (rpc (sa_GetRegistration _) (tick w)) as [x w1] eqn:E1.
  apply (quiet_rpc _ (keeps_GetRegistration _)) in E1. assert (quiet w w1) as Q1 by (etransitivity; [apply quiet_tick|exact E1]).
  clear E1. pose proof (quiet_queues _ _ Q1) as QQ1. destruct x as [reg|]; [|by intros [= <- <-]].
  destruct (ExpectedKeyAuthorization _ _); [|by intros [= <- <-]]. destruct (negb _); [by intros [= <- <-]|].
  destruct (IsSaneForValidation _) eqn:Hsane; [|by intros [= <- <-]]. cbv [negb]. intros H.
  destruct Q1 as (N1 & J1 & C1). destruct (N1 Hok) as (Hok1 & _ & Hset). eapply queue_job in H as (N2 & C2 & jobs & J2 & F2).
  - split_and!; [by etransitivity|congruence|]. exists jobs. by rewrite J2, J1.
  - done.
  - destruct Hb as [[Hch Hco]|Hb]; [left|right; by apply Hset]. split; [|done].
    apply Forall_insert; [done|]. apply IsSane_pending in Hsane. by rewrite Hsane.
  - eexists. split; [|exact Hsane]. apply list_lookup_insert_eq. by eapply lookup_lt_Some.
Qed.

(** ** The VA's answer *)

Lemma record_validation_valid ch records err :
  ch_Status (record_validation ch records err) = StatusValid ->
  err = None /\ RecordsSane (with_records ch records) = true.
Proof.
  unfold record_validation. destruct err as [[]|]; simpl;
    destruct (RecordsSane (with_records ch records)) eqn:E; simpl; done.
Qed.

Lemma onValidationUpdate_invalid authz :
  existsb (forallb (validated authz)) (az_Combinations authz) = false -> az_Status authz <> StatusValid ->
  preserves quiet (onValidationUpdate cfg authz).
Proof.
  intros H Hs. unfold onValidationUpdate. rewrite H. cbv zeta.
  destruct (String.eqb_spec (az_Status authz) StatusValid); [done|]. cbv [negb].
  apply quiet_rpc, spec_finalize_invalid. done.
Qed.

(** Finalizing grants at most the authorization's own account and name, and nothing if
    it is settled. *)
Definition grants (a : Authorization) (w w' : World S) : Prop :=
  vaJobs w' = vaJobs w /\ caRequests w' = caRequests w /\
  (sa_ok (sa w) -> sa_ok (sa w') /\ (forall regID n now, authorized (sa w') regID n now ->
     authorized (sa w) regID n now \/
     (~ settled (sa w) (az_ID a) /\ az_RegistrationID a = regID /\ idValue (az_Identifier a) = n)) /\
   forall id, settled (sa w) id -> settled (sa w') id).

Lemma grants_settled a w w' : settled (sa w) (az_ID a) -> grants a w w' -> quiet w w'.
Proof.
  intros Hs (? & ? & H). split_and!; try done. intros Hok. destruct (H Hok) as (? & Ha & ?). split_and!; [done| |done].
  intros regID n now [?|[? _]]%Ha; done.
Qed.

Lemma grants_finalize a a' w r w' : az_ID a' = az_ID a ->
  az_RegistrationID a' = az_RegistrationID a -> az_Identifier a' = az_Identifier a ->
  rpc (sa_FinalizeAuthorization a') w = (r, w') -> grants a w w'.
Proof.
  intros H0 H1 H2 H. unfold rpc in H. destruct (sa_FinalizeAuthorization a' (sa w)) as [x s] eqn:E.
  injection H as <- <-. split_and!; [done|done|]. intros Hok. rewrite <- H0, <- H1, <- H2.
  by apply (spec_finalize a' _ _ _ Hok E).
Qed.

Lemma onValidationUpdate_grants a authz w r w' : az_ID authz = az_ID a ->
  az_RegistrationID authz = az_RegistrationID a -> az_Identifier authz = az_Identifier a ->
  onValidationUpdate cfg authz w = (r, w') -> grants a w w'.
Proof.
  intros H0 H1 H2 H. unfold onValidationUpdate in H. cbv zeta in H.
  destruct (negb _).
  - by eapply grants_finalize in H.
  - unfold mbindM, Now in H. eapply grants_finalize in H as (? & ? & ?); [|done|done|done]. done.
Qed.

(** The whole goroutine: unless the VA reports success with sane records it grants nothing. *)
Lemma finish_validation_spec authz i records err w r w' :
  job_ok (sa w) (authz, i) -> finish_validation cfg authz i records err w = (r, w') ->
  quiet w w' \/
  (grants authz w w' /\ err = None /\
   exists ch, az_Challenges authz !! i = Some ch /\ IsSaneForValidation ch = true /\ sane_records (ch_Type ch) records).
Proof.
  intros ((ch & Hi & Hsane) & Hc & Hst) H. unfold finish_validation in H. rewrite Hi in H.
  unfold mbindM, try in H. set (a := set_Challenges _ _) in H.
  destruct (onValidationUpdate cfg a w) as [x w1] eqn:E. injection H as <- <-.
  assert (grants authz w w1) as HG by (by eapply onValidationUpdate_grants in E).
  destruct (decide (ch_Status (record_validation ch records err) = StatusValid)) as [Hv|Hv].
  - right. apply record_validation_valid in Hv as [-> Hr%RecordsSane_spec]. split_and!; eauto.
  - left. destruct Hc as [[Hch Hco]|Hs]; [|by eapply grants_settled].
    eapply (onValidationUpdate_invalid a); [|exact Hst|exact E]. apply unsatisfied; [|done]. by apply Forall_insert.
Qed.

(** ** The clock *)

(** If the clock does not run backwards, time passes. *)
Definition forward (w w' : World S) : Prop :=
  Forall (Z.le 0) (ra_ticks w) -> Forall (Z.le 0) (ra_ticks w') /\ ra_now w <= ra_now w'.
#[global] Instance forward_preorder : PreOrder forward.
Proof.
  split; [intros w H; split; [done|lia]|]. intros w1 w2 w3 H1 H2 H. destruct (H1 H) as [Ht ?]. destruct (H2 Ht). split; [done|lia].
Qed.

Lemma forward_same (w w' : World S) : ra_now w' = ra_now w -> ra_ticks w' = ra_ticks w -> forward w w'.
Proof. intros E1 E2 H. rewrite E1, E2. split; [done|lia]. Qed.
Lemma forward_Now : preserves forward (@Now S).
Proof. intros w r w' [= <- <-]. exact (proj2 (RaChecks.later_tick w)). Qed.
Lemma forward_rpc {A} (m : M S error A) : preserves forward (rpc m).
Proof. intros w r w'. unfold rpc. destruct (m (sa w)). intros [= <- <-]. by apply forward_same. Qed.
Lemma forward_logging {A} ev (m : RAM A) : preserves forward m -> preserves forward (logging ev m).
Proof. intros Hm w r w'. unfold logging. destruct (m w) eqn:E. intros [= <- <-]. by eapply Hm. Qed.
Lemma forward_silently {A} ev (m : RAM A) : preserves forward m -> preserves forward (silently ev m).
Proof. intros Hm w r w'. unfold silently. destruct (m w) eqn:E. intros [= <- <-]. by eapply Hm. Qed.
Lemma forward_pure {E A} (m : M (World S) E A) :
  (forall w, ra_now (snd (m w)) = ra_now w /\ ra_ticks (snd (m w)) = ra_ticks w) -> preserves forward m.
Proof. intros H w r w' Ew. specialize (H w). rewrite Ew in H. simpl in H. destruct H. by apply forward_same. Qed.

Ltac time_passes :=
  ra_frame ltac:(first
    [ apply forward_logging | apply forward_silently | apply forward_rpc | apply forward_Now
    | apply forward_pure; intros ?; split; try destruct (hasPublisher _); done ]).

Lemma forward_checkLimits names regID : preserves forward (checkLimits names regID).
Proof.
  unfold checkLimits, checkTotalCertificatesLimit, checkCertificatesPerNameLimit, checkCertificatesPerFQDNSetLimit. time_passes.
Qed.
Lemma forward_checkAuthorizations names reg : preserves forward (checkAuthorizations names reg).
Proof. unfold checkAuthorizations. time_passes. Qed.
Lemma forward_check_request req regID ev : preserves forward (check_request cfg req regID ev).
Proof.
  unfold check_request. ra_frame ltac:(first [apply forward_logging | apply forward_silently | apply forward_rpc | apply forward_checkLimits
    | apply forward_checkAuthorizations]).
Qed.
Lemma forward_NewCertificate req regID : preserves forward (NewCertificate cfg req regID).
Proof.
  intros w r w' H. unfold NewCertificate, mbindM, Now in H.
  match type of H with context [new_certificate cfg req regID ?ev ?w0] =>
    destruct (new_certificate cfg req regID ev w0) as [x w1] eqn:E end.
  transitivity (tick w); [exact (proj2 (RaChecks.later_tick w))|].
  assert (forward (tick w) w1) as HF.
  { revert E. match goal with |- new_certificate cfg req regID ?ev _ = _ -> _ => generalize ev end. intros ev.
    eapply (fun H => H : preserves forward (new_certificate cfg req regID ev)).
    unfold new_certificate. apply preserves_bind; [apply _|apply forward_check_request|]. intros [csr ev'].
    unfold IssueCertificate, deliver, parse_issued, MatchesCSR. time_passes. }
  by destruct x as [[cert ev]|[e ev]]; injection H as _ <-.
Qed.

Lemma forward_snd {A} (m : RAM A) w : preserves forward m -> forward w (snd (m w)).
Proof. intros H. destruct (m w) as [r w'] eqn:E. by eapply H. Qed.

Lemma exec_forward o w : forward w (exec o w).
Proof.
  destruct o; cbn [exec]; try (by apply forward_same); apply forward_snd; try apply forward_NewCertificate.
  - unfold NewRegistration, validateContacts, validate_contact, checkRegistrationLimit. time_passes.
  - unfold UpdateRegistration, validateContacts, validate_contact. time_passes.
  - unfold DeactivateRegistration. time_passes.
  - unfold NewAuthorization, checkPendingAuthorizationLimit, checkInvalidAuthorizationLimit, checkSafeDomain, reusable,
      create_authorization, check_offer. time_passes.
  - unfold UpdateAuthorization. time_passes.
  - intros w1 r w2 H. unfold validation_done, mbindM at 1, get at 1 in H.
    destruct (vaJobs w1 !! j) as [[authz i]|]; [|injection H as <- <-; reflexivity].
    unfold mbindM at 1, put at 1 in H. transitivity (set_vaJobs w1 (delete j (vaJobs w1))); [by apply forward_same|].
    revert H. eapply (fun H => H : preserves forward (finish_validation cfg authz i records err)).
    unfold finish_validation, onValidationUpdate. time_passes.
  - unfold DeactivateAuthorization. time_passes.
  - unfold RevokeCertificateWithReg, revoke. time_passes.
  - unfold AdministrativelyRevokeCertificate, revoke. time_passes.
  - unfold updateIssuedCount. time_passes.
Qed.

(** ** Issuance *)

Lemma unauthorized_names_nil auths now names :
  unauthorized_names auths now names = Ok [] -> forall n, n ∈ names -> is_Some (auths !! n).
Proof.
  induction names as [|m names IH]; simpl; intros H n Hn; [by apply not_elem_of_nil in Hn|].
  unfold rbind in H. repeat case_in H; simplify_eq;
    (apply elem_of_cons in Hn as [->|Hn]; [by eauto|by eapply IH; eauto]).
Qed.

Lemma checkAuthorizations_Ok names reg w w' :
  sa_ok (sa w) -> checkAuthorizations names reg w = (Ok tt, w') ->
  forall n, n ∈ names -> authorized (sa w) (reg_ID reg) (ToLower n) (ra_now w).
Proof.
  intros Hok H n Hn. unfold checkAuthorizations in H.
  apply mbindM_Ok in H as (now & w1 & [= <- <-] & H). cbv zeta in H.
  apply mbindM_Ok in H as (auths & w2 & H2 & H). apply mbindM_Ok in H as (bad & w3 & H3 & H).
  unfold lift in H3. apply pair_equal_spec in H3 as [H3 <-]. destruct bad; [|done].
  unfold rpc in H2. destruct (sa_GetValidAuthorizations _ _ _ _) as [x s] eqn:E. simplify_eq.
  destruct (unauthorized_names_nil _ _ _ H3 (ToLower n)) as [a Ha]; [apply list_elem_of_fmap; eauto|].
  by eapply (spec_valid _ _ _ (sa (tick w))).
Qed.

Lemma logging_Ok {A} ev (m : RAM A) (w : World S) a w' : logging ev m w = (Ok a, w') -> m w = (Ok a, w').
Proof. unfold logging. destruct (m w) as [[|] ?]; naive_solver. Qed.

(** The request was verified, and at a reading of the clock between [w] and [w'] the
    account is authorized for every name. *)
Definition sound_request (req : CertificateRequest) (regID : Z) (w w' : World S) (csr : CertificateRequest) : Prop :=
  Csr.VerifyCSR req (maxNames cfg) (keyPolicy cfg) pa_WillingToIssue (forceCNFromSAN cfg) regID = (Ok tt, csr) /\
  0 < regID /\ csr_DNSNames csr <> [] /\
  exists now, (Forall (Z.le 0) (ra_ticks w) -> ra_now w <= now <= ra_now w') /\
    forall n, n ∈ csr_DNSNames csr -> authorized (sa w) regID (ToLower n) now.

Lemma check_request_Ok req regID ev w csr ev' w' :
  sa_ok (sa w) -> check_request cfg req regID ev w = (Ok (csr, ev'), w') -> sound_request req regID w w' csr.
Proof.
  intros Hok H. unfold check_request in H. destruct (Z.leb_spec regID 0); [done|].
  apply mbindM_Ok in H as (reg & w1 & H1%logging_Ok & H).
  pose proof (quiet_rpc _ (keeps_GetRegistration regID) _ _ _ H1) as Q1. pose proof (forward_rpc _ _ _ _ H1) as F1.
  assert (reg_ID reg = regID) as Hid.
  { unfold rpc in H1. destruct (sa_GetRegistration _ _) eqn:E. simplify_eq. by eapply spec_registration. }
  destruct (Csr.VerifyCSR _ _ _ _ _ _) as [[[]|] csr1] eqn:EV; [|done]. cbv zeta in H.
  destruct (csr_DNSNames csr1) as [|n0 ns] eqn:En; [done|].
  destruct (_ =? 0); [done|]. destruct (KeyDigestEquals _ _); [done|].
  apply mbindM_Ok in H as ([] & w2 & H2%logging_Ok & H). apply mbindM_Ok in H as ([] & w3 & H3%logging_Ok & H).
  apply pair_equal_spec in H as [H <-]. apply Ok_inj in H. simplify_eq. unfold sound_request. rewrite En. split_and!; [done|lia|done|].
  assert (quiet w w2) as [Q _] by (etransitivity; [exact Q1|by eapply quiet_checkLimits]).
  destruct (Q Hok) as (Hok2 & Hau & _). exists (ra_now w2). split.
  - intros Ht. assert (forward w w2) as F2 by (etransitivity; [exact F1|by eapply forward_checkLimits]).
    destruct (F2 Ht) as [Ht2 ?]. destruct (forward_checkAuthorizations _ _ _ _ _ H3 Ht2). lia.
  - intros n Hn. apply Hau. by eapply checkAuthorizations_Ok.
Qed.

(** No job started, nothing granted; the CA log may change. *)
Definition silent (w w' : World S) : Prop :=
  no_new sa_ok authorized settled (sa w) (sa w') /\ vaJobs w' = vaJobs w.

Lemma quiet_deliver csr ev cert : preserves quiet (deliver cfg csr ev cert).
Proof.
  unfold deliver, parse_issued.
  apply preserves_bind; [apply _|apply quiet_modify; intros w; by destruct (hasPublisher cfg)|intros ?].
  stays_quiet.
Qed.

(** Whatever comes of it, [NewCertificate] grants nothing and sends the CA at most
    one request, which passed all checks. *)
Lemma new_certificate_spec req regID ev w r w' :
  sa_ok (sa w) -> new_certificate cfg req regID ev w = (r, w') ->
  silent w w' /\ (caRequests w' = caRequests w \/
                  exists csr, caRequests w' = (csr, regID) :: caRequests w /\ sound_request req regID w w' csr).
Proof.
  intros Hok H. unfold new_certificate in H. unfold mbindM at 1 in H.
  destruct (check_request cfg req regID ev w) as [[[csr ev']|e] w1] eqn:E1;
    pose proof (quiet_check_request _ _ _ _ _ _ E1) as (N1 & J1 & C1);
    pose proof (forward_check_request _ _ _ _ _ _ E1) as F1.
  2:{ injection H as <- <-. split; [by split|by left]. }
  apply check_request_Ok in E1; [|done].
  assert (exists w2, silent w1 w2 /\ caRequests w2 = (csr, regID) :: caRequests w1 /\ quiet w2 w' /\ forward w1 w')
    as (w2 & [N2 J2] & C2 & (N3 & J3 & C3) & F3).
  { clear -H CS. unfold IssueCertificate, mbindM at 1, logging at 1, mbindM at 1, modify at 1 in H.
    set (w1' := add_caRequest w1 csr regID) in H.
    destruct (rpc (ca_IssueCertificate csr regID) w1') as [x w2] eqn:E. pose proof (forward_rpc _ _ _ _ E) as F.
    apply (quiet_rpc _ (keeps_IssueCertificate csr regID)) in E as (N & J & C).
    assert (forward w1 w2) as F1 by (etransitivity; [by apply (forward_same w1 w1')|exact F]).
    exists w2. split; [by split|]. split; [by rewrite C|].
    destruct x as [cert|e]; [|injection H as <- <-; split; [reflexivity|done]].
    split; [by eapply quiet_deliver|]. etransitivity; [exact F1|]. revert H.
    eapply (fun H => H : preserves forward (deliver cfg csr ev' cert)). unfold deliver, parse_issued, MatchesCSR. time_passes. }
  split; [split; [by do 2 (etransitivity; [eassumption|])|congruence]|].
  right. exists csr. split; [congruence|]. destruct E1 as (? & ? & ? & now & Hc & ?). split_and!; try done. exists now.
  split; [|done]. intros Ht. destruct (F1 Ht) as [Ht1 _]. destruct (F3 Ht1). specialize (Hc Ht). lia.
Qed.

Lemma NewCertificate_spec req regID w r w' :
  sa_ok (sa w) -> NewCertificate cfg req regID w = (r, w') ->
  silent w w' /\ (caRequests w' = caRequests w \/
                  exists csr, caRequests w' = (csr, regID) :: caRequests w /\ sound_request req regID w w' csr).
Proof.
  intros Hok H. unfold NewCertificate, mbindM, Now in H. pose proof (forward_Now w _ _ eq_refl) as F.
  match type of H with context [new_certificate cfg req regID ?ev ?w0] =>
    destruct (new_certificate cfg req regID ev w0) as [x w1] eqn:E end.
  apply new_certificate_spec in E as [HS HC]; [|done].
  assert (silent w w1 /\ (caRequests w1 = caRequests w \/
    exists csr, caRequests w1 = (csr, regID) :: caRequests w /\ sound_request req regID w w1 csr)) as HE.
  { split; [done|]. destruct HC as [HC|(csr & HC & ? & ? & ? & now & Hc & ?)]; [by left|right]. exists csr. split; [done|].
    split_and!; try done. exists now. split; [|done]. intros Ht. destruct (F Ht) as [Ht1 ?]. specialize (Hc Ht1). lia. }
  by destruct x as [[cert ev]|[e ev]]; injection H as <- <-.
Qed.

(** ** Histories, step by step *)

(** The account's right to the name at [now] predates the history, or was earned in it. *)
Definition earned (ops : list op) (w0 : World S) (regID : Z) (n : string) (now : Z) : Prop :=
  authorized (sa w0) regID n now \/ validated_in ops w0 regID n.

Lemma earned_app ops ops' w0 regID n now : earned ops w0 regID n now -> earned (ops ++ ops') w0 regID n now.
Proof.
  intros [H|(pre & j & recs & post & authz & i & ch & -> & H)]; [by left|].
  right. exists pre, j, recs, (post ++ ops'), authz, i, ch. split; [by rewrite <- app_assoc|done].
Qed.

(** The step of the history that asked for a certificate: the request was verified, and
    at a reading of the clock during that step the account was authorized for every name,
    by a right that predates the history or was earned before. *)
Definition asked (ops : list op) (w0 : World S) (csr : CertificateRequest) (regID : Z) : Prop :=
  exists pre req post now, ops = pre ++ OpNewCertificate req regID :: post /\
    let w := run pre w0 in
    let w' := run (pre ++ [OpNewCertificate req regID]) w0 in
    caRequests w' = (csr, regID) :: caRequests w /\
    Csr.VerifyCSR req (maxNames cfg) (keyPolicy cfg) pa_WillingToIssue (forceCNFromSAN cfg) regID = (Ok tt, csr) /\
    ra_now w <= now <= ra_now w' /\
    forall n, n ∈ csr_DNSNames csr ->
      authorized (sa w) regID (ToLower n) now /\ earned pre w0 regID (ToLower n) now.

Lemma asked_app ops ops' w0 csr regID : asked ops w0 csr regID -> asked (ops ++ ops') w0 csr regID.
Proof.
  intros (pre & req & post & now & -> & H). exists pre, req, (post ++ ops'), now. split; [by rewrite <- app_assoc|done].
Qed.

Lemma run_snoc ops o w0 : run (ops ++ [o]) w0 = exec o (run ops w0).
Proof. unfold run. by rewrite fold_left_app. Qed.

Record sound_history (ops : list op) (w0 : World S) : Prop := {
  sh_ok : sa_ok (sa (run ops w0));
  sh_past pre rest : ops = pre ++ rest -> sa_ok (sa (run pre w0)) /\
    forall id, settled (sa (run pre w0)) id -> settled (sa (run ops w0)) id;
  sh_clock : Forall (Z.le 0) (ra_ticks (run ops w0));
  sh_jobs : Forall (job_ok (sa (run ops w0))) (vaJobs (run ops w0));
  sh_authorized regID n now : authorized (sa (run ops w0)) regID n now -> earned ops w0 regID n now;
  sh_requests csr regID : (csr, regID) ∈ caRequests (run ops w0) -> asked ops w0 csr regID
}.

(** What every step does, whatever it grants. *)
Lemma sound_history_step ops o w0 reqs : let w := run ops w0 in let w' := exec o w in
  sound_history ops w0 -> sa_ok (sa w') -> (forall id, settled (sa w) id -> settled (sa w') id) ->
  Forall (job_ok (sa w')) (vaJobs w') ->
  (forall regID n now, authorized (sa w') regID n now -> earned (ops ++ [o]) w0 regID n now) ->
  caRequests w' = reqs ++ caRequests w ->
  (forall csr regID, (csr, regID) ∈ reqs -> asked (ops ++ [o]) w0 csr regID) ->
  sound_history (ops ++ [o]) w0.
Proof.
  intros w w' [Hok Hp Hc Hj Ha Hr] Hok' Hs Hjobs Hau HC Hreqs. pose proof (run_snoc ops o w0) as E. fold w w' in E.
  split; rewrite ?E; try done.
  - intros pre rest H. destruct rest as [|x rest _] using rev_ind.
    + rewrite app_nil_r in H. rewrite <- H, E. auto.
    + rewrite app_assoc in H. apply app_inj_tail in H as [-> <-]. destruct (Hp pre rest eq_refl) as [? H']. split; [done|].
      intros id Hid. by apply Hs, H'.
  - by apply exec_forward.
  - rewrite HC. intros csr regID [Hin|Hin]%elem_of_app; [by apply Hreqs|by apply asked_app, Hr].
Qed.

(** A step that grants nothing, queues only proper jobs, and asks the CA for nothing. *)
Lemma sound_history_queues ops o w0 : sound_history ops w0 -> queues (run ops w0) (exec o (run ops w0)) ->
  sound_history (ops ++ [o]) w0.
Proof.
  intros H (HN & HC & jobs & HJ & Hjobs). destruct (HN (sh_ok _ _ H)) as (Hok & Hau & Hs).
  apply (sound_history_step ops o w0 []); try done.
  - rewrite HJ. apply Forall_app. split; [|done]. apply (job_ok_later (sa (run ops w0))); [apply H|done|apply H].
  - intros. by eapply earned_app, sh_authorized, Hau.
  - by intros csr regID ?%elem_of_nil.
Qed.

Lemma sound_history_new_certificate ops w0 req regID :
  sound_history ops w0 -> sound_history (ops ++ [OpNewCertificate req regID]) w0.
Proof.
  intros H. pose proof (run_snoc ops (OpNewCertificate req regID) w0) as ER. simpl in ER.
  destruct (NewCertificate cfg req regID (run ops w0)) as [r w'] eqn:E. simpl in ER.
  apply NewCertificate_spec in E as [[HN HJ] HC]; [|apply H]. destruct (HN (sh_ok _ _ H)) as (Hok & Hau & Hs).
  destruct HC as [HC|(csr & HC & HV & _ & _ & now & Hc & Hn)].
  - apply sound_history_queues; [done|]. rewrite <- run_snoc, ER. by apply quiet_queues.
  - apply (sound_history_step ops _ w0 [(csr, regID)]); rewrite <- ?run_snoc, ?ER; try done.
    + rewrite HJ. apply (job_ok_later (sa (run ops w0))); [apply H|done|apply H].
    + intros. by eapply earned_app, sh_authorized, Hau.
    + intros c rg [= -> ->]%list_elem_of_singleton. exists ops, req, [], now. rewrite ER. cbv zeta. split_and!; try done.
      * by apply Hc, H.
      * by apply Hc, H.
      * intros n Hin. split; [by apply Hn|]. by eapply sh_authorized, Hn.
Qed.

Lemma sound_history_validated ops w0 j records err :
  sound_history ops w0 -> sound_history (ops ++ [OpValidated j records err]) w0.
Proof.
  intros H. pose proof (run_snoc ops (OpValidated j records err) w0) as ER. set (w := run ops w0) in *.
  cbn [exec] in ER. unfold validation_done, mbindM at 1, get at 1 in ER.
  destruct (vaJobs w !! j) as [[authz i]|] eqn:Ej.
  2:{ apply sound_history_queues; [done|]. rewrite <- run_snoc, ER. apply quiet_queues. reflexivity. }
  unfold mbindM at 1, put at 1 in ER. set (w1 := set_vaJobs w _) in ER.
  assert (job_ok (sa w1) (authz, i)) as Hjob by (pose proof (sh_jobs _ _ H); by eapply Forall_lookup_1).
  assert (Forall (job_ok (sa w1)) (vaJobs w1)) as Hj1 by (apply Forall_delete, H).
  destruct (finish_validation cfg authz i records err w1) as [r w'] eqn:E. cbn [snd] in ER.
  eapply finish_validation_spec in E; [|done].
  assert (sa_ok (sa w') /\ (forall id, settled (sa w) id -> settled (sa w') id) /\ vaJobs w' = vaJobs w1 /\
    caRequests w' = caRequests w /\ forall regID n now, authorized (sa w') regID n now ->
      earned (ops ++ [OpValidated j records err]) w0 regID n now) as (Hok & Hs & HJ & HC & Hau).
  { destruct E as [(HN & HJ & HC)|((HJ & HC & HG) & -> & ch & Hch & Hsane & Hrec)].
    - destruct (HN (sh_ok _ _ H)) as (? & Ha & ?). split_and!; try done. intros. by eapply earned_app, sh_authorized, Ha.
    - destruct (HG (sh_ok _ _ H)) as (? & Ha & ?). split_and!; try done. intros regID n now [Hold|(_ & HR & HI)]%Ha.
      + by eapply earned_app, sh_authorized.
      + right. exists ops, j, records, [], authz, i, ch. split_and!; done. }
  apply (sound_history_step ops _ w0 []); rewrite <- ?run_snoc, ?ER; try done.
  - rewrite HJ. eapply Forall_impl; [exact Hj1|]. intros [a k] (? & [?|?] & ?); split_and!; auto.
  - by intros csr regID ?%elem_of_nil.
Qed.

Lemma sound_history_update ops w0 base i response pre rest id s' :
  ops = pre ++ rest -> sa_GetAuthorization id (sa (run pre w0)) = (Ok base, s') ->
  sound_history ops w0 -> sound_history (ops ++ [OpUpdateAuthorization base i response]) w0.
Proof.
  intros Ho HG H. apply sound_history_queues; [done|]. simpl.
  destruct (UpdateAuthorization cfg base i response (run ops w0)) as [r w'] eqn:E. simpl.
  eapply UpdateAuthorization_queues; [apply H| |exact E]. destruct (sh_past _ _ H pre rest Ho) as [Hok Hs].
  destruct (spec_read _ _ _ _ Hok HG); auto.
Qed.

Lemma quiet_snd {A} (m : RAM A) w : preserves quiet m -> quiet w (snd (m w)).
Proof. intros H. destruct (m w) as [r w'] eqn:E. by eapply H. Qed.

Lemma from_storage_app ops ops' w0 : from_storage (ops ++ ops') w0 -> from_storage ops w0.
Proof. intros H pre base i response post ->. by eapply (H pre base i response (post ++ ops')); rewrite <- app_assoc. Qed.

Lemma sound_history_exec ops o w0 :
  from_storage (ops ++ [o]) w0 -> sound_history ops w0 -> sound_history (ops ++ [o]) w0.
Proof.
  intros HF H. destruct o; try (by apply sound_history_validated); try (by apply sound_history_new_certificate).
  5:{ destruct (HF ops base challengeIndex response []) as (pre & rest & id & s' & Ho & HG); [done|].
      by eapply sound_history_update. }
  all: apply sound_history_queues; [done|]; apply quiet_queues; cbn [exec];
    try (apply quiet_snd; eauto with boulder; unfold RevokeCertificateWithReg, AdministrativelyRevokeCertificate;
         by stays_quiet).
  by apply quiet_same.
Qed.

(** A start: storage in order, no validation running, nothing asked of the CA, and a clock
    that does not run backwards. *)
Definition starts (w0 : World S) : Prop :=
  sa_ok (sa w0) /\ vaJobs w0 = [] /\ caRequests w0 = [] /\ Forall (Z.le 0) (ra_ticks w0).

Lemma sound_history_run ops w0 : starts w0 -> from_storage ops w0 -> sound_history ops w0.
Proof.
  intros (Hok & HJ & HC & HT). induction ops as [|o ops IH] using rev_ind; intros Hops.
  - split; simpl; try done.
    + intros pre rest H. symmetry in H. by apply app_nil in H as [-> _].
    + by rewrite HJ.
    + intros. by left.
    + rewrite HC. by intros csr regID ?%elem_of_nil.
  - apply sound_history_exec; [done|]. by eapply IH, from_storage_app.
Qed.

(** The same for one step: what it sent to the CA. *)
Lemma request_step pre req regID post w0 csr rg : let o := OpNewCertificate req regID in
  starts w0 -> from_storage (pre ++ o :: post) w0 ->
  caRequests (run (pre ++ [o]) w0) = (csr, rg) :: caRequests (run pre w0) ->
  rg = regID /\ exists now, ra_now (run pre w0) <= now <= ra_now (run (pre ++ [o]) w0) /\
    forall n, n ∈ csr_DNSNames csr ->
      authorized (sa (run pre w0)) regID (ToLower n) now /\ earned pre w0 regID (ToLower n) now.
Proof.
  intros o Hw Hops. pose proof (sound_history_run pre w0 Hw (from_storage_app _ _ _ Hops)) as H.
  rewrite run_snoc. subst o. simpl. destruct (NewCertificate cfg req regID (run pre w0)) as [r w'] eqn:E. simpl.
  apply NewCertificate_spec in E as [_ [HC|(csr' & HC & _ & _ & _ & now & Hc & Hn)]]; [| |apply H]; rewrite HC; intros HE.
  - apply (f_equal length) in HE. simpl in HE. lia.
  - injection HE as -> <-. split; [done|]. exists now. split; [by apply Hc, H|]. intros n Hin. split; [by apply Hn|].
    by eapply sh_authorized, Hn.
Qed.

(** C5. In every history of RA requests, VA answers and storage faults that begins with no
    validation running, on a clock that does not run backwards, with responses only to
    authorizations that were read from storage: whenever the CA is asked for a
    certificate, a step of the history asked for it, with a CSR that verified.  At a
    reading of the clock during that step the account held a valid, unexpired
    authorization for each name, in lower case; and either it held one already, unexpired
    at that reading, when the history began, or before that step the VA reported
    success, with sane records, on a challenge that the client had completed, of an
    authorization of that account for that name. *)
Theorem no_certificate_without_validation ops w0 csr regID :
  starts w0 -> from_storage ops w0 -> (csr, regID) ∈ caRequests (run ops w0) ->
  exists pre req post now, ops = pre ++ OpNewCertificate req regID :: post /\
    Csr.VerifyCSR req (maxNames cfg) (keyPolicy cfg) pa_WillingToIssue (forceCNFromSAN cfg) regID = (Ok tt, csr) /\
    ra_now (run pre w0) <= now <= ra_now (run (pre ++ [OpNewCertificate req regID]) w0) /\
    forall n, n ∈ csr_DNSNames csr ->
      authorized (sa (run pre w0)) regID (ToLower n) now /\
      (authorized (sa w0) regID (ToLower n) now \/ validated_in pre w0 regID (ToLower n)).
Proof.
  intros Hw Hops Hin. destruct (sh_requests _ _ (sound_history_run ops w0 Hw Hops) csr regID Hin)
    as (pre & req & post & now & -> & _ & HV & Hnow & Hn). by exists pre, req, post, now.
Qed.

(** C8. Whatever [NewCertificate] answers, it sends at most one request to the CA, for
    the account that asked; that request is the CSR as verified and normalised
    (so the policy allows its names and its key is acceptable), it has a name, and
    the account holds, for every name in it, an authorization that is unexpired at one
    reading of the clock, between the beginning and the end of the call if the clock does
    not run backwards. *)
Theorem NewCertificate_asks_only_for_authorized_names req regID w r w' :
  sa_ok (sa w) -> Forall (Z.le 0) (ra_ticks w) -> NewCertificate cfg req regID w = (r, w') ->
  caRequests w' = caRequests w \/
  exists csr now, caRequests w' = (csr, regID) :: caRequests w /\ 0 < regID /\ csr_DNSNames csr <> [] /\
    Csr.VerifyCSR req (maxNames cfg) (keyPolicy cfg) pa_WillingToIssue (forceCNFromSAN cfg) regID = (Ok tt, csr) /\
    ra_now w <= now <= ra_now w' /\
    forall n, n ∈ csr_DNSNames csr -> authorized (sa w) regID (ToLower n) now.
Proof.
  intros Hok Ht H. apply NewCertificate_spec in H as [_ [H|(csr & HC & HV & Hpos & Hne & now & Hc & Ha)]]; [by left| |done].
  right. exists csr, now. split_and!; try done; by apply Hc.
Qed.

End issuance.

End RaIssuance.
