(* ===== verification/GrpcRefinement.v ===== *)
(** * The remote storage authority refines the local one

    [wire_lookups], [wire_counts] and [wire_updates] describe, without messages or
    checks, what calling a storage authority over gRPC does: the arguments and results
    are what arrives, the errors are what [over_the_wire] makes of them, and an empty
    list of names is refused.  The wrappers of grpc/sa-wrappers.go implement exactly
    that, and what the RA relies on holds of a remote storage authority whenever it
    holds of the local one. *)

From S2P Require Import Prelude GoStd Net Errors Features Core Csr Grpc RegistrationAuthority GrpcStorage RaIssuance.

Import Grpc SaWrappers.

(** ** The abstract remote call *)

Section abstract.
Context {GL : GoLib} {PJ : Bcodes.PdJSON} {J : PbJSON} {S : Type}.

(** The errors of [m] after an RPC. *)
Definition carry {A} (m : M S error A) : M S error A := fun s =>
  match m s with
  | (Ok a, s') => (Ok a, s')
  | (Err e, s') => (Err (Bcodes.over_the_wire e), s')
  end.

Definition authz_sent (a : Authorization) : result error Authorization :=
  if authz_ok a then Ok (wire_authz a) else Err bad_ip.

Definition wire_status (c : CertificateStatus) : CertificateStatus :=
  {| cs_Serial := cs_Serial c; cs_SubscriberApproved := cs_SubscriberApproved c; cs_Status := cs_Status c;
     cs_OCSPLastUpdated := UnixNano (cs_OCSPLastUpdated c); cs_RevokedDate := UnixNano (cs_RevokedDate c);
     cs_RevokedReason := cs_RevokedReason c;
     cs_LastExpirationNagSent := UnixNano (cs_LastExpirationNagSent c);
     cs_OCSPResponse := cs_OCSPResponse c; cs_NotAfter := UnixNano (cs_NotAfter c);
     cs_IsExpired := cs_IsExpired c; cs_LockCol := 0 |}.

(** Nothing is looked up for no names. *)
Definition some_names {A} (names : list string) (m : M S error A) : M S error A :=
  if bool_decide (names = []) then fail errIncompleteRequest else m.

Definition wire_lookups (inner : StorageLookups S) : StorageLookups S := {|
  GetRegistration := fun id =>
    carry (let! reg := GetRegistration _ inner id in lift (registration_sent reg));
  GetRegistrationByKey := fun key =>
    let! key := lift (need nil_dereference key) in
    do! lift (jwk_MarshalJSON key) in
    carry (let! reg := GetRegistrationByKey _ inner (Some key) in lift (registration_sent reg));
  GetAuthorization := fun id =>
    carry (let! authz := GetAuthorization _ inner id in lift (authz_sent authz));
  GetValidAuthorizations := fun regID domains now =>
    carry (some_names domains (
      let! valid := GetValidAuthorizations _ inner regID domains (UnixNano now) in
      if forallb (fun kv => authz_ok kv.2) (map_to_list valid) then ret (wire_authz <$> valid) else fail bad_ip));
  GetCertificate := fun serial =>
    carry (let! cert := GetCertificate _ inner serial in ret (wire_cert cert));
  GetCertificateStatus := fun serial =>
    carry (let! status := GetCertificateStatus _ inner serial in ret (wire_status status))
|}.

Definition wire_counts (inner : StorageCounts S) : StorageCounts S := {|
  CountCertificatesRange := fun earliest latest =>
    carry (CountCertificatesRange _ inner (UnixNano earliest) (UnixNano latest));
  CountCertificatesByNames := fun names earliest latest =>
    let! byNames := carry (some_names names (
      CountCertificatesByNames _ inner names (UnixNano earliest) (UnixNano latest))) in
    if bool_decide (byNames = ∅) then fail errIncompleteResponse else ret byNames;
  CountRegistrationsByIP := fun ip earliest latest =>
    carry (match ip with
           | None => fail errIncompleteRequest
           | Some ip => CountRegistrationsByIP _ inner (Some ip) (UnixNano earliest) (UnixNano latest)
           end);
  CountPendingAuthorizations := fun regID => carry (CountPendingAuthorizations _ inner regID);
  CountInvalidAuthorizations := fun r h a b => carry (CountInvalidAuthorizations _ inner r h a b);
  GetSCTReceipt := fun serial logID =>
    carry (let! sct := GetSCTReceipt _ inner serial logID in ret (wire_sct sct));
  CountFQDNSets := fun window domains => carry (some_names domains (CountFQDNSets _ inner window domains));
  FQDNSetExists := fun domains => carry (some_names domains (FQDNSetExists _ inner domains))
|}.

Definition wire_updates (inner : StorageUpdates S) : StorageUpdates S := {|
  NewRegistration := fun reg =>
    let! reg := lift (registration_sent reg) in
    carry (let! reg := NewRegistration _ inner reg in lift (registration_sent reg));
  UpdateRegistration := fun reg =>
    let! reg := lift (registration_sent reg) in carry (UpdateRegistration _ inner reg);
  NewPendingAuthorization := fun authz =>
    let! authz := lift (authz_sent authz) in
    carry (let! authz := NewPendingAuthorization _ inner authz in lift (authz_sent authz));
  UpdatePendingAuthorization := fun authz =>
    let! authz := lift (authz_sent authz) in carry (UpdatePendingAuthorization _ inner authz);
  FinalizeAuthorization := fun authz =>
    let! authz := lift (authz_sent authz) in carry (FinalizeAuthorization _ inner authz);
  MarkCertificateRevoked := fun serial code => carry (MarkCertificateRevoked _ inner serial code);
  AddCertificate := fun der regID ocsp => carry (AddCertificate _ inner der regID ocsp);
  AddSCTReceipt := fun sct => carry (AddSCTReceipt _ inner (wire_sct sct));
  RevokeAuthorizationsByDomain := fun domain =>
    carry (RevokeAuthorizationsByDomain _ inner {| idType := IdentifierDNS; idValue := idValue domain |});
  DeactivateRegistration := fun id => carry (DeactivateRegistration _ inner id);
  DeactivateAuthorization := fun id => carry (DeactivateAuthorization _ inner id)
|}.

(** Two storage authorities that answer alike in every state. *)
Definition same_lookups (a b : StorageLookups S) : Prop :=
  (forall id s, GetRegistration _ a id s = GetRegistration _ b id s) /\
  (forall k s, GetRegistrationByKey _ a k s = GetRegistrationByKey _ b k s) /\
  (forall id s, GetAuthorization _ a id s = GetAuthorization _ b id s) /\
  (forall r d n s, GetValidAuthorizations _ a r d n s = GetValidAuthorizations _ b r d n s) /\
  (forall c s, GetCertificate _ a c s = GetCertificate _ b c s) /\
  (forall c s, GetCertificateStatus _ a c s = GetCertificateStatus _ b c s).

Definition same_counts (a b : StorageCounts S) : Prop :=
  (forall e l s, CountCertificatesRange _ a e l s = CountCertificatesRange _ b e l s) /\
  (forall n e l s, CountCertificatesByNames _ a n e l s = CountCertificatesByNames _ b n e l s) /\
  (forall i e l s, CountRegistrationsByIP _ a i e l s = CountRegistrationsByIP _ b i e l s) /\
  (forall r s, CountPendingAuthorizations _ a r s = CountPendingAuthorizations _ b r s) /\
  (forall r h e l s, CountInvalidAuthorizations _ a r h e l s = CountInvalidAuthorizations _ b r h e l s) /\
  (forall c l s, GetSCTReceipt _ a c l s = GetSCTReceipt _ b c l s) /\
  (forall w d s, CountFQDNSets _ a w d s = CountFQDNSets _ b w d s) /\
  (forall d s, FQDNSetExists _ a d s = FQDNSetExists _ b d s).

Definition same_updates (a b : StorageUpdates S) : Prop :=
  (forall r s, NewRegistration _ a r s = NewRegistration _ b r s) /\
  (forall r s, UpdateRegistration _ a r s = UpdateRegistration _ b r s) /\
  (forall z s, NewPendingAuthorization _ a z s = NewPendingAuthorization _ b z s) /\
  (forall z s, UpdatePendingAuthorization _ a z s = UpdatePendingAuthorization _ b z s) /\
  (forall z s, FinalizeAuthorization _ a z s = FinalizeAuthorization _ b z s) /\
  (forall c r s, MarkCertificateRevoked _ a c r s = MarkCertificateRevoked _ b c r s) /\
  (forall d r o s, AddCertificate _ a d r o s = AddCertificate _ b d r o s) /\
  (forall t s, AddSCTReceipt _ a t s = AddSCTReceipt _ b t s) /\
  (forall d s, RevokeAuthorizationsByDomain _ a d s = RevokeAuthorizationsByDomain _ b d s) /\
  (forall i s, DeactivateRegistration _ a i s = DeactivateRegistration _ b i s) /\
  (forall i s, DeactivateAuthorization _ a i s = DeactivateAuthorization _ b i s).

End abstract.

(** ** The wrappers implement it *)

Section refinement.
Context {GL : GoLib} {PJ : Bcodes.PdJSON} {J : PbJSON} {JL : PbJSONLaws J} {S : Type}.

#[local] Arguments sctToPB : simpl never.
#[local] Arguments pbToSCT : simpl never.

Lemma rpc_eq {Req Resp} m (h : handler S Req Resp) req s :
  rpc m h req s = match h (Some req) s with
                  | (Ok r, s') => (Ok (Some r), s')
                  | (Err e, s') => (Err (Bcodes.over_the_wire e), s')
                  end.
Proof.
  unfold rpc, client_intercept, server_intercept, Bcodes.over_the_wire.
  destruct (h (Some req) s) as [[r|e] s']; [done|]. by destruct (Bcodes.wrapError true e).
Qed.

Lemma rpc_bind {Req Resp A} m (h : handler S Req Resp) req (k : option Resp -> M S error A) s :
  (let! response := rpc m h req in k response) s = (let! r := carry (h (Some req)) in k (Some r)) s.
Proof. unfold mbindM, carry. rewrite rpc_eq. by destruct (h (Some req) s) as [[] ?]. Qed.

Lemma lift_run {A B} (r : result error A) (k : A -> M S error B) s :
  mbindM (lift r) k s = match r with Ok a => k a s | Err e => (Err e, s) end.
Proof. by destruct r. Qed.

(** Running a wrapper up to the next call. *)
Ltac run := unfold carry, some_names, mbindM, lift, ret, fail, received, required, guard in *; simpl.

(** A registration, or an authorization, in a response. *)
Lemma respond_registration (m : M S error Registration) s :
  (let! r := carry (let! reg := m in lift (registrationToPB reg)) in
   let! response := received (Some r) in
   do! guard errIncompleteResponse (registrationValid response) in
   lift (pbToRegistration response)) s =
  carry (let! reg := m in lift (registration_sent reg)) s.
Proof.
  run. destruct (m s) as [[reg|e] s']; [|done].
  pose proof (registration_trip reg) as H. destruct (registration_sent reg) as [r|e].
  - destruct H as (pb & -> & Hv & Hp). simpl. rewrite Hv. simpl. by rewrite Hp.
  - by rewrite H.
Qed.

Lemma respond_authz (m : M S error Authorization) s :
  (let! r := carry (let! authz := m in lift (authzToPB authz)) in
   let! response := received (Some r) in
   do! guard errIncompleteResponse (authorizationValid response) in
   lift (pbToAuthz response)) s =
  carry (let! authz := m in lift (authz_sent authz)) s.
Proof.
  unfold authz_sent. run. destruct (m s) as [[a|e] s']; [|done].
  destruct (authz_trip a) as [H1 H2]. destruct (authz_ok a).
  - destruct (H1 eq_refl) as (pb & -> & Hv & Hp). simpl. rewrite Hv. simpl. by rewrite Hp.
  - by rewrite H2.
Qed.

Lemma foldl_insert_map {A B} (f : A -> B) (l : list (string * A)) (m : gmap string B) :
  NoDup l.*1 -> (forall k, k ∈ l.*1 -> m !! k = None) ->
  foldl (fun acc '(k, v) => <[k := v]> acc) m (map (fun '(k, v) => (k, f v)) l) =
  (f <$> list_to_map l) ∪ m.
Proof.
  revert m. induction l as [|[k v] l IH]; intros m; simpl.
  { by rewrite fmap_empty, (left_id ∅ union). }
  intros [Hk Hl]%NoDup_cons Hm. rewrite IH; [|done|].
  - rewrite fmap_insert, <- insert_union_l, <- insert_union_r; [done|].
    rewrite lookup_fmap, not_elem_of_list_to_map_1; done.
  - intros k' Hk'. rewrite lookup_insert_ne by (intros ->; done). apply Hm. by right.
Qed.

Lemma rebuild {A B} (f : A -> B) (m : gmap string A) :
  foldl (fun acc '(k, v) => <[k := v]> acc) ∅ (map (fun '(k, v) => (k, f v)) (map_to_list m)) = f <$> m.
Proof.
  rewrite foldl_insert_map, (right_id ∅ union), list_to_map_to_list; [done| |intros; apply lookup_empty].
  apply NoDup_fst_map_to_list.
Qed.

(** The elements of a response to [GetValidAuthorizations]. *)
Lemma valid_elements (valid : list (string * Authorization)) :
  (forallb (fun kv => authz_ok kv.2) valid = true -> exists pbs,
    mapE (fun '(k, v) => let? authzPB := authzToPB v in Ok (Some k, authzPB)) valid = Ok pbs /\
    mapE (fun '(domain, authz) =>
      let? domain := need errIncompleteResponse domain in
      if authorizationValid authz then let? authz := pbToAuthz authz in Ok (domain, authz)
      else Err errIncompleteResponse) pbs = Ok (map (fun '(k, v) => (k, wire_authz v)) valid)) /\
  (forallb (fun kv => authz_ok kv.2) valid = false ->
    mapE (fun '(k, v) => let? authzPB := authzToPB v in Ok (@Some string k, authzPB)) valid = Err bad_ip).
Proof.
  split; intros H.
  - eapply (mapE_Ok _ _ (fun '(k, v) => (k, wire_authz v))); [|exact H]. intros [k v] Hv. simpl in Hv.
    destruct (proj1 (authz_trip v) Hv) as (pb & -> & Hok & Hp). eexists. split; [done|]. simpl.
    by rewrite Hok, Hp.
  - eapply mapE_Err; [| |exact H]; intros [k v] Hv; simpl in Hv.
    + by destruct (proj1 (authz_trip v) Hv) as (pb & -> & _).
    + by rewrite (proj2 (authz_trip v) Hv).
Qed.

Lemma remote_GetValidAuthorizations inner r d n s :
  GetValidAuthorizations _ (remote_lookups (S := S) inner) r d n s =
  GetValidAuthorizations _ (wire_lookups inner) r d n s.
Proof.
  simpl. unfold mbindM at 1. rewrite rpc_eq. run. destruct (bool_decide (d = [])); [done|]. simpl.
  destruct (GetValidAuthorizations _ inner r d (UnixNano n) s) as [[valid|e] s']; [|done].
  destruct (valid_elements (map_to_list valid)) as [H1 H2]. destruct (forallb _ _).
  - destruct (H1 eq_refl) as (pbs & -> & Hp). simpl. by rewrite Hp, rebuild.
  - by rewrite H2.
Qed.

Lemma remote_CountCertificatesByNames inner n e l s :
  CountCertificatesByNames _ (remote_counts (S := S) inner) n e l s =
  CountCertificatesByNames _ (wire_counts inner) n e l s.
Proof.
  simpl. unfold mbindM at 1. rewrite rpc_eq. run. destruct (bool_decide (n = [])); [done|]. simpl.
  destruct (CountCertificatesByNames _ inner n _ _ s) as [[m|?] s']; [|done]. simpl.
  assert (bool_decide (map (fun '(k, v) => (@Some string k, @Some Z v)) (map_to_list m) = []) = bool_decide (m = ∅)) as ->.
  { apply bool_decide_ext. rewrite <- (map_to_list_empty_iff m). by destruct (map_to_list m) as [|[]]. }
  destruct (bool_decide (m = ∅)); [done|]. simpl.
  destruct (mapE_Ok (fun '(k, v) => Ok (@Some string k, @Some Z v)) (fun '(name, count) =>
    let? name := need errIncompleteResponse name in
    let? count := need errIncompleteResponse count in Ok (name, count))
    (fun '(k, v) => (k, id v)) (fun _ => true) (map_to_list m)) as (ys & H1 & H2).
  { intros [k v] _. eexists. done. }
  { by apply forallb_forall. }
  assert (ys = map (fun '(k, v) => (Some k, Some v)) (map_to_list m)) as <-.
  { clear H2. revert ys H1. induction (map_to_list m) as [|[k v] xs IH]; simpl; [by intros ? [= <-]|].
    destruct (mapE _ xs) as [ls|]; [|done]. intros ? [= <-]. by rewrite (IH ls). }
  by rewrite H2, rebuild, map_fmap_id.
Qed.

(** A registration or an authorization in a request: the server sees what arrives. *)
Lemma request_registration {A B} name (f : Registration -> M S error A) (k : option A -> M S error B) reg s :
  (let! regPB := lift (registrationToPB reg) in
   let! response := rpc name (fun request =>
     let! request := required request in do! guard errIncompleteRequest (registrationValid request) in
     let! reg := lift (pbToRegistration request) in f reg) regPB in
   k response) s =
  (let! reg := lift (registration_sent reg) in let! r := carry (f reg) in k (Some r)) s.
Proof.
  rewrite !lift_run. pose proof (registration_trip reg) as H.
  destruct (registration_sent reg) as [r|e]; [|by rewrite H].
  destruct H as (pb & -> & Hv & Hp). rewrite rpc_bind. run. rewrite Hv. simpl. rewrite Hp.
  by destruct (f r s) as [[] ?].
Qed.

Lemma request_authz {A B} name (f : Authorization -> M S error A) (k : option A -> M S error B) a s :
  (let! authPB := lift (authzToPB a) in
   let! response := rpc name (fun request =>
     let! request := required request in do! guard errIncompleteRequest (authorizationValid request) in
     let! a := lift (pbToAuthz request) in f a) authPB in
   k response) s =
  (let! a := lift (authz_sent a) in let! r := carry (f a) in k (Some r)) s.
Proof.
  rewrite !lift_run. destruct (authz_trip a) as [H1 H2]. unfold authz_sent.
  destruct (authz_ok a); [|by rewrite H2].
  destruct (H1 eq_refl) as (pb & -> & Hv & Hp). rewrite rpc_bind. run. rewrite Hv. simpl. rewrite Hp.
  by destruct (f (wire_authz a) s) as [[] ?].
Qed.

Lemma carry_unit (m : M S error unit) s : (let! _ := carry m in ret tt) s = carry m s.
Proof. run. by destruct (m s) as [[[]|] ?]. Qed.

Lemma lookups_over_rpc (inner : StorageLookups S) :
  same_lookups (remote_lookups inner) (wire_lookups inner).
Proof.
  unfold same_lookups. split_and!; intros; try apply remote_GetValidAuthorizations; simpl.
  - rewrite rpc_bind. apply respond_registration.
  - rewrite !lift_run. destruct k as [k|]; [|done]. cbn [need]. rewrite !lift_run.
    destruct (jwk_MarshalJSON k) as [ks|] eqn:Ek; [|done]. rewrite rpc_bind.
    rewrite <- respond_registration. run. by rewrite (jwk_roundtrip _ _ Ek).
  - rewrite rpc_bind. apply respond_authz.
  - rewrite rpc_bind. run. by destruct (GetCertificate _ inner c s) as [[] ?].
  - rewrite rpc_bind. run. by destruct (GetCertificateStatus _ inner c s) as [[] ?].
Qed.

Lemma counts_over_rpc (inner : StorageCounts S) :
  same_counts (remote_counts inner) (wire_counts inner).
Proof.
  unfold same_counts. split_and!; intros; try apply remote_CountCertificatesByNames; simpl;
    unfold mbindM at 1; rewrite rpc_eq; run.
  - by destruct (CountCertificatesRange _ inner _ _ s) as [[] ?].
  - destruct i as [i|]; [|done]. simpl. by destruct (CountRegistrationsByIP _ inner _ _ _ s) as [[] ?].
  - by destruct (CountPendingAuthorizations _ inner _ s) as [[] ?].
  - by destruct (CountInvalidAuthorizations _ inner _ _ _ _ s) as [[] ?].
  - destruct (GetSCTReceipt _ inner _ _ s) as [[sct|] ?]; [|done]. simpl. by rewrite (proj2 (sct_trip sct)).
  - destruct (bool_decide (d = [])); [done|]. simpl. by destruct (CountFQDNSets _ inner _ _ s) as [[] ?].
  - destruct (bool_decide (d = [])); [done|]. simpl. by destruct (FQDNSetExists _ inner _ s) as [[] ?].
Qed.

Lemma updates_over_rpc (inner : StorageUpdates S) :
  same_updates (remote_updates inner) (wire_updates inner).
Proof.
  unfold same_updates. split_and!; intros; simpl.
  - rewrite (request_registration _ (fun reg => let! n := NewRegistration _ inner reg in lift (registrationToPB n))).
    rewrite !lift_run. destruct (registration_sent r); [|done]. apply respond_registration.
  - rewrite (request_registration _ (UpdateRegistration _ inner)).
    rewrite !lift_run. destruct (registration_sent r); [|done]. apply carry_unit.
  - rewrite (request_authz _ (fun a => let! n := NewPendingAuthorization _ inner a in lift (authzToPB n))).
    rewrite !lift_run. destruct (authz_sent z); [|done]. apply respond_authz.
  - rewrite (request_authz _ (UpdatePendingAuthorization _ inner)).
    rewrite !lift_run. destruct (authz_sent z); [|done]. apply carry_unit.
  - rewrite (request_authz _ (FinalizeAuthorization _ inner)).
    rewrite !lift_run. destruct (authz_sent z); [|done]. apply carry_unit.
  - rewrite rpc_bind. apply carry_unit.
  - rewrite rpc_bind. run. by destruct (AddCertificate _ inner d r o s) as [[] ?].
  - rewrite rpc_bind, carry_unit. run. by rewrite wrap64_mod.
  - rewrite rpc_bind. run. by destruct (RevokeAuthorizationsByDomain _ inner _ s) as [[[]|] ?].
  - rewrite rpc_bind. apply carry_unit.
  - rewrite rpc_bind. apply carry_unit.
Qed.

(** C11. Looking things up through the gRPC wrappers and interceptors is exactly
    looking them up locally and passing the answer, or the error, over the wire. *)
Theorem remote_lookups_refine (inner : StorageLookups S) :
  same_lookups (remote_lookups inner) (wire_lookups inner).
Proof. apply lookups_over_rpc. Qed.

(** Counting over gRPC is counting locally at the times that arrive, except that
    no names, a nil address and an empty result are errors. *)
Theorem remote_counts_refine (inner : StorageCounts S) :
  same_counts (remote_counts inner) (wire_counts inner).
Proof. apply counts_over_rpc. Qed.

(** C10. Every update over gRPC is the local one on the registration, authorization or
    receipt that arrives; what cannot be sent changes nothing. *)
Theorem remote_updates_refine (inner : StorageUpdates S) :
  same_updates (remote_updates inner) (wire_updates inner).
Proof. apply updates_over_rpc. Qed.

End refinement.

(** ** What the RA relies on, of a remote storage authority *)

(** The RA's view of the three groups; a nil address is the empty string. *)
Definition sa_of {S : Type} (l : StorageLookups S) (c : StorageCounts S) (u : StorageUpdates S)
    : StorageAuthority S := {|
  sa_GetRegistration := GetRegistration _ l;
  sa_GetAuthorization := GetAuthorization _ l;
  sa_GetValidAuthorizations := GetValidAuthorizations _ l;
  sa_CountRegistrationsByIP := fun ip => CountRegistrationsByIP _ c (if is_empty ip then None else Some ip);
  sa_CountPendingAuthorizations := CountPendingAuthorizations _ c;
  sa_CountInvalidAuthorizations := CountInvalidAuthorizations _ c;
  sa_CountCertificatesRange := CountCertificatesRange _ c;
  sa_CountCertificatesByNames := CountCertificatesByNames _ c;
  sa_CountFQDNSets := CountFQDNSets _ c;
  sa_FQDNSetExists := FQDNSetExists _ c;
  sa_NewRegistration := NewRegistration _ u;
  sa_UpdateRegistration := UpdateRegistration _ u;
  sa_NewPendingAuthorization := NewPendingAuthorization _ u;
  sa_UpdatePendingAuthorization := UpdatePendingAuthorization _ u;
  sa_FinalizeAuthorization := FinalizeAuthorization _ u;
  sa_MarkCertificateRevoked := MarkCertificateRevoked _ u;
  sa_DeactivateRegistration := DeactivateRegistration _ u;
  sa_DeactivateAuthorization := DeactivateAuthorization _ u
|}.

Section remote.
Context {GL : GoLib} {PJ : Bcodes.PdJSON} {J : PbJSON} {JL : PbJSONLaws J} {S : Type}.
Context (l : StorageLookups S) (c : StorageCounts S) (u : StorageUpdates S).

Definition remote_storage : StorageAuthority S := sa_of (remote_lookups l) (remote_counts c) (remote_updates u).

Lemma preserves_carry {A} (R : S -> S -> Prop) (m : M S error A) : preserves R m -> preserves R (carry m).
Proof.
  intros H s r s'. unfold carry. destruct (m s) as [[a|e] s1] eqn:E; intros [= <- <-]; by eapply H.
Qed.

Lemma preserves_ext {A} (R : S -> S -> Prop) (m m' : M S error A) :
  (forall s, m s = m' s) -> preserves R m' -> preserves R m.
Proof. intros He H s r s' Hm. rewrite He in Hm. by eapply H. Qed.

Lemma preserves_names {A} (R : S -> S -> Prop) `{!PreOrder R} names (m : M S error A) :
  preserves R m -> preserves R (some_names names m).
Proof. intros H. unfold some_names. case_bool_decide; [by apply preserves_fail|done]. Qed.

(** A time that arrives is the time that was sent, wrapped at 64 bits. *)
Definition remote_authorized (authorized : S -> Z -> string -> Z -> Prop) (s : S) (r : Z) (n : string) (now : Z) : Prop :=
  authorized s r n (UnixNano now).

Context {SP : StorageSpec S (SA := sa_of l c u)}.
#[local] Existing Instance SP.
#[local] Instance local_storage : StorageAuthority S := sa_of l c u.

Definition remote_keeps {A} (m : M S error A) : Prop :=
  preserves (no_new sa_ok (remote_authorized authorized) settled) m.

Lemma remote_keeps_of {A} (m : M S error A) : keeps m -> remote_keeps m.
Proof. intros H s r s' Hm Hok. destruct (H s r s' Hm Hok) as (? & Ha & ?). split; [done|]. unfold remote_authorized. eauto. Qed.

(** Sending, receiving and converting change no state: a remote call keeps what the
    local one keeps. *)
Ltac remote_keeps_by :=
  cbn; repeat first
    [ apply preserves_carry | apply preserves_names; [apply _|]
    | apply preserves_lift_bind; [apply _|intros] | apply preserves_bind; [apply _| |intros]
    | apply preserves_lift; apply _ | apply preserves_ret; apply _ | apply preserves_fail; apply _
    | match goal with |- preserves _ (match ?x with _ => _ end) => destruct x end ].
Ltac remote_by refine H :=
  intros; eapply preserves_ext; [intros; apply refine|]; remote_keeps_by; apply remote_keeps_of; apply H.

Lemma remote_finalize a s r s' :
  FinalizeAuthorization _ (wire_updates u) a s = (r, s') ->
  s' = s \/ exists r', FinalizeAuthorization _ u (wire_authz a) s = (r', s').
Proof.
  simpl. unfold mbindM, lift, authz_sent, carry. destruct (authz_ok a); [|by intros [= _ <-]; left].
  destruct (FinalizeAuthorization _ u _ s) as [[] s1]; intros [= _ <-]; eauto.
Qed.

Lemma remote_spec_registration regID s reg s' :
  sa_ok s -> GetRegistration _ (remote_lookups l) regID s = (Ok reg, s') -> reg_ID reg = regID.
Proof.
  intros Hok. rewrite (proj1 (lookups_over_rpc l)). simpl. unfold carry, mbindM, lift.
  destruct (GetRegistration _ l regID s) as [[r|] s1] eqn:E; [|done].
  apply (spec_registration (SA := sa_of l c u)) in E; [|done]. unfold registration_sent.
  destruct (reg_Key r); [|done]. destruct (jwk_MarshalJSON _); [|done]. destruct (addr_ok _); [|done].
  by intros [= <- <-].
Qed.

Lemma remote_spec_valid regID names now s m s' n a :
  sa_ok s -> GetValidAuthorizations _ (remote_lookups l) regID names now s = (Ok m, s') ->
  m !! n = Some a -> remote_authorized authorized s regID n now.
Proof.
  intros Hok. destruct (lookups_over_rpc l) as (_ & _ & _ & -> & _). simpl. unfold carry, some_names, mbindM.
  case_bool_decide; [done|]. destruct (GetValidAuthorizations _ l regID names _ s) as [[v|] s1] eqn:E; [|done].
  destruct (forallb _ _); [|done]. intros [= <- <-]. rewrite lookup_fmap. intros (b & Hb & _)%fmap_Some.
  by eapply (spec_valid (SA := sa_of l c u)).
Qed.

Lemma remote_spec_update_pending a s s' :
  sa_ok s -> UpdatePendingAuthorization _ (remote_updates u) a s = (Ok tt, s') -> az_Status a <> StatusValid.
Proof.
  intros Hok. destruct (updates_over_rpc u) as (_ & _ & _ & -> & _). simpl.
  unfold mbindM, lift, authz_sent, carry. destruct (authz_ok a); [|done].
  destruct (UpdatePendingAuthorization _ u _ s) as [[[]|] s1] eqn:E; [|done]. intros _.
  exact (spec_update_pending (SA := sa_of l c u) (wire_authz a) s s1 Hok E).
Qed.

Lemma wire_undecided a : undecided (wire_authz a) <-> undecided a.
Proof. unfold undecided. simpl. by rewrite Forall_map. Qed.

Lemma remote_spec_read id s a s' :
  sa_ok s -> GetAuthorization _ (remote_lookups l) id s = (Ok a, s') -> undecided a \/ settled s (az_ID a).
Proof.
  intros Hok. destruct (lookups_over_rpc l) as (_ & _ & -> & _). simpl. unfold carry, mbindM, lift, authz_sent.
  destruct (GetAuthorization _ l id s) as [[b|] s1] eqn:E; [|done]. destruct (authz_ok b); [|done]. intros [= <- _].
  rewrite wire_undecided. exact (spec_read (SA := sa_of l c u) id s b s1 Hok E).
Qed.

Lemma remote_spec_write a s r s' :
  sa_ok s -> undecided a \/ settled s (az_ID a) -> UpdatePendingAuthorization _ (remote_updates u) a s = (r, s') ->
  no_new sa_ok (remote_authorized authorized) settled s s'.
Proof.
  intros Hok Hw. destruct (updates_over_rpc u) as (_ & _ & _ & -> & _). simpl.
  unfold mbindM, lift, authz_sent, carry. destruct (authz_ok a); [|by intros [= _ <-]].
  destruct (UpdatePendingAuthorization _ u _ s) as [x s1] eqn:E. intros H. assert (s1 = s') as -> by (by destruct x; injection H).
  intros _. destruct (spec_write (SA := sa_of l c u) (wire_authz a) s x s' Hok) as (? & ? & ?);
    [by rewrite wire_undecided|exact E|done|]. split_and!; [done| |done]. unfold remote_authorized. eauto.
Qed.

Lemma remote_spec_finalize a s r s' :
  sa_ok s -> FinalizeAuthorization _ (remote_updates u) a s = (r, s') ->
  sa_ok s' /\ (forall regID n now, remote_authorized authorized s' regID n now ->
    remote_authorized authorized s regID n now \/
    (~ settled s (az_ID a) /\ az_RegistrationID a = regID /\ idValue (az_Identifier a) = n)) /\
  forall id, settled s id -> settled s' id.
Proof.
  intros Hok. destruct (updates_over_rpc u) as (_ & _ & _ & _ & -> & _).
  intros [->|[r' H]]%remote_finalize; [by auto|].
  destruct (spec_finalize (SA := sa_of l c u) (wire_authz a) s r' s' Hok H) as (? & Hg & ?).
  split_and!; [done| |done]. intros regID n now Ha%Hg. exact Ha.
Qed.

(** Whatever storage authority keeps the RA's contract (only finalizing an
    authorization grants one, for its account and name, once; what is read is undecided or
    settled; only pending authorizations are updated; a registration has the ID asked for) keeps it when it is called over
    gRPC. *)
#[global] Instance remote_spec : StorageSpec S (SA := remote_storage).
Proof.
  refine {| sa_ok := sa_ok; authorized := remote_authorized authorized; settled := settled |}.
  - apply remote_spec_registration.
  - apply remote_spec_valid.
  - apply remote_spec_read.
  - apply remote_spec_write.
  - apply remote_spec_update_pending.
  - apply remote_spec_finalize.
  - intros a Ha. eapply preserves_ext; [intros; apply (updates_over_rpc u)|]. remote_keeps_by.
    apply remote_keeps_of, (spec_finalize_invalid (SA := sa_of l c u)). unfold authz_sent in *. case_match; simplify_eq. exact Ha.
  - remote_by (lookups_over_rpc l) (keeps_GetRegistration (SA := sa_of l c u)).
  - remote_by (lookups_over_rpc l) (keeps_GetAuthorization (SA := sa_of l c u)).
  - remote_by (lookups_over_rpc l) (keeps_GetValidAuthorizations (SA := sa_of l c u)).
  - intros ip a b. eapply preserves_ext; [intros; apply (counts_over_rpc c)|].
    pose proof (keeps_CountRegistrationsByIP (SA := sa_of l c u) ip (UnixNano a) (UnixNano b)) as H. cbn in *.
    destruct (is_empty ip); remote_keeps_by. by apply remote_keeps_of.
  - remote_by (counts_over_rpc c) (keeps_CountPendingAuthorizations (SA := sa_of l c u)).
  - remote_by (counts_over_rpc c) (keeps_CountInvalidAuthorizations (SA := sa_of l c u)).
  - remote_by (counts_over_rpc c) (keeps_CountCertificatesRange (SA := sa_of l c u)).
  - remote_by (counts_over_rpc c) (keeps_CountCertificatesByNames (SA := sa_of l c u)).
  - remote_by (counts_over_rpc c) (keeps_CountFQDNSets (SA := sa_of l c u)).
  - remote_by (counts_over_rpc c) (keeps_FQDNSetExists (SA := sa_of l c u)).
  - remote_by (updates_over_rpc u) (keeps_NewRegistration (SA := sa_of l c u)).
  - remote_by (updates_over_rpc u) (keeps_UpdateRegistration (SA := sa_of l c u)).
  - intros a Ha. eapply preserves_ext; [intros; apply (updates_over_rpc u)|]. remote_keeps_by.
    apply remote_keeps_of, (keeps_NewPendingAuthorization (SA := sa_of l c u)). unfold authz_sent in *. case_match; simplify_eq.
    by apply wire_undecided.
  - remote_by (updates_over_rpc u) (keeps_MarkCertificateRevoked (SA := sa_of l c u)).
  - remote_by (updates_over_rpc u) (keeps_DeactivateRegistration (SA := sa_of l c u)).
  - remote_by (updates_over_rpc u) (keeps_DeactivateAuthorization (SA := sa_of l c u)).
Defined.

End remote.
