(* ===== verification/RaStorage.v ===== *)
(** * The storage authority behind the registration authority

    The operations of the storage model implement the RA's interface and satisfy
    what the RA relies on: only finalizing grants an authorization, and only once; an
    authorization that is read is undecided or settled; a registration has the ID it was
    asked for; and only pending authorizations are updated. *)

From S2P Require Import Prelude GoStd Errors Features Core Csr Database Storage SaFrame SaInvariants SaQueries SaOpen.
From S2P Require Import RegistrationAuthority RaIssuance.

Import SaInvariants SaOpen.

Section instance.
Context {GL : GoLib} {Cr : Crypto} {Q : SQL} {J : StorageJSON} {X : X509}.
Context (fs : Features.state) (fuel : nat).

(** [fuel] bounds the draws for a fresh authorization ID. *)
#[global] Instance storage_authority : StorageAuthority World := {|
  sa_GetRegistration := Storage.GetRegistration fs;
  sa_GetAuthorization := Storage.GetAuthorization;
  sa_GetValidAuthorizations := Storage.GetValidAuthorizations;
  sa_CountRegistrationsByIP := Storage.CountRegistrationsByIP;
  sa_CountPendingAuthorizations := Storage.CountPendingAuthorizations;
  sa_CountInvalidAuthorizations := fun r h a b =>
    let! count := Storage.CountInvalidAuthorizations r h a b in ret (Some count);
  sa_CountCertificatesRange := Storage.CountCertificatesRange;
  sa_CountCertificatesByNames := Storage.CountCertificatesByNames;
  sa_CountFQDNSets := Storage.CountFQDNSets;
  sa_FQDNSetExists := Storage.FQDNSetExists;
  sa_NewRegistration := Storage.NewRegistration fs;
  sa_UpdateRegistration := Storage.UpdateRegistration fs;
  sa_NewPendingAuthorization := fun a =>
    let! r := Storage.NewPendingAuthorization fuel a in
    match r with
    | Some a => ret a
    | None => fail (PlainError "no unused authorization ID drawn")
    end;
  sa_UpdatePendingAuthorization := Storage.UpdatePendingAuthorization;
  sa_FinalizeAuthorization := Storage.FinalizeAuthorization;
  sa_MarkCertificateRevoked := Storage.MarkCertificateRevoked;
  sa_DeactivateRegistration := Storage.DeactivateRegistration;
  sa_DeactivateAuthorization := Storage.DeactivateAuthorization
|}.

(** ** Which rows can become valid *)

(** The valid rows of [t'] are rows of [t], or satisfy [ok]. *)
Definition grants_only (ok : Authorization -> Prop) (t t' : Tables) : Prop :=
  forall k a, authz t' !! k = Some a -> coll (az_Status a) = coll StatusValid ->
    authz t !! k = Some a \/ ok a.

#[global] Instance grants_only_preorder ok : PreOrder (grants_only ok).
Proof.
  split.
  - intros t k a. auto.
  - intros t1 t2 t3 H1 H2 k a Ha Hs. destruct (H2 k a Ha Hs); [eauto|auto].
Qed.

Section laws.
Context {SL : SQLLaws Q}.

Lemma coll_status_ne s t :
  all_chars host_char s = true -> all_chars host_char t = true -> s <> t -> coll s <> coll t.
Proof. intros Hs Ht Hne H. by apply Hne, coll_host. Qed.

Lemma coll_revoked : coll StatusRevoked <> coll StatusValid.
Proof. by apply coll_status_ne. Qed.
Lemma coll_deactivated : coll StatusDeactivated <> coll StatusValid.
Proof. by apply coll_status_ne. Qed.
Lemma coll_invalid : coll StatusInvalid <> coll StatusValid.
Proof. by apply coll_status_ne. Qed.

(** A new status other than valid grants nothing. *)
Lemma grants_insert ok t p k a :
  (coll (az_Status a) = coll StatusValid -> ok a) -> grants_only ok t (set_authzs t p (<[k := a]> (authz t))).
Proof.
  intros Ha j b Hj Hs. simpl in Hj. apply lookup_insert_Some in Hj as [[<- <-]|[_ Hj]]; [right; auto|by left].
Qed.

Lemma grants_revoke ok tbl ids : preserves (inside (grants_only ok)) (Storage.revokeAuthorizations tbl ids).
Proof.
  unfold Storage.revokeAuthorizations. statement; intros k a Ha Hv; [|by left].
  simpl in Ha. rewrite lookup_fmap in Ha. apply fmap_Some in Ha as (b & Hb & ->).
  unfold Storage.revoke_final in *. destruct (Storage.in_ids ids b); [|by left].
  by apply coll_revoked in Hv.
Qed.

Lemma grants_deactivate ok id : preserves (outside (grants_only ok)) (Storage.DeactivateAuthorization id).
Proof.
  unfold Storage.DeactivateAuthorization, Storage.existingPending. frame; statement; try (by intros ? ? ? ?; left).
  apply grants_insert. simpl. intros H. by apply coll_deactivated in H.
Qed.

#[global] Instance grants_only_rel ok :
  TableRel (fun a => coll (az_Status a) = coll StatusValid -> ok (Storage.authz_row a)) True True (grants_only ok).
Proof.
  split; intros; try apply _; eauto using grants_revoke, grants_deactivate.
  - unfold Storage.insert_registration. statement. by intros ? ? ? ?; left.
  - unfold Storage.update_registration. statement; by intros ? ? ? ?; left.
  - unfold Storage.DeactivateRegistration. statement; by intros ? ? ? ?; left.
  - unfold Storage.insert_pending. statement. by intros ? ? ? ?; left.
  - unfold Storage.update_pending. statement; by intros ? ? ? ?; left.
  - unfold Storage.delete_pending. statement; by intros ? ? ? ?; left.
  - unfold Storage.insert_authz. statement. by apply grants_insert.
  - unfold Storage.insert_challenge. statement. by intros ? ? ? ?; left.
  - unfold Storage.update_challenge. statement; by intros ? ? ? ?; left.
  - unfold Storage.update_status. statement; by intros ? ? ? ?; left.
  - unfold Storage.insert_certificate. statement. by intros ? ? ? ?; left.
  - unfold Storage.insert_certificate_status. statement. by intros ? ? ? ?; left.
  - unfold Storage.addFQDNSet. statement. by intros ? ? ? ?; left.
  - unfold Storage.addIssuedNames. statement. by intros ? ? ? ?; left.
  - unfold Storage.AddSCTReceipt. frame. statement. by intros ? ? ? ?; left.
Qed.

(** ** The interface *)

Definition storage_ok (w : World) : Prop := tx w = None /\ wf (db w) /\ open_wf (db w).
Definition settled_row (w : World) (id : string) : Prop := has_final (db w) id.

(** The account has a valid row for the dns name that expires after [now]. *)
Definition holds_authorization (w : World) (regID : Z) (n : string) (now : Z) : Prop :=
  exists k a e, authz (db w) !! k = Some a /\ az_RegistrationID a = regID /\
    az_Identifier a = {| idType := IdentifierDNS; idValue := n |} /\
    coll (az_Status a) = coll StatusValid /\ az_Expires a = Some e /\ now < e.

Lemma exec_of {A} (m : DB A) w r w' : m w = (r, w') -> ignore m w = (Ok tt, w').
Proof. intros H. unfold ignore, mbindM, try. by rewrite H. Qed.

Lemma exec_keeps op w w' :
  tx w = None -> wf (db w) -> exec fs op w = (Ok tt, w') -> tx w' = None /\ wf (db w').
Proof.
  intros Htx Hwf H. destruct (frame_exec _ _ _ keeps_wf fs op ltac:(by destruct op) _ _ _ H Htx) as [? Hk].
  split; [done|by apply Hk].
Qed.

Lemma exec_grants ok op w w' :
  tx w = None -> exec fs op w = (Ok tt, w') ->
  (forall a, op = OpFinalizeAuthorization a -> coll (az_Status a) = coll StatusValid -> ok (Storage.authz_row a)) ->
  grants_only ok (db w) (db w').
Proof.
  intros Htx H Hop. eapply (frame_exec _ _ _ (grants_only ok) fs op); [|exact H|done].
  destruct op; simpl; eauto.
Qed.

(** Operations other than finalizing a valid authorization grant nothing. *)
Lemma op_no_new {A} op (m : DB A) (C : Tables -> Prop) w r w' :
  exec fs op = ignore m -> (forall a, op = OpFinalizeAuthorization a -> coll (az_Status a) <> coll StatusValid) ->
  preserves (outside (settles C)) m -> C (db w) -> m w = (r, w') ->
  no_new storage_ok holds_authorization settled_row w w'.
Proof.
  intros E Hop HP HC Hm (Htx & Hwf & Hopen). destruct (HP _ _ _ Hm Htx) as (_ & HD & HO).
  apply exec_of in Hm. rewrite <- E in Hm. destruct (exec_keeps op w w' Htx Hwf Hm) as [Htx' Hwf'].
  split; [split_and!; auto|]. split; [|intros id; by apply has_final_mono].
  intros regID n now (k & a & e & Hk & HR & HI & HS & HE).
  eapply (exec_grants (fun _ => False)) in Hm; [|done|intros a' Ha' Hc; by apply Hop in Ha'].
  destruct (Hm k a Hk HS) as [Hold|[]]. by exists k, a, e.
Qed.

Lemma ignored {A} (R : World -> World -> Prop) (m : DB A) : preserves R (ignore m) -> preserves R m.
Proof. intros H w r w' E. eapply (H w (Ok tt) w'). unfold ignore, mbindM, try. by rewrite E. Qed.

Lemma exec_no_new {A} op (m : DB A) :
  exec fs op = ignore m -> allows (fun _ => False) False True op -> preserves (no_new storage_ok holds_authorization settled_row) m.
Proof.
  intros E Hop w r w' H. eapply (op_no_new op m (fun _ => True)); [done| | |done|exact H].
  - intros a ->. by destruct Hop.
  - apply ignored. rewrite <- E. apply (frame_exec (fun _ => True) False True (settles (fun _ => True))). destruct op; simpl in *; tauto.
Qed.

Lemma GetRegistration_ID id w reg w' :
  wf (db w) -> Storage.GetRegistration fs id w = (Ok reg, w') -> reg_ID reg = id.
Proof.
  intros Hwf H. unfold Storage.GetRegistration in H. apply mbindM_Ok in H as (r & w1 & H1 & H).
  unfold try in H1. destruct (Storage.selectRegistration_by_id fs id w) as [x w2] eqn:E. injection H1 as <- <-.
  destruct x as [rm|e]; [|by destruct e]. apply query_Ok in E as (E & _).
  destruct (registrations (db w) !! id) as [row|] eqn:Erow; [|done]. apply Ok_inj in E as <-.
  apply (wf_registrations _ Hwf) in Erow as [Hid _]. apply pair_equal_spec in H as [H _].
  unfold Storage.modelToRegistration in H. destruct (unmarshal_jwk _); [|done]. apply Ok_inj in H as <-. simpl.
  done.
Qed.

Lemma UpdatePendingAuthorization_status a w w' :
  Storage.UpdatePendingAuthorization a w = (Ok tt, w') -> az_Status a <> StatusValid.
Proof.
  intros H E. unfold Storage.UpdatePendingAuthorization, in_tx in H. rewrite E in H. simpl in H.
  apply mbindM_Ok in H as (u & w1 & _ & H). by apply mbindM_Ok in H as (r & w2 & [= <- <-] & H).
Qed.

Lemma finalize_grants a w r w' :
  storage_ok w -> Storage.FinalizeAuthorization a w = (r, w') ->
  storage_ok w' /\ (forall regID n now, holds_authorization w' regID n now ->
    holds_authorization w regID n now \/
    (~ settled_row w (az_ID a) /\ az_RegistrationID a = regID /\
     az_Identifier a = {| idType := IdentifierDNS; idValue := n |})) /\
  forall id, settled_row w id -> settled_row w' id.
Proof.
  intros (Htx & Hwf & Hopen) Hf. destruct (finalize_authorization a _ _ _ Hf Htx) as (_ & HD & HO).
  destruct (finalize_once a _ _ _ Hf Htx) as [_ Honce].
  pose proof (exec_of _ _ _ _ Hf) as H. change (exec fs (OpFinalizeAuthorization a) w = (Ok tt, w')) in H.
  destruct (exec_keeps _ w w' Htx Hwf H) as [Htx' Hwf']. split; [split_and!; auto|]. split; [|intros id; by apply has_final_mono].
  intros regID n now (k & b & e & Hk & HR & HI & HS & HE).
  destruct (decide (is_Some (authz (db w) !! coll (az_ID a)))) as [Hs|Hs].
  { left. rewrite (Honce Hs) in Hk. by exists k, b, e. }
  eapply (exec_grants (fun b => b = Storage.authz_row a)) in H; [|done|by intros ? [= ->] _].
  destruct (H k b Hk HS) as [Hold|Hb]; [left; by exists k, b, e|right]. by subst b.
Qed.

#[local] Ltac keeps_by op := apply (exec_no_new op); [reflexivity|done].

#[global] Instance storage_spec : StorageSpec World (SA := storage_authority).
Proof.
  refine {| sa_ok := storage_ok; authorized := holds_authorization; settled := settled_row |}; simpl; intros.
  - by eapply GetRegistration_ID; [apply H|].
  - match goal with H : Storage.GetValidAuthorizations _ _ _ _ = _ |- _ =>
      destruct (SaQueries.GetValidAuthorizations_entry _ _ _ _ _ _ _ _ H H1) as ([k Hk] & Hv & HI) end.
    apply SaQueries.valid_row_true in Hv as (HR & HS & (e & He & Hlt) & _). by exists k, a, e.
  - by eapply GetAuthorization_open; [apply H|apply H|apply H|].
  - eapply (op_no_new (OpUpdatePendingAuthorization a)); [reflexivity|done|apply update_pending_authorization|done|done].
  - by eapply UpdatePendingAuthorization_status.
  - match goal with H : Storage.FinalizeAuthorization _ _ = _ |- _ => destruct (finalize_grants _ _ _ _ ltac:(eassumption) H) as (? & Hg & ?) end.
    split_and!; [done| |done]. intros regID n now [?|(? & ? & ->)]%Hg; auto.
  - intros w r w'. apply (op_no_new (OpFinalizeAuthorization a) _ (fun _ => True)); [reflexivity| |apply finalize_authorization|done].
    intros a' [= <-]. rewrite H. apply coll_invalid.
  - keeps_by (OpGetRegistration id).
  - keeps_by (OpGetAuthorization id).
  - keeps_by (OpGetValidAuthorizations r n t).
  - keeps_by (OpCountRegistrationsByIP ip a b).
  - keeps_by (OpCountPendingAuthorizations r).
  - apply preserves_bind; [apply _|keeps_by (OpCountInvalidAuthorizations r h a b)|intros; apply preserves_ret; apply _].
  - keeps_by (OpCountCertificatesRange a b).
  - keeps_by (OpCountCertificatesByNames n a b).
  - keeps_by (OpCountFQDNSets d n).
  - keeps_by (OpFQDNSetExists n).
  - keeps_by (OpNewRegistration r).
  - keeps_by (OpUpdateRegistration r).
  - apply preserves_bind; [apply _| |intros [b|]; [apply preserves_ret|apply preserves_fail]; apply _].
    intros w r w'. apply (op_no_new (OpNewPendingAuthorization fuel a) _ (fun _ => True)); [reflexivity|done| |done].
    by apply new_pending_authorization.
  - keeps_by (OpMarkCertificateRevoked s r).
  - keeps_by (OpDeactivateRegistration id).
  - keeps_by (OpDeactivateAuthorization id).
Defined.

End laws.

End instance.
