(* ===== verification/RaValidation.v ===== *)
(** * Issuance rests on proofs of control

    The RA's histories ([RaIssuance]) with the validations carried out by the VA
    ([ValidationAuthority]), each in the state of DNS and the Internet at its step: an
    account's right to a name rests on a proof of control, with the account's own key, to a
    VA that also checked CAA. *)

From S2P Require Import Prelude GoStd Net Errors Features Core GoodKey PublicSuffix Policy RateLimit Csr Bdns.
From S2P Require Import ValidationAuthority VaChecks RegistrationAuthority RaChecks RaIssuance.

Import RA RaIssuance.

Module RaValidation.

Section validation.
Context {S : Type} {GL : GoLib} {Cr : Crypto} {EC : Elliptic} {X : X509} {PE : Policy.PolicyEnv}
        {SA : StorageAuthority S} {PA : PolicyAuthority} {CA : CertificateAuthority S} {RE : RAEnv}
        {SP : StorageSpec S} {CS : CASpec S} {PS : PolicySpec}.
Context (fs : Features.state) (cfg : Config) (va : VA.ValidationAuthorityImpl).

(** ** Where validation jobs come from *)

Definition same_jobs (w w' : World S) : Prop := vaJobs w' = vaJobs w.
#[global] Instance same_jobs_preorder : PreOrder same_jobs.
Proof. split; [done|]. unfold same_jobs. congruence. Qed.

Lemma same_jobs_rpc {A} (m : M S error A) : preserves same_jobs (rpc m).
Proof. intros w r w'. unfold rpc. destruct (m (sa w)) as [x s]. by intros [= <- <-]. Qed.

Lemma same_jobs_finish authz i records err : preserves same_jobs (finish_validation cfg authz i records err).
Proof.
  unfold finish_validation, onValidationUpdate.
  ra_frame ltac:(first [apply same_jobs_rpc | intros ? ? ? [= <- <-]; unfold same_jobs; done]).
Qed.

(** A step that is neither a client's response nor the end of a validation. *)
Definition plain (o : op) : bool :=
  match o with OpUpdateAuthorization _ _ _ | OpValidated _ _ _ => false | _ => true end.

Lemma quiet_jobs {A} (m : RAM A) (w : World S) : preserves (quiet (SP := SP)) m -> vaJobs (snd (m w)) = vaJobs w.
Proof. intros H. destruct (m w) as [r w'] eqn:E. by apply H in E as (_ & E & _). Qed.

Lemma exec_jobs o (w : World S) : sa_ok (sa w) -> plain o = true -> vaJobs (exec fs cfg o w) = vaJobs w.
Proof.
  intros Hok Ho. destruct o; try done; cbn [exec];
    try (apply quiet_jobs;
      first [apply quiet_NewRegistration | apply quiet_UpdateRegistration | apply quiet_DeactivateRegistration
            | apply quiet_NewAuthorization | apply quiet_DeactivateAuthorization | apply quiet_updateIssuedCount]).
  - destruct (NewCertificate cfg req regID w) as [r w'] eqn:E. by apply NewCertificate_spec in E as [[_ ?] _].
  - apply quiet_jobs. unfold RevokeCertificateWithReg. ra_frame ltac:(apply quiet_revoke).
  - apply quiet_jobs. unfold AdministrativelyRevokeCertificate. ra_frame ltac:(apply quiet_revoke).
Qed.

(** What a client's response adds: a validation of a challenge that holds the key
    authorization for the account's key, as storage has it at that moment. *)
Definition bound_job (s : S) (job : Authorization * nat) : Prop :=
  exists reg ch s', sa_GetRegistration (az_RegistrationID (fst job)) s = (Ok reg, s') /\
    az_Challenges (fst job) !! snd job = Some ch /\
    ExpectedKeyAuthorization ch (reg_Key reg) = Ok (ch_ProvidedKeyAuthorization ch).

Lemma UpdateAuthorization_job base ci response (w : World S) r w' :
  UpdateAuthorization cfg base ci response w = (r, w') ->
  vaJobs w' = vaJobs w \/ exists job, vaJobs w' = vaJobs w ++ [job] /\ bound_job (sa w) job.
Proof.
  unfold UpdateAuthorization. destruct (az_Expires base) as [expires|]; [|intros [= <- <-]; by left].
  unfold mbindM at 1, Now at 1. destruct (time_Before _ _); [intros [= <- <-]; by left|].
  destruct (_ <=? ci); [intros [= <- <-]; by left|]. destruct (ci <? 0); [intros [= <- <-]; by left|]. cbv zeta.
  destruct (az_Challenges base !! Z.to_nat ci) as [ch|] eqn:Ech; [|intros [= <- <-]; by left].
  destruct (_ && _); [intros [= <- <-]; by left|].
  unfold mbindM at 1, try at 1, rpc at 1. cbn [sa tick].
  destruct (sa_GetRegistration (az_RegistrationID base) (sa w)) as [[reg|err] s1] eqn:Er; [|intros [= <- <-]; by left].
  destruct (ExpectedKeyAuthorization ch (reg_Key reg)) as [expected|] eqn:Ek; [|intros [= <- <-]; by left].
  destruct (String.eqb_spec expected (ch_ProvidedKeyAuthorization response)) as [->|]; [|intros [= <- <-]; by left].
  cbv [negb]. destruct (IsSaneForValidation _); [|intros [= <- <-]; by left].
  unfold mbindM, try, rpc, modify, ret. destruct (sa_UpdatePendingAuthorization _ _) as [[[]|] s2];
    intros [= <- <-]; [right|by left].
  eexists. split; [done|]. exists reg. eexists _, s1. cbn [fst snd]. split_and!; [exact Er| |].
  - apply list_lookup_insert_eq. by eapply lookup_lt_Some.
  - exact Ek.
Qed.

(** Every job in the queue was added by some step of the history. *)
Definition bound_in (ops : list op) (w0 : World S) (job : Authorization * nat) : Prop :=
  exists pre post, ops = pre ++ post /\ bound_job (sa (run fs cfg pre w0)) job.

Lemma bound_in_app ops o w0 job : bound_in ops w0 job -> bound_in (ops ++ [o]) w0 job.
Proof. intros (pre & post & -> & H). exists pre, (post ++ [o]). by rewrite app_assoc. Qed.

Lemma jobs_bound ops (w0 : World S) : starts w0 -> from_storage (S := S) fs cfg ops w0 ->
  Forall (bound_in ops w0) (vaJobs (run fs cfg ops w0)).
Proof.
  intros Hw. induction ops as [|o ops IH] using rev_ind; intros Hops; [destruct Hw as (_ & HJ & _); simpl; by rewrite HJ|].
  apply from_storage_app in Hops. specialize (IH Hops). rewrite run_snoc. pose proof (sh_ok _ _ _ _ (sound_history_run fs cfg ops w0 Hw Hops)) as Hok.
  set (w := run fs cfg ops w0) in *.
  assert (Forall (bound_in (ops ++ [o]) w0) (vaJobs w)) as Hold.
  { eapply Forall_impl; [exact IH|]. intros job. apply bound_in_app. }
  destruct (plain o) eqn:Hp; [by rewrite exec_jobs|]. destruct o; try done; cbn [exec].
  - destruct (UpdateAuthorization cfg base challengeIndex response w) as [r w'] eqn:E. cbn [snd].
    apply UpdateAuthorization_job in E as [->|(job & -> & Hb)]; [done|].
    apply Forall_app. split; [done|]. apply Forall_singleton. exists ops. by eexists.
  - unfold validation_done, mbindM at 1, get at 1. destruct (vaJobs w !! j) as [[authz i]|]; [|done].
    unfold mbindM at 1, put at 1. set (w1 := set_vaJobs w _).
    destruct (finish_validation cfg authz i records err w1) as [r w'] eqn:E. cbn [snd].
    apply same_jobs_finish in E as ->. by apply Forall_delete.
Qed.

(** ** The VA behind the RA *)

(** The name servers and the servers of the Internet as the VA finds them at each step. *)
Context (env : nat -> DNSResolver * Internet).

(** Whenever a validation ends without a problem in this history, the VA, run on the
    challenge in question in the state of DNS and the Internet at that step, found none
    either. *)
Definition honest_va (ops : list op) (w0 : World S) : Prop :=
  forall pre j records post authz i ch,
    ops = pre ++ OpValidated j records None :: post -> vaJobs (run fs cfg pre w0) !! j = Some (authz, i) ->
    az_Challenges authz !! i = Some ch ->
    exists found, VA.PerformValidation (R := fst (env (length pre))) (I := snd (env (length pre))) va
      (idValue (az_Identifier authz)) ch = (found, None).

(** At a step of the history a validation ended without a problem: of a challenge of the
    account's authorization for [n], with the key authorization of the key [reg_Key reg]
    the account had at some earlier point.  In DNS and on the Internet as they were at
    that step, that key authorization stood where the challenge says, and CAA allowed
    this CA to issue. *)
Definition proved_control (ops : list op) (w0 : World S) (regID : Z) (n : string) : Prop :=
  exists before between j records post authz i ch reg s' found,
    let pre := before ++ between in
    let R := fst (env (length pre)) in let I := snd (env (length pre)) in
    ops = pre ++ OpValidated j records None :: post /\
    vaJobs (run fs cfg pre w0) !! j = Some (authz, i) /\ az_Challenges authz !! i = Some ch /\
    az_RegistrationID authz = regID /\ idValue (az_Identifier authz) = n /\
    sa_GetRegistration regID (sa (run fs cfg before w0)) = (Ok reg, s') /\
    ExpectedKeyAuthorization ch (reg_Key reg) = Ok (ch_ProvidedKeyAuthorization ch) /\
    VaChecks.evidence (R := R) (I := I) va n ch found /\
    VaChecks.caa_permitted (R := R) va n.

(** What an earned right rests on. *)
Lemma validated_proved ops w0 regID n :
  starts w0 -> from_storage fs cfg ops w0 -> honest_va ops w0 ->
  validated_in fs cfg ops w0 regID n -> proved_control ops w0 regID n.
Proof.
  intros Hw Hops Hva (pre & j & records & post & authz & i & ch & -> & Hj & HR & HI & Hch & _ & _).
  destruct (Hva _ _ _ _ _ _ _ eq_refl Hj Hch) as (found & HP). rewrite HI in HP.
  pose proof (jobs_bound pre w0 Hw (from_storage_app fs cfg _ _ _ Hops)) as HB. rewrite Forall_lookup in HB.
  destruct (HB _ _ Hj) as (before & between & -> & reg & ch' & s' & Hreg & Hch' & Hka). cbn [fst snd] in *.
  assert (ch' = ch) as -> by congruence. rewrite HR in Hreg.
  destruct (VaChecks.sound_validation va _ _ _ HP) as (_ & HE & HCAA & _).
  exists before, between, j, records, post, authz, i, ch, reg, s', found. cbv zeta. by split_and!.
Qed.

Lemma honest_va_app ops ops' w0 : honest_va (ops ++ ops') w0 -> honest_va ops w0.
Proof. intros H pre j records post authz i ch ->. by eapply (H pre j records (post ++ ops')); rewrite <- app_assoc. Qed.

End validation.

End RaValidation.
