(* ===== verification/CertificateAuthority.v ===== *)
(** * ca/ca.go: the certificate authority

    Construction, the extensions taken over from a request, OCSP signing, and
    [IssueCertificate], from the repeated check of the request to the storage of the
    signed certificate.  The CA keeps its own state next to the storage it writes to:
    clock, randomness, and what it has signed and logged.  cfssl's signers, PEM and the
    signature check are parameters ([Signers]). *)

From S2P Require Import Prelude GoStd Errors Features Core GoodKey Csr RegistrationAuthority.

(** [ca.certificateStorage]. *)
Class CertificateStorage (S : Type) := {
  cas_AddCertificate : string -> Z -> string -> M S error string
}.

Record Extension := { e_ID : list Z; e_Critical : bool; e_Value : string }.
#[global] Instance Extension_eq_dec : EqDecision Extension.
Proof. solve_decision. Defined.

(** [signer.SignRequest] of cfssl. *)
Record SignRequest := {
  sr_Request : string;
  sr_Profile : string;
  sr_Hosts : list string;
  sr_CN : string;
  sr_SubjectSerial : string;
  sr_Serial : Z;
  sr_Extensions : list Extension
}.

(** [core.OCSPSigningRequest]. *)
Record OCSPSigningRequest := {
  os_CertDER : string;
  os_Status : string;
  os_Reason : Z;
  os_RevokedAt : Z
}.

(** An issuer certificate. *)
Record IssuerCert := { ic_CommonName : string; ic_NotAfter : Z; ic_Raw : string }.

(** Third-party signing code.  Signers are told apart by their issuer certificate; a
    number distinguishes the calls. *)
Class Signers := {
  pem_Encode : string -> string -> string;
  pem_Decode : string -> option (string * string);
  ee_Sign : nat -> IssuerCert -> SignRequest -> result error string;
  ocsp_Sign : nat -> IssuerCert -> OCSPSigningRequest -> result error string;
  (** the issuer's common name in a parsed certificate *)
  cert_IssuerCN : string -> string;
  CheckSignatureFrom : string -> IssuerCert -> result error unit
}.

Module CA.

Definition oidTLSFeature : list Z := [1; 3; 6; 1; 5; 5; 7; 1; 24].
Definition oidExtensionRequest : list Z := [1; 2; 840; 113549; 1; 9; 14].

Definition mustStapleFeatureValue : string := chars_of Zbyte [48; 3; 2; 1; 5].
Definition mustStapleExtension : Extension :=
  {| e_ID := oidTLSFeature; e_Critical := false; e_Value := hex_string mustStapleFeatureValue |}.

Record CertificateAuthorityImpl := {
  rsaProfile : string;
  ecdsaProfile : string;
  issuers : gmap string IssuerCert;
  defaultIssuer : IssuerCert;
  keyPolicy : GoodKey.KeyPolicy;
  prefix : Z;
  validityPeriod : Z;
  maxNames : Z;
  forceCNFromSAN : bool;
  enableMustStaple : bool;
  hasPublisher : bool
}.

(** ** Construction *)

(** An issuer as configured, with what the two signer constructors answer for it. *)
Record Issuer := {
  iss_Signer : bool;
  iss_Cert : option IssuerCert;
  iss_eeSigner : result error unit;
  iss_ocspSigner : result error unit
}.

Fixpoint add_issuers (issuers : list Issuer) (internalIssuers : gmap string IssuerCert)
    : result error (gmap string IssuerCert) :=
  match issuers with
  | [] => Ok internalIssuers
  | iss :: issuers' =>
      match iss_Cert iss, iss_Signer iss with
      | Some cert, true =>
          let? _ := iss_eeSigner iss in
          let? _ := iss_ocspSigner iss in
          let cn := ic_CommonName cert in
          match internalIssuers !! cn with
          | Some _ => Err (PlainError "Multiple issuer certs with the same CommonName are not supported")
          | None => add_issuers issuers' (<[cn := cert]> internalIssuers)
          end
      | _, _ => Err (PlainError "Issuer with nil cert or signer specified.")
      end
  end.
Definition makeInternalIssuers (issuers : list Issuer) : result error (gmap string IssuerCert) :=
  match issuers with
  | [] => Err (PlainError "No issuers specified.")
  | _ => add_issuers issuers ∅
  end.

(** The part of [cmd.CAConfig] that is read, with the outcomes of loading cfssl's
    configuration and of parsing the expiry. *)
Record CAConfig := {
  cc_SerialPrefix : Z;
  cc_CFSSL : result error unit;
  cc_LifespanOCSP : Z;
  cc_RSAProfile : string;
  cc_ECDSAProfile : string;
  cc_DoNotForceCN : bool;
  cc_EnableMustStaple : bool;
  cc_Expiry : string;
  cc_ParsedExpiry : result error Z;
  cc_MaxNames : Z
}.

Definition NewCertificateAuthorityImpl (config : CAConfig) (issuers : list Issuer)
    (keyPolicy : GoodKey.KeyPolicy) (hasPublisher : bool) : result error CertificateAuthorityImpl :=
  if (cc_SerialPrefix config <=? 0) || (256 <=? cc_SerialPrefix config) then
    Err (PlainError "Must have a positive non-zero serial prefix less than 256 for CA.")
  else
    let? _ := cc_CFSSL config in
    if cc_LifespanOCSP config =? 0 then Err (PlainError "Config must specify an OCSP lifespan period.")
    else
      let? internalIssuers := makeInternalIssuers issuers in
      let defaultCN := match issuers with
                       | iss :: _ => match iss_Cert iss with Some c => ic_CommonName c | None => EmptyString end
                       | [] => EmptyString
                       end in
      if is_empty (cc_RSAProfile config) || is_empty (cc_ECDSAProfile config) then
        Err (PlainError "must specify rsaProfile and ecdsaProfile")
      else if is_empty (cc_Expiry config) then Err (PlainError "Config must specify an expiry period.")
      else
        let? expiry := cc_ParsedExpiry config in
        match internalIssuers !! defaultCN with
        | None => Err nil_dereference
        | Some default_ =>
            Ok {| rsaProfile := cc_RSAProfile config; ecdsaProfile := cc_ECDSAProfile config;
                  issuers := internalIssuers; defaultIssuer := default_; keyPolicy := keyPolicy;
                  prefix := cc_SerialPrefix config; validityPeriod := expiry; maxNames := cc_MaxNames config;
                  forceCNFromSAN := negb (cc_DoNotForceCN config);
                  enableMustStaple := cc_EnableMustStaple config; hasPublisher := hasPublisher |}
        end.

(** ** Extensions *)

Definition oid_String (oid : list Z) : string := join "." (map itoa oid).

(** The loop of [extensionsFromCSR] over the requested extensions: [seen] are the types
    met, [extensions] the result so far.  The types counted as basic or other only feed
    statistics. *)
Fixpoint take_extensions (ca : CertificateAuthorityImpl) (exts : list CSRExtension) (seen : list (list Z))
    (extensions : list Extension) : result error (list Extension) :=
  match exts with
  | [] => Ok extensions
  | ext :: exts' =>
      if bool_decide (ext_Type ext ∈ seen) then take_extensions ca exts' seen extensions
      else
        let seen := ext_Type ext :: seen in
        if bool_decide (ext_Type ext = oidTLSFeature) then
          match ext_Value ext with
          | None => Err (BoulderError Berrors.Malformed ("malformed extension with OID " ++s oid_String (ext_Type ext)))
          | Some value =>
              if negb (String.eqb value mustStapleFeatureValue) then
                Err (BoulderError Berrors.Malformed
                       ("unsupported value for extension with OID " ++s oid_String (ext_Type ext)))
              else take_extensions ca exts' seen
                     (if enableMustStaple ca then extensions ++ [mustStapleExtension] else extensions)
          end
        else take_extensions ca exts' seen extensions
  end.

(** The extensions of all attributes that request extensions, in order. *)
Definition requested_extensions (csr : CertificateRequest) : list CSRExtension :=
  flat_map (fun attr => if bool_decide (attr_Type attr = oidExtensionRequest) then concat (attr_Value attr) else [])
    (csr_Attributes csr).
Definition extensionsFromCSR (ca : CertificateAuthorityImpl) (csr : CertificateRequest) : result error (list Extension) :=
  take_extensions ca (requested_extensions csr) [] [].

(** ** State *)

(** What [rand.Read] puts into a slice of [n] bytes, from the bytes it has to give. *)
Fixpoint fill (n : nat) (source : nat -> ascii) : string :=
  match n with
  | O => EmptyString
  | S n' => String (source O) (fill n' (fun i => source (S i)))
  end.

(** Clock, randomness, and what the CA has done: signatures requested, latest first,
    log lines for the certificates it could not store, and certificates handed to the
    publisher. *)
Record CAState := {
  ca_now : Z;
  ca_ticks : list Z;
  ca_rand : nat -> result error (nat -> ascii);
  ca_draws : nat;
  ca_calls : nat;
  ca_signed : list (SignRequest * Z);
  ca_orphans : list string;
  ca_ctJobs : list string
}.

Definition tick (c : CAState) : CAState :=
  {| ca_now := ca_now c + default 0 (head (ca_ticks c)); ca_ticks := tail (ca_ticks c); ca_rand := ca_rand c;
     ca_draws := ca_draws c; ca_calls := ca_calls c; ca_signed := ca_signed c; ca_orphans := ca_orphans c;
     ca_ctJobs := ca_ctJobs c |}.
Definition drawn (c : CAState) : CAState :=
  {| ca_now := ca_now c; ca_ticks := ca_ticks c; ca_rand := ca_rand c; ca_draws := S (ca_draws c);
     ca_calls := ca_calls c; ca_signed := ca_signed c; ca_orphans := ca_orphans c; ca_ctJobs := ca_ctJobs c |}.
Definition called (c : CAState) : CAState :=
  {| ca_now := ca_now c; ca_ticks := ca_ticks c; ca_rand := ca_rand c; ca_draws := ca_draws c;
     ca_calls := S (ca_calls c); ca_signed := ca_signed c; ca_orphans := ca_orphans c; ca_ctJobs := ca_ctJobs c |}.
Definition add_signed (c : CAState) (r : SignRequest) (regID : Z) : CAState :=
  {| ca_now := ca_now c; ca_ticks := ca_ticks c; ca_rand := ca_rand c; ca_draws := ca_draws c;
     ca_calls := ca_calls c; ca_signed := (r, regID) :: ca_signed c; ca_orphans := ca_orphans c;
     ca_ctJobs := ca_ctJobs c |}.
Definition add_orphan (c : CAState) (line : string) : CAState :=
  {| ca_now := ca_now c; ca_ticks := ca_ticks c; ca_rand := ca_rand c; ca_draws := ca_draws c;
     ca_calls := ca_calls c; ca_signed := ca_signed c; ca_orphans := line :: ca_orphans c;
     ca_ctJobs := ca_ctJobs c |}.
Definition add_ctJob (c : CAState) (der : string) : CAState :=
  {| ca_now := ca_now c; ca_ticks := ca_ticks c; ca_rand := ca_rand c; ca_draws := ca_draws c;
     ca_calls := ca_calls c; ca_signed := ca_signed c; ca_orphans := ca_orphans c;
     ca_ctJobs := der :: ca_ctJobs c |}.

(** The log line that cmd/orphan-finder reads. *)
Definition orphan_line (serialHex certDER : string) (err : error) (regID : Z) : string :=
  "Failed RPC to store at SA, orphaning certificate: serial=[" ++s serialHex
    ++s "] cert=[" ++s hex_string certDER ++s "] err=[" ++s Error err ++s "], regID=[" ++s itoa regID ++s "]".

Section ca.
Context {S : Type} {GL : GoLib} {EC : Elliptic} {X : X509} {SG : Signers} {ST : CertificateStorage S}
        {PA : PolicyAuthority}.
Context (fs : Features.state) (ca : CertificateAuthorityImpl).

Definition CAM (A : Type) : Type := M (S * CAState) error A.

Definition Now : CAM Z := fun '(s, c) => (Ok (ca_now c), (s, tick c)).
Definition rand_Read : CAM (result error (nat -> ascii)) := fun '(s, c) => (Ok (ca_rand c (ca_draws c)), (s, drawn c)).
Definition state {A} (f : CAState -> A) : CAM A := fun '(s, c) => (Ok (f c), (s, c)).
Definition update (f : CAState -> CAState) : CAM unit := fun '(s, c) => (Ok tt, (s, f c)).
(** A call to the storage authority. *)
Definition storage {A} (m : M S error A) : CAM A := fun '(s, c) => let '(r, s') := m s in (r, (s', c)).

(** ** OCSP *)

Definition GenerateOCSP (xferObj : OCSPSigningRequest) : CAM string :=
  let! cert := lift (ParseCertificate (os_CertDER xferObj)) in
  let cn := cert_IssuerCN (os_CertDER xferObj) in
  match issuers ca !! cn with
  | None => fail (PlainError ("This CA doesn't have an issuer cert with CommonName " ++s Quote cn))
  | Some issuer =>
      match CheckSignatureFrom (os_CertDER xferObj) issuer with
      | Err err => fail (PlainError ("GenerateOCSP was asked to sign OCSP for cert "
                           ++s SerialToString (x5_SerialNumber cert) ++s " from " ++s Quote cn
                           ++s ", but the cert's signature was not valid: " ++s Error err ++s "."))
      | Ok _ =>
          let! n := state ca_calls in
          do! update called in
          lift (ocsp_Sign n issuer xferObj)
      end
  end.

(** ** Issuing *)

Definition randBits : Z := 136.
(** The number in [serialBytes], a slice of [randBits/8+1] bytes, of which the first is the
    prefix and the others are read from the generator. *)
Definition serial_number (random : nat -> ascii) : Z :=
  let size := Z.to_nat (randBits / 8 + 1) in
  be_value (String (Zbyte (prefix ca)) (fill (size - 1) random)).

Definition profile_for (key : option PublicKey) : result error string :=
  match key with
  | Some (RSAKey _ _) => Ok (rsaProfile ca)
  | Some (ECDSAKey _ _ _) => Ok (ecdsaProfile ca)
  | Some (UnknownKey t) => Err (BoulderError Berrors.InternalServer ("unsupported key type " ++s t))
  | None => Err (BoulderError Berrors.InternalServer "unsupported key type <nil>")
  end.

(** The early OCSP response; its failure is only logged. *)
Definition early_ocsp (certDER : string) : CAM string :=
  if flag fs Features.GenerateOCSPEarly then
    let! r := try (GenerateOCSP {| os_CertDER := certDER; os_Status := "good"; os_Reason := 0;
                                   os_RevokedAt := zeroTime |}) in
    ret (match r with Ok resp => resp | Err _ => EmptyString end)
  else ret EmptyString.

(** From the signer's answer to the stored certificate. *)
Definition store_signed (certPEM serialHex : string) (regID : Z) : CAM Certificate :=
  if len certPEM =? 0 then fail (Berrors.InternalServerError "no certificate returned by server")
  else match pem_Decode certPEM with
       | None => fail (Berrors.InternalServerError "invalid certificate value returned")
       | Some (type_, certDER) =>
           if negb (String.eqb type_ "CERTIFICATE")
           then fail (Berrors.InternalServerError "invalid certificate value returned")
           else
             let! ocspResp := early_ocsp certDER in
             let! r := try (storage (cas_AddCertificate certDER regID ocspResp)) in
             match r with
             | Err err =>
                 let err := Berrors.InternalServerError (Error err) in
                 do! update (fun c => add_orphan c (orphan_line serialHex certDER err regID)) in
                 fail err
             | Ok _ =>
                 do! (if hasPublisher ca then update (fun c => add_ctJob c certDER) else ret tt) in
                 ret {| cert_RegistrationID := 0; cert_Serial := EmptyString; cert_Digest := EmptyString;
                        cert_DER := certDER; cert_Issued := zeroTime; cert_Expires := zeroTime |}
             end
       end.

Definition sign_request (csr : CertificateRequest) (profile : string) (serial : Z) (exts : list Extension)
    : SignRequest :=
  {| sr_Request := pem_Encode "CERTIFICATE REQUEST" (csr_Raw csr); sr_Profile := profile;
     sr_Hosts := csr_DNSNames csr; sr_CN := csr_CommonName csr;
     sr_SubjectSerial := if forceCNFromSAN ca then EmptyString else SerialToString serial;
     sr_Serial := serial; sr_Extensions := exts |}.

Definition IssueCertificate (csr : CertificateRequest) (regID : Z) : CAM Certificate :=
  let '(verified, csr) := Csr.VerifyCSR csr (maxNames ca) (keyPolicy ca) pa_WillingToIssue
                            (forceCNFromSAN ca) regID in
  match verified with
  | Err err => fail (Berrors.MalformedError (Error err))
  | Ok _ =>
      let! requestedExtensions := lift (extensionsFromCSR ca csr) in
      let issuer := defaultIssuer ca in
      let! now := Now in
      let notAfter := time_Add now (validityPeriod ca) in
      if time_Before (ic_NotAfter issuer) notAfter then
        fail (Berrors.InternalServerError "cannot issue a certificate that expires after the issuer certificate")
      else
        let! random := rand_Read in
        match random with
        | Err err => fail (BoulderError Berrors.InternalServer ("failed to generate serial: " ++s Error err))
        | Ok random =>
            let serialBigInt := serial_number random in
            let! profile := lift (profile_for (csr_PublicKey csr)) in
            let req := sign_request csr profile serialBigInt requestedExtensions in
            let! n := state ca_calls in
            do! update (fun c => add_signed (called c) req regID) in
            match ee_Sign n issuer req with
            | Err err => fail (BoulderError Berrors.InternalServer ("failed to sign certificate: " ++s Error err))
            | Ok certPEM => store_signed certPEM (SerialToString serialBigInt) regID
            end
        end
  end.

End ca.

End CA.
