(* ===== verification/CaIssuance.v ===== *)
(** * What the certificate authority signs

    The extensions of a certificate, its serial number, what one call of
    [IssueCertificate] signs, stores and logs, and the construction of the CA.  Then the
    CA next to the storage authority behind the RA: it satisfies what the RA assumes of
    it, and every signature in a history rests on proofs of control. *)

From S2P Require Import Prelude GoStd Net Errors Features Core GoodKey PublicSuffix Policy RateLimit Csr.
From S2P Require Import ValidationAuthority VaChecks RegistrationAuthority RaChecks RaIssuance RaValidation.
From S2P Require Import CertificateAuthority.

Module CaIssuance.

(** ** Extensions *)

Definition is_tls_feature (ext : CSRExtension) : bool := bool_decide (ext_Type ext = CA.oidTLSFeature).

(** What the loop computes: the first TLS feature extension decides. *)
Definition decided_by (ca : CA.CertificateAuthorityImpl) (ext : CSRExtension) : result error (list Extension) :=
  match ext_Value ext with
  | None => Err (BoulderError Berrors.Malformed ("malformed extension with OID " ++s CA.oid_String CA.oidTLSFeature))
  | Some v =>
      if String.eqb v CA.mustStapleFeatureValue
      then Ok (if CA.enableMustStaple ca then [CA.mustStapleExtension] else [])
      else Err (BoulderError Berrors.Malformed
                  ("unsupported value for extension with OID " ++s CA.oid_String CA.oidTLSFeature))
  end.

Lemma take_extensions_seen ca exts seen l : CA.oidTLSFeature ∈ seen -> CA.take_extensions ca exts seen l = Ok l.
Proof.
  revert seen. induction exts as [|ext exts IH]; intros seen Hs; cbn [CA.take_extensions]; [done|].
  destruct (bool_decide (ext_Type ext ∈ seen)) eqn:E; [by apply IH|].
  rewrite bool_decide_eq_false_2.
  - apply IH. by right.
  - intros Ht. rewrite Ht, bool_decide_eq_true_2 in E by done. done.
Qed.

Lemma take_extensions_find ca exts seen : CA.oidTLSFeature ∉ seen ->
  CA.take_extensions ca exts seen [] = match find is_tls_feature exts with
                                       | None => Ok []
                                       | Some ext => decided_by ca ext
                                       end.
Proof.
  revert seen. induction exts as [|ext exts IH]; intros seen Hs; cbn [CA.take_extensions find]; [done|].
  unfold is_tls_feature at 1. destruct (decide (ext_Type ext = CA.oidTLSFeature)) as [E|E].
  - rewrite !E, (bool_decide_eq_false_2 _ Hs), bool_decide_eq_true_2 by done.
    unfold decided_by. destruct (ext_Value ext) as [v|]; [|done].
    destruct (String.eqb v CA.mustStapleFeatureValue); [|done]. cbv [negb]. cbn [app].
    apply take_extensions_seen. left.
  - rewrite (bool_decide_eq_false_2 _ E). destruct (bool_decide (ext_Type ext ∈ seen)); [by apply IH|].
    apply IH. by apply not_elem_of_cons.
Qed.

(** The extensions of a certificate: must-staple, once, when the CA is configured
    for it and the first TLS feature extension the request asks for has exactly the
    must-staple value; nothing else is ever taken over.  A TLS feature extension with
    another value is refused, unless an earlier one decided. *)
Theorem extensionsFromCSR_spec (ca : CA.CertificateAuthorityImpl) (csr : CertificateRequest) :
  CA.extensionsFromCSR ca csr = match find is_tls_feature (CA.requested_extensions csr) with
                                | None => Ok []
                                | Some ext => decided_by ca ext
                                end.
Proof. apply take_extensions_find. apply not_elem_of_nil. Qed.

Lemma extensions_allowed ca csr l : CA.extensionsFromCSR ca csr = Ok l -> l = [] \/ l = [CA.mustStapleExtension].
Proof.
  unfold CA.extensionsFromCSR. rewrite take_extensions_find by apply not_elem_of_nil.
  destruct (find _ _) as [ext|]; [|intros [= <-]; by left]. unfold decided_by.
  destruct (ext_Value ext) as [v|]; [|done]. destruct (String.eqb _ _); [|done]. intros [= <-].
  destruct (CA.enableMustStaple ca); auto.
Qed.

(** ** Serial numbers *)

Lemma len_fill n random : len (CA.fill n random) = Z.of_nat n.
Proof. revert random. induction n as [|n IH]; intros random; [done|]. specialize (IH (fun i => random (S i))). unfold len in *. simpl. lia. Qed.

Lemma fill_inj n : forall random random', CA.fill n random = CA.fill n random' -> forall i, (i < n)%nat -> random i = random' i.
Proof.
  induction n as [|n IH]; intros random random' H i Hi; [lia|]. injection H as H0 H. destruct i as [|i]; [done|].
  apply (IH _ _ H). lia.
Qed.

(** The value of the first bytes of a source, the first of them the most significant. *)
Fixpoint random_value (n : nat) (random : nat -> ascii) : Z :=
  match n with
  | O => 0
  | S n' => byteZ (random O) * 2 ^ (8 * Z.of_nat n') + random_value n' (fun i => random (S i))
  end.

Lemma be_value_fill n : forall random, be_value (CA.fill n random) = random_value n random.
Proof.
  induction n as [|n IH]; intros random; [done|]. simpl CA.fill. rewrite be_value_cons, len_fill, IH.
  cbn [random_value]. rewrite Z.pow_mul_r by lia. done.
Qed.

Lemma random_value_bound n random : 0 <= random_value n random < 2 ^ (8 * Z.of_nat n).
Proof.
  rewrite <- be_value_fill. pose proof (be_value_bound (CA.fill n random)) as H. rewrite len_fill in H.
  by rewrite Z.pow_mul_r by lia.
Qed.

Lemma serial_number_value ca random : 0 < CA.prefix ca < 256 ->
  CA.serial_number ca random = CA.prefix ca * 2 ^ 136 + random_value 17 random.
Proof.
  intros Hp. unfold CA.serial_number. change (Z.to_nat (CA.randBits / 8 + 1) - 1)%nat with 17%nat.
  rewrite be_value_cons, byteZ_Zbyte, Z.mod_small, be_value_fill, len_fill by lia. done.
Qed.

(** C37. A serial number carries the instance's prefix, which the constructor keeps
    between 1 and 255, in its top byte, and below it 136 bits, the 17 bytes read from the
    random generator; it is written with 36 hexadecimal digits and reads back as the same
    number, and serial numbers are equal only if all 17 random bytes are. *)
Theorem serial_number_spec (ca : CA.CertificateAuthorityImpl) (random random' : nat -> ascii) :
  0 < CA.prefix ca < 256 ->
  CA.serial_number ca random = CA.prefix ca * 2 ^ 136 + random_value 17 random /\
  0 <= random_value 17 random < 2 ^ 136 /\
  len (SerialToString (CA.serial_number ca random)) = 36 /\
  StringToSerial (SerialToString (CA.serial_number ca random)) = Ok (CA.serial_number ca random) /\
  (CA.serial_number ca random = CA.serial_number ca random' -> forall i, (i < 17)%nat -> random i = random' i).
Proof.
  intros Hp. rewrite !(serial_number_value ca) by done.
  pose proof (random_value_bound 17 random) as Hb. change (2 ^ (8 * Z.of_nat 17)) with (2 ^ 136) in Hb.
  assert (random_value 17 random = random_value 17 random' -> forall i, (i < 17)%nat -> random i = random' i) as Hinj.
  { intros H. apply fill_inj, be_value_inj; by rewrite ?len_fill, ?be_value_fill. }
  generalize dependent (random_value 17 random'). generalize dependent (random_value 17 random). intros v Hv v' Hinj.
  assert (0 <= CA.prefix ca * 2 ^ 136 + v < 16 ^ 36) as Hr by (change (16 ^ 36) with (256 * 2 ^ 136); nia).
  destruct (serial_roundtrip _ Hr) as (H1 & _ & H2). split_and!; [reflexivity|lia|lia|exact H1|exact H2|]. intros H. apply Hinj. lia.
Qed.

(** ** Issuing *)

Section issuing.
Context {S : Type} {GL : GoLib} {EC : Elliptic} {X : X509} {SG : Signers} {ST : CertificateStorage S}
        {PA : PolicyAuthority}.
Context (fs : Features.state) (ca : CA.CertificateAuthorityImpl).

Implicit Types (s : S) (c : CA.CAState).

(** OCSP signing touches only the count of signing calls. *)
Definition only_called (c c' : CA.CAState) : Prop := c' = c \/ c' = CA.called c.

Lemma GenerateOCSP_state xfer s c r s' c' :
  CA.GenerateOCSP ca xfer (s, c) = (r, (s', c')) -> s' = s /\ only_called c c'.
Proof.
  unfold CA.GenerateOCSP, mbindM, lift, fail, CA.state, CA.update, only_called.
  destruct (ParseCertificate _); [|intros [= <- <- <-]; auto].
  destruct (CA.issuers ca !! _) as [issuer|]; [|intros [= <- <- <-]; auto].
  destruct (CheckSignatureFrom _ _); intros [= <- <- <-]; auto.
Qed.

Lemma early_ocsp_state der s c : exists resp c',
  CA.early_ocsp fs ca der (s, c) = (Ok resp, (s, c')) /\ only_called c c'.
Proof.
  unfold CA.early_ocsp. destruct (flag fs _); [|by eexists _, _; split; [done|left]].
  unfold mbindM, try. destruct (CA.GenerateOCSP _ _ _) as [x [s' c']] eqn:E.
  apply GenerateOCSP_state in E as [-> H]. by eexists _, c'.
Qed.

(** What became of the signer's answer [pem]: stored, logged as an orphan, or no
    certificate at all. *)
Definition accounted (pem serialHex : string) (regID : Z) (s : S) (c : CA.CAState)
    (r : result error Certificate) (s' : S) (c' : CA.CAState) : Prop :=
  match pem_Decode pem with
  | Some (type_, der) =>
      if String.eqb type_ "CERTIFICATE" then
        exists ocspResp,
          (exists cert digest, r = Ok cert /\ cert_DER cert = der /\
             cas_AddCertificate der regID ocspResp s = (Ok digest, s') /\ CA.ca_orphans c' = CA.ca_orphans c) \/
          (exists e, is_ok r = false /\ cas_AddCertificate der regID ocspResp s = (Err e, s') /\
             CA.ca_orphans c' = CA.orphan_line serialHex der (Berrors.InternalServerError (Error e)) regID :: CA.ca_orphans c)
      else is_ok r = false /\ s' = s /\ CA.ca_orphans c' = CA.ca_orphans c
  | None => is_ok r = false /\ s' = s /\ CA.ca_orphans c' = CA.ca_orphans c
  end.

Lemma store_signed_spec pem serialHex regID s c r s' c' : len pem <> 0 ->
  CA.store_signed fs ca pem serialHex regID (s, c) = (r, (s', c')) ->
  CA.ca_signed c' = CA.ca_signed c /\ accounted pem serialHex regID s c r s' c'.
Proof.
  intros Hpem. unfold CA.store_signed, accounted. destruct (Z.eqb_spec (len pem) 0); [done|].
  destruct (pem_Decode pem) as [[t der]|]; [|intros [= <- <- <-]; done].
  destruct (String.eqb_spec t "CERTIFICATE") as [->|Hne].
  - cbv [negb]. destruct (early_ocsp_state der s c) as (resp & c1 & E & Hc). unfold mbindM at 1. rewrite E.
    unfold mbindM at 1, try at 1, CA.storage at 1.
    assert (CA.ca_signed c1 = CA.ca_signed c /\ CA.ca_orphans c1 = CA.ca_orphans c) as [H1 H2]
      by (destruct Hc as [->| ->]; done).
    destruct (cas_AddCertificate der regID resp s) as [[digest|e] s1] eqn:Ea.
    + intros H. unfold mbindM, CA.update, ret in H. destruct (CA.hasPublisher ca); injection H as <- <- <-; simpl.
      all: split; [done|]; exists resp; left; eexists _, digest; split_and!; done.
    + intros H. unfold mbindM, CA.update, fail in H. injection H as <- <- <-. simpl. split; [done|].
      exists resp. right. exists e. split_and!; [done|done|]. by rewrite H2.
  - cbv [negb]. intros [= <- <- <-]. done.
Qed.

(** The request for a signature that goes with a checked request. *)
Definition signature_for (c : CA.CAState) (csr' : CertificateRequest) (req : SignRequest) : Prop :=
  exists random profile exts,
    CA.ca_rand c (CA.ca_draws c) = Ok random /\ CA.profile_for ca (csr_PublicKey csr') = Ok profile /\
    CA.extensionsFromCSR ca csr' = Ok exts /\
    req = CA.sign_request ca csr' profile (CA.serial_number ca random) exts.

Lemma IssueCertificate_cases csr regID s c r s' c' :
  CA.IssueCertificate fs ca csr regID (s, c) = (r, (s', c')) ->
  (is_ok r = false /\ s' = s /\ CA.ca_signed c' = CA.ca_signed c /\ CA.ca_orphans c' = CA.ca_orphans c) \/
  exists csr' req n,
    Csr.VerifyCSR csr (CA.maxNames ca) (CA.keyPolicy ca) pa_WillingToIssue (CA.forceCNFromSAN ca) regID = (Ok tt, csr') /\
    signature_for c csr' req /\ CA.ca_signed c' = (req, regID) :: CA.ca_signed c /\
    CA.ca_now c + CA.validityPeriod ca <= ic_NotAfter (CA.defaultIssuer ca) /\
    match ee_Sign n (CA.defaultIssuer ca) req with
    | Ok pem => if len pem =? 0 then is_ok r = false /\ s' = s /\ CA.ca_orphans c' = CA.ca_orphans c
                else accounted pem (SerialToString (sr_Serial req)) regID s c r s' c'
    | Err _ => is_ok r = false /\ s' = s /\ CA.ca_orphans c' = CA.ca_orphans c
    end.
Proof.
  unfold CA.IssueCertificate.
  destruct (Csr.VerifyCSR _ _ _ _ _ _) as [[[]|err] csr'] eqn:EV; [|intros [= <- <- <-]; by left].
  unfold mbindM at 1, lift at 1. destruct (CA.extensionsFromCSR ca csr') as [exts|] eqn:EE; [|intros [= <- <- <-]; by left].
  unfold mbindM at 1, CA.Now at 1. destruct (time_Before _ _) eqn:ET; [intros [= <- <- <-]; by left|].
  unfold mbindM at 1, CA.rand_Read at 1. cbn [CA.ca_rand CA.ca_draws CA.tick].
  destruct (CA.ca_rand c (CA.ca_draws c)) as [random|] eqn:ER; [|intros [= <- <- <-]; by left].
  unfold mbindM at 1, lift at 1. destruct (CA.profile_for ca _) as [profile|] eqn:EP; [|intros [= <- <- <-]; by left].
  set (req := CA.sign_request _ _ _ _ _). unfold mbindM at 1, CA.state at 1, mbindM at 1, CA.update at 1.
  cbn [CA.ca_calls CA.tick CA.drawn]. set (c1 := CA.add_signed _ req regID). intros H. right.
  exists csr', req, (CA.ca_calls c). split; [done|]. split; [by exists random, profile, exts|].
  assert (CA.ca_now c + CA.validityPeriod ca <= ic_NotAfter (CA.defaultIssuer ca)) as HT
    by (unfold time_Before, time_Add in ET; bool_solve; lia).
  destruct (ee_Sign (CA.ca_calls c) (CA.defaultIssuer ca) req) as [pem|] eqn:ES; [|injection H as <- <- <-; done].
  destruct (Z.eqb_spec (len pem) 0) as [E0|E0].
  - unfold CA.store_signed in H. rewrite E0 in H. simpl in H. injection H as <- <- <-. done.
  - apply store_signed_spec in H as [H1 H2]; [|done]. split; [by rewrite H1|]. split; [done|]. exact H2.
Qed.

Lemma extension_requested csr l : CA.extensionsFromCSR ca csr = Ok l -> l = [] \/
  (l = [CA.mustStapleExtension] /\ CA.enableMustStaple ca = true /\
   exists ext, ext ∈ CA.requested_extensions csr /\ ext_Type ext = CA.oidTLSFeature /\ ext_Value ext = Some CA.mustStapleFeatureValue).
Proof.
  rewrite extensionsFromCSR_spec. destruct (find _ _) as [ext|] eqn:E; [|intros [= <-]; by left].
  apply find_some in E as [Hin%list_elem_of_In Ht%bool_decide_eq_true]. unfold decided_by.
  destruct (ext_Value ext) as [v|] eqn:Ev; [|done]. destruct (String.eqb_spec v CA.mustStapleFeatureValue) as [->|]; [|done].
  intros [= <-]. destruct (CA.enableMustStaple ca); [right|by left]. split_and!; [done|done|]. by exists ext.
Qed.

(** C6. One call of [IssueCertificate] asks for at most one signature, recorded with
    the account: for a request that passed the checks again, sent to the signer as it
    came, with exactly its normalised names and common name, the RSA profile for an RSA
    key and the ECDSA profile for an ECDSA key, a serial number of the prefix and 17
    fresh random bytes (also in the subject if so configured), and no extension but
    must-staple, that only when configured and requested; and only when a certificate of
    the configured lifetime ends no later than the issuer. *)
Theorem IssueCertificate_signs_what_was_checked (csr : CertificateRequest) (regID : Z) s c r s' c' :
  CA.IssueCertificate fs ca csr regID (s, c) = (r, (s', c')) ->
  CA.ca_signed c' = CA.ca_signed c /\ is_ok r = false \/
  exists csr' req random,
    Csr.VerifyCSR csr (CA.maxNames ca) (CA.keyPolicy ca) pa_WillingToIssue (CA.forceCNFromSAN ca) regID = (Ok tt, csr') /\
    CA.ca_signed c' = (req, regID) :: CA.ca_signed c /\
    sr_Request req = pem_Encode "CERTIFICATE REQUEST" (csr_Raw csr) /\
    sr_Hosts req = csr_DNSNames csr' /\ sr_CN req = csr_CommonName csr' /\
    match csr_PublicKey csr with
    | Some (RSAKey _ _) => sr_Profile req = CA.rsaProfile ca
    | Some (ECDSAKey _ _ _) => sr_Profile req = CA.ecdsaProfile ca
    | _ => False
    end /\
    CA.ca_rand c (CA.ca_draws c) = Ok random /\
    (0 < CA.prefix ca < 256 -> sr_Serial req = CA.prefix ca * 2 ^ 136 + random_value 17 random) /\
    sr_SubjectSerial req = (if CA.forceCNFromSAN ca then EmptyString else SerialToString (sr_Serial req)) /\
    (sr_Extensions req = [] \/
     (sr_Extensions req = [CA.mustStapleExtension] /\ CA.enableMustStaple ca = true /\
      exists ext, ext ∈ CA.requested_extensions csr /\ ext_Type ext = CA.oidTLSFeature /\
                  ext_Value ext = Some CA.mustStapleFeatureValue)) /\
    CA.ca_now c + CA.validityPeriod ca <= ic_NotAfter (CA.defaultIssuer ca).
Proof.
  intros H. apply IssueCertificate_cases in H as [(? & _ & ? & _)|(csr' & req & n & HV & HS & HL & HT & _)]; [by left|right].
  destruct HS as (random & profile & exts & HR & HP & HE & ->). exists csr', (CA.sign_request ca csr' profile (CA.serial_number ca random) exts), random.
  apply extension_requested in HE.
  assert (csr' = Csr.set_names csr (csr_CommonName csr') (csr_DNSNames csr')) as Hset
    by (unfold Csr.VerifyCSR in HV; injection HV as _ <-; by rewrite (Csr.normalizeCSR_set csr) at 1).
  rewrite Hset in HP, HE. simpl in HP.
  refine (conj HV (conj HL (conj _ (conj eq_refl (conj eq_refl (conj _ (conj HR (conj _ (conj eq_refl (conj HE HT)))))))))).
  - cbn [sr_Request CA.sign_request]. by rewrite Hset.
  - cbn [sr_Profile CA.sign_request]. destruct (csr_PublicKey csr) as [[]|]; simpl in HP; try done; by apply Ok_inj in HP.
  - cbn [sr_Serial CA.sign_request]. apply serial_number_value.
Qed.

(** C19. No signed certificate is lost: when the signer returns one, then either the
    storage authority acknowledged it for this account and the caller receives it, or
    the line for orphaned certificates is logged, with the certificate and its account, and
    the caller receives an error. *)
Theorem signed_certificates_are_accounted_for (csr : CertificateRequest) (regID : Z) s c r s' c' req :
  CA.IssueCertificate fs ca csr regID (s, c) = (r, (s', c')) ->
  CA.ca_signed c' = (req, regID) :: CA.ca_signed c ->
  exists n, match ee_Sign n (CA.defaultIssuer ca) req with
            | Ok pem => if len pem =? 0 then is_ok r = false /\ s' = s
                        else accounted pem (SerialToString (sr_Serial req)) regID s c r s' c'
            | Err _ => is_ok r = false /\ s' = s
            end.
Proof.
  intros H HL. apply IssueCertificate_cases in H as [(_ & _ & E & _)|(csr' & req' & n & _ & _ & HL' & _ & HA)].
  - rewrite E in HL. apply (f_equal length) in HL. simpl in HL. lia.
  - assert (req' = req) as -> by congruence. exists n.
    destruct (ee_Sign n _ req) as [pem|]; [destruct (len pem =? 0)|]; naive_solver.
Qed.

(** An OCSP response is signed only for a certificate that parses, with the issuer
    whose common name the certificate carries, after the certificate's signature was
    verified against that issuer. *)
Theorem GenerateOCSP_only_for_own_certificates (xfer : OCSPSigningRequest) s c resp s' c' :
  CA.GenerateOCSP ca xfer (s, c) = (Ok resp, (s', c')) ->
  exists issuer n, is_ok (ParseCertificate (os_CertDER xfer)) = true /\
    CA.issuers ca !! cert_IssuerCN (os_CertDER xfer) = Some issuer /\
    is_ok (CheckSignatureFrom (os_CertDER xfer) issuer) = true /\ ocsp_Sign n issuer xfer = Ok resp.
Proof.
  unfold CA.GenerateOCSP, mbindM, lift, fail, CA.state, CA.update.
  destruct (ParseCertificate _); [|done]. destruct (CA.issuers ca !! _) as [issuer|] eqn:EI; [|done].
  destruct (CheckSignatureFrom _ _) eqn:EC'; [|done]. intros [= H _ _]. exists issuer, (CA.ca_calls c).
  by rewrite EC'.
Qed.

End issuing.

(** ** Construction *)

Lemma add_issuers_spec iss m0 m : CA.add_issuers iss m0 = Ok m ->
  (forall cn c, m !! cn = Some c <->
     m0 !! cn = Some c \/ (ic_CommonName c = cn /\ exists i, i ∈ iss /\ CA.iss_Cert i = Some c)) /\
  (forall i, i ∈ iss -> exists c, CA.iss_Cert i = Some c /\ m0 !! ic_CommonName c = None) /\
  NoDup (map (fun i => ic_CommonName <$> CA.iss_Cert i) iss).
Proof.
  revert m0. induction iss as [|i iss IH]; intros m0 H; cbn [CA.add_issuers] in H.
  - injection H as <-. split_and!; [|by intros ? ?%elem_of_nil|constructor]. intros cn c. split; [by left|].
    intros [?|(_ & i & Hi & _)]; [done|by apply elem_of_nil in Hi].
  - destruct (CA.iss_Cert i) as [cert|] eqn:EC; [|done]. destruct (CA.iss_Signer i); [|done].
    destruct (CA.iss_eeSigner i); [|done]. destruct (CA.iss_ocspSigner i); [|done]. cbn [rbind] in H.
    destruct (m0 !! ic_CommonName cert) eqn:EM; [done|]. destruct (IH _ H) as (Hm & Hf & Hn). split_and!.
    + intros cn c. rewrite Hm, lookup_insert_Some. split.
      * intros [[[<- <-]|[? ?]]|(? & j & ? & ?)]; [right; split; [done|]; exists i; split; [left|done]|by left|].
        right. split; [done|]. exists j. split; [by right|done].
      * intros [Hc|(<- & j & Hj & Hc)].
        { left. right. split; [|done]. intros <-. congruence. }
        apply elem_of_cons in Hj as [->|Hj]; [left; left; naive_solver|right; eauto].
    + intros j Hj. apply elem_of_cons in Hj as [->|Hj]; [by exists cert|].
      destruct (Hf j Hj) as (cj & Ej & Hcj). exists cj. split; [done|].
      by apply lookup_insert_None in Hcj as [? _].
    + cbn [map]. constructor; [|done]. rewrite EC. intros Hin.
      apply list_elem_of_fmap in Hin as (j & Hj & Hjin). destruct (Hf j Hjin) as (cj & Ej & Hcj).
      rewrite Ej in Hj. injection Hj as Hj. by apply lookup_insert_None in Hcj as [_ ?].
Qed.

(** A CA that starts is in order: its prefix fits the first byte of a serial
    number, both profiles are named, it signs with the first configured issuer, and
    its issuer table holds exactly the configured certificates under their common
    names, no two of which are equal. *)
Theorem NewCertificateAuthorityImpl_wf (config : CA.CAConfig) (iss : list CA.Issuer) keyPolicy pub ca :
  CA.NewCertificateAuthorityImpl config iss keyPolicy pub = Ok ca ->
  0 < CA.prefix ca < 256 /\ CA.rsaProfile ca <> EmptyString /\ CA.ecdsaProfile ca <> EmptyString /\
  head iss ≫= CA.iss_Cert = Some (CA.defaultIssuer ca) /\
  (forall cn c, CA.issuers ca !! cn = Some c <-> ic_CommonName c = cn /\ exists i, i ∈ iss /\ CA.iss_Cert i = Some c) /\
  NoDup (map (fun i => ic_CommonName <$> CA.iss_Cert i) iss).
Proof.
  unfold CA.NewCertificateAuthorityImpl. destruct (_ || _) eqn:EP; [done|].
  destruct (CA.cc_CFSSL config); cbn [rbind]; [|done]. destruct (CA.cc_LifespanOCSP config =? 0); [done|].
  destruct (CA.makeInternalIssuers iss) as [m|] eqn:EM; cbn [rbind]; [|done].
  destruct (is_empty _ || is_empty _) eqn:EE; [done|]. destruct (is_empty (CA.cc_Expiry config)); [done|].
  destruct (CA.cc_ParsedExpiry config); cbn [rbind]; [|done].
  destruct iss as [|i iss]; [done|]. unfold CA.makeInternalIssuers in EM.
  destruct (add_issuers_spec _ _ _ EM) as (Hm & Hf & Hn).
  destruct (Hf i ltac:(left)) as (ci & Ei & _). rewrite Ei.
  assert (m !! ic_CommonName ci = Some ci) as HD.
  { apply Hm. right. split; [done|]. exists i. split; [left|done]. }
  rewrite HD. intros [= <-]. cbn [CA.prefix CA.rsaProfile CA.ecdsaProfile CA.defaultIssuer CA.issuers].
  unfold is_empty in EE. bool_solve. split_and!; try done; try lia.
  intros cn c. rewrite Hm, lookup_empty. naive_solver.
Qed.

(** ** The CA beside the storage authority

    The RA's state is the storage authority's together with the CA's. *)

Section product.
Context {S : Type} {SA : StorageAuthority S}.
Notation C := CA.CAState (only parsing).

(** An operation of the storage authority leaves the CA's state alone. *)
Definition on_storage {A} (m : M S error A) : M (S * C) error A := CA.storage m.

#[global] Instance product_storage : StorageAuthority (S * C) := {|
  sa_GetRegistration id := on_storage (sa_GetRegistration id);
  sa_GetAuthorization id := on_storage (sa_GetAuthorization id);
  sa_GetValidAuthorizations r n t := on_storage (sa_GetValidAuthorizations r n t);
  sa_CountRegistrationsByIP ip a b := on_storage (sa_CountRegistrationsByIP ip a b);
  sa_CountPendingAuthorizations r := on_storage (sa_CountPendingAuthorizations r);
  sa_CountInvalidAuthorizations r h a b := on_storage (sa_CountInvalidAuthorizations r h a b);
  sa_CountCertificatesRange a b := on_storage (sa_CountCertificatesRange a b);
  sa_CountCertificatesByNames n a b := on_storage (sa_CountCertificatesByNames n a b);
  sa_CountFQDNSets d n := on_storage (sa_CountFQDNSets d n);
  sa_FQDNSetExists n := on_storage (sa_FQDNSetExists n);
  sa_NewRegistration r := on_storage (sa_NewRegistration r);
  sa_UpdateRegistration r := on_storage (sa_UpdateRegistration r);
  sa_NewPendingAuthorization a := on_storage (sa_NewPendingAuthorization a);
  sa_UpdatePendingAuthorization a := on_storage (sa_UpdatePendingAuthorization a);
  sa_FinalizeAuthorization a := on_storage (sa_FinalizeAuthorization a);
  sa_MarkCertificateRevoked s r := on_storage (sa_MarkCertificateRevoked s r);
  sa_DeactivateRegistration id := on_storage (sa_DeactivateRegistration id);
  sa_DeactivateAuthorization id := on_storage (sa_DeactivateAuthorization id)
|}.

Lemma on_storage_inv {A} (m : M S error A) s c r s' c' :
  on_storage m (s, c) = (r, (s', c')) -> m s = (r, s') /\ c' = c.
Proof. unfold on_storage, CA.storage. destruct (m s). by intros [= <- <- <-]. Qed.

Context {SP : StorageSpec S}.

Definition pair_ok (p : S * C) : Prop := sa_ok (fst p).
Definition pair_authorized (p : S * C) : Z -> string -> Z -> Prop := authorized (fst p).
Definition pair_settled (p : S * C) : string -> Prop := settled (fst p).

Lemma keeps_on_storage {A} (m : M S error A) :
  keeps m -> preserves (no_new pair_ok pair_authorized pair_settled) (on_storage m).
Proof. intros Hm [s c] r [s' c'] H. apply on_storage_inv in H as [H ->]. by eapply Hm. Qed.

#[global] Instance product_spec : StorageSpec (S * C).
Proof.
  refine {| sa_ok := pair_ok; authorized := pair_authorized; settled := pair_settled |};
    try (intros; apply keeps_on_storage; eauto with boulder; fail).
  - intros regID [s c] reg [s' c'] Hok [H _]%on_storage_inv. by eapply spec_registration.
  - intros regID names now [s c] m [s' c'] n a Hok [H _]%on_storage_inv Hn. by eapply spec_valid.
  - intros id [s c] a [s' c'] Hok [H _]%on_storage_inv. by eapply spec_read.
  - intros a [s c] r [s' c'] Hok Hw [H _]%on_storage_inv. by eapply spec_write.
  - intros a [s c] [s' c'] Hok [H _]%on_storage_inv. by eapply spec_update_pending.
  - intros a [s c] r [s' c'] Hok [H _]%on_storage_inv. by eapply spec_finalize.
Defined.

End product.

Section composed.
Context {S : Type} {GL : GoLib} {Cr : Crypto} {EC : Elliptic} {X : X509} {PE : Policy.PolicyEnv} {SG : Signers}
        {SA : StorageAuthority S} {PA : PolicyAuthority} {RE : RAEnv} {SP : StorageSpec S} {PS : PolicySpec} {ST : CertificateStorage S}.
Context (fs : Features.state) (ca : CA.CertificateAuthorityImpl).

(** What the CA needs of the storage authority: storing a certificate grants nothing. *)
Class StorageKeeps : Prop := {
  keeps_AddCertificate der regID resp : keeps (cas_AddCertificate der regID resp)
}.

Lemma accounted_storage pem serialHex regID s c r s' c' :
  accounted (S := S) pem serialHex regID s c r s' c' ->
  s' = s \/ exists der resp x, cas_AddCertificate der regID resp s = (x, s').
Proof.
  unfold accounted. destruct (pem_Decode pem) as [[t der]|]; [|naive_solver].
  destruct (String.eqb t "CERTIFICATE"); [|naive_solver].
  intros (resp & [(cert & digest & _ & _ & H & _)|(e & _ & H & _)]); right; eauto.
Qed.

Context {SK : StorageKeeps}.

(** Whatever happens during an issuance, no account gains an authorization. *)
Lemma issuing_keeps csr regID : keeps (S := S * CA.CAState) (CA.IssueCertificate fs ca csr regID).
Proof.
  intros [s c] r [s' c'] H. apply IssueCertificate_cases in H as
    [(_ & -> & _ & _)|(csr' & req & n & _ & _ & _ & _ & HA)]; [by intros; split|].
  assert (s' = s \/ exists der resp x, cas_AddCertificate der regID resp s = (x, s')) as [->|(der & resp & x & Hs)].
  { destruct (ee_Sign n _ req) as [pem|]; [destruct (len pem =? 0)|]; try naive_solver.
    by eapply accounted_storage. }
  - by intros; split.
  - by eapply keeps_AddCertificate in Hs.
Qed.

(** ** A way to the CA

    What the RA calls to have a certificate issued: it reaches the CA with some request,
    and if [P] holds of the request the RA started from, with the names the RA checked. *)
Class WayToCA (front : CertificateRequest -> Z -> M (S * CA.CAState) error Certificate)
    (P : CertificateRequest -> Prop) : Prop := {
  way_effect csr regID p r p' :
    front csr regID p = (r, p') -> p' = p \/ exists csr0 r0, CA.IssueCertificate fs ca csr0 regID p = (r0, p');
  way_names req force regID p r p' :
    P req -> front (Csr.normalizeCSR req force) regID p = (r, p') ->
    p' = p \/ exists csr0 r0, CA.IssueCertificate fs ca csr0 regID p = (r0, p') /\
      forall h, h ∈ csr_DNSNames (Csr.normalizeCSR csr0 (CA.forceCNFromSAN ca)) ->
        exists n, n ∈ csr_DNSNames (Csr.normalizeCSR req force) /\ (h = n \/ h = ToLower n)
}.

(** The CA in the RA's own process. *)
#[global] Instance direct_way : WayToCA (CA.IssueCertificate fs ca) (fun _ => True).
Proof.
  split; [intros; right; eauto|]. intros req force regID p r p' _ H. right. eexists _, _. split; [exact H|].
  intros h. rewrite Csr.normalizeCSR_DNSNames, elem_of_UniqueLowerNames. intros (n & -> & Hn)%list_elem_of_fmap.
  exists n. split; [|by right]. unfold Csr.requested in Hn. apply elem_of_app in Hn as [Hn|Hn]; [done|].
  unfold is_empty in Hn. destruct (String.eqb_spec (csr_CommonName (Csr.normalizeCSR req force)) EmptyString); [by apply elem_of_nil in Hn|].
  apply list_elem_of_singleton in Hn as ->. by apply Csr.normalizeCSR_CN_covered.
Qed.

Context (front : CertificateRequest -> Z -> M (S * CA.CAState) error Certificate) (P : CertificateRequest -> Prop).
Context {WC : WayToCA front P}.

#[local] Instance front_authority : CertificateAuthority (S * CA.CAState) := {| ca_IssueCertificate := front |}.

#[local] Instance front_spec : CASpec (S * CA.CAState).
Proof.
  split. intros csr regID p r p' H. cbn [ca_IssueCertificate front_authority] in H.
  apply way_effect in H as [->|(csr0 & r0 & H)]; [by intros; split|]. by eapply issuing_keeps.
Qed.

(** ** Signatures in a history *)

Context (cfg : RA.Config) (va : VA.ValidationAuthorityImpl).
Notation W := (RA.World (S * CA.CAState)).

(** Nothing signed, nothing sent to the CA. *)
Definition same_ca (w w' : W) : Prop :=
  snd (RA.sa w') = snd (RA.sa w) /\ RA.caRequests w' = RA.caRequests w.
#[local] Instance same_ca_preorder : PreOrder same_ca.
Proof. split; [done|]. intros w1 w2 w3 [] []. split; congruence. Qed.

Lemma same_ca_rpc {A} (m : M S error A) : preserves same_ca (RA.rpc (on_storage m)).
Proof.
  intros w r w'. unfold RA.rpc. destruct (on_storage m (RA.sa w)) as [x p] eqn:E. intros [= <- <-].
  destruct (RA.sa w) as [s c] eqn:Es, p as [s' c']. apply on_storage_inv in E as [_ ->]. split; simpl; [by rewrite Es|done].
Qed.
Lemma same_ca_logging {A} ev (m : RA.RAM A) : preserves same_ca m -> preserves same_ca (RA.logging ev m).
Proof. intros Hm w r w'. unfold RA.logging. destruct (m w) eqn:E. intros [= <- <-]. by eapply Hm. Qed.
Lemma same_ca_silently {A} ev (m : RA.RAM A) : preserves same_ca m -> preserves same_ca (RA.silently ev m).
Proof. intros Hm w r w'. unfold RA.silently. destruct (m w) eqn:E. intros [= <- <-]. by eapply Hm. Qed.
Lemma same_ca_pure {E A} (m : M W E A) :
  (forall w, RA.sa (snd (m w)) = RA.sa w /\ RA.caRequests (snd (m w)) = RA.caRequests w) -> preserves same_ca m.
Proof. intros H w r w' E'. specialize (H w). rewrite E' in H. simpl in H. destruct H as [H1 H2]. split; [by rewrite H1|done]. Qed.

Ltac keeps_ca :=
  RA.ra_frame ltac:(first
    [ apply same_ca_logging | apply same_ca_silently | apply same_ca_rpc
    | apply same_ca_pure; intros ?; split; try destruct (RA.hasPublisher _); done ]).

Lemma same_ca_check_request req regID ev : preserves same_ca (RA.check_request cfg req regID ev).
Proof.
  unfold RA.check_request, RA.checkLimits, RA.checkTotalCertificatesLimit, RA.checkCertificatesPerNameLimit,
    RA.checkCertificatesPerFQDNSetLimit, RA.checkAuthorizations. keeps_ca.
Qed.
Lemma same_ca_deliver csr ev cert : preserves same_ca (RA.deliver cfg csr ev cert).
Proof. unfold RA.deliver, RA.parse_issued, RA.MatchesCSR. keeps_ca. Qed.

Notation run := (RaIssuance.run fs cfg).
Notation exec := (RaIssuance.exec fs cfg).

Definition is_new_certificate (o : RaIssuance.op) : bool :=
  match o with RaIssuance.OpNewCertificate _ _ => true | _ => false end.

Lemma same_ca_snd {A} (m : RA.RAM A) (w : W) : preserves same_ca m -> same_ca w (snd (m w)).
Proof. intros H. destruct (m w) as [r w'] eqn:E. by apply H in E. Qed.

Lemma same_ca_finish authz i records err : preserves same_ca (RA.finish_validation cfg authz i records err).
Proof. unfold RA.finish_validation, RA.onValidationUpdate. keeps_ca. Qed.

Lemma same_ca_exec o (w : W) : is_new_certificate o = false -> same_ca w (exec o w).
Proof.
  intros Ho. destruct o; try done; cbn [RaIssuance.exec]; try (by split); apply same_ca_snd.
  - unfold RA.NewRegistration, RA.validateContacts, RA.validate_contact, RA.checkRegistrationLimit. keeps_ca.
  - unfold RA.UpdateRegistration, RA.validateContacts, RA.validate_contact. keeps_ca.
  - unfold RA.DeactivateRegistration. keeps_ca.
  - unfold RA.NewAuthorization, RA.checkPendingAuthorizationLimit, RA.checkInvalidAuthorizationLimit,
      RA.checkSafeDomain, RA.reusable, RA.create_authorization, RA.check_offer. keeps_ca.
  - unfold RA.UpdateAuthorization. keeps_ca.
  - unfold RA.validation_done. intros w1 r w2 H.
    unfold mbindM at 1, get at 1 in H. destruct (RA.vaJobs w1 !! j) as [[authz i]|]; [|injection H as <- <-; reflexivity].
    unfold mbindM at 1, put at 1 in H. transitivity (RA.set_vaJobs w1 (delete j (RA.vaJobs w1))); [by split|].
    by eapply same_ca_finish.
  - unfold RA.DeactivateAuthorization. keeps_ca.
  - unfold RA.RevokeCertificateWithReg, RA.revoke. keeps_ca.
  - unfold RA.AdministrativelyRevokeCertificate, RA.revoke. keeps_ca.
  - unfold RA.updateIssuedCount. keeps_ca.
Qed.

(** The step that may sign: what is signed was sent by the RA in this step. *)
Definition signs (w w' : W) : Prop :=
  same_ca w w' \/
  exists csr regID, RA.caRequests w' = (csr, regID) :: RA.caRequests w /\
    (CA.ca_signed (snd (RA.sa w')) = CA.ca_signed (snd (RA.sa w)) \/
     exists req, CA.ca_signed (snd (RA.sa w')) = (req, regID) :: CA.ca_signed (snd (RA.sa w)) /\
       forall h, h ∈ sr_Hosts req -> exists n, n ∈ csr_DNSNames csr /\ (h = n \/ h = ToLower n)).

Lemma check_request_csr req regID ev w csr ev' w' :
  RA.check_request (S := S * CA.CAState) cfg req regID ev w = (Ok (csr, ev'), w') ->
  csr = Csr.normalizeCSR req (RA.forceCNFromSAN cfg).
Proof.
  unfold RA.check_request. destruct (regID <=? 0); [done|]. unfold mbindM at 1.
  destruct (RA.logging _ _ w) as [[reg|] w1]; [|done]. unfold Csr.VerifyCSR.
  destruct (Csr.check_csr _ _ _ _); [|done]. destruct (_ =? 0); [done|].
  destruct (KeyDigestEquals _ _); [done|]. intros H. apply mbindM_Ok in H as (? & w2 & _ & H).
  by apply mbindM_Ok in H as (? & w3 & _ & [= <- _ _]).
Qed.

Lemma new_certificate_signs req regID ev (w : W) r w' :
  P req -> RA.new_certificate cfg req regID ev w = (r, w') -> signs w w'.
Proof.
  intros HP. unfold RA.new_certificate. unfold mbindM at 1.
  destruct (RA.check_request cfg req regID ev w) as [[[csr ev1]|e] w1] eqn:E1;
    pose proof (same_ca_check_request _ _ _ _ _ _ E1) as [S1 R1]; [|intros [= <- <-]; by left].
  apply check_request_csr in E1 as ->. unfold mbindM at 1, RA.logging at 1, RA.IssueCertificate, mbindM at 1, modify at 1, RA.rpc.
  cbn [RA.sa RA.add_caRequest ca_IssueCertificate front_authority].
  destruct (front _ regID (RA.sa w1)) as [x p] eqn:EI. intros H. right. eexists _, regID.
  assert (snd (RA.sa w') = snd p /\ RA.caRequests w' =
    (Csr.normalizeCSR req (RA.forceCNFromSAN cfg), regID) :: RA.caRequests w1) as [HS HR].
  { destruct x as [cert|]; [|injection H as <- <-; done].
    apply same_ca_deliver in H as [H1 H2]. simpl in H1, H2. done. }
  rewrite HS, HR, R1. split; [done|]. rewrite <- S1.
  destruct (way_names _ _ _ _ _ _ HP EI) as [->|(csr0 & r0 & HI & Hn)]; [by left|].
  destruct (RA.sa w1) as [s c], p as [s' c']. cbn [snd].
  apply IssueCertificate_cases in HI as [(_ & _ & -> & _)|(csr' & rq & n & HV & HSig & -> & _ & _)]; [by left|right].
  unfold Csr.VerifyCSR in HV. injection HV as _ <-. destruct HSig as (? & ? & ? & _ & _ & _ & ->).
  eexists. split; [done|]. exact Hn.
Qed.

(** Requests for certificates reach the RA in this way. *)
Definition arrives (o : RaIssuance.op) : Prop :=
  match o with RaIssuance.OpNewCertificate req _ => P req | _ => True end.

Lemma exec_signs o (w : W) : arrives o -> signs w (exec o w).
Proof.
  intros HP. destruct (is_new_certificate o) eqn:Ho; [|left; by apply same_ca_exec]. destruct o; try done. cbn [RaIssuance.exec].
  unfold RA.NewCertificate, mbindM, RA.Now.
  match goal with |- context [RA.new_certificate cfg req regID ?ev ?w0] =>
    destruct (RA.new_certificate cfg req regID ev w0) as [x w1] eqn:E end.
  apply new_certificate_signs in E; [|done]. by destruct x as [[cert ev]|[e ev]].
Qed.

(** The step that signed: it sent a request with these names to the CA. *)
Lemma signed_step ops (w0 : W) req regID :
  Forall arrives ops -> CA.ca_signed (snd (RA.sa w0)) = [] -> (req, regID) ∈ CA.ca_signed (snd (RA.sa (run ops w0))) ->
  exists pre creq rg post csr, let o := RaIssuance.OpNewCertificate creq rg in
    ops = pre ++ o :: post /\
    CA.ca_signed (snd (RA.sa (run (pre ++ [o]) w0))) = (req, regID) :: CA.ca_signed (snd (RA.sa (run pre w0))) /\
    RA.caRequests (run (pre ++ [o]) w0) = (csr, regID) :: RA.caRequests (run pre w0) /\
    forall h, h ∈ sr_Hosts req -> exists n, n ∈ csr_DNSNames csr /\ (h = n \/ h = ToLower n).
Proof.
  intros HA H0. induction ops as [|o ops IH] using rev_ind; [simpl; rewrite H0; by intros ?%elem_of_nil|].
  apply Forall_app in HA as [HA Ho%Forall_inv]. rewrite RaIssuance.run_snoc. intros Hin.
  assert ((req, regID) ∈ CA.ca_signed (snd (RA.sa (run ops w0))) -> exists pre creq rg post csr,
    let o' := RaIssuance.OpNewCertificate creq rg in ops ++ [o] = pre ++ o' :: post /\
    CA.ca_signed (snd (RA.sa (run (pre ++ [o']) w0))) = (req, regID) :: CA.ca_signed (snd (RA.sa (run pre w0))) /\
    RA.caRequests (run (pre ++ [o']) w0) = (csr, regID) :: RA.caRequests (run pre w0) /\
    forall h, h ∈ sr_Hosts req -> exists n, n ∈ csr_DNSNames csr /\ (h = n \/ h = ToLower n)) as Hold.
  { intros Hl. destruct (IH HA Hl) as (pre & creq & rg & post & csr & -> & H). exists pre, creq, rg, (post ++ [o]), csr.
    split; [by rewrite <- app_assoc|exact H]. }
  destruct (is_new_certificate o) eqn:Hn.
  2:{ destruct (same_ca_exec o (run ops w0) Hn) as [HS _]. rewrite HS in Hin. by apply Hold. }
  destruct (exec_signs o (run ops w0) Ho) as [[HS _]|(csr & rg & HR & HS)]; [rewrite HS in Hin; by apply Hold|].
  destruct HS as [HS|(rq & HS & HH)]; rewrite HS in Hin; [by apply Hold|].
  apply elem_of_cons in Hin as [[= -> ->]|Hin]; [|by apply Hold].
  destruct o as [| | | | | | |creq rg'| | | |]; try done. exists ops, creq, rg', [], csr. cbv zeta. rewrite RaIssuance.run_snoc. done.
Qed.

(** In every history of the RA, the VA, the CA and the storage authority together, with
    DNS and the Internet as [env] says: a signature was made in a step that asked for it,
    and for each name in the certificate, or its lower-case form, the account was
    authorized at a moment of that step; by a right it had before the history began, or
    one that rests on a proof of control. *)
Lemma signatures_rest_on_proofs (env : nat -> DNSResolver * Internet) ops (w0 : W) req regID :
  RaIssuance.starts w0 -> CA.ca_signed (snd (RA.sa w0)) = [] ->
  RaIssuance.from_storage fs cfg ops w0 -> Forall arrives ops -> RaValidation.honest_va fs cfg va env ops w0 ->
  (req, regID) ∈ CA.ca_signed (snd (RA.sa (run ops w0))) ->
  exists pre creq post now, let o := RaIssuance.OpNewCertificate creq regID in
    ops = pre ++ o :: post /\
    CA.ca_signed (snd (RA.sa (run (pre ++ [o]) w0))) = (req, regID) :: CA.ca_signed (snd (RA.sa (run pre w0))) /\
    RA.ra_now (run pre w0) <= now <= RA.ra_now (run (pre ++ [o]) w0) /\
    forall h, h ∈ sr_Hosts req -> exists n, (n = h \/ n = ToLower h) /\
      authorized (RA.sa (run pre w0)) regID n now /\
      (authorized (RA.sa w0) regID n now \/ RaValidation.proved_control fs cfg va env pre w0 regID n).
Proof.
  intros Hw HS Hops HA Hva Hin.
  destruct (signed_step ops w0 req regID HA HS Hin) as (pre & creq & rg & post & csr & -> & HSig & HR & HH).
  destruct (RaIssuance.request_step fs cfg pre creq rg post w0 csr regID Hw Hops HR) as (-> & now & Hnow & Hn).
  exists pre, creq, post, now. cbv zeta. split_and!; try done; try apply Hnow. intros h Hh.
  destruct (HH h Hh) as (n & Hin' & HE). exists (ToLower n). split; [destruct HE as [->| ->]; auto|].
  destruct (Hn n Hin') as [Hau [He|He]]; (split; [done|]); [by left|right].
  apply RaValidation.validated_proved; [done| | |done].
  - by eapply RaIssuance.from_storage_app.
  - by eapply RaValidation.honest_va_app.
Qed.

End composed.

End CaIssuance.
