(* ===== verification/GrpcServers.v ===== *)
(** * The VA, the CA and the RA over gRPC
    (grpc/va-wrappers.go, grpc/ca-wrappers.go, grpc/ra-wrappers.go)

    As for the storage authority, each component is a client wrapper, the
    interceptors and a server wrapper.  The theorems say what a caller sees of a
    component that runs in another process. *)

From S2P Require Import Prelude GoStd Net Errors Features Core GoodKey Csr Bdns Grpc.
From S2P Require Import ValidationAuthority RegistrationAuthority GrpcStorage RaIssuance GrpcRefinement CertificateAuthority.

(** [x509.ParseCertificateRequest]. *)
Class CSRParser := { ParseCertificateRequest : string -> result error CertificateRequest }.

(** ** The VA *)

Module VaWrappers.
Import Grpc SaWrappers.

(** The value of type [error] that a validation returns: nil, a pointer to
    ProblemDetails that may itself be nil, or another error. *)
Inductive va_error :=
| NilError
| ProblemPointer (p : option Probs.ProblemDetails)
| OtherError (e : error).

(** What the RA makes of it: its type assertion succeeds on a nil pointer too. *)
Definition as_error (err : va_error) : option error :=
  match err with
  | NilError | ProblemPointer None => None
  | ProblemPointer (Some p) => Some (ProblemError p)
  | OtherError e => Some e
  end.

Definition PbValidationRequest : Type := option string * option PbChallenge * option (option string * option Z).
Definition PbValidationResult : Type := list PbValidationRecord * option PbProblemDetails.

Section va.
Context {GL : GoLib} {PJ : Bcodes.PdJSON} {S : Type}.

(** [ValidationAuthorityGRPCServer.PerformValidation]. *)
Definition PerformValidation_server (impl : string -> Challenge -> Authorization -> list ValidationRecord * va_error)
    : handler S PbValidationRequest PbValidationResult := fun in_ =>
  let! (domain, challenge, authz) := lift (performValidationReqToArgs in_) in
  match impl domain challenge authz with
  | (_, OtherError err) => fail err
  | (records, NilError) => lift (validationResultToPB records None)
  | (records, ProblemPointer prob) => lift (validationResultToPB records prob)
  end.

(** [ValidationAuthorityGRPCClient.PerformValidation]: [return records, prob] puts the
    pointer into the interface, nil or not. *)
Definition PerformValidation_client (gc : stub S PbValidationRequest PbValidationResult)
    (domain : string) (challenge : Challenge) (authz : Authorization) (s : S)
    : list ValidationRecord * va_error * S :=
  match (let! req := lift (argsToPerformValidationRequest domain challenge authz) in
         let! gRecords := gc req in
         lift (pbToValidationResult gRecords)) s with
  | (Ok (records, prob), s') => (records, ProblemPointer prob, s')
  | (Err err, s') => ([], OtherError err, s')
  end.

Definition remote_validation impl : string -> Challenge -> Authorization -> S -> list ValidationRecord * va_error * S :=
  PerformValidation_client (rpc "/VA/PerformValidation" (PerformValidation_server impl)).

End va.

(** The VA of va/va.go as the wrapper calls it. *)
Definition va_impl {GL : GoLib} {Cr : Crypto} {R : DNSResolver} {I : Internet} (va : VA.ValidationAuthorityImpl)
    (domain : string) (challenge : Challenge) (authz : Authorization) : list ValidationRecord * va_error :=
  match VA.PerformValidation va domain challenge with
  | (records, None) => (records, NilError)
  | (records, Some prob) => (records, ProblemPointer (Some prob))
  end.

End VaWrappers.

(** ** The CA *)

Module CaWrappers.
Import Grpc SaWrappers.

Section ca.
Context {GL : GoLib} {PJ : Bcodes.PdJSON} {CP : CSRParser} {S : Type}.

Definition PbIssueRequest : Type := option string * option Z.
Definition PbOCSPRequest : Type := option string * option string * option Z * option Z.

Definition IssueCertificate_client (inner : option (stub S PbIssueRequest PbCertificate))
    (csr : CertificateRequest) (regID : Z) : M S error Certificate :=
  match inner with
  | None => fail (PlainError "this CA client does not support issuing certificates")
  | Some inner =>
      let! res := inner (Some (csr_Raw csr), Some regID) in
      let! res := lift (need nil_dereference res) in
      lift (pbToCert res)
  end.

Definition GenerateOCSP_client (innerOCSP : option (stub S PbOCSPRequest (option string)))
    (ocspReq : OCSPSigningRequest) : M S error string :=
  match innerOCSP with
  | None => fail (PlainError "this CA client does not support generating OCSP")
  | Some innerOCSP =>
      let! res := innerOCSP (Some (os_CertDER ocspReq), Some (os_Status ocspReq),
                             Some (int32 (os_Reason ocspReq)), Some (UnixNano (os_RevokedAt ocspReq))) in
      let! res := lift (need nil_dereference res) in
      ret (default EmptyString res)
  end.

Definition IssueCertificate_server (inner : CertificateRequest -> Z -> M S error Certificate)
    : handler S PbIssueRequest PbCertificate := fun request =>
  let! (csr, registrationID) := lift (need nil_dereference request) in
  let! csr := lift (ParseCertificateRequest (default EmptyString csr)) in
  let! registrationID := lift (need nil_dereference registrationID) in
  let! cert := inner csr registrationID in
  ret (certToPB cert).

Definition GenerateOCSP_server (inner : OCSPSigningRequest -> M S error string)
    : handler S PbOCSPRequest (option string) := fun request =>
  let! (certDER, status, reason, revokedAt) := lift (need nil_dereference request) in
  let! status := lift (need nil_dereference status) in
  let! reason := lift (need nil_dereference reason) in
  let! revokedAt := lift (need nil_dereference revokedAt) in
  let! res := inner {| os_CertDER := default EmptyString certDER; os_Status := status;
                       os_Reason := reason; os_RevokedAt := revokedAt |} in
  ret (Some res).

Definition remote_issue (inner : CertificateRequest -> Z -> M S error Certificate) :=
  IssueCertificate_client (Some (rpc "/ca.CertificateAuthority/IssueCertificate" (IssueCertificate_server inner))).
Definition remote_ocsp (inner : OCSPSigningRequest -> M S error string) :=
  GenerateOCSP_client (Some (rpc "/ca.OCSPGenerator/GenerateOCSP" (GenerateOCSP_server inner))).

End ca.
End CaWrappers.

(** ** The RA *)

(** [core.RegistrationAuthority]; a parsed certificate comes with its DER bytes, and a
    certificate request of the core package with its own. *)
Record RegistrationAuthority (W : Type) := {
  ra_NewRegistration : Registration -> M W error Registration;
  ra_NewAuthorization : Authorization -> Z -> M W error Authorization;
  ra_NewCertificate : CertificateRequest * string -> Z -> M W error Certificate;
  ra_UpdateRegistration : Registration -> Registration -> M W error Registration;
  ra_UpdateAuthorization : Authorization -> Z -> Challenge -> M W error Authorization;
  ra_RevokeCertificateWithReg : X509Certificate * string -> Z -> Z -> M W error unit;
  ra_DeactivateRegistration : Registration -> M W error unit;
  ra_DeactivateAuthorization : Authorization -> M W error unit;
  ra_AdministrativelyRevokeCertificate : X509Certificate * string -> Z -> string -> M W error unit
}.

Record RaService (F : Type -> Type -> Type) := {
  rpb_NewRegistration : F PbRegistration PbRegistration;
  rpb_NewAuthorization : F (option PbAuthorization * option Z)%type PbAuthorization;
  rpb_NewCertificate : F (option string * option Z)%type PbCertificate;
  rpb_UpdateRegistration : F (option PbRegistration * option PbRegistration)%type PbRegistration;
  rpb_UpdateAuthorization : F (option PbAuthorization * option Z * option PbChallenge)%type PbAuthorization;
  rpb_RevokeCertificateWithReg : F (option string * option Z * option Z)%type unit;
  rpb_DeactivateRegistration : F PbRegistration unit;
  rpb_DeactivateAuthorization : F PbAuthorization unit;
  rpb_AdministrativelyRevokeCertificate : F (option string * option Z * option string)%type unit
}.

Module RaWrappers.
Import Grpc SaWrappers.

Section ra.
Context {GL : GoLib} {PJ : Bcodes.PdJSON} {J : PbJSON} {X : X509} {CP : CSRParser} {W : Type}.

(** [authorizationValid] and [registrationValid] read through their argument. *)
Definition valid {A} (check : A -> bool) (p : option A) : M W error A :=
  let! a := lift (need nil_dereference p) in
  do! guard errIncompleteRequest (check a) in ret a.

Definition ra_client (inner : RaService (stub W)) : RegistrationAuthority W := {|
  ra_NewRegistration := fun reg =>
    let! req := lift (registrationToPB reg) in
    let! response := rpb_NewRegistration _ inner req in
    let! response := received response in do! guard errIncompleteResponse (registrationValid response) in
    lift (pbToRegistration response);
  ra_NewAuthorization := fun authz regID =>
    let! req := lift (authzToPB authz) in
    let! response := rpb_NewAuthorization _ inner (Some req, Some regID) in
    let! response := received response in do! guard errIncompleteResponse (authorizationValid response) in
    lift (pbToAuthz response);
  ra_NewCertificate := fun csr regID =>
    let! response := rpb_NewCertificate _ inner (Some (snd csr), Some regID) in
    let! response := received response in do! guard errIncompleteResponse (certificateValid response) in
    lift (pbToCert response);
  ra_UpdateRegistration := fun base updates =>
    let! basePB := lift (registrationToPB base) in
    let! updatePB := lift (registrationToPB updates) in
    let! response := rpb_UpdateRegistration _ inner (Some basePB, Some updatePB) in
    let! response := received response in do! guard errIncompleteResponse (registrationValid response) in
    lift (pbToRegistration response);
  ra_UpdateAuthorization := fun authz challengeIndex chall =>
    let! authzPB := lift (authzToPB authz) in
    let! challPB := lift (challengeToPB chall) in
    let! response := rpb_UpdateAuthorization _ inner (Some authzPB, Some challengeIndex, Some challPB) in
    let! response := received response in do! guard errIncompleteResponse (authorizationValid response) in
    lift (pbToAuthz response);
  ra_RevokeCertificateWithReg := fun cert code regID =>
    do! rpb_RevokeCertificateWithReg _ inner (Some (snd cert), Some code, Some regID) in ret tt;
  ra_DeactivateRegistration := fun reg =>
    let! regPB := lift (registrationToPB reg) in
    do! rpb_DeactivateRegistration _ inner regPB in ret tt;
  ra_DeactivateAuthorization := fun auth =>
    let! authzPB := lift (authzToPB auth) in
    do! rpb_DeactivateAuthorization _ inner authzPB in ret tt;
  ra_AdministrativelyRevokeCertificate := fun cert code adminName =>
    do! rpb_AdministrativelyRevokeCertificate _ inner (Some (snd cert), Some code, Some adminName) in ret tt
|}.

Definition ra_server (inner : RegistrationAuthority W) : RaService (handler W) := {|
  rpb_NewRegistration := fun request =>
    let! request := required request in do! guard errIncompleteRequest (registrationValid request) in
    let! reg := lift (pbToRegistration request) in
    let! newReg := ra_NewRegistration _ inner reg in
    lift (registrationToPB newReg);
  rpb_NewAuthorization := fun request =>
    let! (authz, regID) := required request in
    let! authz := valid authorizationValid authz in let! regID := required regID in
    let! authz := lift (pbToAuthz authz) in
    let! newAuthz := ra_NewAuthorization _ inner authz regID in
    lift (authzToPB newAuthz);
  rpb_NewCertificate := fun request =>
    let! (bytes, regID) := required request in
    let! bytes := required bytes in let! regID := required regID in
    let! csr := lift (ParseCertificateRequest bytes) in
    let! cert := ra_NewCertificate _ inner (csr, bytes) regID in
    ret (certToPB cert);
  rpb_UpdateRegistration := fun request =>
    let! (base, update) := required request in
    let! base := valid registrationValid base in let! update := valid registrationValid update in
    let! base := lift (pbToRegistration base) in
    let! update := lift (pbToRegistration update) in
    let! newReg := ra_UpdateRegistration _ inner base update in
    lift (registrationToPB newReg);
  rpb_UpdateAuthorization := fun request =>
    let! (authz, challengeIndex, response) := required request in
    let! authz := valid authorizationValid authz in
    let! challengeIndex := required challengeIndex in let! response := required response in
    let! authz := lift (pbToAuthz authz) in
    let! chall := lift (pbToChallenge (Some response)) in
    let! newAuthz := ra_UpdateAuthorization _ inner authz challengeIndex chall in
    lift (authzToPB newAuthz);
  rpb_RevokeCertificateWithReg := fun request =>
    let! (der, code, regID) := required request in
    let! der := required der in let! code := required code in let! regID := required regID in
    let! cert := lift (ParseCertificate der) in
    ra_RevokeCertificateWithReg _ inner (cert, der) code regID;
  rpb_DeactivateRegistration := fun request =>
    let! request := required request in do! guard errIncompleteRequest (registrationValid request) in
    let! reg := lift (pbToRegistration request) in
    ra_DeactivateRegistration _ inner reg;
  rpb_DeactivateAuthorization := fun request =>
    let! request := required request in do! guard errIncompleteRequest (authorizationValid request) in
    let! authz := lift (pbToAuthz request) in
    ra_DeactivateAuthorization _ inner authz;
  rpb_AdministrativelyRevokeCertificate := fun request =>
    let! (der, code, adminName) := required request in
    let! der := required der in let! code := required code in let! adminName := required adminName in
    let! cert := lift (ParseCertificate der) in
    ra_AdministrativelyRevokeCertificate _ inner (cert, der) code adminName
|}.

Definition ra_connect (h : RaService (handler W)) : RaService (stub W) := {|
  rpb_NewRegistration := rpc "/ra.RegistrationAuthority/NewRegistration" (rpb_NewRegistration _ h);
  rpb_NewAuthorization := rpc "/ra.RegistrationAuthority/NewAuthorization" (rpb_NewAuthorization _ h);
  rpb_NewCertificate := rpc "/ra.RegistrationAuthority/NewCertificate" (rpb_NewCertificate _ h);
  rpb_UpdateRegistration := rpc "/ra.RegistrationAuthority/UpdateRegistration" (rpb_UpdateRegistration _ h);
  rpb_UpdateAuthorization := rpc "/ra.RegistrationAuthority/UpdateAuthorization" (rpb_UpdateAuthorization _ h);
  rpb_RevokeCertificateWithReg :=
    rpc "/ra.RegistrationAuthority/RevokeCertificateWithReg" (rpb_RevokeCertificateWithReg _ h);
  rpb_DeactivateRegistration :=
    rpc "/ra.RegistrationAuthority/DeactivateRegistration" (rpb_DeactivateRegistration _ h);
  rpb_DeactivateAuthorization :=
    rpc "/ra.RegistrationAuthority/DeactivateAuthorization" (rpb_DeactivateAuthorization _ h);
  rpb_AdministrativelyRevokeCertificate :=
    rpc "/ra.RegistrationAuthority/AdministrativelyRevokeCertificate" (rpb_AdministrativelyRevokeCertificate _ h)
|}.

Definition remote_ra (inner : RegistrationAuthority W) : RegistrationAuthority W :=
  ra_client (ra_connect (ra_server inner)).

End ra.
End RaWrappers.

(** ** What a caller sees *)

Module GrpcServers.
Import Grpc SaWrappers VaWrappers CaWrappers RaWrappers.

Section va.
Context {GL : GoLib} {PJ : Bcodes.PdJSON} {S : Type}.

(** The authorization that arrives with a request to validate: its two IDs. *)
Definition wire_meta (a : Authorization) : Authorization :=
  {| az_ID := az_ID a; az_Identifier := {| idType := EmptyString; idValue := EmptyString |};
     az_RegistrationID := az_RegistrationID a; az_Status := EmptyString; az_Expires := None;
     az_Challenges := []; az_Combinations := [] |}.

Lemma validation_request_trip d ch a :
  challenge_ok ch = true -> exists req, argsToPerformValidationRequest d ch a = Ok req /\
    performValidationReqToArgs (Some req) = Ok (d, wire_challenge ch, wire_meta a).
Proof.
  intros H. destruct (proj1 (challenge_trip ch) H) as (pb & Hc & Hp). unfold argsToPerformValidationRequest.
  rewrite Hc. eexists. split; [done|]. unfold performValidationReqToArgs. cbn [need rbind]. by rewrite Hp.
Qed.

Lemma validation_result_trip records prob :
  (forallb record_ok records = true -> exists pb, validationResultToPB records prob = Ok pb /\
    pbToValidationResult (Some pb) = Ok (map wire_record records, option_map wire_problem prob)) /\
  (forallb record_ok records = false -> validationResultToPB records prob = Err bad_ip).
Proof.
  unfold validationResultToPB. split; intros H.
  - destruct (mapE_Ok validationRecordToPB (fun v => pbToValidationRecord (Some v)) wire_record record_ok _
      (fun r => proj1 (record_trip r)) H) as (pbs & -> & Hp).
    eexists. split; [done|]. unfold pbToValidationResult. cbn [need rbind]. rewrite Hp. cbn [rbind]. by rewrite problem_trip.
  - rewrite (mapE_Err _ record_ok bad_ip); try done; [|apply record_trip].
    intros r Hr. by destruct (proj1 (record_trip r) Hr) as (? & -> & _).
Qed.

(** The problem behind an error value. *)
Definition problem_of (err : va_error) : option Probs.ProblemDetails :=
  match err with ProblemPointer p => p | _ => None end.

(** A validation by a remote VA: a challenge that cannot be sent is refused by the
    client; otherwise the VA sees the challenge without its URI and only the IDs of the
    authorization, its records and problem arrive together, and any other error
    arrives as the RPC layer carries it.  A validation without problems arrives as a
    non-nil error that holds a nil pointer. *)
Lemma remote_validation_spec impl d ch a (s : S) :
  remote_validation impl d ch a s =
  (if challenge_ok ch then
     match impl d (wire_challenge ch) (wire_meta a) with
     | (_, OtherError e) => ([], OtherError (Bcodes.over_the_wire e))
     | (records, err) =>
         if forallb record_ok records
         then (map wire_record records, ProblemPointer (option_map wire_problem (problem_of err)))
         else ([], OtherError (Bcodes.over_the_wire bad_ip))
     end
   else ([], OtherError bad_ip), s).
Proof.
  unfold remote_validation, PerformValidation_client. rewrite lift_run.
  destruct (challenge_ok ch) eqn:Hch.
  2: { unfold argsToPerformValidationRequest. by rewrite (proj2 (challenge_trip ch) Hch). }
  destruct (validation_request_trip d ch a Hch) as (req & -> & Hreq).
  rewrite rpc_bind. unfold PerformValidation_server, carry, mbindM, lift, PbValidationRequest, PbValidationResult in *. rewrite Hreq.
  destruct (impl d (wire_challenge ch) (wire_meta a)) as [records [|p|e]]; [| |done].
  - destruct (validation_result_trip records None) as [H1 H2]. destruct (forallb record_ok records); [|by rewrite H2].
    destruct (H1 eq_refl) as (pb & -> & Ht). by rewrite Ht.
  - destruct (validation_result_trip records p) as [H1 H2]. destruct (forallb record_ok records); [|by rewrite H2].
    destruct (H1 eq_refl) as (pb & -> & Ht). by rewrite Ht.
Qed.

End va.

(** A validation that found no problem arrives as an error value that is not nil:
    an interface around a nil pointer.  Only a caller that asserts the type, as the RA
    does, sees the success. *)
Theorem remote_success_is_a_non_nil_error {GL : GoLib} {PJ : Bcodes.PdJSON} {S : Type} impl d ch a (s : S) records :
  challenge_ok ch = true -> impl d (wire_challenge ch) (wire_meta a) = (records, NilError) ->
  forallb record_ok records = true ->
  remote_validation impl d ch a s = (map wire_record records, ProblemPointer None, s) /\
  ProblemPointer None <> NilError /\ as_error (ProblemPointer None) = None.
Proof. intros Hc Hi Hr. by rewrite remote_validation_spec, Hc, Hi, Hr. Qed.

(** The VA reads nothing of a challenge that is lost on the way to it. *)
Lemma PerformValidation_wire {GL : GoLib} {Cr : Crypto} {R : DNSResolver} {I : Internet} va d ch :
  VA.PerformValidation va d (wire_challenge ch) = VA.PerformValidation va d ch.
Proof. by destruct ch. Qed.

(** A remote VA is honest: when the RA takes the answer of the gRPC client as a
    success, the VA found no problem for the challenge the RA asked about. *)
Lemma remote_success_is_the_vas {GL : GoLib} {PJ : Bcodes.PdJSON} {Cr : Crypto} {R : DNSResolver} {I : Internet}
    {S : Type} va d ch a (s s' : S) records err :
  remote_validation (va_impl va) d ch a s = (records, err, s') -> as_error err = None ->
  exists found, VA.PerformValidation va d ch = (found, None) /\ records = map wire_record found.
Proof.
  rewrite remote_validation_spec. destruct (challenge_ok ch); [|by intros [= <- <- <-]].
  unfold va_impl. rewrite PerformValidation_wire. destruct (VA.PerformValidation va d ch) as [found [p|]].
  - destruct (forallb record_ok found); by intros [= <- <- <-].
  - destruct (forallb record_ok found); [|by intros [= <- <- <-]]. intros [= <- <- <-] _. by exists found.
Qed.

Section ca.
Context {GL : GoLib} {PJ : Bcodes.PdJSON} {CP : CSRParser} {S : Type}.

Lemma remote_issue_spec (inner : CertificateRequest -> Z -> M S error Certificate) csr regID s :
  remote_issue inner csr regID s =
  carry (let! csr := lift (ParseCertificateRequest (csr_Raw csr)) in
         let! cert := inner csr regID in ret (wire_cert cert)) s.
Proof.
  unfold remote_issue, IssueCertificate_client. rewrite rpc_bind. unfold IssueCertificate_server, PbIssueRequest.
  unfold carry, mbindM, lift. simpl. destruct (ParseCertificateRequest _) as [csr0|]; [|done].
  by destruct (inner csr0 regID s) as [[] ?].
Qed.

(** Asking a remote CA for an OCSP response is asking the local one with the reason
    at 32 bits and the revocation time at 64 bits of nanoseconds. *)
Lemma remote_ocsp_spec (inner : OCSPSigningRequest -> M S error string) req s :
  remote_ocsp inner req s =
  carry (inner {| os_CertDER := os_CertDER req; os_Status := os_Status req; os_Reason := int32 (os_Reason req);
                  os_RevokedAt := UnixNano (os_RevokedAt req) |}) s.
Proof.
  unfold remote_ocsp, GenerateOCSP_client. rewrite rpc_bind. unfold GenerateOCSP_server, PbOCSPRequest.
  unfold carry, mbindM, lift, ret. simpl. by destruct (inner _ s) as [[] ?].
Qed.

End ca.

Section issuing.
Context {GL : GoLib} {PJ : Bcodes.PdJSON} {CP : CSRParser} {S : Type} {EC : Elliptic} {X : X509} {Cr : Crypto}
        {CST : CertificateStorage S} {SG : Signers} {PA : PolicyAuthority}.
Context (fs : Features.state) (ca : CA.CertificateAuthorityImpl).

(** The RA sends the raw request, not the normalised one it checked; the CA parses
    and normalises it again.  For ASCII names and the same configuration that is the
    same: the remote CA does what the local one does with the RA's request. *)
Theorem remote_ca_issues_the_same csr0 csr regID s :
  csr = Csr.normalizeCSR csr0 (CA.forceCNFromSAN ca) -> ParseCertificateRequest (csr_Raw csr) = Ok csr0 ->
  Forall (fun n => is_ascii n = true /\ n <> EmptyString) (csr_DNSNames csr0) ->
  is_ascii (csr_CommonName csr0) = true ->
  remote_issue (CA.IssueCertificate fs ca) csr regID s =
  carry (let! cert := CA.IssueCertificate fs ca csr regID in ret (wire_cert cert)) s.
Proof.
  intros -> HP Hn Hc. rewrite remote_issue_spec. unfold carry. rewrite lift_run, HP.
  assert (CA.IssueCertificate fs ca csr0 regID = CA.IssueCertificate fs ca (Csr.normalizeCSR csr0 (CA.forceCNFromSAN ca)) regID) as ->; [|done].
  unfold CA.IssueCertificate at 1 2, Csr.VerifyCSR. by rewrite Csr.normalizeCSR_idempotent.
Qed.

End issuing.

Section ra.
Context {GL : GoLib} {PJ : Bcodes.PdJSON} {J : PbJSON} {JL : PbJSONLaws J} {X : X509} {CP : CSRParser} {W : Type}.

Definition challenge_sent (c : Challenge) : result error Challenge :=
  if challenge_ok c then Ok (wire_challenge c) else Err bad_ip.

(** What calling an RA over gRPC does. *)
Definition wire_ra (inner : RegistrationAuthority W) : RegistrationAuthority W := {|
  ra_NewRegistration := fun reg =>
    let! reg := lift (registration_sent reg) in
    carry (let! reg := ra_NewRegistration _ inner reg in lift (registration_sent reg));
  ra_NewAuthorization := fun authz regID =>
    let! authz := lift (authz_sent authz) in
    carry (let! authz := ra_NewAuthorization _ inner authz regID in lift (authz_sent authz));
  ra_NewCertificate := fun csr regID =>
    carry (let! parsed := lift (ParseCertificateRequest (snd csr)) in
           let! cert := ra_NewCertificate _ inner (parsed, snd csr) regID in ret (wire_cert cert));
  ra_UpdateRegistration := fun base update =>
    let! base := lift (registration_sent base) in
    let! update := lift (registration_sent update) in
    carry (let! reg := ra_UpdateRegistration _ inner base update in lift (registration_sent reg));
  ra_UpdateAuthorization := fun authz i response =>
    let! authz := lift (authz_sent authz) in
    let! response := lift (challenge_sent response) in
    carry (let! authz := ra_UpdateAuthorization _ inner authz i response in lift (authz_sent authz));
  ra_RevokeCertificateWithReg := fun cert code regID =>
    carry (let! parsed := lift (ParseCertificate (snd cert)) in
           ra_RevokeCertificateWithReg _ inner (parsed, snd cert) code regID);
  ra_DeactivateRegistration := fun reg =>
    let! reg := lift (registration_sent reg) in carry (ra_DeactivateRegistration _ inner reg);
  ra_DeactivateAuthorization := fun authz =>
    let! authz := lift (authz_sent authz) in carry (ra_DeactivateAuthorization _ inner authz);
  ra_AdministrativelyRevokeCertificate := fun cert code adminName =>
    carry (let! parsed := lift (ParseCertificate (snd cert)) in
           ra_AdministrativelyRevokeCertificate _ inner (parsed, snd cert) code adminName)
|}.

Definition same_ra (a b : RegistrationAuthority W) : Prop :=
  (forall r s, ra_NewRegistration _ a r s = ra_NewRegistration _ b r s) /\
  (forall z i s, ra_NewAuthorization _ a z i s = ra_NewAuthorization _ b z i s) /\
  (forall c i s, ra_NewCertificate _ a c i s = ra_NewCertificate _ b c i s) /\
  (forall r u s, ra_UpdateRegistration _ a r u s = ra_UpdateRegistration _ b r u s) /\
  (forall z i c s, ra_UpdateAuthorization _ a z i c s = ra_UpdateAuthorization _ b z i c s) /\
  (forall c r i s, ra_RevokeCertificateWithReg _ a c r i s = ra_RevokeCertificateWithReg _ b c r i s) /\
  (forall r s, ra_DeactivateRegistration _ a r s = ra_DeactivateRegistration _ b r s) /\
  (forall z s, ra_DeactivateAuthorization _ a z s = ra_DeactivateAuthorization _ b z s) /\
  (forall c r n s, ra_AdministrativelyRevokeCertificate _ a c r n s =
                   ra_AdministrativelyRevokeCertificate _ b c r n s).

(** The handlers that take an authorization or registrations inside a request. *)
Lemma remote_NewAuthorization inner z i (s : W) :
  ra_NewAuthorization _ (remote_ra inner) z i s = ra_NewAuthorization _ (wire_ra inner) z i s.
Proof.
  simpl. unfold authz_sent at 1. rewrite !lift_run. destruct (authz_trip z) as [H1 H2].
  destruct (authz_ok z); [|by rewrite H2]. destruct (H1 eq_refl) as (pb & -> & Hv & Hp).
  rewrite rpc_bind, <- respond_authz. unfold carry, valid, guard, required, mbindM, lift, need. rewrite Hv. unfold ret.
  by rewrite Hp.
Qed.

Lemma remote_UpdateRegistration inner b u (s : W) :
  ra_UpdateRegistration _ (remote_ra inner) b u s = ra_UpdateRegistration _ (wire_ra inner) b u s.
Proof.
  simpl. rewrite !lift_run. pose proof (registration_trip b) as Hb. pose proof (registration_trip u) as Hu.
  destruct (registration_sent b); [|by rewrite Hb]. destruct Hb as (pb & -> & Hv & Hp). rewrite !lift_run.
  destruct (registration_sent u); [|by rewrite Hu]. destruct Hu as (pu & -> & Hv' & Hp').
  rewrite rpc_bind, <- respond_registration. unfold carry, valid, guard, required, mbindM, lift, need.
  rewrite Hv. unfold ret. rewrite Hv', Hp. by rewrite Hp'.
Qed.

Lemma remote_UpdateAuthorization inner z i c (s : W) :
  ra_UpdateAuthorization _ (remote_ra inner) z i c s = ra_UpdateAuthorization _ (wire_ra inner) z i c s.
Proof.
  simpl. unfold authz_sent at 1, challenge_sent. rewrite !lift_run. destruct (authz_trip z) as [H1 H2].
  destruct (authz_ok z); [|by rewrite H2]. destruct (H1 eq_refl) as (pb & -> & Hv & Hp). rewrite !lift_run.
  destruct (challenge_trip c) as [C1 C2]. destruct (challenge_ok c); [|by rewrite C2].
  destruct (C1 eq_refl) as (pc & -> & Hc).
  rewrite rpc_bind, <- respond_authz. unfold carry, valid, guard, required, mbindM, lift, need.
  rewrite Hv. unfold ret. rewrite Hp. by rewrite Hc.
Qed.

Lemma remote_AdministrativelyRevokeCertificate inner c code name (s : W) :
  ra_AdministrativelyRevokeCertificate _ (remote_ra inner) c code name s =
  ra_AdministrativelyRevokeCertificate _ (wire_ra inner) c code name s.
Proof. simpl. rewrite rpc_bind. apply carry_unit. Qed.

(** C12. The RA over gRPC: every call is the local one on the registration,
    authorization, challenge, request or certificate that arrives. *)
Theorem remote_ra_refines (inner : RegistrationAuthority W) : same_ra (remote_ra inner) (wire_ra inner).
Proof.
  unfold same_ra. split_and!; intros;
    try apply remote_NewAuthorization; try apply remote_UpdateRegistration; try apply remote_UpdateAuthorization;
    try apply remote_AdministrativelyRevokeCertificate; simpl.
  - rewrite (request_registration _ (fun reg => let! n := ra_NewRegistration _ inner reg in lift (registrationToPB n))).
    rewrite !lift_run. destruct (registration_sent r); [|done]. apply respond_registration.
  - rewrite rpc_bind. unfold carry, required, mbindM, lift, need. destruct (ParseCertificateRequest _); [|done].
    by destruct (ra_NewCertificate _ inner _ i s) as [[] ?].
  - rewrite rpc_bind. apply carry_unit.
  - rewrite (request_registration _ (ra_DeactivateRegistration _ inner)). rewrite !lift_run.
    destruct (registration_sent r); [|done]. apply carry_unit.
  - rewrite (request_authz _ (ra_DeactivateAuthorization _ inner)). rewrite !lift_run.
    destruct (authz_sent z); [|done]. apply carry_unit.
Qed.

End ra.

End GrpcServers.
