(* ===== verification/System.v ===== *)
(** * The deployment

    The servers as boulder is run: the RA calls the storage authority, the VA and the
    CA over gRPC, the CA stores what it signs over gRPC, and the storage authority is
    the one of sa/sa.go on its database. *)

From S2P Require Import Prelude GoStd Net Errors Features Core GoodKey PublicSuffix Policy RateLimit Csr Bdns Grpc.
From S2P Require Import Database Storage SaFrame SaInvariants SaQueries ValidationAuthority VaChecks.
From S2P Require Import RegistrationAuthority RaChecks GrpcStorage RaIssuance GrpcRefinement RaStorage RaValidation.
From S2P Require Import CertificateAuthority CaIssuance GrpcServers.

Module System.

(** ** The storage authority, local and remote *)

Section storage.
Context {GL : GoLib} {Cr : Crypto} {Q : SQL} {J : StorageJSON} {X : X509}.
Context (fs : Features.state) (fuel : nat).

(** [core.StorageAuthority] of [sa.SQLStorageAuthority]; [fuel] bounds the draws of
    [NewPendingAuthorization] and the batches of [RevokeAuthorizationsByDomain]. *)
Definition local_lookups : StorageLookups Database.World := {|
  GrpcStorage.GetRegistration := Storage.GetRegistration fs;
  GrpcStorage.GetRegistrationByKey := Storage.GetRegistrationByKey fs;
  GrpcStorage.GetAuthorization := Storage.GetAuthorization;
  GrpcStorage.GetValidAuthorizations := Storage.GetValidAuthorizations;
  GrpcStorage.GetCertificate := Storage.GetCertificate;
  GrpcStorage.GetCertificateStatus := Storage.GetCertificateStatus
|}.

Definition local_counts : StorageCounts Database.World := {|
  GrpcStorage.CountCertificatesRange := Storage.CountCertificatesRange;
  GrpcStorage.CountCertificatesByNames := Storage.CountCertificatesByNames;
  GrpcStorage.CountRegistrationsByIP := fun ip => Storage.CountRegistrationsByIP (default EmptyString ip);
  GrpcStorage.CountPendingAuthorizations := Storage.CountPendingAuthorizations;
  GrpcStorage.CountInvalidAuthorizations := fun r h a b =>
    let! count := Storage.CountInvalidAuthorizations r h a b in ret (Some count);
  GrpcStorage.GetSCTReceipt := Storage.GetSCTReceipt;
  GrpcStorage.CountFQDNSets := Storage.CountFQDNSets;
  GrpcStorage.FQDNSetExists := Storage.FQDNSetExists
|}.

Definition local_updates : StorageUpdates Database.World := {|
  GrpcStorage.NewRegistration := Storage.NewRegistration fs;
  GrpcStorage.UpdateRegistration := Storage.UpdateRegistration fs;
  GrpcStorage.NewPendingAuthorization := sa_NewPendingAuthorization (StorageAuthority := storage_authority fs fuel);
  GrpcStorage.UpdatePendingAuthorization := Storage.UpdatePendingAuthorization;
  GrpcStorage.FinalizeAuthorization := Storage.FinalizeAuthorization;
  GrpcStorage.MarkCertificateRevoked := Storage.MarkCertificateRevoked;
  GrpcStorage.AddCertificate := Storage.AddCertificate;
  GrpcStorage.AddSCTReceipt := Storage.AddSCTReceipt;
  GrpcStorage.RevokeAuthorizationsByDomain := fun ident =>
    let! r := Storage.RevokeAuthorizationsByDomain fuel ident in
    lift (need (PlainError "more batches than expected") r);
  GrpcStorage.DeactivateRegistration := Storage.DeactivateRegistration;
  GrpcStorage.DeactivateAuthorization := Storage.DeactivateAuthorization
|}.

Context {SL : SQLLaws Q}.

Definition local_storage : StorageAuthority Database.World := sa_of local_lookups local_counts local_updates.
Notation SA0 := (storage_authority fs fuel).

#[global] Instance local_spec : StorageSpec Database.World (SA := local_storage).
Proof.
  refine {| sa_ok := storage_ok; authorized := holds_authorization; settled := settled_row |}.
  - exact (spec_registration (SA := SA0)).
  - exact (spec_valid (SA := SA0)).
  - exact (spec_read (SA := SA0)).
  - exact (spec_write (SA := SA0)).
  - exact (spec_update_pending (SA := SA0)).
  - exact (spec_finalize (SA := SA0)).
  - exact (spec_finalize_invalid (SA := SA0)).
  - exact (keeps_GetRegistration (SA := SA0)).
  - exact (keeps_GetAuthorization (SA := SA0)).
  - exact (keeps_GetValidAuthorizations (SA := SA0)).
  - intros ip a b. unfold keeps. cbn. replace (default EmptyString _) with ip by (by destruct ip).
    exact (keeps_CountRegistrationsByIP (SA := SA0) ip a b).
  - exact (keeps_CountPendingAuthorizations (SA := SA0)).
  - exact (keeps_CountInvalidAuthorizations (SA := SA0)).
  - exact (keeps_CountCertificatesRange (SA := SA0)).
  - exact (keeps_CountCertificatesByNames (SA := SA0)).
  - exact (keeps_CountFQDNSets (SA := SA0)).
  - exact (keeps_FQDNSetExists (SA := SA0)).
  - exact (keeps_NewRegistration (SA := SA0)).
  - exact (keeps_UpdateRegistration (SA := SA0)).
  - exact (keeps_NewPendingAuthorization (SA := SA0)).
  - exact (keeps_MarkCertificateRevoked (SA := SA0)).
  - exact (keeps_DeactivateRegistration (SA := SA0)).
  - exact (keeps_DeactivateAuthorization (SA := SA0)).
Defined.

End storage.

(** ** The servers together *)

Section deployment.
Context {GL : GoLib} {Cr : Crypto} {EC : Elliptic} {X : X509} {PE : Policy.PolicyEnv} {SG : Signers}
        {Q : SQL} {SL : SQLLaws Q} {J : StorageJSON} {PJ : Bcodes.PdJSON} {PB : PbJSON} {PBL : PbJSONLaws PB}
        {CP : CSRParser} {PA : PolicyAuthority} {PS : PolicySpec} {RE : RAEnv}.
Context (fs : Features.state) (fuel : nat) (cfg : RA.Config) (va : VA.ValidationAuthorityImpl)
        (ca : CA.CertificateAuthorityImpl).
Notation S := Database.World.

#[local] Instance grpc_storage : StorageAuthority S :=
  remote_storage (local_lookups fs) local_counts (local_updates fs fuel).
#[local] Instance grpc_spec : StorageSpec S :=
  remote_spec (local_lookups fs) local_counts (local_updates fs fuel) (SP := local_spec fs fuel).
#[local] Instance grpc_certificates : CertificateStorage S := {|
  cas_AddCertificate := GrpcStorage.AddCertificate _ (SaWrappers.remote_updates (local_updates fs fuel)) |}.

#[local] Instance grpc_keeps : CaIssuance.StorageKeeps.
Proof.
  split. intros der regID resp. unfold keeps. eapply preserves_ext; [intros; apply updates_over_rpc|].
  apply preserves_carry. refine (remote_keeps_of (local_lookups fs) local_counts (local_updates fs fuel) _ _).
  refine (exec_no_new fs (SaInvariants.OpAddCertificate der regID resp) (Storage.AddCertificate der regID resp) eq_refl I).
Qed.

(** Over gRPC the CA parses the bytes of the request; the RA's own request was parsed
    from the same bytes. *)
Definition parsed (req : CertificateRequest) : Prop := ParseCertificateRequest (csr_Raw req) = Ok req.

#[local] Instance remote_way :
  CaIssuance.WayToCA fs ca (CaWrappers.remote_issue (CA.IssueCertificate fs ca)) parsed.
Proof.
  split.
  - intros csr regID p r p'. rewrite GrpcServers.remote_issue_spec. unfold carry. rewrite lift_run.
    destruct (ParseCertificateRequest _) as [csr0|]; [|by intros [= _ <-]; left]. unfold mbindM, ret.
    destruct (CA.IssueCertificate fs ca csr0 regID p) as [[cert|e] p1] eqn:E; intros [= _ <-]; right; eauto.
  - intros req force regID p r p' HP. rewrite GrpcServers.remote_issue_spec. unfold carry. rewrite lift_run.
    replace (csr_Raw (Csr.normalizeCSR req force)) with (csr_Raw req) by (by rewrite (Csr.normalizeCSR_set req force)).
    rewrite HP. unfold mbindM, ret. intros H. right. exists req.
    assert (exists r0, CA.IssueCertificate fs ca req regID p = (r0, p')) as [r0 Hr0].
    { destruct (CA.IssueCertificate fs ca req regID p) as [[cert|e] p1]; injection H as _ <-; eauto. }
    exists r0. split; [done|]. intros h Hh. exists h. split; [|by left]. by rewrite Csr.normalizeCSR_DNSNames in *.
Qed.

#[local] Instance grpc_ca : CertificateAuthority (S * CA.CAState) := {|
  ca_IssueCertificate := CaWrappers.remote_issue (CA.IssueCertificate fs ca) |}.

(** The RA behind its own gRPC server. *)
Definition local_ra : RegistrationAuthority (RA.World (S * CA.CAState)) := {|
  ra_NewRegistration := RA.NewRegistration fs cfg;
  ra_NewAuthorization := RA.NewAuthorization cfg;
  ra_NewCertificate := fun csr => RA.NewCertificate cfg (fst csr);
  ra_UpdateRegistration := RA.UpdateRegistration fs cfg;
  ra_UpdateAuthorization := RA.UpdateAuthorization cfg;
  ra_RevokeCertificateWithReg := fun cert code regID =>
    let! (r, _) := RA.RevokeCertificateWithReg (fst cert) code regID in lift r;
  ra_DeactivateRegistration := RA.DeactivateRegistration;
  ra_DeactivateAuthorization := RA.DeactivateAuthorization;
  ra_AdministrativelyRevokeCertificate := fun cert code adminName =>
    let! (r, _) := RA.AdministrativelyRevokeCertificate (fst cert) code adminName in lift r
|}.

Notation run := (RaIssuance.run (S := S * CA.CAState) fs cfg).

(** The name servers and the servers of the Internet as the VA finds them at each step of
    a history. *)
Context (env : nat -> DNSResolver * Internet).

(** Whenever a validation ends without a problem in this history, that is what the gRPC
    client of the VA returned, in the state of DNS and the Internet at that step. *)
Definition validated_over_grpc (ops : list RaIssuance.op) (w0 : RA.World (S * CA.CAState)) : Prop :=
  forall pre j records post authz i ch,
    ops = pre ++ RaIssuance.OpValidated j records None :: post ->
    RA.vaJobs (run pre w0) !! j = Some (authz, i) -> az_Challenges authz !! i = Some ch ->
    exists err, let R := fst (env (length pre)) in let I := snd (env (length pre)) in
      VaWrappers.remote_validation (VaWrappers.va_impl (R := R) (I := I) va) (idValue (az_Identifier authz)) ch authz tt
        = (records, err, tt) /\ VaWrappers.as_error err = None.

(** Requests for certificates come out of the RA's gRPC server, which parses them. *)
Definition parsed_request (o : RaIssuance.op) : Prop :=
  match o with RaIssuance.OpNewCertificate req _ => parsed req | _ => True end.

(** C1. In every history of the deployed servers, whatever clients send and whichever
    operations fail, a certificate the CA signed was signed in a step in which an account
    asked for one.  At a reading of the clock during that step (as it travels, in
    nanoseconds) the database held, for each name in the certificate or its lower-case
    form, a valid authorization of that account that had not expired.  Either it held
    such a one, unexpired at that reading, when the history began; or at an earlier step a
    validation of a challenge of the account's authorization for the name ended without
    a problem, and in DNS and on the Internet as they were at that step the VA found,
    where the challenge says, the key authorization of a key the account had before, and
    CAA allowed the issuance.
    The history begins with the database in order, no validation running and nothing
    signed; the RA's clock does not run backwards; responses to challenges are for
    authorizations read from storage, as the WFE sends them; the RA parsed the CSRs it was
    sent; and the VA's answers are its own. *)
Theorem every_signature_rests_on_proofs_of_control ops (w0 : RA.World (S * CA.CAState)) req regID :
  storage_ok (fst (RA.sa w0)) -> RA.vaJobs w0 = [] -> RA.caRequests w0 = [] -> CA.ca_signed (snd (RA.sa w0)) = [] ->
  Forall (Z.le 0) (RA.ra_ticks w0) ->
  RaIssuance.from_storage fs cfg ops w0 -> Forall parsed_request ops -> validated_over_grpc ops w0 ->
  (req, regID) ∈ CA.ca_signed (snd (RA.sa (run ops w0))) ->
  exists pre creq post now, let o := RaIssuance.OpNewCertificate creq regID in
    ops = pre ++ o :: post /\
    CA.ca_signed (snd (RA.sa (run (pre ++ [o]) w0))) = (req, regID) :: CA.ca_signed (snd (RA.sa (run pre w0))) /\
    RA.ra_now (run pre w0) <= now <= RA.ra_now (run (pre ++ [o]) w0) /\
    forall h, h ∈ sr_Hosts req -> exists n, (n = h \/ n = ToLower h) /\
      holds_authorization (fst (RA.sa (run pre w0))) regID n (Grpc.UnixNano now) /\
      (holds_authorization (fst (RA.sa w0)) regID n (Grpc.UnixNano now) \/
       RaValidation.proved_control fs cfg va env pre w0 regID n).
Proof.
  intros Hok HJ HC HS HT Hops HP Hva Hin.
  assert (RaValidation.honest_va fs cfg va env ops w0) as Hhon.
  { intros pre j records post authz i ch E Hj Hch. destruct (Hva _ _ _ _ _ _ _ E Hj Hch) as (err & HR & He).
    destruct (GrpcServers.remote_success_is_the_vas (R := fst (env (length pre))) (I := snd (env (length pre))) va _ _ _ _ _ _ _ HR He)
      as (found & HF & _). by exists found. }
  exact (CaIssuance.signatures_rest_on_proofs fs ca _ parsed cfg va env ops w0 req regID (conj Hok (conj HJ (conj HC HT))) HS Hops HP Hhon Hin).
Qed.

End deployment.

End System.
