(* ===== verification/Backoff.v ===== *)
(** * Retry delays: [RetryBackoff] of core/util.go

    The computation is in [float64]; IEEE arithmetic is the executable specification of
    the standard library at 53 bits of precision. *)

From S2P Require Import Prelude.
From Stdlib Require Import SpecFloat.

Module Backoff.

Definition float64 := spec_float.
Definition f_of_int (z : Z) : float64 := binary_normalize 53 1024 z 0 false.
Definition f_mul : float64 -> float64 -> float64 := SFmul 53 1024.
Definition f_add : float64 -> float64 -> float64 := SFadd 53 1024.
Definition f_div : float64 -> float64 -> float64 := SFdiv 53 1024.

(** The conversion to [int64] truncates; out of range, an amd64 processor gives the
    smallest integer. *)
Definition f_to_int (x : float64) : Z :=
  match x with
  | S754_zero _ => 0
  | S754_finite s m e =>
      let a := if 0 <=? e then Zpos m * 2 ^ e else Zpos m / 2 ^ (- e) in
      let z := if s then - a else a in
      if (MinInt64 <=? z) && (z <=? MaxInt64) then z else MinInt64
  | _ => MinInt64
  end.

Definition f_tenths (n : Z) : float64 := f_div (f_of_int n) (f_of_int 10).

(** The loop multiplies while the delay is below the maximum, at most [retries - 1] times. *)
Fixpoint raise_backoff (n : nat) (backoff fMax factor : float64) : float64 :=
  match n with
  | O => backoff
  | S n' => if SFltb backoff fMax then raise_backoff n' (f_mul backoff factor) fMax factor else backoff
  end.

(** [rand] is what [mrand.Float64()] draws; the constants [1 - retryJitter] and
    [2 * retryJitter] are exact before they are rounded. *)
Definition RetryBackoff (rand : float64) (retries base max : Z) (factor : float64) : Z :=
  if retries =? 0 then 0
  else
    let fMax := f_of_int max in
    let backoff := raise_backoff (Z.to_nat (retries - 1)) (f_of_int base) fMax factor in
    let backoff := if SFltb fMax backoff then fMax else backoff in
    f_to_int (f_mul backoff (f_add (f_tenths 8) (f_mul (f_tenths 4) rand))).

(** Once the delay has reached the maximum, more failures do not change it. *)
Lemma raise_backoff_stops n backoff fMax factor :
  SFltb backoff fMax = false -> raise_backoff n backoff fMax factor = backoff.
Proof. destruct n; [done|]. by intros H; simpl; rewrite H. Qed.

Lemma raise_backoff_add n m backoff fMax factor :
  raise_backoff (n + m) backoff fMax factor = raise_backoff m (raise_backoff n backoff fMax factor) fMax factor.
Proof.
  revert backoff. induction n as [|n IH]; intros backoff; simpl; [done|].
  destruct (SFltb backoff fMax) eqn:E; [apply IH|]. by rewrite raise_backoff_stops.
Qed.

Lemma RetryBackoff_saturates rand retries more base max factor :
  1 <= retries -> 0 <= more ->
  SFltb (raise_backoff (Z.to_nat (retries - 1)) (f_of_int base) (f_of_int max) factor) (f_of_int max) = false ->
  RetryBackoff rand (retries + more) base max factor = RetryBackoff rand retries base max factor.
Proof.
  intros Hr Hm Hs. unfold RetryBackoff.
  rewrite (proj2 (Z.eqb_neq _ _)), (proj2 (Z.eqb_neq retries 0)) by lia.
  replace (Z.to_nat (retries + more - 1)) with (Z.to_nat (retries - 1) + Z.to_nat more)%nat by lia.
  by rewrite raise_backoff_add, raise_backoff_stops with (n := Z.to_nat more).
Qed.

(** Delays of a minute with factor 1.3: 60 s, 78 s, and at most 120 s, times the jitter. *)
Example backoff_schedule :
  map (fun n => RetryBackoff (S754_zero false) n Minute (2 * Minute) (f_tenths 13)) [0; 1; 2; 3; 4; 9] =
  [0; 48 * Second; 62400000000; 81120000000; 96 * Second; 96 * Second].
Proof. vm_compute. reflexivity. Qed.

End Backoff.
