(* ===== verification/Mailer.v ===== *)
(** * mail/mailer.go: sending mail

    The text of a message, and its delivery over SMTP with reconnection.  The mail server
    is any sequence of answers; the connection and the SMTP dialogue below the interface
    [smtpClient] are net/smtp's. *)

From S2P Require Import Prelude GoStd GoTime QuotedPrintable Backoff.

Module Mailer.
Import QuotedPrintable.

(** What a mail server's answer to a command can be, other than success. *)
Inductive smtp_error :=
| EOF
| TextprotoError (code : Z) (msg : string)
| OtherError (msg : string).

(** [mail.Address], with what its method [String] prints. *)
Record Address := { addr_Address : string; addr_String : string }.

Record MailerImpl := { from : Address; reconnectBase : Z; reconnectMax : Z }.

Inductive command :=
| Dial
| Mail (from : string)
| Rcpt (to : string)
| Data
| DataWrite (p : string)
| DataClose
| Close.

(** A command and whether it was accepted, or a pause. *)
Inductive event := Sent (c : command) (accepted : bool) | Slept (d : Z).

(** [client] tells that there is a client; [answers] is what the server answers to a
    command that is the n-th event, where [None] is success; [ids] and [jitter] are the
    draws of the random generators, and [times] what the clock shows, by then. *)
Record World := {
  client : bool;
  steps : nat;
  answers : nat -> option smtp_error;
  ids : nat -> Z;
  jitter : nat -> Backoff.float64;
  times : nat -> Z;
  events : list event
}.

Definition log_event (w : World) (e : event) : World :=
  {| client := client w; steps := S (steps w); answers := answers w; ids := ids w; jitter := jitter w;
     times := times w; events := events w ++ [e] |}.
Definition with_client (w : World) (b : bool) : World :=
  {| client := b; steps := steps w; answers := answers w; ids := ids w; jitter := jitter w;
     times := times w; events := events w |}.

Definition send (c : command) : M World smtp_error unit := fun w =>
  match answers w (steps w) with
  | None => (Ok tt, log_event w (Sent c true))
  | Some err => (Err err, log_event w (Sent c false))
  end.

Section mailer.
Context {GL : GoLib}.

(** [strings.Replace(s, "\n", "", -1)]. *)
Definition strip_lf (s : string) : string := sfilter (fun c => negb (Ascii.eqb c lf)) s.

Definition mail_headers (m : MailerImpl) (mid now : Z) (to : list string) (subject : string) : list string :=
  let headers := [
    "To: " ++s join ", " (map Quote to);
    "From: " ++s addr_String (from m);
    "Subject: " ++s subject;
    "Date: " ++s GoTime.RFC822 now;
    "Message-Id: <" ++s GoTime.compact EmptyString now ++s "." ++s itoa mid ++s "." ++s addr_Address (from m) ++s ">";
    "MIME-Version: 1.0";
    "Content-Type: text/plain; charset=UTF-8";
    "Content-Transfer-Encoding: quoted-printable"] in
  (* the range of headers[1:] gives the indices 0 to 6 *)
  map strip_lf (take 7 headers) ++ drop 7 headers.

Definition generateMessage (m : MailerImpl) (mid now : Z) (to : list string) (subject body : string)
    : result smtp_error string :=
  if forallb is_ascii to then
    Ok (join crlf (mail_headers m mid now to subject) ++s crlf ++s crlf ++s quoted body ++s crlf)
  else Err (OtherError "Non-ASCII email address").

Definition Connect : M World smtp_error unit :=
  do! send Dial in modify (fun w => with_client w true).

Definition sendOne (m : MailerImpl) (to : list string) (subject msg : string) : M World smtp_error unit :=
  let! w := get in
  if negb (client w) then fail (OtherError "call Connect before SendMail")
  else
    let! body := lift (generateMessage m (ids w (steps w)) (times w (steps w)) to subject msg) in
    do! send (Mail (addr_String (from m))) in
    do! forM to (fun t => send (Rcpt t)) in
    do! send Data in
    do! send (DataWrite body) in
    send DataClose.

(** [None]: still trying after this many attempts. *)
Fixpoint reconnect (fuel : nat) (m : MailerImpl) (i : Z) (w : World) : option World :=
  match fuel with
  | O => None
  | S fuel' =>
      let sleepDuration := Backoff.RetryBackoff (jitter w (steps w)) i (reconnectBase m) (reconnectMax m) (Backoff.f_of_int 2) in
      let w := log_event w (Slept sleepDuration) in
      match Connect w with
      | (Ok _, w') => Some w'
      | (Err _, w') => reconnect fuel' m (i + 1) w'
      end
  end.

Definition retried (err : smtp_error) : bool :=
  match err with
  | EOF => true
  | TextprotoError code _ => code =? 421
  | OtherError _ => false
  end.

Fixpoint SendMail (fuel : nat) (m : MailerImpl) (to : list string) (subject msg : string) (w : World)
    : option (result smtp_error unit * World) :=
  match fuel with
  | O => None
  | S fuel' =>
      match sendOne m to subject msg w with
      | (Ok _, w') => Some (Ok tt, w')
      | (Err err, w') =>
          if retried err then
            match reconnect fuel' m 0 w' with
            | Some w'' => SendMail fuel' m to subject msg w''
            | None => None
            end
          else Some (Err err, w')
      end
  end.

Definition close : M World smtp_error unit :=
  let! w := get in
  if negb (client w) then fail (OtherError "call Connect before Close") else send Close.

End mailer.

(** ** What the recipient reads *)

(** Splitting at line breaks. *)
Fixpoint lines (s : string) : list string :=
  match s with
  | EmptyString => [EmptyString]
  | String c s' =>
      match s' with
      | String d s'' =>
          if Ascii.eqb c cr && Ascii.eqb d lf then EmptyString :: lines s''
          else match lines s' with [] => [] | l :: ls => String c l :: ls end
      | EmptyString => [String c EmptyString]
      end
  end.

(** The header fields up to the first empty line, and the decoded rest. *)
Fixpoint split_head (ls : list string) : list string * list string :=
  match ls with
  | [] => ([], [])
  | l :: ls' => if String.eqb l EmptyString then ([], ls') else let '(h, b) := split_head ls' in (l :: h, b)
  end.
Definition read_message (s : string) : list string * option string :=
  let '(h, b) := split_head (lines s) in (h, decode (join crlf b)).

Definition no_lf (s : string) : bool := all_chars (fun c => negb (Ascii.eqb c lf)) s.

Lemma lines_cons h rest : no_lf h = true -> lines (h ++s crlf ++s rest) = h :: lines rest.
Proof.
  induction h as [|c h IH]; intros H; [done|]. apply andb_true_iff in H as [Hc H]. specialize (IH H).
  cbn [String.append lines]. destruct (h ++s crlf ++s rest) as [|d s'] eqn:E; [by destruct h|].
  assert (Ascii.eqb c cr && Ascii.eqb d lf = false) as ->.
  { destruct h as [|d' h]; simpl in E; injection E as <- <-; [by rewrite andb_false_r|].
    apply andb_true_iff in H as [Hd _]. apply negb_true_iff in Hd. by rewrite Hd, andb_false_r. }
  by rewrite IH.
Qed.

Lemma lines_join hs rest : Forall (fun h => no_lf h = true) hs -> hs <> [] ->
  lines (join crlf hs ++s crlf ++s rest) = hs ++ lines rest.
Proof.
  intros H. induction H as [|h hs Hh Hhs IH]; [done|]. intros _. destruct hs as [|h' hs]; [by apply lines_cons|].
  change (join crlf (h :: h' :: hs)) with (h ++s crlf ++s join crlf (h' :: hs)). rewrite !sapp_assoc, lines_cons by done.
  by rewrite IH.
Qed.

Lemma lines_eq c d s : lines (String c (String d s)) =
  if Ascii.eqb c cr && Ascii.eqb d lf then EmptyString :: lines s
  else match lines (String d s) with [] => [] | l :: ls => String c l :: ls end.
Proof. done. Qed.

Lemma lines_nonempty s : exists l ls, lines s = l :: ls.
Proof.
  induction s as [s IH] using string_len_ind. destruct s as [|c [|d s]]; [by eexists _, _..|]. rewrite lines_eq.
  destruct (_ && _); [by eexists _, _|]. destruct (IH (String d s)) as (l & ls & ->); [simpl; lia|]. by eexists _, _.
Qed.

Lemma join_lines s : join crlf (lines s) = s.
Proof.
  induction s as [s IH] using string_len_ind. destruct s as [|c [|d s]]; [done..|]. rewrite lines_eq.
  destruct (Ascii.eqb c cr && Ascii.eqb d lf) eqn:E.
  - apply andb_true_iff in E as [->%Ascii.eqb_eq ->%Ascii.eqb_eq]. pose proof (IH s) as H.
    destruct (lines_nonempty s) as (l & ls & Es). rewrite Es in *.
    change (join crlf (EmptyString :: l :: ls)) with (crlf ++s join crlf (l :: ls)). rewrite H by (simpl; lia). done.
  - pose proof (IH (String d s)) as H. destruct (lines_nonempty (String d s)) as (l & ls & Es). rewrite Es in *.
    rewrite <- H by (simpl; lia). by destruct ls.
Qed.

Lemma strip_lf_no_lf s : no_lf (strip_lf s) = true.
Proof.
  unfold no_lf, strip_lf. induction s as [|c s IH]; [done|]. simpl. destruct (Ascii.eqb c lf) eqn:E; simpl; [done|]. by rewrite E.
Qed.

Lemma text_no_lf s : all_chars text s = true -> no_lf s = true.
Proof.
  apply all_chars_impl. intros c H. apply negb_true_iff. destruct (Ascii.eqb_spec c lf) as [->|]; [by vm_compute in H|done].
Qed.

Lemma split_head_app hs rest : Forall (fun h => h <> EmptyString) hs -> split_head (hs ++ EmptyString :: rest) = (hs, rest).
Proof. induction 1 as [|h hs Hh _ IH]; [done|]. simpl. rewrite (proj2 (String.eqb_neq _ _) Hh). by rewrite IH. Qed.

Section reading.
Context {GL : GoLib}.

Lemma mail_headers_ok m mid now to subject :
  Forall (fun h => no_lf h = true /\ h <> EmptyString) (mail_headers m mid now to subject).
Proof.
  unfold mail_headers. cbn [take drop map app]. repeat constructor; try apply strip_lf_no_lf; done.
Qed.

(** The name of a header field. *)
Definition field_name (h : string) : string := hd EmptyString (split_on ":" h).

(** C31. Whatever the recipients, the subject and the body of a message that is generated,
    it has exactly the header fields the mailer writes, in their order, with the subject
    less its line feeds; its body is lines of at most 76 printable bytes that do not end in
    white space; and decoding it gives the text that was to be sent, with its line
    breaks, be they CR LF, LF or CR, as those of the Internet.  The text must not have a
    byte that needs an escape (an equals sign, a control character or one above 126) right
    after a carriage return. *)
Theorem message_roundtrip m mid now to subject body msg :
  (forall pre b post, body = pre ++s String cr (String b post) ->
     (33 <= byteZ b <= 126 /\ byteZ b <> 61) \/ b ∈ [" "; "009"; "010"; "013"]%char) ->
  generateMessage m mid now to subject body = Ok msg ->
  exists hs, read_message msg = (hs, Some (internet body ++s crlf)) /\
    map field_name hs = ["To"; "From"; "Subject"; "Date"; "Message-Id"; "MIME-Version"; "Content-Type";
                         "Content-Transfer-Encoding"]%string /\
    hs !! 2%nat = Some ("Subject: " ++s strip_lf subject) /\
    Forall line_ok (snd (split_head (lines msg))).
Proof.
  intros Hb%cr_ok_spec H. unfold generateMessage in H. destruct (forallb _ _); [|done]. apply Ok_inj in H as <-.
  pose proof (mail_headers_ok m mid now to subject) as Hh. set (hs := mail_headers m mid now to subject) in *.
  assert (split_head (lines (join crlf hs ++s crlf ++s crlf ++s quoted body ++s crlf)) = (hs, lines (quoted body ++s crlf))) as E.
  { rewrite lines_join; [|eapply Forall_impl; [done|by intros ? []]|done].
    change (lines (crlf ++s ?x)) with (EmptyString :: lines x). apply split_head_app. eapply Forall_impl; [done|by intros ? []]. }
  exists hs. unfold read_message. rewrite E, join_lines, quoted_roundtrip by done. split_and!; [done|done|done|].
  cbn [snd]. destruct (quoted_lines body) as (ls & -> & Hls).
  destruct ls as [|l ls]; [constructor; [by split_and!|constructor; [by split_and!|constructor]]|].
  rewrite <- (sapp_nil_r crlf) at 2. rewrite lines_join; [|eapply Forall_impl; [done|by intros ? (_ & ?%text_no_lf & _)]|done].
  apply Forall_app_2; [done|]. constructor; [by split_and!|constructor].
Qed.

End reading.

(** ** Delivery *)

Section delivery.
Context {GL : GoLib} (m : MailerImpl) (to : list string) (subject msg : string).

(** The commands that hand over a message. *)
Definition commands (body : string) : list command :=
  Mail (addr_String (from m)) :: map Rcpt to ++ [Data; DataWrite body; DataClose].
Definition accepted (c : command) : event := Sent c true.
Definition delivery (body : string) : list event := map accepted (commands body).

(** How often the server has taken over a message. *)
Definition is_ack (e : event) : bool := match e with Sent DataClose true => true | _ => false end.
Definition acknowledged (l : list event) : nat := length (filter (fun e => is_ack e = true) l).

Lemma acknowledged_app l l' : acknowledged (l ++ l') = (acknowledged l + acknowledged l')%nat.
Proof. unfold acknowledged. by rewrite filter_app, length_app. Qed.

(** What happened between two states. *)
Record ran (w w' : World) (new : list event) : Prop := {
  ran_events : events w' = events w ++ new;
  ran_answers : answers w' = answers w;
  ran_client : client w = true -> client w' = true;
  ran_steps : steps w' = (steps w + length new)%nat
}.

Lemma ran_nil w : ran w w [].
Proof. split; [by rewrite app_nil_r|done|done|simpl; lia]. Qed.
Lemma ran_app w w1 w' l l' : ran w w1 l -> ran w1 w' l' -> ran w w' (l ++ l').
Proof.
  intros [E1 A1 C1 S1] [E2 A2 C2 S2]. split; [by rewrite E2, E1, app_assoc|congruence|auto|rewrite S2, S1, length_app; lia].
Qed.
Lemma ran_event w e : ran w (log_event w e) [e].
Proof. split; simpl; [done|done|done|lia]. Qed.

Lemma sends_outcome cs : forall w r w', forM cs send w = (r, w') ->
  match r with
  | Ok _ => ran w w' (map accepted cs)
  | Err err => exists pre c post, cs = pre ++ c :: post /\ ran w w' (map accepted pre ++ [Sent c false]) /\
                 answers w (steps w + length pre) = Some err
  end.
Proof.
  induction cs as [|c cs IH]; intros w r w' H; [injection H as <- <-; apply ran_nil|].
  simpl in H. unfold mbindM, send at 1 in H. destruct (answers w (steps w)) as [err|] eqn:E.
  - injection H as <- <-. exists [], c, cs. rewrite Nat.add_0_r. split_and!; [done|apply ran_event|done].
  - apply IH in H. pose proof (ran_event w (accepted c)) as Hc. destruct r as [[]|err].
    + apply (ran_app _ _ _ _ _ Hc H).
    + destruct H as (pre & d & post & -> & Hr & He). exists (c :: pre), d, post. split; [done|].
      split; [apply (ran_app _ _ _ _ _ Hc Hr)|]. cbn [length]. rewrite Nat.add_succ_r. exact He.
Qed.

Lemma forM_app {S E A} (l l' : list A) (body : A -> M S E unit) w :
  forM (l ++ l') body w = (do! forM l body in forM l' body) w.
Proof.
  revert w. induction l as [|x l IH]; intros w; [done|]. simpl. unfold mbindM in *. destruct (body x w) as [[[]|e] w']; [apply IH|done].
Qed.

Lemma forM_map {S E A B} (f : B -> A) (l : list B) (body : A -> M S E unit) w :
  forM (map f l) body w = forM l (fun x => body (f x)) w.
Proof. revert w. induction l as [|x l IH]; intros w; [done|]. simpl. unfold mbindM. destruct (body (f x) w) as [[[]|e] w']; [apply IH|done]. Qed.

Lemma sendOne_sends body w : client w = true ->
  generateMessage m (ids w (steps w)) (times w (steps w)) to subject msg = Ok body ->
  sendOne m to subject msg w = forM (commands body) send w.
Proof.
  intros Hc Hb. unfold sendOne, commands. unfold mbindM at 1, get. rewrite Hc. cbv [negb]. unfold mbindM at 1, lift. rewrite Hb.
  cbn [forM]. unfold mbindM. destruct (send (Mail _) w) as [[[]|] w1]; [|done].
  rewrite forM_app. unfold mbindM. rewrite forM_map. destruct (forM to _ w1) as [[[]|] w2]; [|done].
  cbn [forM]. unfold mbindM. destruct (send Data w2) as [[[]|] w3]; [|done].
  destruct (send (DataWrite body) w3) as [[[]|] w4]; [|done]. by destruct (send DataClose w4) as [[[]|] w5].
Qed.

Lemma acknowledged_accepted cs : DataClose ∉ cs -> acknowledged (map accepted cs) = O.
Proof.
  unfold acknowledged. induction cs as [|c cs IH]; intros H; [done|]. apply not_elem_of_cons in H as [Hc H]. cbn [map].
  rewrite filter_cons_False; [by apply IH|]. by destruct c.
Qed.

(** The message is taken over by the last of the commands only. *)
Lemma commands_prefix body pre c post : commands body = pre ++ c :: post -> DataClose ∉ pre.
Proof.
  assert (commands body = (Mail (addr_String (from m)) :: map Rcpt to ++ [Data; DataWrite body]) ++ [DataClose]) as ->.
  { unfold commands. cbn [app]. by rewrite <- app_assoc. }
  assert (DataClose ∉ Mail (addr_String (from m)) :: map Rcpt to ++ [Data; DataWrite body]) as Hn.
  { rewrite elem_of_cons, elem_of_app, list_elem_of_fmap. intros [H|[(x & H & _)|H]]; [done..|].
    by repeat (apply elem_of_cons in H as [H|H]; [done|]); apply elem_of_nil in H. }
  intros E Hin. apply Hn. destruct post as [|d post _] using rev_ind.
  - apply app_inj_tail in E as [-> _]. done.
  - change (c :: post ++ [d]) with ((c :: post) ++ [d]) in E. rewrite app_assoc in E.
    apply app_inj_tail in E as [-> _]. apply elem_of_app. by left.
Qed.

Lemma sendOne_outcome w r w' : sendOne m to subject msg w = (r, w') -> exists new, ran w w' new /\
  match r with
  | Ok _ => exists mid now body, generateMessage m mid now to subject msg = Ok body /\ new = delivery body
  | Err err => acknowledged new = O /\
      (retried err = true -> exists n, (steps w <= n < steps w')%nat /\ answers w n = Some err)
  end.
Proof.
  intros H. destruct (client w) eqn:Ec.
  2:{ unfold sendOne, mbindM, get in H. rewrite Ec in H. injection H as <- <-. exists []. split; [apply ran_nil|done]. }
  destruct (generateMessage m (ids w (steps w)) (times w (steps w)) to subject msg) as [body|err] eqn:Eb.
  - rewrite (sendOne_sends body) in H by done. apply sends_outcome in H. destruct r as [[]|err].
    + eexists. split; [exact H|]. by eexists _, _, body.
    + destruct H as (pre & c & post & E & Hr & He). eexists. split; [exact Hr|]. split.
      * rewrite acknowledged_app, acknowledged_accepted by (by eapply commands_prefix). by destruct c.
      * intros _. exists (steps w + length pre)%nat. split; [|done]. rewrite (ran_steps _ _ _ Hr), length_app, length_map. simpl. lia.
  - unfold sendOne, mbindM, get in H. rewrite Ec in H. cbv [negb] in H. unfold lift in H. rewrite Eb in H. injection H as <- <-.
    exists []. split; [apply ran_nil|]. split; [done|]. unfold generateMessage in Eb. destruct (forallb _ _); [done|].
    by injection Eb as <-.
Qed.

Lemma Connect_outcome w r w' : Connect w = (r, w') -> exists ok, ran w w' [Sent Dial ok] /\ (is_ok r = true -> client w' = true) /\
  (is_ok r = false -> exists err, answers w (steps w) = Some err).
Proof.
  unfold Connect, mbindM, send, modify. destruct (answers w (steps w)) as [err|] eqn:E; intros [= <- <-].
  - exists false. split_and!; [apply ran_event|done|eauto].
  - exists true. split_and!; [|done|done]. by destruct (ran_event w (Sent Dial true)).
Qed.

Lemma reconnect_outcome fuel : forall i w w', reconnect fuel m i w = Some w' ->
  exists new, ran w w' new /\ acknowledged new = O /\ client w' = true.
Proof.
  induction fuel as [|fuel IH]; intros i w w' H; [done|]. simpl in H. set (d := Backoff.RetryBackoff _ _ _ _ _) in H.
  pose proof (ran_event w (Slept d)) as Hs. destruct (Connect _) as [r w1] eqn:E. apply Connect_outcome in E as (ok & Hr & Hok & _).
  pose proof (ran_app _ _ _ _ _ Hs Hr) as Hr1. destruct r as [[]|]; [injection H as <-; exists [Slept d; Sent Dial ok]; auto|].
  apply IH in H as (new & Hr2 & Ha & Hc). exists ([Slept d; Sent Dial ok] ++ new). split; [by eapply ran_app|]. done.
Qed.

(** Attempts end when the server is well again. *)
Lemma reconnect_ends fuel N : forall i w, (forall n, (N <= n)%nat -> answers w n = None) -> (N - steps w < fuel)%nat ->
  exists w', reconnect fuel m i w = Some w'.
Proof.
  induction fuel as [|fuel IH]; intros i w HN Hf; [lia|]. simpl. set (d := Backoff.RetryBackoff _ _ _ _ _).
  pose proof (ran_event w (Slept d)) as Hs. destruct (Connect _) as [r w1] eqn:E. apply Connect_outcome in E as (ok & Hr & _ & He).
  pose proof (ran_app _ _ _ _ _ Hs Hr) as [_ Ha _ Hst]. destruct r as [|err]; [eauto|]. destruct (He eq_refl) as [e Ee].
  simpl in Ee, Hst. apply IH; [by rewrite Ha|]. destruct (decide (N <= S (steps w))%nat) as [Hle|]; [by rewrite HN in Ee|]. lia.
Qed.

Lemma SendMail_delivers fuel : forall w r w', SendMail fuel m to subject msg w = Some (r, w') ->
  exists new, ran w w' new /\
  match r with
  | Ok _ => exists pre mid now body, new = pre ++ delivery body /\ generateMessage m mid now to subject msg = Ok body /\
              acknowledged pre = O
  | Err err => retried err = false /\ acknowledged new = O
  end.
Proof.
  induction fuel as [|fuel IH]; intros w r w' H; [done|]. simpl in H.
  destruct (sendOne m to subject msg w) as [r1 w1] eqn:E1. apply sendOne_outcome in E1 as (new1 & Hr1 & H1).
  destruct r1 as [[]|err].
  - injection H as <- <-. exists new1. split; [done|]. destruct H1 as (mid & now & body & Hb & ->).
    by exists [], mid, now, body.
  - destruct H1 as [Ha1 _]. destruct (retried err) eqn:Er; [|injection H as <- <-; by exists new1].
    destruct (reconnect fuel m 0 w1) as [w2|] eqn:E2; [|done]. apply reconnect_outcome in E2 as (new2 & Hr2 & Ha2 & _).
    apply IH in H as (new3 & Hr3 & H3). exists ((new1 ++ new2) ++ new3).
    split; [by eapply ran_app; [eapply ran_app|]|]. destruct r as [[]|err'].
    + destruct H3 as (pre & mid & now & body & -> & Hb & Ha). exists ((new1 ++ new2) ++ pre), mid, now, body.
      rewrite !acknowledged_app, Ha1, Ha2, Ha. split_and!; [by rewrite !app_assoc|done|done].
    + destruct H3 as [? Ha]. by rewrite !acknowledged_app, Ha1, Ha2, Ha.
Qed.

Lemma SendMail_ends fuel N : forall w, (forall n, (N <= n)%nat -> answers w n = None) -> (N - steps w < fuel)%nat ->
  exists r w', SendMail fuel m to subject msg w = Some (r, w').
Proof.
  induction fuel as [|fuel IH]; intros w HN Hf; [lia|]. simpl.
  destruct (sendOne m to subject msg w) as [r1 w1] eqn:E1. apply sendOne_outcome in E1 as (new1 & Hr1 & H1).
  destruct r1 as [[]|err]; [eauto|]. destruct (retried err) eqn:Er; [|eauto]. destruct H1 as [_ H1].
  destruct (H1 eq_refl) as (n & Hn & En). assert (n < N)%nat as HnN by (apply Nat.nle_gt; intros Hle; by rewrite HN in En).
  destruct Hr1 as [_ Ha1 _ _]. destruct (reconnect_ends fuel N 0 w1) as [w2 E2]; [by rewrite Ha1|lia|]. rewrite E2.
  apply reconnect_outcome in E2 as (new2 & [_ Ha2 _ Hs2] & _). apply IH; [by rewrite Ha2, Ha1|lia].
Qed.

(** C28. Delivery.  Whatever the server answers, when [SendMail] reports success, the last
    thing that happened is that the server took over the whole message for all
    recipients, and it had acknowledged none before; when it reports an error, the server
    has acknowledged no message, and the error is not one that calls for a new
    connection.  And it does return, when the server stops failing at some point. *)
Theorem SendMail_correct fuel N w :
  (forall n, (N <= n)%nat -> answers w n = None) -> (N - steps w < fuel)%nat ->
  exists r w' new, SendMail fuel m to subject msg w = Some (r, w') /\ events w' = events w ++ new /\
  match r with
  | Ok _ => exists pre mid now body, new = pre ++ delivery body /\ generateMessage m mid now to subject msg = Ok body /\
              acknowledged pre = O
  | Err err => retried err = false /\ acknowledged new = O
  end.
Proof.
  intros HN Hf. destruct (SendMail_ends fuel N w HN Hf) as (r & w' & E). exists r, w'.
  destruct (SendMail_delivers _ _ _ _ E) as (new & [Hn _ _ _] & H). by exists new.
Qed.

End delivery.
End Mailer.
