(* ===== verification/CachePurge.v ===== *)
(** * akamai/cache-client.go: purging cached responses

    The client of the purge interface of the content delivery network: signing of
    requests, one request, and the repetition of failed ones.  The HTTP transport, JSON and
    HMAC are parameters. *)

From S2P Require Import Prelude GoStd GoTime Errors Core Backoff.

Module CachePurge.

Record purgeResponse := { HTTPStatus : Z; EstimatedSeconds : Z; PurgeID : string }.

Record CachePurgeClient := {
  apiEndpoint : string;
  apiHost : string;
  apiScheme : string;
  clientToken : string;
  clientSecret : string;
  accessToken : string;
  retries : Z;
  retryBackoff : Z
}.

Inductive purge_error := errFatal (s : string) | Retryable (err : error) | ErrAllRetriesFailed.

(** [resp.StatusCode], and the body or the failure to read it; [None] is no body. *)
Record response := { StatusCode : Z; Body : option (result error string) }.

Section client.
Context {GL : GoLib} {Cr : Crypto}.
(** [hmac key text] under SHA-256; [url.Parse] gives host and scheme; [json_request] is the
    encoded request for these URLs; [json_response] decodes an answer; [new_request] is the
    error of [http.NewRequest], if any; [fmt_urls] prints a list with %q. *)
Context (hmac : string -> string -> string) (url_Parse : string -> result error (string * string)).
Context (json_request : list string -> result error string) (json_response : string -> result error purgeResponse).
Context (new_request : string -> option error) (fmt_urls : list string -> string).

Definition purgePath : string := "/ccu/v2/queues/default".

Definition NewCachePurgeClient (endpoint token secret access : string) (n backoff : Z) : result error CachePurgeClient :=
  let endpoint := TrimSuffix endpoint "/" in
  let? apiURL := url_Parse endpoint in
  Ok {| apiEndpoint := endpoint; apiHost := fst apiURL; apiScheme := ToLower (snd apiURL); clientToken := token;
        clientSecret := secret; accessToken := access; retries := n; retryBackoff := backoff |}.

Definition tab : string := String "009" EmptyString.

Definition constructAuthHeader (cpc : CachePurgeClient) (t : Z) (body apiPath nonce : string) : string :=
  let timestamp := GoTime.compact ":" t ++s "+0000" in
  let header := "EG1-HMAC-SHA256 client_token=" ++s clientToken cpc ++s ";access_token=" ++s accessToken cpc
                ++s ";timestamp=" ++s timestamp ++s ";nonce=" ++s nonce ++s ";" in
  let tbs := join tab ["POST"; apiScheme cpc; apiHost cpc; apiPath; EmptyString; b64_encode true (sha256 body); header]%string in
  let key := b64_encode true (hmac (clientSecret cpc) timestamp) in
  header ++s "signature=" ++s b64_encode true (hmac key tbs).

(** A request: where it goes, its authorization and its body. *)
Record request := { r_url : string; r_authorization : string; r_body : string }.

Definition read_response (urls : list string) (resp : response) : result purge_error unit :=
  match Body resp with
  | None => Err (Retryable (PlainError "No response body"))
  | Some (Err err) => Err (Retryable err)
  | Some (Ok body) =>
      match json_response body with
      | Err err => Err (Retryable err)
      | Ok purgeInfo =>
          if negb (HTTPStatus purgeInfo =? 201) || negb (StatusCode resp =? 201) then
            if HTTPStatus purgeInfo =? 403 then Err (errFatal ("Unauthorized to purge URLs " ++s fmt_urls urls))
            else Err (Retryable (PlainError ("Unexpected HTTP status code '" ++s itoa (StatusCode resp) ++s "': " ++s body)))
          else Ok tt
      end
  end.

(** [network n] is what [client.Do] returns for the n-th request; the clock and the random
    bytes likewise. *)
Record World := {
  requests : list request;
  slept : list Z;
  network : nat -> result error response;
  times : nat -> Z;
  random : nat -> string;
  jitter : nat -> Backoff.float64
}.

Definition do_request (w : World) (r : request) : result error response * World :=
  (network w (length (requests w)),
   {| requests := requests w ++ [r]; slept := slept w; network := network w; times := times w; random := random w; jitter := jitter w |}).
Definition sleep (w : World) (d : Z) : World :=
  {| requests := requests w; slept := slept w ++ [d]; network := network w; times := times w; random := random w; jitter := jitter w |}.

Definition purge (cpc : CachePurgeClient) (urls : list string) : M World purge_error unit := fun w =>
  match json_request urls with
  | Err err => (Err (errFatal (Error err)), w)
  | Ok reqJSON =>
      let url := apiEndpoint cpc ++s purgePath in
      match new_request url with
      | Some err => (Err (errFatal (Error err)), w)
      | None =>
          let n := length (requests w) in
          let header := constructAuthHeader cpc (times w n) reqJSON purgePath (RandomString (random w n)) in
          match do_request w {| r_url := url; r_authorization := header; r_body := reqJSON |} with
          | (Err err, w') => (Err (Retryable err), w')
          | (Ok resp, w') => (read_response urls resp, w')
          end
      end
  end.

Definition is_fatal (err : purge_error) : bool := match err with errFatal _ => true | _ => false end.

(** The loop of [Purge] from attempt [i]; [n] attempts are left. *)
Fixpoint attempts (cpc : CachePurgeClient) (urls : list string) (n : nat) (i : Z) : M World purge_error unit := fun w =>
  match n with
  | O => (Err ErrAllRetriesFailed, w)
  | S n' =>
      let w := sleep w (Backoff.RetryBackoff (jitter w (length (slept w))) i (retryBackoff cpc) Minute (Backoff.f_tenths 13)) in
      match purge cpc urls w with
      | (Ok _, w') => (Ok tt, w')
      | (Err err, w') => if is_fatal err then (Err err, w') else attempts cpc urls n' (i + 1) w'
      end
  end.
Definition Purge (cpc : CachePurgeClient) (urls : list string) : M World purge_error unit :=
  attempts cpc urls (Z.to_nat (retries cpc + 1)) 0.

(** ** Attempts *)

Definition accepted (r : result error response) : Prop :=
  exists resp body info, r = Ok resp /\ StatusCode resp = 201 /\ Body resp = Some (Ok body) /\ json_response body = Ok info /\ HTTPStatus info = 201.

Lemma read_response_ok urls resp : read_response urls resp = Ok tt <-> accepted (Ok resp).
Proof.
  unfold read_response, accepted. split.
  - destruct (Body resp) as [[body|]|] eqn:Eb; [|done..]. destruct (json_response body) as [info|] eqn:Ej; [|done].
    destruct (Z.eqb_spec (HTTPStatus info) 201); destruct (Z.eqb_spec (StatusCode resp) 201); simpl; try (by destruct (_ =? _)).
    intros _. by exists resp, body, info.
  - intros (resp' & body & info & [= <-] & H1 & -> & -> & H2). by rewrite H1, H2.
Qed.

(** An attempt sends at most one request. *)
Lemma purge_outcome cpc urls w r w' : purge cpc urls w = (r, w') ->
  network w' = network w /\ exists sent, requests w' = requests w ++ sent /\ (length sent <= 1)%nat /\
  match r with
  | Ok _ => length sent = 1%nat /\ accepted (network w (length (requests w)))
  | Err err => is_fatal err = false -> length sent = 1%nat /\ ~ accepted (network w (length (requests w)))
  end.
Proof.
  intros H. unfold purge in H.
  assert ((exists s, (r, w') = (Err (errFatal s), w)) -> network w' = network w /\ exists sent, requests w' = requests w ++ sent /\
    (length sent <= 1)%nat /\ match r with
    | Ok _ => length sent = 1%nat /\ accepted (network w (length (requests w)))
    | Err err => is_fatal err = false -> length sent = 1%nat /\ ~ accepted (network w (length (requests w)))
    end) as Hfatal.
  { intros [s [= -> ->]]. split; [done|]. exists []. rewrite app_nil_r. split_and!; [done|simpl; lia|done]. }
  destruct (json_request urls) as [body|]; [|apply Hfatal; eauto]. destruct (new_request _); [apply Hfatal; eauto|].
  unfold do_request in H. destruct (network w (length (requests w))) as [resp|e] eqn:E; injection H as <- <-; (split; [done|]);
    eexists; (split; [done|]); (split; [done|]).
  - pose proof (read_response_ok urls resp) as Hr. destruct (read_response urls resp) as [[]|]; [split; [done|]; by apply Hr|].
    intros _. split; [done|]. intros Ha. by apply Hr in Ha.
  - intros _. split; [done|]. by intros (? & ? & ? & ? & _).
Qed.

Lemma attempts_outcome cpc urls n : forall i w r w', attempts cpc urls n i w = (r, w') ->
  exists sent, requests w' = requests w ++ sent /\ (length sent <= n)%nat /\
  match r with
  | Ok _ => exists k, length sent = S k /\ accepted (network w (length (requests w) + k))
  | Err err => is_fatal err = false ->
      err = ErrAllRetriesFailed /\ length sent = n /\ forall k, (k < n)%nat -> ~ accepted (network w (length (requests w) + k))
  end.
Proof.
  induction n as [|n IH]; intros i w r w' H; cbn [attempts] in H.
  { injection H as <- <-. exists []. rewrite app_nil_r. split_and!; [done|done|]. intros _. split_and!; [done|done|]. intros k Hk. lia. }
  set (w0 := sleep w _) in H. destruct (purge cpc urls w0) as [r1 w1] eqn:E1.
  apply purge_outcome in E1 as (Hn1 & sent1 & Hs1 & Hl1 & H1).
  change (requests w0) with (requests w) in *. change (network w0) with (network w) in *.
  destruct r1 as [[]|err1]; [injection H as <- <-; exists sent1; split_and!; [done|lia|]; exists O; by rewrite Nat.add_0_r|].
  destruct (is_fatal err1) eqn:Ef; [injection H as <- <-; exists sent1; split_and!; [done|lia|]; congruence|].
  destruct (H1 eq_refl) as [Hl Ha]. apply IH in H as (sent & Hs & Hlen & H). exists (sent1 ++ sent).
  rewrite Hs, Hs1, app_assoc, length_app. rewrite Hs1, Hn1, length_app, Hl in H. split_and!; [done|lia|].
  assert (forall k, (length (requests w) + S k = length (requests w) + 1 + k)%nat) as HS by lia. destruct r as [[]|err].
  - destruct H as (k & Hk & Hacc). exists (S k). rewrite HS. split; [lia|done].
  - intros He. destruct (H He) as (-> & Hls & Hno). split_and!; [done|lia|].
    intros [|k] Hk; [by rewrite Nat.add_0_r|]. rewrite HS. apply Hno. lia.
Qed.

(** At most [retries + 1] requests are sent.  Success is reported exactly when the network
    accepted the last of them, and failure of all attempts only after that many requests,
    none of which it accepted. *)
Lemma Purge_outcome cpc urls w r w' : Purge cpc urls w = (r, w') -> 0 <= retries cpc ->
  exists sent, requests w' = requests w ++ sent /\ Z.of_nat (length sent) <= retries cpc + 1 /\
  (is_ok r = true -> exists k, length sent = S k /\ accepted (network w (length (requests w) + k))) /\
  (r = Err ErrAllRetriesFailed -> Z.of_nat (length sent) = retries cpc + 1 /\
     forall k, (k < length sent)%nat -> ~ accepted (network w (length (requests w) + k))).
Proof.
  intros H Hr. apply attempts_outcome in H as (sent & Hs & Hl & H). exists sent. split_and!; [done|lia| |].
  - by destruct r as [[]|].
  - intros ->. destruct (H eq_refl) as (_ & Hls & Hno). split; [lia|]. by rewrite Hls.
Qed.

End client.
End CachePurge.
