(* ===== verification/OcspUpdater.v ===== *)
(** * cmd/ocsp-updater and cmd/ocsp-responder

    The updater keeps the OCSP responses in the table [certificateStatus] fresh and
    resubmits certificates to CT logs; the responder serves them.  The updater shares the
    database with the storage authority: before each of its calls, other processes may
    have changed it ([st_others]), and the goroutines of one batch take turns in any
    order ([st_turns]). *)

From S2P Require Import Prelude GoStd Errors Features Core Csr Database Storage.
From S2P Require Import CertificateAuthority GrpcStorage Backoff.
From Stdlib Require Import SpecFloat.

Import Backoff.

(** [core.Publisher]. *)
Record Publisher (S : Type) := {
  SubmitToCT : string -> M S error unit;
  SubmitToSingleCT : string -> string -> string -> M S error unit
}.

(** The libraries below the updater: MD5, golang.org/x/crypto/ocsp, the OCSP servers and the key identifier of a
    certificate, and the certificates in files. *)
Class OcspEnv := {
  md5 : string -> string;
  ocsp_CreateRequest : X509Certificate -> string -> result error string;
  cert_OCSPServer : string -> list string;
  cert_SubjectKeyId : string -> string;
  core_LoadCert : string -> result error string;
  cmd_LoadCert : string -> result error string
}.

Module Ocsp.

(** ** State *)

(** [st_peers]: the state of the CA, the SA and the publisher beyond the database;
    [st_purges]: the goroutines started by [go updater.sendPurge]; [st_rand]: what
    [mrand.Float64] draws. *)
Record State (C : Type) := {
  st_world : World;
  st_peers : C;
  st_purges : list string;
  st_others : list (World -> World);
  st_turns : list nat;
  st_rand : list float64
}.
Arguments st_world {_}. Arguments st_peers {_}. Arguments st_purges {_}.
Arguments st_others {_}. Arguments st_turns {_}. Arguments st_rand {_}.

(** The tick functions a loop may have. *)
Inductive tick_func := NewCertificateTick | OldOCSPResponsesTick | MissingReceiptsTick | RevokedCertificatesTick.

Record looper := {
  l_batchSize : Z;
  l_tickDur : Z;
  l_tickFunc : tick_func;
  l_name : string;
  l_failureBackoffFactor : float64;
  l_failureBackoffMax : Z;
  l_failures : Z
}.

Record ctLog := { log_logID : string; log_key : string; log_uri : string }.
Record LogDescription := { ld_URI : string; ld_Key : string }.

Record OCSPUpdaterConfig := {
  NewCertificateWindow : Z; OldOCSPWindow : Z; MissingSCTWindow : Z; RevokedCertificateWindow : Z;
  NewCertificateBatchSize : Z; OldOCSPBatchSize : Z; MissingSCTBatchSize : Z; RevokedCertificateBatchSize : Z;
  OCSPMinTimeToExpiry : Z; OCSPStaleMaxAge : Z; OldestIssuedSCT : Z; ParallelGenerateOCSPRequests : Z;
  AkamaiBaseURL : string;
  SignFailureBackoffFactor : float64; SignFailureBackoffMax : Z
}.

(** [ccu] is whether the purge client was initialised. *)
Record OCSPUpdater := {
  ocspMinTimeToExpiry : Z;
  ocspStaleMaxAge : Z;
  oldestIssuedSCT : Z;
  parallelGenerateOCSPRequests : Z;
  logs : list ctLog;
  loops : list looper;
  ccu : bool;
  issuer : option string
}.

Section updater.
Context {GL : GoLib} {Cr : Crypto} {Q : SQL} {J : StorageJSON} {X : X509} {OE : OcspEnv} {C : Type}.
(** The peers: the CA, the lookups of the SA, and the publisher. *)
Context (cac : OCSPSigningRequest -> M (World * C) error string) (sac : StorageLookups (World * C))
        (pubc : Publisher (World * C)).

Definition UM (A : Type) : Type := M (State C) error A.

Definition set_world (s : State C) (w : World) (c : C) : State C :=
  {| st_world := w; st_peers := c; st_purges := st_purges s; st_others := st_others s;
     st_turns := st_turns s; st_rand := st_rand s |}.
Definition set_others (s : State C) (o : list (World -> World)) : State C :=
  {| st_world := st_world s; st_peers := st_peers s; st_purges := st_purges s; st_others := o;
     st_turns := st_turns s; st_rand := st_rand s |}.
Definition set_turns (s : State C) (t : list nat) : State C :=
  {| st_world := st_world s; st_peers := st_peers s; st_purges := st_purges s; st_others := st_others s;
     st_turns := t; st_rand := st_rand s |}.
Definition set_rand (s : State C) (r : list float64) : State C :=
  {| st_world := st_world s; st_peers := st_peers s; st_purges := st_purges s; st_others := st_others s;
     st_turns := st_turns s; st_rand := r |}.
Definition add_purge (s : State C) (der : string) : State C :=
  {| st_world := st_world s; st_peers := st_peers s; st_purges := der :: st_purges s; st_others := st_others s;
     st_turns := st_turns s; st_rand := st_rand s |}.

(** Other processes run. *)
Definition yield : UM unit := modify (fun s =>
  match st_others s with
  | [] => s
  | f :: others => set_others (set_world s (f (st_world s)) (st_peers s)) others
  end).
(** A call of a peer, and one of the database. *)
Definition rpc {A} (m : M (World * C) error A) : UM A :=
  do! yield in
  fun s => let '(r, (w, c)) := m (st_world s, st_peers s) in (r, set_world s w c).
Definition dbMap {A} (m : DB A) : UM A :=
  do! yield in
  fun s => let '(r, w) := m (st_world s) in (r, set_world s w (st_peers s)).
Definition Now : UM Z := fun s =>
  (Ok (w_now (st_world s)), set_world s (pop_tick (st_world s)) (st_peers s)).
Definition next_turn : UM nat := fun s => (Ok (default O (head (st_turns s))), set_turns s (tail (st_turns s))).
Definition Float64 : UM float64 := fun s =>
  (Ok (default (S754_zero false) (head (st_rand s))), set_rand s (tail (st_rand s))).
(** [clk.Sleep]. *)
Definition passed (w : World) (d : Z) : World :=
  {| db := db w; tx := tx w; w_faults := w_faults w; w_now := w_now w + Z.max 0 d; w_ticks := w_ticks w;
     w_rng := w_rng w; w_draws := w_draws w |}.
Definition Sleep (d : Z) : UM unit := modify (fun s => set_world s (passed (st_world s) d) (st_peers s)).

(** ** Construction *)

Definition newLog (logConfig : LogDescription) : result error ctLog :=
  match std_decode (ld_Key logConfig) with
  | None => Err (PlainError "illegal base64 data")
  | Some logPK =>
      let logPKHash := sha256 logPK in
      Ok {| log_logID := std_encode logPKHash; log_key := ld_Key logConfig; log_uri := ld_URI logConfig |}
  end.

Fixpoint newLogs (logConfigs : list LogDescription) : result error (list ctLog) :=
  match logConfigs with
  | [] => Ok []
  | logConfig :: rest => let? l := newLog logConfig in let? ls := newLogs rest in Ok (l :: ls)
  end.

(** [clientError] is the outcome of [akamai.NewCachePurgeClient], which overwrites the
    outcome of [core.LoadCert]. *)
Definition newUpdater (config : OCSPUpdaterConfig) (logConfigs : list LogDescription) (issuerPath : string)
    (clientError : option error) : result error OCSPUpdater :=
  if (NewCertificateBatchSize config =? 0) || (OldOCSPBatchSize config =? 0) || (MissingSCTBatchSize config =? 0)
  then Err (PlainError "Loop batch sizes must be non-zero")
  else if (NewCertificateWindow config =? 0) || (OldOCSPWindow config =? 0) || (MissingSCTWindow config =? 0)
  then Err (PlainError "Loop window sizes must be non-zero")
  else
    let staleMaxAge := if OCSPStaleMaxAge config =? 0 then Hour * 24 * 30 else OCSPStaleMaxAge config in
    let parallel := if ParallelGenerateOCSPRequests config =? 0 then 1 else ParallelGenerateOCSPRequests config in
    let? logs := newLogs logConfigs in
    let loop name batchSize tickDur tickFunc factor max :=
      {| l_batchSize := batchSize; l_tickDur := tickDur; l_tickFunc := tickFunc; l_name := name;
         l_failureBackoffFactor := factor; l_failureBackoffMax := max; l_failures := 0 |} in
    let factor := SignFailureBackoffFactor config in
    let max := SignFailureBackoffMax config in
    let loops :=
      [loop "NewCertificates" (NewCertificateBatchSize config) (NewCertificateWindow config) NewCertificateTick factor max;
       loop "OldOCSPResponses" (OldOCSPBatchSize config) (OldOCSPWindow config) OldOCSPResponsesTick factor max;
       loop "MissingSCTReceipts" (MissingSCTBatchSize config) (MissingSCTWindow config) MissingReceiptsTick
         (S754_zero false) 0] in
    let loops :=
      if negb (RevokedCertificateBatchSize config =? 0) && negb (RevokedCertificateWindow config =? 0)
      then loops ++ [loop "RevokedCertificates" (RevokedCertificateBatchSize config) (RevokedCertificateWindow config)
                       RevokedCertificatesTick factor max]
      else loops in
    let updater ccu issuer :=
      {| ocspMinTimeToExpiry := OCSPMinTimeToExpiry config; ocspStaleMaxAge := staleMaxAge;
         oldestIssuedSCT := OldestIssuedSCT config; parallelGenerateOCSPRequests := parallel;
         logs := logs; loops := loops; ccu := ccu; issuer := issuer |} in
    if is_empty (AkamaiBaseURL config) then Ok (updater false None)
    else
      match clientError with
      | Some err => Err err
      | None => Ok (updater true (match core_LoadCert issuerPath with Ok cert => Some cert | Err _ => None end))
      end.

(** ** Cache purging *)

Definition reverseBytes (b : string) : string :=
  String.string_of_list_ascii (rev (String.list_ascii_of_string b)).

(** [strings.Replace(s, "//", "/", -1)]. *)
Fixpoint collapse_slashes (s : string) : string :=
  match s with
  | String "/" (String "/" s') => String "/" (collapse_slashes s')
  | String c s' => String c (collapse_slashes s')
  | EmptyString => EmptyString
  end.

(** [url.QueryEscape]. *)
Definition upper_hex (d : Z) : ascii := if d <? 10 then Zbyte (48 + d) else Zbyte (55 + d).
Definition escape_byte (c : ascii) : string :=
  if in_range "a" "z" c || in_range "A" "Z" c || in_range "0" "9" c
     || Ascii.eqb c "-" || Ascii.eqb c "_" || Ascii.eqb c "." || Ascii.eqb c "~"
  then String c EmptyString
  else if Ascii.eqb c " " then "+"
  else String "%" (String (upper_hex (byteZ c / 16)) (String (upper_hex (byteZ c mod 16)) EmptyString)).
Definition QueryEscape (s : string) : string :=
  join EmptyString (map escape_byte (String.list_ascii_of_string s)).

Definition generateOCSPCacheKeys (req ocspServer : string) : list string :=
  let hash := md5 req in
  let encReq := std_encode req in
  [ocspServer ++s "?body-md5=" ++s hex_string (reverseBytes (String.substring 0 4 hash))
     ++s hex_string (reverseBytes (String.substring 4 4 hash));
   ocspServer ++s collapse_slashes encReq;
   ocspServer ++s QueryEscape encReq].

(** The goroutine: an error is a panic, [None] a logged error, otherwise the URLs that
    are passed to [ccu.Purge].  The loop replaces [urls] in every round. *)
Definition sendPurge (updater : OCSPUpdater) (der : string) : result error (option (list string)) :=
  match ParseCertificate der with
  | Err _ => Ok None
  | Ok cert =>
      match issuer updater with
      | None => Err nil_dereference
      | Some issuer =>
          match ocsp_CreateRequest cert issuer with
          | Err _ => Ok None
          | Ok req =>
              Ok (Some (fold_left (fun _ ocspServer =>
                let ocspServer := if ends_with "/" ocspServer then ocspServer else ocspServer ++s "/" in
                generateOCSPCacheKeys req ocspServer) (cert_OCSPServer der) []))
          end
      end
  end.

(** ** Queries *)

(** [LIMIT]: a negative limit is a syntax error. *)
Definition limit {A} (n : Z) (rows : list A) : result error (list A) :=
  if n <? 0 then Err (PlainError "Error 1064: You have an error in your SQL syntax") else Ok (take (Z.to_nat n) rows).
(** The functions that look for statuses take [sql.ErrNoRows] for an empty result. *)
Definition or_none {A} (m : UM (list A)) : UM (list A) :=
  let! r := try m in
  match r with
  | Err ErrNoRows => ret []
  | Err err => fail err
  | Ok statuses => ret statuses
  end.
Definition statuses_of (t : Tables) : list CertificateStatus := (map_to_list (certificateStatus t)).*2.
Definition older (a b : CertificateStatus) : Prop := cs_OCSPLastUpdated a <= cs_OCSPLastUpdated b.
#[export] Instance older_dec : RelDecision older := fun a b => Z_le_dec _ _.

(** Only four columns are selected. *)
Definition stale_view (cs : CertificateStatus) : CertificateStatus :=
  {| cs_Serial := cs_Serial cs; cs_SubscriberApproved := false; cs_Status := cs_Status cs;
     cs_OCSPLastUpdated := zeroTime; cs_RevokedDate := cs_RevokedDate cs; cs_RevokedReason := 0;
     cs_LastExpirationNagSent := zeroTime; cs_OCSPResponse := EmptyString; cs_NotAfter := cs_NotAfter cs;
     cs_IsExpired := false; cs_LockCol := 0 |}.
Definition stale (maxAge lastUpdate : Z) (cs : CertificateStatus) : bool :=
  (maxAge <? cs_OCSPLastUpdated cs) && (cs_OCSPLastUpdated cs <? lastUpdate) && negb (cs_IsExpired cs).

Definition findStaleOCSPResponses (updater : OCSPUpdater) (oldestLastUpdatedTime batchSize : Z)
    : UM (list CertificateStatus) :=
  let! now := Now in
  let maxAgeCutoff := time_Add now (- ocspStaleMaxAge updater) in
  or_none (dbMap (query (fun t =>
    let? rows := limit batchSize (merge_sort older
                   (filter (fun cs => stale maxAgeCutoff oldestLastUpdatedTime cs = true) (statuses_of t))) in
    Ok (map stale_view rows)))).

Definition getCertificatesWithMissingResponses (batchSize : Z) : UM (list CertificateStatus) :=
  or_none (dbMap (query (fun t =>
    limit batchSize (filter (fun cs => cs_OCSPLastUpdated cs = zeroTime) (statuses_of t))))).

Definition outdated_revocation (cs : CertificateStatus) : bool :=
  Storage.ceq (cs_Status cs) OCSPStatusRevoked && (cs_OCSPLastUpdated cs <=? cs_RevokedDate cs).
Definition findRevokedCertificatesToUpdate (batchSize : Z) : UM (list CertificateStatus) :=
  dbMap (query (fun t => limit batchSize (filter (fun cs => outdated_revocation cs = true) (statuses_of t)))).

(** ** Responses *)

Definition with_response (status : CertificateStatus) (response : string) (now : Z) : CertificateStatus :=
  {| cs_Serial := cs_Serial status; cs_SubscriberApproved := cs_SubscriberApproved status;
     cs_Status := cs_Status status; cs_OCSPLastUpdated := now; cs_RevokedDate := cs_RevokedDate status;
     cs_RevokedReason := cs_RevokedReason status; cs_LastExpirationNagSent := cs_LastExpirationNagSent status;
     cs_OCSPResponse := response; cs_NotAfter := cs_NotAfter status; cs_IsExpired := cs_IsExpired status;
     cs_LockCol := cs_LockCol status |}.
Definition sign_request (status : CertificateStatus) (signed : string) (cert : Certificate) : OCSPSigningRequest :=
  {| os_CertDER := cert_DER cert; os_Status := signed; os_Reason := cs_RevokedReason status;
     os_RevokedAt := cs_RevokedDate status |}.

Definition generateResponse (status : CertificateStatus) : UM CertificateStatus :=
  let! cert := dbMap (Storage.SelectCertificate (cs_Serial status)) in
  let! ocspResponse := rpc (cac (sign_request status (cs_Status status) cert)) in
  let! now := Now in
  ret (with_response status ocspResponse now).

Definition generateRevokedResponse (updater : OCSPUpdater) (status : CertificateStatus) : UM CertificateStatus :=
  let! cert := rpc (GetCertificate _ sac (cs_Serial status)) in
  let! ocspResponse := rpc (cac (sign_request status OCSPStatusRevoked cert)) in
  let! now := Now in
  do! (if ccu updater then modify (fun s => add_purge s (cert_DER cert)) else ret tt) in
  ret (with_response status ocspResponse now).

(** The two updates; neither touches the row version. *)
Definition refresh (meta row : CertificateStatus) : CertificateStatus :=
  with_response row (cs_OCSPResponse meta) (cs_OCSPLastUpdated meta).
Definition expire (row : CertificateStatus) : CertificateStatus :=
  {| cs_Serial := cs_Serial row; cs_SubscriberApproved := cs_SubscriberApproved row; cs_Status := cs_Status row;
     cs_OCSPLastUpdated := cs_OCSPLastUpdated row; cs_RevokedDate := cs_RevokedDate row;
     cs_RevokedReason := cs_RevokedReason row; cs_LastExpirationNagSent := cs_LastExpirationNagSent row;
     cs_OCSPResponse := cs_OCSPResponse row; cs_NotAfter := cs_NotAfter row; cs_IsExpired := true;
     cs_LockCol := cs_LockCol row |}.
Definition update_rows (serial : string) (p : CertificateStatus -> bool) (f : CertificateStatus -> CertificateStatus)
    : DB unit :=
  call (fun t => Ok (tt, set_certs t (issuedNames t) (certificates t)
    (alter (fun row => if p row then f row else row) (coll serial) (certificateStatus t)))).

Definition storeResponse (status : CertificateStatus) : UM unit :=
  dbMap (update_rows (cs_Serial status) (fun row => Storage.ceq (cs_Status row) (cs_Status status)) (refresh status)).
Definition markExpired (status : CertificateStatus) : UM unit :=
  dbMap (update_rows (cs_Serial status) (fun _ => true) expire).

(** ** Batches in parallel *)

(** A goroutine of [generateOCSPResponses], by its next action. *)
Inductive goroutine :=
| Reading (status : CertificateStatus)
| Signing (status : CertificateStatus) (cert : Certificate)
| Stamping (status : CertificateStatus) (ocspResponse : string)
| Storing (meta : CertificateStatus).

(** [work], one action at a time; [None] when it has returned. *)
Definition advance (g : goroutine) : UM (option goroutine) :=
  match g with
  | Reading status =>
      do! Now in
      let! r := try (dbMap (Storage.SelectCertificate (cs_Serial status))) in
      ret (match r with Ok cert => Some (Signing status cert) | Err _ => None end)
  | Signing status cert =>
      let! r := try (rpc (cac (sign_request status (cs_Status status) cert))) in
      ret (match r with Ok ocspResponse => Some (Stamping status ocspResponse) | Err _ => None end)
  | Stamping status ocspResponse =>
      let! now := Now in
      ret (Some (Storing (with_response status ocspResponse now)))
  | Storing meta => do! try (storeResponse meta) in ret None
  end.

(** The semaphore lets [capacity] goroutines run; the scheduler picks one of them, or
    the main goroutine, which starts the next one when there is room. *)
Fixpoint schedule (fuel capacity : nat) (waiting : list CertificateStatus) (running : list goroutine) : UM unit :=
  match fuel with
  | O => fail (PlainError "out of fuel")
  | S fuel' =>
      let room := negb (bool_decide (waiting = [])) && (length running <? capacity)%nat in
      let choices := (length running + if room then 1 else 0)%nat in
      match choices with
      | O => if bool_decide (waiting = []) then ret tt
             else fail (PlainError "fatal error: all goroutines are asleep - deadlock!")
      | _ =>
          let! turn := next_turn in
          let i := (turn mod choices)%nat in
          match running !! i with
          | Some g =>
              let! g' := advance g in
              schedule fuel' capacity waiting (take i running ++ option_list g' ++ drop (S i) running)
          | None =>
              match waiting with
              | status :: waiting' => schedule fuel' capacity waiting' (running ++ [Reading status])
              | [] => ret tt
              end
          end
      end
  end.

Definition generateOCSPResponses (updater : OCSPUpdater) (statuses : list CertificateStatus) : UM unit :=
  if parallelGenerateOCSPRequests updater <? 0 then fail (PlainError "runtime error: makechan: size out of range")
  else schedule (S (5 * length statuses)) (Z.to_nat (parallelGenerateOCSPRequests updater)) statuses [].

(** ** Ticks *)

Definition newCertificateTick (updater : OCSPUpdater) (batchSize : Z) : UM unit :=
  let! statuses := getCertificatesWithMissingResponses batchSize in
  generateOCSPResponses updater statuses.

Definition revokedCertificatesTick (updater : OCSPUpdater) (batchSize : Z) : UM unit :=
  let! statuses := findRevokedCertificatesToUpdate batchSize in
  forM statuses (fun status =>
    let! meta := generateRevokedResponse updater status in
    do! try (storeResponse meta) in ret tt).

Definition oldOCSPResponsesTick (updater : OCSPUpdater) (batchSize : Z) : UM unit :=
  let! tickStart := Now in
  let! statuses := findStaleOCSPResponses updater (time_Add tickStart (- ocspMinTimeToExpiry updater)) batchSize in
  do! Now in
  do! forM statuses (fun s =>
    if negb (cs_IsExpired s) && time_After tickStart (cs_NotAfter s) then markExpired s else ret tt) in
  generateOCSPResponses updater statuses.

(** ** SCT receipts *)

Definition issued_before (a b : Certificate) : Prop := cert_Issued a <= cert_Issued b.
#[export] Instance issued_before_dec : RelDecision issued_before := fun a b => Z_le_dec _ _.
Definition issued_since (since : Z) (t : Tables) : list string :=
  map cert_Serial (merge_sort issued_before
    (filter (fun cert => since < cert_Issued cert) (map_to_list (certificates t)).*2)).

(** Pages of serials, until one is short.  An error leaves [serials] empty, so the test
    for an empty page comes first. *)
Fixpoint serials_loop (fuel : nat) (since batchSize : Z) (allSerials : list string) : UM (list string) :=
  match fuel with
  | O => fail (PlainError "out of fuel")
  | S fuel' =>
      let! r := try (dbMap (query (fun t => limit batchSize (drop (length allSerials) (issued_since since t))))) in
      let serials := match r with Ok serials => serials | Err _ => [] end in
      if bool_decide (serials = []) then ret allSerials
      else
        let allSerials := allSerials ++ serials in
        if Z.of_nat (length serials) <? batchSize then ret allSerials
        else serials_loop fuel' since batchSize allSerials
  end.
Definition getSerialsIssuedSince (fuel : nat) (since batchSize : Z) : UM (list string) :=
  serials_loop fuel since batchSize [].

Definition getSubmittedReceipts (serial : string) : UM (list string) :=
  dbMap (query (fun t =>
    Ok (map sct_LogID (filter (fun sct => Storage.ceq (sct_CertificateSerial sct) serial = true) (sctReceipts t))))).

Definition missingLogs (updater : OCSPUpdater) (logIDs : list string) : list ctLog :=
  let presentMap : gset string := list_to_set logIDs in
  filter (fun l => log_logID l ∉ presentMap) (logs updater).

Definition missingReceiptsTick (fs : Features.state) (fuel : nat) (updater : OCSPUpdater) (batchSize : Z) : UM unit :=
  let! now := Now in
  let since := time_Add now (- oldestIssuedSCT updater) in
  let! serials := getSerialsIssuedSince fuel since batchSize in
  forM serials (fun serial =>
    let! r := try (getSubmittedReceipts serial) in
    match r with
    | Err _ => ret tt
    | Ok logIDs =>
        let missing := missingLogs updater logIDs in
        if bool_decide (missing = []) then ret tt
        else
          let! r := try (rpc (GetCertificate _ sac serial)) in
          match r with
          | Err _ => ret tt
          | Ok cert =>
              if flag fs Features.ResubmitMissingSCTsOnly then
                forM missing (fun log =>
                  do! try (rpc (SubmitToSingleCT _ pubc (log_uri log) (log_key log) (cert_DER cert))) in ret tt)
              else do! try (rpc (SubmitToCT _ pubc (cert_DER cert))) in ret tt
          end
    end).

(** ** Loops *)

Definition tickFunc (fs : Features.state) (fuel : nat) (updater : OCSPUpdater) (f : tick_func) : Z -> UM unit :=
  match f with
  | NewCertificateTick => newCertificateTick updater
  | OldOCSPResponsesTick => oldOCSPResponsesTick updater
  | MissingReceiptsTick => missingReceiptsTick fs fuel updater
  | RevokedCertificatesTick => revokedCertificatesTick updater
  end.

Definition set_failures (l : looper) (n : Z) : looper :=
  {| l_batchSize := l_batchSize l; l_tickDur := l_tickDur l; l_tickFunc := l_tickFunc l; l_name := l_name l;
     l_failureBackoffFactor := l_failureBackoffFactor l; l_failureBackoffMax := l_failureBackoffMax l;
     l_failures := n |}.

(** [looper.tick]; [time.Since] reads the clock again. *)
Definition tick (fs : Features.state) (fuel : nat) (updater : OCSPUpdater) (l : looper) : UM looper :=
  let! tickStart := Now in
  let! err := try (tickFunc fs fuel updater (l_tickFunc l) (l_batchSize l)) in
  do! Now in
  let! now := Now in
  let tickEnd := time_Add tickStart (time_Sub now tickStart) in
  let expectedTickEnd := time_Add tickStart (l_tickDur l) in
  match err with
  | Err _ =>
      let failures := l_failures l + 1 in
      let! rand := Float64 in
      do! Sleep (RetryBackoff rand failures (l_tickDur l) (l_failureBackoffMax l) (l_failureBackoffFactor l)) in
      ret (set_failures l failures)
  | Ok _ =>
      do! Sleep (time_Sub expectedTickEnd tickEnd) in
      ret (if 0 <? l_failures l then set_failures l 0 else l)
  end.

(** [looper.loop], for its first [n] ticks; the code goes on for ever. *)
Fixpoint loop_ticks (n : nat) (fs : Features.state) (fuel : nat) (updater : OCSPUpdater) (l : looper) : UM looper :=
  match n with
  | O => ret l
  | S n' => let! l' := tick fs fuel updater l in loop_ticks n' fs fuel updater l'
  end.
Definition loop (n : nat) (fs : Features.state) (fuel : nat) (updater : OCSPUpdater) (l : looper) : UM looper :=
  if (l_batchSize l =? 0) || (l_tickDur l =? 0) then
    fail (PlainError ("Both batch size and tick duration are required, not running '" ++s l_name l ++s "' loop"))
  else loop_ticks n fs fuel updater l.

End updater.

(** ** cmd/ocsp-responder *)

Section responder.
Context {Q : SQL} {X : X509} {OE : OcspEnv}.

Definition makeDBSource (issuerCert : string) : result error string :=
  match cmd_LoadCert issuerCert with
  | Err err => Err (PlainError ("Could not read issuer cert " ++s issuerCert ++s ": " ++s Error err))
  | Ok caCertDER =>
      match ParseCertificate caCertDER with
      | Err err => Err (PlainError ("Could not parse issuer cert " ++s issuerCert ++s ": " ++s Error err))
      | Ok _ =>
          if is_empty (cert_SubjectKeyId caCertDER) then Err (PlainError "Empty subjectKeyID")
          else Ok (cert_SubjectKeyId caCertDER)
      end
  end.

(** [DBSource.Response], for a request with this issuer key hash and serial number. *)
Definition Response (caKeyHash issuerKeyHash : string) (serialNumber : Z) : DB (option string) :=
  if negb (String.eqb issuerKeyHash caKeyHash) then ret None
  else
    let serialString := SerialToString serialNumber in
    let! r := try (query (fun t => match certificateStatus t !! coll serialString with
                                   | Some cs => Ok (cs_OCSPResponse cs, cs_OCSPLastUpdated cs)
                                   | None => Err ErrNoRows
                                   end)) in
    match r with
    | Err _ => ret None
    | Ok (ocspResponse, ocspLastUpdated) => ret (if time_IsZero ocspLastUpdated then None else Some ocspResponse)
    end.

End responder.
End Ocsp.
