(* ===== verification/OcspChecks.v ===== *)
(** * What the OCSP updater guarantees

    Responses in the table are truthful at all times: each attests the status of its own
    row, or the row was revoked after it was made and is queued for renewal.  This holds
    for any turns of the goroutines and any operations of the storage authority in
    between.  A tick renews its whole batch. *)

From S2P Require Import Prelude GoStd Errors Features Core Csr Database Storage SaFrame SaInvariants SaTransactions.
From S2P Require Import SaCertificates.
From S2P Require Import CertificateAuthority GrpcStorage Backoff OcspUpdater.

Module OcspChecks.
Import Storage SaInvariants SaCertificates Backoff Ocsp.

Section checks.
Context {GL : GoLib} {Cr : Crypto} {Q : SQL} {QL : SQLLaws Q} {J : StorageJSON} {X : X509} {OE : OcspEnv}.

(** [attests response der status]: the OCSP response says that the certificate has this
    status. *)
Context (attests : string -> string -> string -> Prop).

(** ** Truthful tables *)

Record row_ok (now : Z) (t : Tables) (k : string) (row : CertificateStatus) : Prop := {
  ro_key : coll (cs_Serial row) = k;
  ro_status : cs_Status row = OCSPStatusGood \/ cs_Status row = OCSPStatusRevoked;
  ro_past : cs_OCSPLastUpdated row <= now;
  ro_truth : cs_OCSPLastUpdated row = zeroTime \/
    exists cert status, certificates t !! k = Some cert /\
      attests (cs_OCSPResponse row) (cert_DER cert) status /\
      (status = cs_Status row \/
       cs_Status row = OCSPStatusRevoked /\ cs_OCSPLastUpdated row <= cs_RevokedDate row)
}.

Definition rows_ok (now : Z) (t : Tables) : Prop :=
  forall k row, certificateStatus t !! k = Some row -> row_ok now t k row.

(** Time goes on, and started well after the year 1. *)
Definition clock_ok (w : World) : Prop := Forall (Z.le 0) (w_ticks w) /\ zeroTime <= w_now w.
Definition world_ok (w : World) : Prop := tx w = None /\ clock_ok w /\ rows_ok (w_now w) (db w).
Definition later (w w' : World) : Prop := certificates (db w) ⊆ certificates (db w') /\ w_now w <= w_now w'.
#[export] Instance later_preorder : PreOrder later.
Proof.
  split; [by split|]. intros w1 w2 w3 [C1 T1] [C2 T2]. split; [by etransitivity|lia].
Qed.

Lemma row_ok_later now now' t t' k row :
  now <= now' -> certificates t ⊆ certificates t' -> row_ok now t k row -> row_ok now' t' k row.
Proof.
  intros Hn Hc [H1 H2 H3 H4]. split; [done|done|lia|].
  destruct H4 as [?|(cert & st & E & ?)]; [by left|right]. exists cert, st. split; [|done]. by eapply lookup_weaken.
Qed.

Lemma rows_ok_later now now' t t' : now <= now' -> certificates t ⊆ certificates t' ->
  certificateStatus t' = certificateStatus t -> rows_ok now t -> rows_ok now' t'.
Proof. intros Hn Hc Hs H k row. rewrite Hs. intros E. eapply row_ok_later; eauto. Qed.

Lemma status_eq a b : (a = OCSPStatusGood \/ a = OCSPStatusRevoked) -> (b = OCSPStatusGood \/ b = OCSPStatusRevoked) ->
  ceq a b = true -> a = b.
Proof.
  intros Ha Hb H. apply ceq_true in H. apply (coll_host (Q := Q)); [..|done];
    [destruct Ha as [-> | ->]|destruct Hb as [-> | ->]]; reflexivity.
Qed.

(** ** The clock under storage operations *)

(** A relation on worlds that every database call respects. *)
Class WorldRel (R : World -> World -> Prop) := {
  wr_preorder :: PreOrder R;
  wr_Now : preserves R Database.Now;
  wr_NewToken : preserves R NewToken;
  wr_call {A} (stmt : Tables -> result error (A * Tables)) : preserves R (call stmt);
  wr_Begin : preserves R Begin;
  wr_Commit : preserves R Commit;
  wr_Rollback {A} err : preserves R (Rollback (A := A) err)
}.

Ltac walk_step leaf :=
  match goal with
  | |- preserves _ (mbindM _ _) => apply preserves_bind; [apply _| |intros ?]
  | |- preserves _ (try _) => apply preserves_try
  | |- preserves _ (ret _) => apply preserves_ret; apply _
  | |- preserves _ (fail _) => apply preserves_fail; apply _
  | |- preserves _ (lift _) => apply preserves_lift; apply _
  | |- preserves _ (match ?x with _ => _ end) => destruct x
  | |- preserves _ Database.Now => apply wr_Now
  | |- preserves _ NewToken => apply wr_NewToken
  | |- preserves _ (call _) => apply wr_call
  | |- preserves _ (query _) => apply wr_call
  | |- preserves _ Begin => apply wr_Begin
  | |- preserves _ Commit => apply wr_Commit
  | |- preserves _ (Rollback _) => apply wr_Rollback
  | |- preserves _ (in_tx _) => unfold in_tx
  | |- preserves _ (count_positive _) => unfold count_positive
  | |- preserves _ _ => solve [leaf]
  end.
Ltac walk := repeat (cbv zeta; walk_step ltac:(eauto 3)).

Section world_rel.
Context (R : World -> World -> Prop) {WR : WorldRel R}.

Lemma walk_update_each challs chs : preserves R (update_each challs chs).
Proof.
  revert chs. induction challs as [|c challs IH]; intros [|ch chs]; simpl; unfold update_challenge; walk.
Qed.
Lemma walk_fresh_id fuel : preserves R (fresh_id fuel).
Proof. induction fuel as [|fuel IH]; simpl; unfold existingPending, existingFinal; walk. Qed.
Lemma walk_insert_challenges chs id : preserves R (insert_challenges chs id).
Proof. induction chs as [|c chs IH]; simpl; unfold insert_challenge; walk. Qed.
Lemma walk_revoke_loop fuel tbl ident now count : preserves R (revoke_loop fuel tbl ident now count).
Proof.
  revert count. induction fuel as [|fuel IH]; intros count; simpl;
    unfold getAuthorizationIDsByDomain, revokeAuthorizations; walk.
Qed.
Lemma walk_count_each domains earliest latest m : preserves R (count_each domains earliest latest m).
Proof.
  revert m. induction domains as [|d domains IH]; intros m; simpl; unfold countCertificatesByName; walk.
Qed.

Lemma walk_exec fs op : preserves R (exec fs op).
Proof.
  pose proof walk_update_each as H1. pose proof walk_fresh_id as H2. pose proof walk_insert_challenges as H3.
  pose proof walk_revoke_loop as H4. pose proof walk_count_each as H5.
  destruct op; unfold exec, ignore, MarkCertificateRevoked, GetRegistration, GetRegistrationByKey, NewRegistration,
    UpdateRegistration, CountRegistrationsByIP, GetAuthorization, GetValidAuthorizations,
    NewPendingAuthorization, UpdatePendingAuthorization, FinalizeAuthorization,
    RevokeAuthorizationsByDomain, CountPendingAuthorizations,
    CountInvalidAuthorizations, GetCertificate, GetCertificateStatus,
    AddCertificate, CountCertificatesRange, CountCertificatesByNames, CountFQDNSets, FQDNSetExists,
    GetSCTReceipt, selectRegistration_by_id, selectRegistration_by_key, selectPendingAuthz, selectAuthz,
    existingPending, existingFinal, getChallenges, SelectCertificate, SelectCertificateStatus,
    selectSctReceipt, DeactivateRegistration, DeactivateAuthorization, AddSCTReceipt, updateChallenges,
    insert_registration, update_registration, insert_pending, update_pending, delete_pending, insert_authz,
    update_status, insert_certificate, insert_certificate_status, addFQDNSet, addIssuedNames, getChallenges,
    existingPending; walk.
Qed.
End world_rel.

Definition ticking (w w' : World) : Prop := clock_ok w -> clock_ok w' /\ w_now w <= w_now w'.
#[local] Instance ticking_rel : WorldRel ticking.
Proof.
  assert (forall w w', w_ticks w' = w_ticks w -> w_now w' = w_now w -> ticking w w') as Hsame.
  { intros w w' Ht Hn. unfold ticking, clock_ok. rewrite Ht, Hn. auto with lia. }
  split.
  - split; [unfold ticking; auto with lia|]. intros w1 w2 w3 H1 H2 H. destruct (H1 H) as [K1 ?].
    destruct (H2 K1) as [? ?]. split; [done|lia].
  - intros w r w' [= <- <-]. unfold ticking, clock_ok, pop_tick. simpl.
    intros [Ht Hn]. destruct Ht as [|d ds Hd Hds]; simpl; split_and!; auto; lia.
  - intros w r w' [= <- <-]. by apply Hsame.
  - intros A stmt w r w' H. unfold call in H.
    apply Hsame; repeat case_in H; injection H as <- <-; try done; by destruct (f_applied _).
  - intros w r w' H. unfold Begin in H. apply Hsame; case_in H; by injection H as <- <-.
  - intros w r w' H. unfold Commit in H.
    apply Hsame; repeat case_in H; injection H as <- <-; by try destruct (f_applied _).
  - intros A err w r w' [= <- <-]. by apply Hsame.
Qed.

(** A transaction leaves the tables alone or leaves what its body made of them. *)
Lemma in_tx_world {A} (body : DB A) w r w' :
  preserves (inside SaTransactions.untouched) body -> tx w = None -> in_tx body w = (r, w') ->
  tx w' = None /\
  (db w' = db w \/ exists a w1, body (set_tx (pop_fault w) (Some (db w))) = (Ok a, w1) /\ db w' = db w1 /\ w_now w' = w_now w1).
Proof.
  intros Hb Htx. unfold in_tx, mbindM, Begin, try, Rollback, Commit, ret.
  destruct (next_fault w) as [f|] eqn:Ef; [intros [= <- <-]; auto|].
  destruct (body _) as [[a|e] w1] eqn:Eb; pose proof (Hb _ _ _ Eb) as [Etx _]; simpl in Etx.
  - destruct (next_fault w1) as [g|]; [destruct (f_applied g)|]; intros [= <- <-]; simpl; split; try done.
    + right. by exists a, w1.
    + left. by rewrite Etx.
    + right. by exists a, w1.
  - intros [= <- <-]. simpl. rewrite Etx. auto.
Qed.

Lemma row_revoked now now' t k row reason v : row_ok now t k row -> now <= now' ->
  row_ok now' t k (set_version (revoke_status row now' reason) v).
Proof.
  intros [H1 H2 H3 H4] Hn. split; simpl; [done|by right|lia|].
  destruct H4 as [?|(cert & st & ? & ? & _)]; [by left|right]. exists cert, st. split_and!; [done..|]. right. split; [done|lia].
Qed.

Lemma ticks_of fs op w r w' : exec fs op w = (r, w') -> clock_ok w -> clock_ok w' /\ w_now w <= w_now w'.
Proof. intros H. by apply (walk_exec ticking fs op) in H. Qed.

Lemma call_now {A} (stmt : Tables -> result error (A * Tables)) w r w' : call stmt w = (r, w') -> w_now w' = w_now w.
Proof. unfold call. intros H. repeat case_in H; injection H as <- <-; try done; by destruct (f_applied _). Qed.

(** Lookups only read; [R] is the identity on tables. *)
Definition same_tables (t t' : Tables) : Prop := t' = t.
#[local] Instance same_tables_preorder : PreOrder same_tables.
Proof. split; [by intros ?|]. intros ? ? ?. unfold same_tables. congruence. Qed.

(** The body of the transaction of [MarkCertificateRevoked]. *)
Lemma mark_body serial reason w u w' :
  (let! r := try (SelectCertificateStatus serial) in
   match r with
   | Err ErrNoRows => fail (PlainError ("No certificate with serial " ++s serial))
   | Err err => fail err
   | Ok statusObj =>
       let! now := Database.Now in
       let! n := update_status (revoke_status statusObj now reason) in
       if n =? 0 then fail (Berrors.InternalServerError "no certificate updated") else ret tt
   end) w = (Ok u, w') ->
  exists row, certificateStatus (db w) !! coll serial = Some row /\
    db w' = set_certs (db w) (issuedNames (db w)) (certificates (db w))
      (<[coll (cs_Serial row) := set_version (revoke_status row (w_now w) reason) (insert_version (cs_LockCol row))]>
         (certificateStatus (db w))).
Proof.
  unfold mbindM at 1, try. destruct (SelectCertificateStatus serial w) as [r1 w1] eqn:E1.
  pose proof (call_now _ _ _ _ E1) as Hn1.
  destruct r1 as [row|e]; [|by destruct e]. apply query_Ok in E1 as (Hrow & Hd1 & _).
  intros H. rewrite bind_Now in H. unfold mbindM at 1 in H.
  destruct (update_status _ _) as [[n|e] w2] eqn:E2; [|done]. apply call_Ok in E2 as [E2 _].
  destruct (n =? 0) eqn:En; [done|]. injection H as _ <-. exists row.
  destruct (certificateStatus (db w) !! coll serial) as [row'|] eqn:Er; [|done]. injection Hrow as ->.
  simpl in E2. rewrite Hd1, Hn1 in E2. split; [done|].
  destruct (certificateStatus (db w) !! coll (cs_Serial row)) as [old|]; [destruct (_ =? _)|]; [by injection E2|..].
  all: unfold versioned_result in E2; destruct (_ && _); [done|]; injection E2 as <- _; done.
Qed.

(** Lookups leave the tables alone and take time. *)
Definition reading (w w' : World) : Prop := ticking w w' /\ db w' = db w /\ tx w' = tx w.
Lemma reads {A} (m : DB A) : preserves ticking m -> preserves (inside same_tables) m -> preserves reading m.
Proof. intros H1 H2 w r w' E. destruct (H2 _ _ _ E). split; [by eapply H1|done]. Qed.

Lemma reading_ok w w' : reading w w' -> world_ok w -> world_ok w' /\ later w w'.
Proof.
  intros (Ht & D & T) (Htx & Hc & Hr). destruct (Ht Hc) as [Hc' Hn]. unfold world_ok, later. rewrite D, T.
  split_and!; try done. by eapply rows_ok_later.
Qed.

Lemma GetCertificate_reading serial : preserves reading (GetCertificate serial).
Proof. apply reads; [unfold GetCertificate, SelectCertificate; walk|unfold GetCertificate, SelectCertificate; frame]. Qed.
Lemma GetCertificateStatus_reading serial : preserves reading (GetCertificateStatus serial).
Proof.
  apply reads; [unfold GetCertificateStatus, SelectCertificateStatus; walk|
    unfold GetCertificateStatus, SelectCertificateStatus; frame].
Qed.

Lemma marked_ok serial reason w r w' : world_ok w ->
  in_tx (let! r := try (SelectCertificateStatus serial) in
         match r with
         | Err ErrNoRows => fail (PlainError ("No certificate with serial " ++s serial))
         | Err err => fail err
         | Ok statusObj =>
             let! now := Database.Now in
             let! n := update_status (revoke_status statusObj now reason) in
             if n =? 0 then fail (Berrors.InternalServerError "no certificate updated") else ret tt
         end) w = (r, w') -> world_ok w'.
Proof.
  intros (Htx & Hc & Hr) H.
  assert (clock_ok w' /\ w_now w <= w_now w') as [Hc' Hn].
  { match type of H with ?m _ = _ => assert (preserves ticking m) as K; [|exact (K _ _ _ H Hc)] end.
    unfold SelectCertificateStatus, update_status. walk. }
  apply in_tx_world in H as [Htx' H]; [|unfold SelectCertificateStatus, update_status; frame; by statement|done].
  split; [done|]. split; [done|]. destruct H as [Hd|(u & w1 & H & Hd & _)]; rewrite Hd; [by eapply rows_ok_later|].
  apply mark_body in H as (row & Er & Hd1). rewrite Hd1. simpl in *. intros k row'. simpl.
  destruct (decide (coll (cs_Serial row) = k)) as [<-|Hne].
  - rewrite lookup_insert_eq. intros [= <-]. pose proof (Hr _ _ Er) as Hrow. pose proof (ro_key _ _ _ _ Hrow) as Hk.
    rewrite Hk. apply (row_ok_later (w_now w) _ (db w)); [done|done|]. by eapply row_revoked.
  - rewrite lookup_insert_ne by done. intros E. apply (row_ok_later (w_now w) _ (db w)); [done|done|by apply Hr].
Qed.

Lemma mark_ok serial reason w r w' : world_ok w -> MarkCertificateRevoked serial reason w = (r, w') -> world_ok w'.
Proof.
  intros Hw H. unfold MarkCertificateRevoked, mbindM at 1, try at 1 in H.
  destruct (GetCertificate serial w) as [r1 w1] eqn:E1. apply GetCertificate_reading, reading_ok in E1 as [E1 _]; [|done].
  destruct r1 as [c|]; [|by injection H as _ <-]. unfold mbindM at 1, try at 1 in H.
  destruct (GetCertificateStatus serial w1) as [r2 w2] eqn:E2.
  apply GetCertificateStatus_reading, reading_ok in E2 as [E2 _]; [|done].
  destruct r2 as [c2|]; [|by injection H as _ <-]. by eapply marked_ok.
Qed.

Lemma add_body cert cs x (digest : string) w d w' :
  (do! insert_certificate cert in
   do! insert_certificate_status cs in
   do! addIssuedNames x in
   do! addFQDNSet (x5_DNSNames x) (SerialToString (x5_SerialNumber x)) (x5_NotBefore x) (x5_NotAfter x) in
   ret digest) w = (Ok d, w') ->
  certificates (db w) ⊆ certificates (db w') /\
  certificates (db w') !! coll (cert_Serial cert) = Some cert /\
  certificateStatus (db w') = <[coll (cs_Serial cs) := set_version cs (insert_version (cs_LockCol cs))]> (certificateStatus (db w)).
Proof.
  intros H. apply mbindM_Ok in H as ([] & w1 & H1 & H). apply mbindM_Ok in H as ([] & w2 & H2 & H).
  apply mbindM_Ok in H as ([] & w3 & H3 & H). apply mbindM_Ok in H as ([] & w4 & H4 & H). injection H as _ <-.
  apply call_Ok in H1 as [H1 _]. apply call_Ok in H2 as [H2 _]. apply call_Ok in H3 as [H3 _]. apply call_Ok in H4 as [H4 _].
  assert (same_certs (db w2) (db w4)) as [-> ->].
  { cbv zeta in *. transitivity (db w3).
    - repeat case_in H3; injection H3 as <-; by split.
    - repeat case_in H4; injection H4 as <-; by split. }
  repeat case_in H1. repeat case_in H2. injection H1 as H1. injection H2 as H2. rewrite <- H2. simpl.
  rewrite <- H1. simpl. rewrite lookup_insert_eq. split; [|done]. by apply insert_subseteq.
Qed.

Lemma add_ok der regID ocsp w r w' : (ocsp <> EmptyString -> attests ocsp der OCSPStatusGood) ->
  world_ok w -> AddCertificate der regID ocsp w = (r, w') -> world_ok w'.
Proof.
  intros Ha (Htx & Hc & Hr) H.
  assert (clock_ok w' /\ w_now w <= w_now w') as [Hc' Hn].
  { assert (preserves ticking (AddCertificate der regID ocsp)) as K; [|exact (K _ _ _ H Hc)].
    unfold AddCertificate, insert_certificate, insert_certificate_status, addIssuedNames, addFQDNSet. walk. }
  unfold AddCertificate in H. destruct (ParseCertificate der) as [x|e] eqn:Ep; [|by injection H as _ <-].
  rewrite bind_lift, bind_Now in H. cbv zeta in H.
  set (upd := if len ocsp =? 0 then ret zeroTime else Database.Now) in H. unfold mbindM at 1 in H.
  destruct (upd (pop_tick w)) as [ru w2] eqn:Eu.
  assert (exists u, ru = Ok u /\ db w2 = db w /\ tx w2 = tx w /\ clock_ok w2 /\ u <= w_now w2 /\ (ocsp = EmptyString -> u = zeroTime))
    as (u & -> & D2 & T2 & C2 & Hu & Hz).
  { destruct (wr_Now (R := ticking) w _ _ eq_refl Hc) as [C1 _]. unfold upd in Eu. destruct (Z.eqb_spec (len ocsp) 0) as [E|E].
    - injection Eu as <- <-. exists zeroTime. split_and!; try done. apply C1.
    - injection Eu as <- <-. exists (w_now (pop_tick w)).
      destruct (wr_Now (R := ticking) (pop_tick w) _ _ eq_refl C1) as [C3 ?]. split_and!; try done. intros ->. by destruct E. }
  assert (w_now w2 <= w_now w') as Hn2.
  { match type of H with ?m _ = _ => assert (preserves ticking m) as K; [|apply (K _ _ _ H C2)] end.
    unfold insert_certificate, insert_certificate_status, addIssuedNames, addFQDNSet. walk. }
  apply in_tx_world in H as [Htx' H]; [| |by rewrite T2].
  2:{ unfold insert_certificate, insert_certificate_status, addIssuedNames, addFQDNSet. frame; by statement. }
  split; [done|]. split; [done|].
  destruct H as [Hd|(d & w1 & H & Hd & _)]; rewrite Hd, ?D2; [by apply (rows_ok_later (w_now w) _ (db w))|].
  apply add_body in H as (Hcs & Hck & Hst). simpl in *. rewrite D2 in *. intros k row. rewrite Hst.
  destruct (decide (coll (SerialToString (x5_SerialNumber x)) = k)) as [<-|Hne].
  - rewrite lookup_insert_eq. intros [= <-]. split; simpl; [done|by left|lia|].
    destruct (decide (ocsp = EmptyString)) as [->|Ho]; [left; auto|right]. eexists _, _. split; [done|]. simpl. auto.
  - rewrite lookup_insert_ne by done. intros E. apply (row_ok_later (w_now w) _ (db w)); [done|done|by apply Hr].
Qed.

(** ** The storage authority keeps the tables truthful *)

(** An OCSP response that comes with a new certificate says that it is good. *)
Definition op_ok (op : sa_op) : Prop :=
  match op with
  | OpAddCertificate der _ ocsp => ocsp <> EmptyString -> attests ocsp der OCSPStatusGood
  | _ => True
  end.

Lemma exec_ok fs op w r w' : op_ok op -> world_ok w -> exec fs op w = (r, w') -> world_ok w' /\ later w w'.
Proof.
  intros Hop Hw H. pose proof Hw as (Htx & Hc & Hr). destruct (ticks_of _ _ _ _ _ H Hc) as [Hc' Hn].
  assert (later w w') as Hl.
  { split; [|done]. by destruct (frame_exec _ _ _ grows fs op ltac:(by destruct op) _ _ _ H Htx) as [_ [_ ? _ _ _ _ _ _]]. }
  split; [|done].
  destruct (certificate_ops op) as [Ha|[(serial & reason & ->)|(der & regID & ocsp & ->)]].
  - destruct (frame_exec _ _ _ same_certs fs op Ha _ _ _ H Htx) as [Htx' [E1 E2]].
    split; [done|]. split; [done|]. apply (rows_ok_later (w_now w) _ (db w)); [done|by rewrite E1|done|done].
  - unfold exec, ignore, mbindM, try in H. destruct (MarkCertificateRevoked serial reason w) as [x w1] eqn:E.
    injection H as _ <-. by eapply mark_ok.
  - unfold exec, ignore, mbindM, try in H. destruct (AddCertificate der regID ocsp w) as [x w1] eqn:E.
    injection H as _ <-. by eapply add_ok.
Qed.

(** What another process does to the database between two calls of the updater. *)
Definition benign (f : World -> World) : Prop := forall w, world_ok w -> world_ok (f w) /\ later w (f w).

Lemma storage_is_benign fs op : op_ok op -> benign (fun w => snd (exec fs op w)).
Proof. intros Hop w Hw. destruct (exec fs op w) as [r w'] eqn:E. by eapply exec_ok. Qed.

Lemma benign_id : benign id.
Proof. done. Qed.
Lemma benign_compose f g : benign f -> benign g -> benign (fun w => g (f w)).
Proof.
  intros Hf Hg w Hw. destruct (Hf w Hw) as [H1 L1]. destruct (Hg _ H1) as [H2 L2]. split; [done|by etransitivity].
Qed.
Lemma run_is_benign ops : Forall (fun '(_, op) => op_ok op) ops -> benign (fun w => snd (run ops w)).
Proof.
  induction 1 as [|[fs op] ops Hop _ IH]; [exact benign_id|].
  intros w Hw. unfold run. simpl. unfold mbindM. destruct (exec fs op w) as [r w1] eqn:E.
  destruct (exec_ok _ _ _ _ _ Hop Hw E) as [H1 L1]. destruct r as [[]|e]; [|done].
  destruct (IH _ H1) as [H2 L2]. split; [done|by etransitivity].
Qed.

(** ** The updater keeps the tables truthful *)

Section updater.
Context {C : Type}.
Context (cac : OCSPSigningRequest -> M (World * C) error string) (sac : StorageLookups (World * C))
        (pubc : Publisher (World * C)).
Notation St := (State C).
Notation UM := (M (State C) error).

(** A call of a peer that leaves the tables truthful. *)
Definition peer_ok {A} (m : M (World * C) error A) : Prop :=
  forall w c r w' c', m (w, c) = (r, (w', c')) -> world_ok w -> world_ok w' /\ later w w'.

(** What the updater relies on: the CA signs what it is asked to and does not touch the
    database; the SA finds the certificate with the serial number; the publisher only adds
    receipts. *)
Record peers_ok : Prop := {
  cac_ok req w c r w' c' : cac req (w, c) = (r, (w', c')) -> w' = w /\
    forall response, r = Ok response -> attests response (os_CertDER req) (os_Status req);
  sac_ok serial : peer_ok (GrpcStorage.GetCertificate _ sac serial);
  sac_finds serial w c cert w' c' : GrpcStorage.GetCertificate _ sac serial (w, c) = (Ok cert, (w', c')) ->
    exists stored, certificates (db w') !! coll serial = Some stored /\ cert_DER stored = cert_DER cert;
  pubc_ok der : peer_ok (SubmitToCT _ pubc der);
  pubc_single_ok uri key der : peer_ok (SubmitToSingleCT _ pubc uri key der)
}.
Context (PO : peers_ok).

Definition inv (s : St) : Prop := world_ok (st_world s) /\ Forall benign (st_others s).
Definition after (s s' : St) : Prop := later (st_world s) (st_world s').
#[local] Instance after_preorder : PreOrder after.
Proof. split; [intros s; unfold after; reflexivity|]. intros s1 s2 s3. unfold after. by etransitivity. Qed.

(** [m], started when [P] holds, keeps the invariant and ends with [Post]. *)
Definition hoare {A} (P : St -> Prop) (m : UM A) (Post : A -> St -> Prop) : Prop :=
  forall s r s', inv s -> P s -> m s = (r, s') -> inv s' /\ after s s' /\ forall a, r = Ok a -> Post a s'.
Definition stable (P : St -> Prop) : Prop := forall s s', after s s' -> P s -> P s'.
Notation any := (fun _ : St => True).

Lemma hoare_bind {A B} P (m : UM A) (k : A -> UM B) Mid Post :
  hoare P m Mid -> (forall a, hoare (Mid a) (k a) Post) -> hoare P (mbindM m k) Post.
Proof.
  intros Hm Hk s r s' HI HP E. unfold mbindM in E. destruct (m s) as [[a|e] s1] eqn:E1.
  - destruct (Hm _ _ _ HI HP E1) as (HI1 & L1 & HQ). destruct (Hk a _ _ _ HI1 (HQ _ eq_refl) E) as (? & L2 & ?).
    split_and!; [done|by etransitivity|done].
  - destruct (Hm _ _ _ HI HP E1) as (HI1 & L1 & _). injection E as <- <-. split_and!; [done..|]. by intros.
Qed.

Lemma hoare_try {A} P (m : UM A) Post : hoare P m Post ->
  hoare P (try m) (fun r s => forall a, r = Ok a -> Post a s).
Proof.
  intros Hm s r s' HI HP E. unfold try in E. destruct (m s) as [x s1] eqn:E1. injection E as <- <-.
  destruct (Hm _ _ _ HI HP E1) as (? & ? & HQ). split_and!; [done..|]. intros a [= <-]. exact HQ.
Qed.

Lemma hoare_ret {A} P (a : A) (Post : A -> St -> Prop) : (forall s, P s -> Post a s) -> hoare P (ret a) Post.
Proof. intros H s r s' HI HP [= <- <-]. split_and!; [done|reflexivity|]. intros a' [= <-]. auto. Qed.

Lemma hoare_fail {A} P e (Post : A -> St -> Prop) : hoare P (fail e) Post.
Proof. intros s r s' HI HP [= <- <-]. split_and!; [done|reflexivity|]. by intros. Qed.

Lemma hoare_post {A} (P P' : St -> Prop) (m : UM A) (Post Post' : A -> St -> Prop) :
  (forall s, P s -> P' s) -> (forall a s, Post' a s -> Post a s) -> hoare P' m Post' -> hoare P m Post.
Proof. intros H1 H2 Hm s r s' HI HP E. destruct (Hm _ _ _ HI (H1 _ HP) E) as (? & ? & ?). eauto. Qed.

(** What stays true can be carried over any action. *)
Lemma hoare_frame {A} F P (m : UM A) Post : stable F -> hoare P m Post ->
  hoare (fun s => F s /\ P s) m (fun a s => F s /\ Post a s).
Proof.
  intros HF Hm s r s' HI [HFs HP] E. destruct (Hm _ _ _ HI HP E) as (? & L & ?). split_and!; [done..|].
  intros a Ha. split; [by eapply HF|auto].
Qed.

Lemma hoare_forM {A} P (l : list A) (body : A -> UM unit) :
  (forall x, x ∈ l -> hoare P (body x) (fun _ => P)) -> hoare P (forM l body) (fun _ => P).
Proof.
  induction l as [|x l IH]; intros H; simpl; [by apply hoare_ret|].
  eapply hoare_bind; [apply H; left|]. intros ?. cbn beta. apply IH. intros y Hy. apply H. by right.
Qed.

Lemma hoare_yield P : stable P -> hoare P yield (fun _ => P).
Proof.
  intros HP s r s' [Hw Ho] Hs [= <- <-]. destruct (st_others s) as [|f o] eqn:Eo.
  - split_and!; [split; [done|by rewrite Eo]|reflexivity|done].
  - inversion Ho as [|? ? Hf Ho']; subst. destruct (Hf _ Hw) as [Hw' L]. split_and!; [by split|done|].
    intros a _. eapply HP; [|done]. exact L.
Qed.

Lemma hoare_step {A} P (m : UM A) Post : stable P ->
  (forall s r s', inv s -> P s -> m s = (r, s') -> inv s' /\ after s s' /\ forall a, r = Ok a -> Post a s') ->
  hoare P (do! yield in m) Post.
Proof. intros HP Hm. eapply hoare_bind; [by apply hoare_yield|]. intros ?. exact Hm. Qed.

Lemma hoare_dbMap {A} P (m : DB A) (Post : A -> St -> Prop) : stable P ->
  (forall s r w', world_ok (st_world s) -> P s -> m (st_world s) = (r, w') ->
     world_ok w' /\ later (st_world s) w' /\ forall a, r = Ok a -> Post a (set_world s w' (st_peers s))) ->
  hoare P (dbMap m) Post.
Proof.
  intros HP Hm. apply hoare_step; [done|]. intros s r s' [Hw Ho] Hs E.
  destruct (m (st_world s)) as [x w'] eqn:Em. injection E as <- <-. by destruct (Hm _ _ _ Hw Hs Em) as (? & ? & ?).
Qed.

Lemma hoare_rpc {A} P (m : M (World * C) error A) (Post : A -> St -> Prop) : stable P -> peer_ok m ->
  (forall s a w' c', P s -> m (st_world s, st_peers s) = (Ok a, (w', c')) -> Post a (set_world s w' c')) ->
  hoare P (rpc m) Post.
Proof.
  intros HP Hm HQ. apply hoare_step; [done|]. intros s r s' [Hw Ho] Hs E.
  destruct (m _) as [x [w' c']] eqn:Em. injection E as <- <-. destruct (Hm _ _ _ _ _ Em Hw) as [? ?].
  split_and!; [by split|done|]. intros a ->. eauto.
Qed.

Lemma hoare_Now P : stable P -> hoare P Ocsp.Now (fun now s => P s /\ now <= w_now (st_world s)).
Proof.
  intros HP s r s' [Hw Ho] Hs [= <- <-]. pose proof Hw as (Htx & Hc & Hr).
  destruct (wr_Now (R := ticking) (st_world s) _ _ eq_refl Hc) as [Hc' Hn].
  assert (later (st_world s) (pop_tick (st_world s))) as L by by split.
  split_and!; [split; [split; [done|split; [done|]]|done]|done|].
  - simpl. by eapply rows_ok_later.
  - intros a [= <-]. split; [|done]. eapply HP; [|done]. exact L.
Qed.

(** A query sees truthful tables. *)
Lemma hoare_query {A} (q : Tables -> result error A) (Post : A -> Prop) :
  (forall now t a, rows_ok now t -> q t = Ok a -> Post a) ->
  hoare any (dbMap (query q)) (fun a _ => Post a).
Proof.
  intros HQ. apply hoare_dbMap; [done|]. intros s r w' Hw _ E.
  assert (reading (st_world s) w') as HR.
  { eapply reads; [apply wr_call|apply preserves_query; apply _|exact E]. }
  destruct (reading_ok _ _ HR Hw) as [? ?]. split_and!; [done..|]. intros a ->.
  apply query_Ok in E as [E _]. destruct Hw as (_ & _ & Hr). eauto.
Qed.

Definition known (cs : CertificateStatus) : Prop := cs_Status cs = OCSPStatusGood \/ cs_Status cs = OCSPStatusRevoked.
Lemma rows_known now t cs : rows_ok now t -> cs ∈ statuses_of t -> known cs.
Proof.
  intros Hr. unfold statuses_of. rewrite list_elem_of_fmap. intros ([k row] & -> & Hk).
  apply elem_of_map_to_list in Hk. by apply Hr in Hk as [_ ? _ _].
Qed.
Lemma limit_sub {A} n (rows rows' : list A) : limit n rows = Ok rows' -> forall x, x ∈ rows' -> x ∈ rows.
Proof.
  unfold limit. destruct (n <? 0); [done|]. intros [= <-] x Hx. apply elem_of_take in Hx as (i & Hi & _).
  by eapply list_elem_of_lookup_2.
Qed.

(** ** A response on its way into the table *)

Definition response_for (cs : CertificateStatus) (response : string) (s : St) : Prop :=
  exists cert, certificates (db (st_world s)) !! coll (cs_Serial cs) = Some cert /\
    attests response (cert_DER cert) (cs_Status cs).
Definition goroutine_ok (g : goroutine) (s : St) : Prop :=
  match g with
  | Reading cs => known cs
  | Signing cs cert => known cs /\ certificates (db (st_world s)) !! coll (cs_Serial cs) = Some cert
  | Stamping cs response => known cs /\ response_for cs response s
  | Storing meta => known meta /\ response_for meta (cs_OCSPResponse meta) s /\ cs_OCSPLastUpdated meta <= w_now (st_world s)
  end.
Lemma response_for_stable cs response : stable (response_for cs response).
Proof. intros s s' [L _] (cert & E & ?). exists cert. split; [by eapply lookup_weaken|done]. Qed.
Lemma goroutine_stable g : stable (goroutine_ok g).
Proof.
  intros s s' L. destruct g as [cs|cs cert|cs response|meta]; simpl; [done|..].
  - intros [? ?]. split; [done|]. eapply lookup_weaken; [done|apply L].
  - intros [? ?]. split; [done|]. by eapply response_for_stable.
  - intros (? & ? & ?). split_and!; [done|by eapply response_for_stable|]. destruct L as [_ L]. lia.
Qed.

Lemma update_rows_ok serial p f w r w' : world_ok w ->
  (forall row, certificateStatus (db w) !! coll serial = Some row -> p row = true ->
     row_ok (w_now w) (db w) (coll serial) (f row)) ->
  update_rows serial p f w = (r, w') -> world_ok w' /\ later w w'.
Proof.
  intros (Htx & Hc & Hr) Hf E.
  assert (clock_ok w' /\ w_now w' = w_now w) as [Hc' Hn].
  { pose proof (call_now _ _ _ _ E). by destruct (wr_call (R := ticking) _ _ _ _ E Hc). }
  assert (tx w' = None /\ (db w' = db w \/ db w' = set_certs (db w) (issuedNames (db w)) (certificates (db w))
    (alter (fun row => if p row then f row else row) (coll serial) (certificateStatus (db w))))) as [Htx' D].
  { unfold update_rows, call in E. destruct (next_fault w) as [[e []]|]; injection E as _ <-; simpl; auto. }
  assert (certificates (db w') = certificates (db w)) as Hcs by (destruct D as [-> | ->]; done).
  split; [|split; [by rewrite Hcs|lia]]. split; [done|]. split; [done|]. rewrite Hn.
  destruct D as [-> |D]; [done|]. rewrite D. intros k row. simpl.
  destruct (decide (coll serial = k)) as [<-|Hne].
  - rewrite lookup_alter_eq. destruct (certificateStatus (db w) !! coll serial) as [old|] eqn:Eo; [|done].
    intros [= <-]. apply (row_ok_later (w_now w) _ (db w)); [done|done|]. destruct (p old) eqn:Ep; auto.
  - rewrite lookup_alter_ne by done. intros Ek. apply (row_ok_later (w_now w) _ (db w)); [done|done|by apply Hr].
Qed.

Lemma hoare_store meta : hoare (goroutine_ok (Storing meta)) (storeResponse meta) (fun _ _ => True).
Proof.
  apply hoare_dbMap; [apply goroutine_stable|]. intros s r w' Hw (Hk & (cert & Ec & Ha) & Hp) E.
  eapply update_rows_ok in E as [? ?]; [by split_and!|done|].
  intros row Er Es. destruct Hw as (_ & _ & Hr). pose proof (Hr _ _ Er) as [H1 H2 H3 H4].
  apply status_eq in Es; [|done..]. split; simpl; [done..|]. right. exists cert, (cs_Status meta). auto.
Qed.

Lemma hoare_expire cs : hoare any (markExpired cs) (fun _ _ => True).
Proof.
  apply hoare_dbMap; [done|]. intros s r w' Hw _ E. eapply update_rows_ok in E as [? ?]; [by split_and!|done|].
  intros row Er _. destruct Hw as (_ & _ & Hr). by destruct (Hr _ _ Er) as [H1 H2 H3 H4].
Qed.

(** ** Goroutines *)

Lemma cac_peer req : peer_ok (cac req).
Proof. intros w c r w' c' E Hw. apply (cac_ok PO) in E as [-> _]. split; [done|reflexivity]. Qed.

(** A certificate with the serial number of [cs] and these bytes is stored. *)
Definition stored_as (cs : CertificateStatus) (cert : Certificate) (s : St) : Prop :=
  exists stored, certificates (db (st_world s)) !! coll (cs_Serial cs) = Some stored /\ cert_DER stored = cert_DER cert.
Lemma stored_as_stable cs cert : stable (stored_as cs cert).
Proof. intros s s' [L _] (stored & E & ?). exists stored. split; [by eapply lookup_weaken|done]. Qed.

Lemma hoare_sign cs st cert :
  hoare (stored_as cs cert) (rpc (cac (sign_request cs st cert)))
        (fun response s => stored_as cs cert s /\ attests response (cert_DER cert) st).
Proof.
  apply hoare_rpc; [apply stored_as_stable|apply cac_peer|].
  intros s a w' c' E Ec. apply (cac_ok PO) in Ec as [-> Ha]. split; [done|]. by apply Ha.
Qed.

Lemma hoare_select serial :
  hoare any (dbMap (SelectCertificate serial)) (fun cert s => certificates (db (st_world s)) !! coll serial = Some cert).
Proof.
  apply hoare_dbMap; [done|]. intros s r w' Hw _ E.
  assert (reading (st_world s) w') as HR.
  { eapply reads; [apply wr_call|apply preserves_query; apply _|exact E]. }
  destruct (reading_ok _ _ HR Hw) as [? ?]. split_and!; [done..|]. intros cert ->.
  apply query_Ok in E as [E [Hd _]]. simpl. rewrite Hd. case_in E. by simplify_eq.
Qed.

Lemma hoare_given {A} (F : Prop) P (m : UM A) Post : (F -> hoare P m Post) -> hoare (fun s => F /\ P s) m Post.
Proof. intros H s r s' HI [HF HP]. by apply H. Qed.

Lemma hoare_advance g : hoare (goroutine_ok g) (advance cac g) (fun g' s => forall h, g' = Some h -> goroutine_ok h s).
Proof.
  destruct g as [cs|cs cert|cs response|meta]; simpl.
  - apply (hoare_post _ (fun s => known cs /\ True) _ _ _ (fun _ H => conj H I) (fun _ _ H => H)).
    apply hoare_given. intros Hk. eapply hoare_bind; [by apply (hoare_Now any)|]. intros n. cbn beta.
    eapply hoare_bind; [eapply hoare_post; [|intros ? ? K; exact K|by apply hoare_try, hoare_select]; done|].
    intros [cert|e]; apply hoare_ret; intros s' H h; [intros [= <-]; simpl; auto|done].
  - apply hoare_given. intros Hk. eapply hoare_bind; [eapply hoare_post; [|intros ? ? K; exact K|apply hoare_try, hoare_sign]|].
    { intros s E. by exists cert. }
    intros [response|e]; apply hoare_ret; intros s' H h; [intros [= <-]|done].
    destruct (H _ eq_refl) as [(stored & ? & HD) ?]. split; [done|]. exists stored. by rewrite HD.
  - apply hoare_given. intros Hk. eapply hoare_bind; [apply hoare_Now, response_for_stable|].
    intros now. apply hoare_ret. intros s' [H Hn] h [= <-]. by split_and!.
  - eapply hoare_bind; [apply hoare_try, hoare_store|]. intros r. by apply hoare_ret.
Qed.

Lemma stable_Forall gs : stable (fun s => Forall (fun g => goroutine_ok g s) gs).
Proof. intros s s' L H. eapply Forall_impl; [exact H|]. intros g. by apply goroutine_stable. Qed.

Lemma hoare_turn P : (forall s t, P s -> P (set_turns s t)) -> hoare P next_turn (fun _ => P).
Proof. intros HP s r s' [Hw Ho] Hs [= <- <-]. split_and!; [by split|unfold after; reflexivity|auto]. Qed.

Lemma goroutine_set_turns g s t : goroutine_ok g s -> goroutine_ok g (set_turns s t).
Proof. apply goroutine_stable. unfold after. reflexivity. Qed.

Lemma hoare_schedule fuel capacity waiting : forall running, Forall known waiting ->
  hoare (fun s => Forall (fun g => goroutine_ok g s) running) (schedule cac fuel capacity waiting running) (fun _ _ => True).
Proof.
  revert waiting. induction fuel as [|fuel IH]; intros waiting running Hw; simpl; [apply hoare_fail|].
  set (choices := (length running + _)%nat). destruct choices as [|n].
  { case_bool_decide; [by apply hoare_ret|apply hoare_fail]. }
  eapply hoare_bind; [apply hoare_turn; intros s t H; eapply Forall_impl; [exact H|intros; by apply goroutine_set_turns]|].
  intros turn. cbn beta. destruct (running !! (turn mod S n)%nat) as [g|] eqn:Eg.
  - set (i := (turn mod S n)%nat) in *. set (rest := take i running ++ drop (S i) running).
    eapply hoare_bind; [eapply hoare_post; [|intros ? ? K; exact K|apply (hoare_frame (fun s => Forall (fun g => goroutine_ok g s) rest)
      (goroutine_ok g) _ _ (stable_Forall rest) (hoare_advance g))]|].
    + intros s H. rewrite <- (take_drop_middle _ _ _ Eg) in H. unfold rest. rewrite Forall_app, Forall_cons in H.
      rewrite Forall_app. tauto.
    + intros g'. apply (hoare_post _ (fun s => Forall (fun g => goroutine_ok g s)
        (take i running ++ option_list g' ++ drop (S i) running)) _ _ (fun _ _ => True)); [|done|by apply IH].
      intros s [H Hg]. unfold rest in H. rewrite Forall_app in H.
      rewrite !Forall_app. split; [apply H|split; [|apply H]]. destruct g' as [h|]; simpl; auto.
  - destruct waiting as [|cs waiting]; [by apply hoare_ret|]. apply Forall_cons in Hw as [Hk Hw].
    apply (hoare_post _ (fun s => Forall (fun g => goroutine_ok g s) (running ++ [Reading cs])) _ _ (fun _ _ => True));
      [|done|by apply IH]. intros s H. rewrite Forall_app. auto.
Qed.

Lemma hoare_generate updater statuses : Forall known statuses ->
  hoare any (generateOCSPResponses cac updater statuses) (fun _ _ => True).
Proof.
  intros H. unfold generateOCSPResponses. destruct (_ <? 0); [apply hoare_fail|].
  eapply hoare_post; [|intros ? ? K; exact K|by apply hoare_schedule]. intros. constructor.
Qed.

(** ** Ticks *)

Lemma hoare_or_none {A} P (m : UM (list A)) (Post : list A -> St -> Prop) : hoare P m Post -> (forall s, Post [] s) ->
  hoare P (or_none m) Post.
Proof.
  intros Hm H0. eapply hoare_bind; [by apply hoare_try|]. intros [l|e]; [apply hoare_ret; auto|].
  destruct e; (apply hoare_fail || (apply hoare_ret; auto)).
Qed.

Lemma hoare_filtered batchSize (p : CertificateStatus -> Prop) `{!forall x, Decision (p x)} :
  hoare any (dbMap (query (fun t => limit batchSize (filter p (statuses_of t))))) (fun l _ => Forall (fun cs => known cs /\ p cs) l).
Proof.
  apply hoare_query. intros now t l Hr E. apply Forall_forall. intros cs Hcs.
  eapply limit_sub in Hcs; [|done]. apply list_elem_of_filter in Hcs as [? ?]. split; [by eapply rows_known|done].
Qed.

Lemma hoare_new_tick updater batchSize : hoare any (newCertificateTick cac updater batchSize) (fun _ _ => True).
Proof.
  eapply hoare_bind; [apply hoare_or_none; [apply hoare_filtered|]|]; [intros ?; constructor|].
  intros l. apply (hoare_post _ (fun s => Forall known l /\ True) _ _ (fun _ _ => True)); [|auto|].
  - intros s H. split; [|done]. eapply Forall_impl; [exact H|naive_solver].
  - apply hoare_given. apply hoare_generate.
Qed.

Lemma hoare_stale updater oldest batchSize :
  hoare any (findStaleOCSPResponses updater oldest batchSize) (fun l _ => Forall known l).
Proof.
  eapply hoare_bind; [by apply (hoare_Now any)|]. intros now. cbn beta.
  eapply hoare_post; [|intros ? ? K; exact K|apply hoare_or_none; [apply hoare_query|]]; [done| |intros ?; constructor].
  intros n t l Hr E. unfold rbind in E. case_in E. injection E as <-. apply Forall_fmap, Forall_forall. intros cs Hcs.
  eapply limit_sub in Hcs; [|done]. rewrite merge_sort_Permutation in Hcs.
  apply list_elem_of_filter in Hcs as [_ Hcs]. by eapply (rows_known n t cs).
Qed.

Lemma hoare_old_tick updater batchSize : hoare any (oldOCSPResponsesTick cac updater batchSize) (fun _ _ => True).
Proof.
  eapply hoare_bind; [by apply (hoare_Now any)|]. intros start. cbn beta.
  eapply hoare_bind; [eapply hoare_post; [|intros ? ? K; exact K|apply hoare_stale]; done|]. intros l. cbn beta.
  apply (hoare_post _ (fun s => Forall known l /\ True) _ _ (fun _ _ => True)); [auto|auto|].
  apply hoare_given. intros Hl. eapply hoare_bind; [by apply (hoare_Now any)|]. intros n. cbn beta.
  eapply hoare_bind; [eapply hoare_post; [|intros ? ? K; exact K|apply (hoare_forM any)]; [done|]|].
  - intros cs _. destruct (_ && _); [|by apply hoare_ret]. eapply hoare_post; [| |apply hoare_expire]; done.
  - intros ?. by apply hoare_generate.
Qed.

(** The responses of [revokedCertificatesTick] say "revoked", like the rows they are for. *)
Lemma hoare_revoked_response updater cs : cs_Status cs = OCSPStatusRevoked ->
  hoare any (generateRevokedResponse cac sac updater cs) (fun meta => goroutine_ok (Storing meta)).
Proof.
  intros Hs. eapply hoare_bind; [apply (hoare_rpc _ _ (stored_as cs));
    [done|apply (sac_ok PO)|intros s a w' c' _; apply (sac_finds PO)]|].
  intros cert. eapply hoare_bind; [apply hoare_sign|]. intros response. cbn beta.
  apply (hoare_post _ (response_for cs response) _ _ (fun meta => goroutine_ok (Storing meta))); [|done|].
  { intros s [(stored & ? & HD) ?]. exists stored. by rewrite Hs, HD. }
  eapply hoare_bind; [apply hoare_Now, response_for_stable|]. intros now. cbn beta.
  eapply (hoare_bind _ _ _ (fun _ s => response_for cs response s /\ now <= w_now (st_world s))).
  - destruct (ccu updater); [|by apply hoare_ret]. intros s r s' [Hw Ho] HP [= <- <-].
    split_and!; [by split|unfold after; reflexivity|done].
  - intros ?. apply hoare_ret. intros s [H Hn]. split_and!; [by right|done|done].
Qed.

Lemma hoare_revoked_tick updater batchSize : hoare any (revokedCertificatesTick cac sac updater batchSize) (fun _ _ => True).
Proof.
  eapply hoare_bind; [apply hoare_filtered|]. intros l. cbn beta.
  apply (hoare_post _ (fun s => Forall (fun cs => known cs /\ outdated_revocation cs = true) l /\ True) _ _ (fun _ _ => True));
    [auto|auto|]. apply hoare_given. intros Hl. apply (hoare_forM any). intros cs Hcs.
  rewrite Forall_forall in Hl. apply Hl in Hcs as [Hk Ho]. unfold outdated_revocation in Ho. apply andb_true_iff in Ho as [Ho _].
  apply status_eq in Ho; [|done|by right]. eapply hoare_bind; [by apply hoare_revoked_response|]. intros meta.
  eapply hoare_bind; [apply hoare_try, hoare_store|]. intros ?. by apply hoare_ret.
Qed.

Lemma hoare_serials fuel since batchSize : forall all, hoare any (serials_loop fuel since batchSize all) (fun _ _ => True).
Proof.
  induction fuel as [|fuel IH]; intros all; simpl; [apply hoare_fail|].
  eapply hoare_bind; [apply hoare_try, (hoare_query _ (fun _ => True)); done|]. intros r. cbn beta.
  case_bool_decide; [by apply hoare_ret|]. destruct (_ <? _); [by apply hoare_ret|].
  eapply hoare_post; [| |apply IH]; done.
Qed.

Lemma hoare_peer {A} (m : M (World * C) error A) : peer_ok m -> hoare any (do! try (rpc m) in ret tt) (fun _ => any).
Proof.
  intros Hm. eapply hoare_bind; [by apply hoare_try, (hoare_rpc any m (fun _ _ => True))|]. intros ?. by apply hoare_ret.
Qed.

Lemma hoare_receipts_tick fs fuel updater batchSize :
  hoare any (missingReceiptsTick sac pubc fs fuel updater batchSize) (fun _ _ => True).
Proof.
  eapply hoare_bind; [by apply (hoare_Now any)|]. intros now. cbn beta.
  eapply hoare_bind; [eapply hoare_post; [|intros ? ? K; exact K|apply hoare_serials]; done|]. intros serials. cbn beta.
  apply (hoare_forM any). intros serial _.
  eapply hoare_bind; [apply hoare_try, (hoare_query _ (fun _ => True)); done|]. intros [ids|e]; [|by apply hoare_ret].
  cbv zeta. case_bool_decide; [by apply hoare_ret|].
  eapply hoare_bind; [eapply hoare_post; [|intros ? ? K; exact K|
    by apply hoare_try, (hoare_rpc any (GrpcStorage.GetCertificate _ sac serial) (fun _ _ => True)); [|apply (sac_ok PO)|]]; done|].
  intros [cert|e]; [|by apply hoare_ret]. apply (hoare_post _ any _ _ (fun _ => any)); [done|done|].
  destruct (flag fs _); [|apply hoare_peer, (pubc_ok PO)].
  apply (hoare_forM any). intros log _. apply hoare_peer, (pubc_single_ok PO).
Qed.

Lemma hoare_tickFunc fs fuel updater f batchSize :
  hoare any (tickFunc cac sac pubc fs fuel updater f batchSize) (fun _ _ => True).
Proof.
  destruct f; [apply hoare_new_tick|apply hoare_old_tick|apply hoare_receipts_tick|apply hoare_revoked_tick].
Qed.

Lemma passed_ok w d : world_ok w -> world_ok (passed w d) /\ later w (passed w d).
Proof.
  intros (Htx & [Hc Hz] & Hr). split; [|split; [done|simpl; lia]]. split; [done|]. split; [split; [done|simpl; lia]|].
  simpl. apply (rows_ok_later (w_now w) _ (db w)); [lia|done..].
Qed.
Lemma hoare_Sleep d : hoare any (Sleep d) (fun _ => any).
Proof.
  intros s r s' [Hw Ho] _ [= <- <-]. destruct (passed_ok _ d Hw) as [? ?]. by split_and!.
Qed.

Lemma hoare_tick fs fuel updater l : hoare any (tick cac sac pubc fs fuel updater l) (fun _ _ => True).
Proof.
  eapply hoare_bind; [by apply (hoare_Now any)|]. intros start. cbn beta.
  eapply hoare_bind; [eapply hoare_post; [|intros ? ? K; exact K|apply hoare_try, hoare_tickFunc]; done|]. intros err. cbn beta.
  eapply hoare_bind; [eapply hoare_post; [|intros ? ? K; exact K|by apply (hoare_Now any)]; done|]. intros ?. cbn beta.
  eapply hoare_bind; [eapply hoare_post; [|intros ? ? K; exact K|by apply (hoare_Now any)]; done|]. intros now. cbn beta zeta.
  apply (hoare_post _ any _ _ (fun _ _ => True)); [done..|]. destruct err as [[]|e].
  - eapply hoare_bind; [apply hoare_Sleep|]. intros ?. by apply hoare_ret.
  - eapply (hoare_bind _ _ _ (fun _ => any)).
    { intros s r s' [Hw Ho] _ [= <- <-]. split_and!; [by split|unfold after; reflexivity|done]. }
    intros rand. eapply hoare_bind; [apply hoare_Sleep|]. intros ?. by apply hoare_ret.
Qed.

(** ** Histories *)

(** A tick of a loop, during which the storage authority executes the batches [during],
    or operations of the storage authority between two ticks. *)
Inductive event :=
| Tick (fs : Features.state) (fuel : nat) (l : looper) (during : list (list (Features.state * sa_op)))
       (turns : list nat) (rand : list float64)
| Between (ops : list (Features.state * sa_op)).

Definition elsewhere (ops : list (Features.state * sa_op)) (w : World) : World := snd (run ops w).
Definition prepare (during : list (list (Features.state * sa_op))) (turns : list nat) (rand : list float64) (s : St) : St :=
  set_rand (set_turns (set_others s (map elsewhere during)) turns) rand.
Definition happen (updater : OCSPUpdater) (s : St) (e : event) : St :=
  match e with
  | Tick fs fuel l during turns rand => snd (tick cac sac pubc fs fuel updater l (prepare during turns rand s))
  | Between ops => set_world s (elsewhere ops (st_world s)) (st_peers s)
  end.
Definition history (updater : OCSPUpdater) (events : list event) (s : St) : St := fold_left (happen updater) events s.

Definition ops_ok (ops : list (Features.state * sa_op)) : Prop := Forall (fun '(_, op) => op_ok op) ops.
Definition event_ok (e : event) : Prop :=
  match e with Tick _ _ _ during _ _ => Forall ops_ok during | Between ops => ops_ok ops end.

Lemma happen_ok updater e s : event_ok e -> world_ok (st_world s) -> world_ok (st_world (happen updater s e)).
Proof.
  intros He Hw. destruct e as [fs fuel l during turns rand|ops]; simpl in *.
  - destruct (tick _ _ _ _ _ _ _ _) as [r s'] eqn:E. eapply hoare_tick in E as ([? _] & _); [done| |done].
    split; [done|]. simpl. apply Forall_fmap. eapply Forall_impl; [exact He|]. intros ops. apply run_is_benign.
  - by apply run_is_benign.
Qed.

Lemma updater_history_ok updater events : forall s, Forall event_ok events -> world_ok (st_world s) ->
  world_ok (st_world (history updater events s)).
Proof.
  induction events as [|e events IH]; intros s He Hw; [done|]. apply Forall_cons in He as [He Hes].
  simpl. apply IH; [done|]. by apply happen_ok.
Qed.

(** What the OCSP responder serves is true.  Take any history that starts with an
    empty database: ticks of the updater's loops, whose goroutines take turns in any
    order, with operations of the storage authority in between and during the ticks, and
    any database faults.  A response served for a serial number attests, for the stored
    certificate with this number, the status in the table; the one exception is a
    certificate revoked after the response was made, and then the next
    [revokedCertificatesTick] selects its row. *)
Theorem served_responses_are_truthful updater events (s0 : St) keyHash n response w' :
  db (st_world s0) = emptyTables -> tx (st_world s0) = None -> clock_ok (st_world s0) -> Forall event_ok events ->
  Response keyHash keyHash n (st_world (history updater events s0)) = (Ok (Some response), w') ->
  exists cert row status,
    certificates (db w') !! coll (SerialToString n) = Some cert /\
    certificateStatus (db w') !! coll (SerialToString n) = Some row /\
    attests response (cert_DER cert) status /\
    (status = cs_Status row \/ cs_Status row = OCSPStatusRevoked /\ outdated_revocation row = true).
Proof.
  intros Hdb Htx Hc He H.
  assert (world_ok (st_world (history updater events s0))) as (_ & _ & Hr).
  { apply updater_history_ok; [done|]. split; [done|]. split; [done|]. rewrite Hdb. intros k row E. simpl in E. by rewrite lookup_empty in E. }
  unfold Response in H. rewrite String.eqb_refl in H. cbn [negb] in H. cbv zeta in H. unfold mbindM, try in H.
  destruct (query _ _) as [r w1] eqn:E. destruct r as [[resp upd]|]; [|done]. apply query_Ok in E as (E & Hd & _).
  case_in E. injection E as <- <-. unfold time_IsZero, ret in H. destruct (Z.eqb_spec (cs_OCSPLastUpdated c) zeroTime); [done|].
  injection H as <- <-. rewrite Hd. destruct (Hr _ _ Ec) as [H1 H2 H3 [?|(cert & st & E1 & E2 & E3)]]; [done|].
  exists cert, c, st. split_and!; try done. destruct E3 as [?|[Hs Hl]]; [by left|right]. split; [done|].
  unfold outdated_revocation. rewrite Hs. apply andb_true_iff. split; [by apply ceq_true|by apply Z.leb_le].
Qed.

End updater.
End checks.
End OcspChecks.
