(* ===== verification/OcspRenewal.v ===== *)
(** * Ticks of the OCSP updater renew what they selected

    Without faults and with a CA that answers, a tick ends, whatever turns its goroutines
    take, and every response it found stale has been replaced by one that the CA signed
    meanwhile. *)

From S2P Require Import Prelude GoStd Errors Features Core Csr Database Storage SaFrame SaInvariants.
From S2P Require Import CertificateAuthority GrpcStorage Backoff OcspUpdater.

Module OcspRenewal.
Import Storage SaInvariants Backoff Ocsp.

Section renewal.
Context {GL : GoLib} {Cr : Crypto} {Q : SQL} {J : StorageJSON} {X : X509} {OE : OcspEnv} {C : Type}.
Context (cac : OCSPSigningRequest -> M (World * C) error string).
Notation St := (State C).

(** The CA answers every request. *)
Definition answers : Prop := forall req w c, exists response c', cac req (w, c) = (Ok response, (w, c')).
Context (CA : answers) (start : Z).

(** No faults, no other processes, and the clock has passed [start]. *)
Definition quiet (s : St) : Prop :=
  w_faults (st_world s) = [] /\ st_others s = [] /\ Forall (Z.le 0) (w_ticks (st_world s)) /\ start <= w_now (st_world s).

(** The CA returned this response when it was asked, after [start], about this certificate
    with this status. *)
Definition answered (der status response : string) : Prop :=
  exists req w c c', os_CertDER req = der /\ os_Status req = status /\ start <= w_now w /\
    cac req (w, c) = (Ok response, (w, c')).

(** The row under [k] holds such a response, and the time since [start] it was made at. *)
Definition renewed (certs : gmap string Certificate) (k : string) (row : CertificateStatus) : Prop :=
  start <= cs_OCSPLastUpdated row /\
  exists cert, certs !! k = Some cert /\ answered (cert_DER cert) (cs_Status row) (cs_OCSPResponse row).

(** Responses stay, or are replaced by new ones. *)
Definition evolves (s s' : St) : Prop :=
  certificates (db (st_world s')) = certificates (db (st_world s)) /\
  forall k row, certificateStatus (db (st_world s)) !! k = Some row ->
    exists row', certificateStatus (db (st_world s')) !! k = Some row' /\
      cs_Serial row' = cs_Serial row /\ cs_Status row' = cs_Status row /\
      ((cs_OCSPLastUpdated row' = cs_OCSPLastUpdated row /\ cs_OCSPResponse row' = cs_OCSPResponse row) \/
       renewed (certificates (db (st_world s))) k row').
#[global] Instance evolves_preorder : PreOrder evolves.
Proof.
  split.
  - intros s. split; [done|]. intros k row E. exists row. split_and!; auto.
  - intros s1 s2 s3 [C1 R1] [C2 R2]. split; [congruence|]. intros k row E.
    apply R1 in E as (r2 & E & ? & ? & H1). apply R2 in E as (r3 & E & ? & Hst & H2). rewrite C1 in H2.
    exists r3. split_and!; [done|congruence..|]. destruct H2 as [[Hl Hp]|]; [|auto]. unfold renewed in *. rewrite Hl, Hp, Hst. auto.
Qed.

Definition fresh (serial : string) (s : St) : Prop :=
  exists row, certificateStatus (db (st_world s)) !! coll serial = Some row /\
    renewed (certificates (db (st_world s))) (coll serial) row.
Lemma fresh_evolves serial s s' : evolves s s' -> fresh serial s -> fresh serial s'.
Proof.
  intros [HC H] (row & E & Hl). apply H in E as (row' & E & _ & Hst & H'). exists row'. split; [done|]. rewrite HC.
  destruct H' as [[H1 H2]|]; [|done]. unfold renewed in *. by rewrite H1, H2, Hst.
Qed.

(** The certificate of the status and its row are there. *)
Definition ready (cs : CertificateStatus) (s : St) : Prop :=
  is_Some (certificates (db (st_world s)) !! coll (cs_Serial cs)) /\
  exists row, certificateStatus (db (st_world s)) !! coll (cs_Serial cs) = Some row /\ cs_Status row = cs_Status cs.
Lemma ready_evolves cs s s' : evolves s s' -> ready cs s -> ready cs s'.
Proof.
  intros [HC HR] [H1 (row & E & ?)]. split; [by rewrite HC|]. apply HR in E as (row' & E & ? & ? & _).
  exists row'. split; [done|congruence].
Qed.

Definition subject (g : goroutine) : CertificateStatus :=
  match g with Reading cs | Signing cs _ | Stamping cs _ | Storing cs => cs end.
(** What a goroutine has in hand: the certificate, and then a response of the CA. *)
Definition in_hand (status : CertificateStatus) (response : string) (certs : gmap string Certificate) : Prop :=
  exists cert, certs !! coll (cs_Serial status) = Some cert /\ answered (cert_DER cert) (cs_Status status) response.
Definition on_time (g : goroutine) (s : St) : Prop :=
  let certs := certificates (db (st_world s)) in
  match g with
  | Reading _ => True
  | Signing status cert => certs !! coll (cs_Serial status) = Some cert
  | Stamping status response => in_hand status response certs
  | Storing meta => start <= cs_OCSPLastUpdated meta /\ in_hand meta (cs_OCSPResponse meta) certs
  end.
Lemma on_time_evolves g s s' : evolves s s' -> on_time g s -> on_time g s'.
Proof. intros [HC _]. destruct g; simpl; by rewrite ?HC. Qed.
Definition weight (g : goroutine) : nat :=
  match g with Reading _ => 4 | Signing _ _ => 3 | Stamping _ _ => 2 | Storing _ => 1 end.
Definition weights (gs : list goroutine) : nat := sum_list_with weight gs.

Lemma calm_dbMap {A} (m : DB A) s : quiet s ->
  dbMap m s = let '(r, w) := m (st_world s) in (r, set_world s w (st_peers s)).
Proof. intros (_ & Ho & _). unfold dbMap, mbindM, yield, modify. by rewrite Ho. Qed.
Lemma calm_rpc {A} (m : M (World * C) error A) s : quiet s ->
  rpc m s = let '(r, (w, c)) := m (st_world s, st_peers s) in (r, set_world s w c).
Proof. intros (_ & Ho & _). unfold rpc, mbindM, yield, modify. by rewrite Ho. Qed.

Lemma calm_Now s : quiet s -> exists now s', Ocsp.Now s = (Ok now, s') /\ start <= now /\ quiet s' /\ evolves s s'.
Proof.
  intros (Hf & Ho & Ht & Hn). eexists _, _. split; [reflexivity|]. split; [done|]. split.
  - unfold quiet, pop_tick. simpl. destruct Ht; simpl; split_and!; auto; lia.
  - split; [done|]. intros k row E. exists row. split_and!; auto.
Qed.

Lemma with_peers s c : evolves s (set_world s (st_world s) c) /\ (quiet s -> quiet (set_world s (st_world s) c)).
Proof. split; [|done]. split; [done|]. intros k row E. exists row. split_and!; auto. Qed.

(** One action of a goroutine: it gets closer to its end, where the response is fresh. *)
Lemma advance_quiet g s : quiet s -> on_time g s -> ready (subject g) s ->
  exists g' s', advance cac g s = (Ok g', s') /\ quiet s' /\ evolves s s' /\
    match g' with
    | Some h => on_time h s' /\ cs_Serial (subject h) = cs_Serial (subject g) /\ cs_Status (subject h) = cs_Status (subject g) /\
                weight g = S (weight h)
    | None => fresh (cs_Serial (subject g)) s' /\ weight g = 1%nat
    end.
Proof.
  intros Hq Hg [Hc (row & Er & Hs)]. destruct g as [cs|cs cert|cs response|meta]; cbn [advance subject on_time] in *.
  - destruct (calm_Now s Hq) as (now & s1 & E & _ & Hq1 & Hev). rewrite (mbindM_run _ _ _ _ _ E).
    destruct Hev as [Hcs HR]. destruct Hc as [cert Hc]. unfold mbindM, try. rewrite calm_dbMap by done.
    unfold SelectCertificate. rewrite query_nofault by apply Hq1. rewrite Hcs, Hc.
    eexists _, _. split; [reflexivity|]. destruct (with_peers s1 (st_peers s1)) as [Hw1 Hw2].
    split; [auto|]. split; [transitivity s1; [done|exact Hw1]|]. split_and!; try done. simpl. by rewrite Hcs.
  - unfold mbindM, try. rewrite calm_rpc by done.
    destruct (CA (sign_request cs (cs_Status cs) cert) (st_world s) (st_peers s)) as (response & c' & Ec). rewrite Ec.
    eexists _, _. split; [reflexivity|]. destruct (with_peers s c') as [Hw1 Hw2]. split; [auto|]. split; [done|].
    split_and!; try done. exists cert. split; [exact Hg|]. exists (sign_request cs (cs_Status cs) cert), (st_world s), (st_peers s), c'. split_and!; [done|done|apply Hq|exact Ec].
  - destruct (calm_Now s Hq) as (now & s1 & E & Hn & Hq1 & Hev). rewrite (mbindM_run _ _ _ _ _ E).
    eexists _, _. split; [reflexivity|]. split_and!; try done. destruct Hev as [Hcs _]. split; [done|]. by rewrite Hcs.
  - unfold mbindM, try, storeResponse. rewrite calm_dbMap by done. unfold update_rows. rewrite call_nofault by apply Hq.
    eexists _, _. split; [reflexivity|]. destruct Hq as (Hf & Ho & Ht & Hn). split; [done|].
    assert (ceq (cs_Status row) (cs_Status meta) = true) as Hceq by (apply ceq_true; by rewrite Hs). split.
    + split; [done|]. simpl. intros k row' E. destruct (decide (coll (cs_Serial meta) = k)) as [<-|Hne].
      * rewrite lookup_alter_eq, E. eexists. split; [reflexivity|]. assert (row' = row) as -> by congruence. rewrite Hceq. simpl.
        split_and!; try done. right. destruct Hg as [Hl (cert & Hcert & Ha)]. split; [done|]. exists cert. split; [done|].
        simpl. by rewrite Hs.
      * rewrite lookup_alter_ne, E by done. eexists. split; [reflexivity|]. split_and!; auto.
    + split; [|done]. eexists. simpl. rewrite lookup_alter_eq, Er. split; [reflexivity|]. rewrite Hceq.
      destruct Hg as [Hl (cert & Hcert & Ha)]. split; [done|]. exists cert. split; [done|]. simpl. by rewrite Hs.
Qed.

(** A turn of one of the running goroutines. *)
Lemma turn_quiet running i g s : running !! i = Some g -> quiet s ->
  Forall (fun g => on_time g s /\ ready (subject g) s) running ->
  exists g' s', advance cac g s = (Ok g', s') /\ quiet s' /\ evolves s s' /\
    let running' := take i running ++ option_list g' ++ drop (S i) running in
    Forall (fun g => on_time g s' /\ ready (subject g) s') running' /\ weights running = S (weights running') /\
    forall s2, evolves s' s2 -> (forall h, h ∈ running' -> fresh (cs_Serial (subject h)) s2) ->
      forall h, h ∈ running -> fresh (cs_Serial (subject h)) s2.
Proof.
  intros Eg Hq Hr. pose proof (proj1 (Forall_lookup _ _) Hr _ _ Eg) as [Hg1 Hg2].
  destruct (advance_quiet g s Hq Hg1 Hg2) as (g' & s' & E & Hq' & Hev & Hg'). exists g', s'. split_and!; [done..|].
  rewrite <- (take_drop_middle _ _ _ Eg) in Hr.
  apply Forall_app in Hr as [Hr1 Hr2]. apply Forall_cons in Hr2 as [_ Hr2]. split_and!.
  - rewrite !Forall_app. split; [|split]; [|destruct g' as [h|]; simpl; [|constructor]|].
    2:{ destruct Hg' as (Ht & Hser & Hst & _). constructor; [|constructor]. split; [done|].
        pose proof (ready_evolves _ _ _ Hev Hg2) as Hrd. unfold ready in *. by rewrite Hser, Hst. }
    all: eapply Forall_impl; [eassumption|]; intros h [? ?]; (split; [by eapply on_time_evolves|by eapply ready_evolves]).
  - rewrite <- (take_drop_middle _ _ _ Eg) at 1. unfold weights. rewrite !sum_list_with_app.
    destruct g' as [h|]; simpl; [destruct Hg' as (_ & _ & _ & Hwt)|destruct Hg' as [_ Hwt]]; lia.
  - intros s2 Hs2 F h Hh. rewrite <- (take_drop_middle _ _ _ Eg), elem_of_app, elem_of_cons in Hh.
    destruct Hh as [Hh|[->|Hh]]; [by apply F, elem_of_app; left| |apply F; rewrite !elem_of_app; auto].
    destruct g' as [h'|]; [|destruct Hg'; by eapply fresh_evolves].
    destruct Hg' as (_ & <- & _). apply F. rewrite !elem_of_app. right. left. by left.
Qed.

(** The whole batch, in any order. *)
Lemma schedule_quiet capacity : (0 < capacity)%nat -> forall fuel waiting running s,
  quiet s -> (5 * length waiting + weights running < fuel)%nat ->
  Forall (fun cs => ready cs s) waiting -> Forall (fun g => on_time g s /\ ready (subject g) s) running ->
  exists s', schedule cac fuel capacity waiting running s = (Ok tt, s') /\ quiet s' /\ evolves s s' /\
    (forall cs, cs ∈ waiting -> fresh (cs_Serial cs) s') /\ (forall g, g ∈ running -> fresh (cs_Serial (subject g)) s').
Proof.
  intros Hcap. induction fuel as [|fuel IH]; intros waiting running s Hq Hfuel Hw Hr; [lia|]. simpl.
  set (room := negb (bool_decide (waiting = [])) && (length running <? capacity)%nat).
  destruct (length running + if room then 1 else 0)%nat as [|n] eqn:En.
  { assert (running = []) as -> by (destruct running; simpl in En; [done|lia]).
    assert (waiting = []) as ->.
    { destruct waiting; [done|]. exfalso. subst room. simpl in En. destruct capacity; [lia|]. simpl in En. lia. }
    exists s. rewrite bool_decide_true by done. split_and!; [done..|reflexivity|by intros ? ?%elem_of_nil|by intros ? ?%elem_of_nil]. }
  unfold mbindM at 1, next_turn at 1. set (turn := default O (head (st_turns s))).
  set (s1 := set_turns s (tail (st_turns s))). change (quiet s1) in Hq. set (i := (turn mod S n)%nat).
  assert (evolves s s1) as Hev1 by (split; [done|]; intros k row E; exists row; split_and!; auto).
  destruct (running !! i) as [g|] eqn:Eg.
  - destruct (turn_quiet running i g s1 Eg Hq Hr) as (g' & s2 & E & Hq2 & Hev2 & Hr2 & Hwt & Hfr). rewrite (mbindM_run _ _ _ _ _ E).
    destruct (IH waiting (take i running ++ option_list g' ++ drop (S i) running) s2)
      as (s' & Es & Hq' & Hev' & F1 & F2); [done|lia| |done|].
    + eapply Forall_impl; [exact Hw|]. intros cs. apply ready_evolves. by transitivity s1.
    + exists s'. split_and!; [done|done|transitivity s2; [by transitivity s1|done]|done|by apply Hfr].
  - destruct waiting as [|cs waiting].
    { exfalso. subst room. simpl in En. apply lookup_ge_None in Eg. pose proof (Nat.mod_upper_bound turn (S n)). lia. }
    apply Forall_cons in Hw as [Hcs Hw].
    destruct (IH waiting (running ++ [Reading cs]) s1) as (s' & Es & Hq' & Hev' & F1 & F2); [done| |done| |].
    + unfold weights in *. rewrite sum_list_with_app. simpl in *. lia.
    + rewrite Forall_app. split; [done|]. by constructor.
    + exists s'. split_and!; [done|done|by transitivity s1| |].
      * intros c. rewrite elem_of_cons. intros [->|Hc]; [|auto]. apply (F2 (Reading cs)). apply elem_of_app. right. by left.
      * intros g Hg. apply F2. apply elem_of_app. by left.
Qed.

Definition parallel_ok (updater : OCSPUpdater) : Prop := 0 < parallelGenerateOCSPRequests updater.

Lemma generate_quiet updater statuses s : parallel_ok updater -> quiet s -> Forall (fun cs => ready cs s) statuses ->
  exists s', generateOCSPResponses cac updater statuses s = (Ok tt, s') /\ quiet s' /\ evolves s s' /\
    forall cs, cs ∈ statuses -> fresh (cs_Serial cs) s'.
Proof.
  unfold parallel_ok. intros Hp Hq Hr. unfold generateOCSPResponses. rewrite (proj2 (Z.ltb_ge _ _)) by lia.
  destruct (schedule_quiet (Z.to_nat (parallelGenerateOCSPRequests updater)) ltac:(lia) (S (5 * length statuses)) statuses [] s)
    as (s' & E & ? & ? & ? & _); [done|unfold weights; simpl; lia|done|constructor|]. exists s'. auto.
Qed.

Lemma forM_quiet {A} (body : A -> M St error unit) l :
  (forall x s, quiet s -> exists s', body x s = (Ok tt, s') /\ quiet s' /\ evolves s s') ->
  forall s, quiet s -> exists s', forM l body s = (Ok tt, s') /\ quiet s' /\ evolves s s'.
Proof.
  intros Hb. induction l as [|x l IH]; intros s Hq; simpl; [exists s; split_and!; [done..|reflexivity]|].
  destruct (Hb x s Hq) as (s1 & E1 & Hq1 & Hev1). rewrite (mbindM_run _ _ _ _ _ E1).
  destruct (IH s1 Hq1) as (s' & E & Hq' & Hev'). exists s'. split_and!; [done..|by transitivity s1].
Qed.

Lemma expire_quiet cs s : quiet s -> exists s', markExpired cs s = (Ok tt, s') /\ quiet s' /\ evolves s s'.
Proof.
  intros Hq. unfold markExpired. rewrite calm_dbMap by done. unfold update_rows. rewrite call_nofault by apply Hq.
  eexists. split; [reflexivity|]. destruct Hq as (Hf & Ho & Ht & Hn). split; [done|]. split; [done|].
  simpl. intros k row E. destruct (decide (coll (cs_Serial cs) = k)) as [<-|Hne].
  - rewrite lookup_alter_eq, E. eexists. split; [reflexivity|]. simpl. split_and!; auto.
  - rewrite lookup_alter_ne, E by done. eexists. split; [reflexivity|]. split_and!; auto.
Qed.

(** Rows are under their own keys and have certificates. *)
Definition rows_complete (t : Tables) : Prop :=
  forall k row, certificateStatus t !! k = Some row -> coll (cs_Serial row) = k /\ is_Some (certificates t !! k).

Lemma row_ready t (s : St) row cs : db (st_world s) = t -> rows_complete t -> row ∈ statuses_of t ->
  cs_Serial cs = cs_Serial row -> cs_Status cs = cs_Status row -> ready cs s.
Proof.
  intros Hd Hc Hr E1 E2. unfold statuses_of in Hr. apply list_elem_of_fmap in Hr as ([k row'] & -> & Hk).
  apply elem_of_map_to_list in Hk. destruct (Hc _ _ Hk) as [Hkey Hcert]. unfold ready. rewrite Hd, E1, E2. simpl. rewrite Hkey.
  split; [done|]. by exists row'.
Qed.

Lemma find_stale_quiet updater oldest batchSize s : quiet s -> 0 <= batchSize ->
  exists s', findStaleOCSPResponses updater oldest batchSize s = (Ok (map stale_view (take (Z.to_nat batchSize)
      (merge_sort older (filter (fun cs => stale (w_now (st_world s) - ocspStaleMaxAge updater) oldest cs = true)
                          (statuses_of (db (st_world s))))))), s') /\
    quiet s' /\ db (st_world s') = db (st_world s).
Proof.
  intros Hq Hb. pose proof (calm_Now s Hq) as (now & s1 & E & _ & Hq1 & _). injection E as <- <-.
  unfold findStaleOCSPResponses, mbindM at 1. cbn [Ocsp.Now]. unfold or_none, mbindM, try.
  rewrite (calm_dbMap _ _ Hq1), query_nofault by apply Hq1. unfold limit. rewrite (proj2 (Z.ltb_ge _ _)) by lia.
  eexists. split; [reflexivity|]. done.
Qed.

Lemma expire_all_quiet tickStart l s : quiet s ->
  exists s', forM l (fun cs => if negb (cs_IsExpired cs) && time_After tickStart (cs_NotAfter cs) then markExpired cs else ret tt) s
    = (Ok tt, s') /\ quiet s' /\ evolves s s'.
Proof.
  apply forM_quiet. intros cs st Hst. destruct (_ && _); [by apply expire_quiet|].
  exists st. split_and!; [done..|reflexivity].
Qed.

(** Paging through the serials: without faults and other writers, one more page than
    there are serials is enough, and every serial is found. *)
Lemma serials_loop_complete fuel since batchSize : 0 < batchSize -> forall all s, quiet s ->
  let serials := issued_since since (db (st_world s)) in
  all = take (length all) serials -> (length serials - length all < fuel)%nat ->
  exists s', serials_loop fuel since batchSize all s = (Ok serials, s') /\ quiet s' /\ db (st_world s') = db (st_world s).
Proof.
  intros Hb. induction fuel as [|fuel IH]; intros all s Hq serials Hall Hf; [lia|]. cbn [serials_loop].
  unfold mbindM, try. rewrite calm_dbMap, query_nofault by (done || apply Hq). unfold limit. rewrite (proj2 (Z.ltb_ge _ _)) by lia.
  fold serials. set (page := take (Z.to_nat batchSize) (drop (length all) serials)). set (s1 := set_world s _ _).
  assert (quiet s1) as Hq1 by exact Hq.
  assert (all ++ page = take (length all + Z.to_nat batchSize) serials) as Hpage by (rewrite Hall at 1; subst page; by rewrite take_take_drop).
  assert (length page = Z.to_nat batchSize `min` (length serials - length all))%nat as Hlen by (subst page; by rewrite length_take, length_drop).
  assert (length page < Z.to_nat batchSize -> all ++ page = serials)%nat as Hend by (intros ?; rewrite Hpage; apply take_ge; lia).
  destruct (decide (page = [])) as [E|E]; [rewrite bool_decide_true by done|rewrite bool_decide_false by done].
  - exists s1. split; [|done]. rewrite E, app_nil_r in Hend. rewrite Hend by (simpl; lia). done.
  - destruct (_ <? batchSize) eqn:El; [exists s1; rewrite Hend by lia; done|].
    assert (0 < length page)%nat by (destruct page; simpl; [done|lia]).
    apply (IH (all ++ page) s1 Hq1).
    + rewrite Hpage at 1. f_equal. rewrite length_app. lia.
    + rewrite length_app. change (db (st_world s1)) with (db (st_world s)). fold serials. lia.
Qed.

(** A response that is due, for a tick that begins in [w]: it is older than the time to
    expiry allows, at the clock's first reading, not older than the greatest age, at its
    second, and its certificate is not marked expired. *)
Definition due (updater : OCSPUpdater) (w : World) (row : CertificateStatus) : Prop :=
  w_now (pop_tick w) - ocspStaleMaxAge updater < cs_OCSPLastUpdated row < w_now w - ocspMinTimeToExpiry updater /\
  cs_IsExpired row = false.
#[global] Instance due_dec updater w row : Decision (due updater w row) := _.
Definition dueRows (updater : OCSPUpdater) (w : World) : list CertificateStatus :=
  filter (due updater w) (map snd (map_to_list (certificateStatus (db w)))).

Lemma stale_due updater w row :
  stale (w_now (pop_tick w) - ocspStaleMaxAge updater) (w_now w - ocspMinTimeToExpiry updater) row = true <-> due updater w row.
Proof. unfold stale, due. rewrite !andb_true_iff, !Z.ltb_lt, negb_true_iff. tauto. Qed.

Lemma stale_dueRows updater w :
  filter (fun cs => stale (w_now (pop_tick w) - ocspStaleMaxAge updater) (w_now w - ocspMinTimeToExpiry updater) cs = true)
    (statuses_of (db w)) = dueRows updater w.
Proof. apply list_filter_iff. intros row. apply stale_due. Qed.

End renewal.

Section ticks.
Context {GL : GoLib} {Cr : Crypto} {Q : SQL} {J : StorageJSON} {X : X509} {OE : OcspEnv} {C : Type}.
Context (cac : OCSPSigningRequest -> M (World * C) error string) (CA : answers cac).

(** C20. A tick of [oldOCSPResponsesTick] ends and replaces all stale responses.  If no
    database call fails, nobody else writes, the clock does not run backwards, the CA
    answers every request, every status row has its certificate, at least one goroutine may
    run, and the batch is as large as the number of stale rows, then, whatever turns the
    goroutines take, the tick succeeds.  Afterwards the row of every response that was due
    has the same status, a time of update since the tick began, and as its response what
    the CA answered, since the tick began, when it was asked to sign that status for the
    certificate. *)
Theorem oldOCSPResponsesTick_renews updater batchSize (s : State C) :
  quiet (w_now (st_world s)) s -> rows_complete (db (st_world s)) -> 0 < parallelGenerateOCSPRequests updater ->
  Z.of_nat (length (dueRows updater (st_world s))) <= batchSize ->
  exists s', oldOCSPResponsesTick cac updater batchSize s = (Ok tt, s') /\
    forall k row, certificateStatus (db (st_world s)) !! k = Some row -> due updater (st_world s) row ->
      exists row', certificateStatus (db (st_world s')) !! k = Some row' /\ cs_Status row' = cs_Status row /\
        renewed cac (w_now (st_world s)) (certificates (db (st_world s))) k row'.
Proof.
  intros Hq Hc Hp Hb. set (start := w_now (st_world s)) in *. unfold oldOCSPResponsesTick.
  pose proof (calm_Now cac start s Hq) as (now & s1 & E1 & _ & Hq1 & Hev1). injection E1 as <- <-.
  unfold mbindM at 1. cbn [Ocsp.Now]. set (s1 := set_world s _ _) in *.
  destruct (find_stale_quiet cac start updater (time_Add start (- ocspMinTimeToExpiry updater)) batchSize s1 Hq1 ltac:(lia))
    as (s2 & E2 & Hq2 & Hd2). rewrite (mbindM_run _ _ _ _ _ E2).
  assert (evolves cac start s s2) as Hev2.
  { split; [by rewrite Hd2|]. intros k row E. exists row. rewrite Hd2. split_and!; auto. }
  destruct (calm_Now cac start s2 Hq2) as (now & s3 & E3 & _ & Hq3 & Hev3). rewrite (mbindM_run _ _ _ _ _ E3).
  change (filter _ _) with (filter (fun cs => stale (w_now (pop_tick (st_world s)) - ocspStaleMaxAge updater)
    (w_now (st_world s) - ocspMinTimeToExpiry updater) cs = true) (statuses_of (db (st_world s)))). rewrite stale_dueRows.
  set (l := map stale_view _).
  destruct (expire_all_quiet cac start start l s3 Hq3) as (s4 & E4 & Hq4 & Hev4). rewrite (mbindM_run _ _ _ _ _ E4).
  assert (forall row, row ∈ dueRows updater (st_world s) -> stale_view row ∈ l) as Hin.
  { intros row Hr. apply list_elem_of_fmap_2. rewrite take_ge; [by rewrite merge_sort_Permutation|].
    rewrite merge_sort_Permutation. lia. }
  assert (evolves cac start s s4) as Hev by (etransitivity; [exact Hev2|]; etransitivity; [exact Hev3|exact Hev4]).
  destruct (generate_quiet cac CA start updater l s4 Hp Hq4) as (s' & E & _ & Hev' & F).
  - apply Forall_forall. intros cs Hcs. apply list_elem_of_fmap in Hcs as (row & -> & Hr).
    apply elem_of_take in Hr as (i & Hr & _). apply list_elem_of_lookup_2 in Hr. rewrite merge_sort_Permutation in Hr.
    apply list_elem_of_filter in Hr as [_ Hr]. eapply (ready_evolves cac start); [exact Hev|].
    by apply (row_ready (db (st_world s)) s row).
  - exists s'. split; [done|]. intros k row Hk Hd. destruct (Hc k row Hk) as [<- _].
    destruct (proj2 Hev _ _ Hk) as (row4 & Hk4 & _ & Hst4 & _). destruct (proj2 Hev' _ _ Hk4) as (row' & Hk' & _ & Hst' & _).
    exists row'. split; [done|]. split; [congruence|].
    destruct (F (stale_view row)) as (row'' & Hk'' & HR).
    { apply Hin, list_elem_of_filter. split; [done|]. apply list_elem_of_fmap. exists (coll (cs_Serial row), row).
      split; [done|]. by apply elem_of_map_to_list. }
    simpl in Hk''. rewrite Hk' in Hk''. injection Hk'' as <-. simpl in HR. by rewrite (proj1 Hev'), (proj1 Hev) in HR.
Qed.

(** A response that is renewed because it is old loses the reason of the revocation:
    the query does not select that column, so the CA is asked to sign reason 0, whatever
    the row says. *)
Theorem renewal_drops_the_reason updater oldest batchSize (s s' : State C) statuses status cert :
  findStaleOCSPResponses updater oldest batchSize s = (Ok statuses, s') -> status ∈ statuses ->
  os_Reason (sign_request status (cs_Status status) cert) = 0.
Proof.
  unfold findStaleOCSPResponses. intros H Hs. apply mbindM_Ok in H as (now & s1 & _ & H).
  apply mbindM_Ok in H as (r & s2 & Hr & H). destruct r as [l|e].
  2:{ destruct e; try discriminate H. unfold ret in H. simplify_eq. by apply elem_of_nil in Hs. }
  injection H as -> _. unfold try in Hr. destruct (dbMap _ s1) as [x s3] eqn:E. injection Hr as -> _.
  unfold dbMap in E. apply mbindM_Ok in E as ([] & s4 & _ & E). destruct (query _ _) as [y w] eqn:Eq. injection E as -> _.
  apply query_Ok in Eq as [Eq _]. unfold rbind in Eq. case_in Eq. injection Eq as <-.
  apply list_elem_of_fmap in Hs as (row & -> & _). done.
Qed.

(** ** Construction and purging *)

(** An updater that starts has loops that run, at least one goroutine per batch, and the
    configured logs. *)
Lemma newUpdater_wf config logConfigs path err updater : newUpdater config logConfigs path err = Ok updater ->
  parallelGenerateOCSPRequests updater <> 0 /\ ocspStaleMaxAge updater <> 0 /\
  Forall (fun l => l_batchSize l <> 0 /\ l_tickDur l <> 0) (loops updater) /\
  map log_uri (logs updater) = map ld_URI logConfigs /\ map log_key (logs updater) = map ld_Key logConfigs.
Proof.
  unfold newUpdater. destruct (_ || _ || _) eqn:E1; [done|]. destruct (_ || _ || _) eqn:E2 in |- *; [done|]. bool_solve.
  destruct (newLogs logConfigs) as [ls|] eqn:El; [|done]. cbn [rbind].
  assert (map log_uri ls = map ld_URI logConfigs /\ map log_key ls = map ld_Key logConfigs) as Hl.
  { clear -El. revert ls El. induction logConfigs as [|c cs IH]; intros ls El; [by injection El as <-|].
    simpl in El. destruct (newLog c) as [l|] eqn:En; [|done]. simpl in El. destruct (newLogs cs) as [ls'|]; [|done].
    injection El as <-. destruct (IH _ eq_refl). unfold newLog in En. case_in En. injection En as <-. simpl. split; congruence. }
  intros HU.
  assert (ocspStaleMaxAge updater = (if OCSPStaleMaxAge config =? 0 then Hour * 24 * 30 else OCSPStaleMaxAge config) /\
    parallelGenerateOCSPRequests updater =
      (if ParallelGenerateOCSPRequests config =? 0 then 1 else ParallelGenerateOCSPRequests config) /\ logs updater = ls)
    as (-> & -> & ->) by (cbv zeta in HU; destruct (is_empty _), err; try discriminate HU; by injection HU as <-).
  assert (Forall (fun l => l_batchSize l <> 0 /\ l_tickDur l <> 0) (loops updater)) as Hloops.
  { cbv zeta in HU. destruct (RevokedCertificateBatchSize config =? 0) eqn:E5, (RevokedCertificateWindow config =? 0) eqn:E6;
      bool_solve; simpl in HU; destruct (is_empty _), err; try done; injection HU as <-; simpl; repeat constructor; done. }
  split; [|split; [|by split]]; [destruct (ParallelGenerateOCSPRequests config =? 0) eqn:E|
    destruct (OCSPStaleMaxAge config =? 0) eqn:E]; bool_solve; done.
Qed.

(** Only the URLs of the last OCSP server in the certificate are purged. *)
Lemma sendPurge_last_server updater der cert issuer_ req servers server :
  ParseCertificate der = Ok cert -> issuer updater = Some issuer_ -> ocsp_CreateRequest cert issuer_ = Ok req ->
  cert_OCSPServer der = servers ++ [server] ->
  sendPurge updater der =
  Ok (Some (generateOCSPCacheKeys req (if ends_with "/" server then server else server ++s "/"))).
Proof. intros H1 H2 H3 H4. unfold sendPurge. rewrite H1, H2, H3, H4, fold_left_app. done. Qed.

(** An issuer certificate that cannot be loaded is noticed only when a purge panics. *)
Lemma missing_issuer_panics config logConfigs path updater der cert e :
  newUpdater config logConfigs path None = Ok updater -> AkamaiBaseURL config <> EmptyString ->
  core_LoadCert path = Err e -> ParseCertificate der = Ok cert ->
  ccu updater = true /\ sendPurge updater der = Err nil_dereference.
Proof.
  intros H Hu Hl Hp. assert (ccu updater = true /\ issuer updater = None) as [Hc Hi].
  { unfold newUpdater in H. rewrite Hl in H. unfold is_empty in H. destruct (String.eqb_spec (AkamaiBaseURL config) EmptyString); [done|].
    destruct (newLogs logConfigs); repeat case_in H; by injection H as <-. }
  split; [done|]. unfold sendPurge. by rewrite Hp, Hi.
Qed.

(** A database error while reading serials passes for the end of the list. *)
Lemma serials_error_is_lost fuel since batchSize f fs all (s : State C) :
  st_others s = [] -> w_faults (st_world s) = Some f :: fs ->
  fst (serials_loop (S fuel) since batchSize all s) = Ok all.
Proof.
  intros Ho Hf. simpl. unfold mbindM, try, dbMap, mbindM, yield, modify. rewrite Ho. unfold query, call, next_fault. rewrite Hf. simpl.
  done.
Qed.

End ticks.
End OcspRenewal.
