(* ===== verification/CtPublisher.v ===== *)
(** * publisher/publisher.go: submission of certificates to CT logs

    The publisher, and its gRPC wrappers (grpc/publisher-wrappers.go).  The CT client, the
    signature verifier, URLs and keys are those of the libraries; the storage authority is
    an interface. *)

From S2P Require Import Prelude GoStd Errors Features Core Csr Grpc GrpcStorage GrpcRefinement OcspUpdater.

(** A parsed URL: what is before and after the path, and the host in it. *)
Record URL := { url_Before : string; url_Host : string; url_Path : string; url_After : string }.
Definition URL_String (u : URL) : string := url_Before u ++s url_Host u ++s url_Path u ++s url_After u.

(** [ct.SignedCertificateTimestamp] with a log ID of 32 bytes. *)
Record LogSCT := {
  ls_SCTVersion : Z;
  ls_LogID : string;
  ls_Timestamp : Z;
  ls_Extensions : string;
  ls_Signature : string
}.

(** [AddChain n url pem chain]: the answer to the [n]-th submission, checked by the client
    with its key. *)
Class CTLib := {
  url_Parse : string -> result error URL;
  ctClient_New : string -> string -> result error unit;
  ParsePKIXPublicKey : string -> result error PublicKey;
  NewSignatureVerifier : PublicKey -> result error unit;
  AddChain : nat -> string -> string -> list string -> result error LogSCT;
  VerifySCTSignature : PublicKey -> LogSCT -> string -> result error unit;
  MarshalDigitallySigned : string -> result error string
}.

Module CtPublisher.

(** [client] is the address and the key of [ctClient.LogClient], [verifier] the key of
    [ct.SignatureVerifier]. *)
Record Log := {
  logID : string;
  uri : string;
  statName : string;
  client : string * string;
  verifier : PublicKey
}.

Record Impl := { issuerBundle : list string; ctLogs : list Log; submissionTimeout : Z }.

(** [ctLogsCache], and the number of submissions so far. *)
Record PubState := { cache : gmap string Log; submitted : nat }.

Definition New (bundle : list string) (logs : list Log) (submissionTimeout : Z) : Impl * PubState :=
  ({| issuerBundle := bundle; ctLogs := logs;
      submissionTimeout := if submissionTimeout =? 0 then Hour * 12 else submissionTimeout |},
   {| cache := ∅; submitted := 0 |}).

Section publisher.
Context {Cr : Crypto} {X : X509} {CT : CTLib} {S : Type}.
(** [sa.AddSCTReceipt]. *)
Context (AddSCTReceipt : SignedCertificateTimestamp -> M S error unit).

Definition PM (A : Type) : Type := M (S * PubState) error A.

Definition newline : string := String "010" EmptyString.
Definition pem_public_key (b64PK : string) : string :=
  "-----BEGIN PUBLIC KEY-----" ++s newline ++s b64PK ++s newline ++s "-----END PUBLIC KEY-----".
Definition replace_char (a b : ascii) : string -> string := smap (fun c => if Ascii.eqb c a then b else c).
Definition TrimPrefix1 (c : ascii) (s : string) : string :=
  match s with String d s' => if Ascii.eqb d c then s' else s | EmptyString => s end.

Definition NewLog (uri b64PK : string) : result error Log :=
  let? url := url_Parse uri in
  let path := TrimSuffix (url_Path url) "/" in
  let url := {| url_Before := url_Before url; url_Host := url_Host url; url_Path := path; url_After := url_After url |} in
  let pemPK := pem_public_key b64PK in
  match ctClient_New (URL_String url) pemPK with
  | Err err => Err (PlainError ("making CT client: " ++s Error err))
  | Ok _ =>
      match std_decode b64PK with
      | None => Err (PlainError "Failed to decode base64 log public key")
      | Some pkBytes =>
          match ParsePKIXPublicKey pkBytes with
          | Err _ => Err (PlainError "Failed to parse log public key")
          | Ok pk =>
              let? _ := NewSignatureVerifier pk in
              let sanitizedPath := replace_char "/" "." (TrimPrefix1 "/" path) in
              let sanitizedHost := replace_char ":" "_" (url_Host url) in
              Ok {| logID := b64PK; uri := uri; statName := sanitizedHost ++s "." ++s sanitizedPath;
                    client := (URL_String url, pemPK); verifier := pk |}
          end
      end
  end.

Definition AddLog (uri b64PK : string) : PM Log := fun '(s, p) =>
  match cache p !! b64PK with
  | Some log => (Ok log, (s, p))
  | None =>
      match NewLog uri b64PK with
      | Err err => (Err err, (s, p))
      | Ok log => (Ok log, (s, {| cache := <[b64PK := log]> (cache p); submitted := submitted p |}))
      end
  end.

Definition sctToInternal (sct : LogSCT) (serial : string) : result error SignedCertificateTimestamp :=
  let? sig := MarshalDigitallySigned (ls_Signature sct) in
  Ok {| sct_ID := 0; sct_SCTVersion := ls_SCTVersion sct mod 256; sct_LogID := std_encode (ls_LogID sct);
        sct_Timestamp := ls_Timestamp sct; sct_Extensions := ls_Extensions sct; sct_Signature := sig;
        sct_CertificateSerial := serial; sct_LockCol := 0 |}.

Definition singleLogSubmit (chain : list string) (serial : string) (ctLog : Log) : PM unit := fun '(s, p) =>
  let p' := {| cache := cache p; submitted := Datatypes.S (submitted p) |} in
  match AddChain (submitted p) (fst (client ctLog)) (snd (client ctLog)) chain with
  | Err err => (Err err, (s, p'))
  | Ok sct =>
      match VerifySCTSignature (verifier ctLog) sct (hd EmptyString chain) with
      | Err err => (Err err, (s, p'))
      | Ok _ =>
          match sctToInternal sct serial with
          | Err err => (Err err, (s, p'))
          | Ok internalSCT => let '(r, s') := AddSCTReceipt internalSCT s in (r, (s', p'))
          end
      end
  end.

(** A failed submission is only logged. *)
Definition SubmitToSingleCT (pub : Impl) (logURL logPublicKey der : string) : PM unit :=
  let! cert := lift (ParseCertificate der) in
  let chain := der :: issuerBundle pub in
  let! ctLog := AddLog logURL logPublicKey in
  do! try (singleLogSubmit chain (SerialToString (x5_SerialNumber cert)) ctLog) in
  ret tt.

Definition SubmitToCT (pub : Impl) (der : string) : PM unit :=
  forM (ctLogs pub) (fun ctLog => SubmitToSingleCT pub (uri ctLog) (logID ctLog) der).

Definition publisher (pub : Impl) : Publisher (S * PubState) :=
  {| OcspUpdater.SubmitToCT := SubmitToCT pub; OcspUpdater.SubmitToSingleCT := SubmitToSingleCT pub |}.

End publisher.

(** ** grpc/publisher-wrappers.go *)

Section wrappers.
Import SaWrappers.
Context {GL : GoLib} {PJ : Bcodes.PdJSON} {S : Type}.

Record PbRequest := { pr_Der : option string; pr_LogURL : option string; pr_LogPublicKey : option string }.
Record PublisherService (F : Type -> Type -> Type) := {
  ppb_SubmitToCT : F PbRequest unit;
  ppb_SubmitToSingleCT : F PbRequest unit
}.

Definition publisher_client (inner : PublisherService (stub S)) : Publisher S := {|
  OcspUpdater.SubmitToCT := fun der =>
    do! ppb_SubmitToCT _ inner {| pr_Der := Some der; pr_LogURL := None; pr_LogPublicKey := None |} in ret tt;
  OcspUpdater.SubmitToSingleCT := fun logURL logPublicKey der =>
    do! ppb_SubmitToSingleCT _ inner
      {| pr_Der := Some der; pr_LogURL := Some logURL; pr_LogPublicKey := Some logPublicKey |} in ret tt |}.

Definition publisher_server (inner : Publisher S) : PublisherService (handler S) := {|
  ppb_SubmitToCT := fun request =>
    match request with
    | Some {| pr_Der := Some der |} => OcspUpdater.SubmitToCT _ inner der
    | _ => fail (PlainError "incomplete SubmitToCT gRPC message")
    end;
  ppb_SubmitToSingleCT := fun request =>
    match request with
    | Some {| pr_Der := Some der; pr_LogURL := Some logURL; pr_LogPublicKey := Some logPublicKey |} =>
        OcspUpdater.SubmitToSingleCT _ inner logURL logPublicKey der
    | _ => fail (PlainError "incomplete SubmitToSingleCT gRPC message")
    end |}.

Definition remote_publisher (inner : Publisher S) : Publisher S :=
  publisher_client {| ppb_SubmitToCT := rpc "/Publisher/SubmitToCT" (ppb_SubmitToCT _ (publisher_server inner));
                      ppb_SubmitToSingleCT := rpc "/Publisher/SubmitToSingleCT" (ppb_SubmitToSingleCT _ (publisher_server inner)) |}.

End wrappers.
End CtPublisher.
