(* ===== verification/OcspSystem.v ===== *)
(** * The OCSP updater as it is deployed

    The updater's peers are the CA, the storage authority and the publisher behind gRPC;
    the publisher stores its receipts over gRPC too.  They satisfy what the updater relies
    on, so the truthfulness of the served responses rests only on the signer. *)

From S2P Require Import Prelude GoStd Errors Features Core Csr Database Storage SaFrame SaInvariants Grpc GrpcStorage GrpcRefinement.
From S2P Require Import RegistrationAuthority CertificateAuthority CaIssuance GrpcServers System Backoff OcspUpdater OcspChecks CtPublisher.

Module OcspSystem.
Import SaInvariants Ocsp OcspChecks.

(** ** The publisher *)

Section publisher.
Context {Cr : Crypto} {X : X509} {CT : CTLib} {S : Type}.
Context (AddSCTReceipt : SignedCertificateTimestamp -> M S error unit) (pub : CtPublisher.Impl).
Import CtPublisher.

(** Cached logs verify with the key they are filed under. *)
Definition log_ok (key : string) (log : Log) : Prop :=
  logID log = key /\ exists pk, std_decode key = Some pk /\ ParsePKIXPublicKey pk = Ok (verifier log).
Definition cache_ok (p : PubState) : Prop := forall key log, cache p !! key = Some log -> log_ok key log.

Lemma NewLog_ok uri key log : NewLog uri key = Ok log -> log_ok key log.
Proof.
  unfold NewLog, rbind. intros H. repeat case_in H. injection H as <-. split; [done|]. by exists s.
Qed.

Lemma AddLog_ok uri key (s : S) p r s' p' : cache_ok p -> AddLog uri key (s, p) = (r, (s', p')) ->
  s' = s /\ cache_ok p' /\ forall log, r = Ok log -> log_ok key log.
Proof.
  intros Hc H. unfold AddLog in H. destruct (cache p !! key) as [log|] eqn:E.
  - injection H as <- <- <-. split_and!; [done..|]. intros l [= <-]. eauto.
  - destruct (NewLog uri key) as [log|] eqn:En; injection H as <- <- <-; [|done].
    apply NewLog_ok in En. split; [done|]. split; [|by intros l [= <-]].
    intros k l. simpl. destruct (decide (key = k)) as [<-|Hne].
    + rewrite lookup_insert_eq. by intros [= <-].
    + rewrite lookup_insert_ne by done. eauto.
Qed.

(** What a submission may do to the storage: store the receipt of a log, whose signature
    over this certificate verified with the key of the log. *)
Definition stores_verified (key der : string) (s s' : S) : Prop :=
  s' = s \/
  exists x pk bytes sct receipt r,
    ParseCertificate der = Ok x /\ std_decode key = Some bytes /\ ParsePKIXPublicKey bytes = Ok pk /\
    VerifySCTSignature pk sct der = Ok tt /\
    sctToInternal sct (SerialToString (x5_SerialNumber x)) = Ok receipt /\ AddSCTReceipt receipt s = (r, s').

Lemma submit_single uri key der s p r s' p' : cache_ok p ->
  SubmitToSingleCT AddSCTReceipt pub uri key der (s, p) = (r, (s', p')) ->
  cache_ok p' /\ stores_verified key der s s'.
Proof.
  intros Hc H. unfold SubmitToSingleCT in H. destruct (ParseCertificate der) as [x|] eqn:Ex; [|injection H as _ <- <-; by split; [|left]].
  rewrite bind_lift in H. unfold mbindM at 1 in H. destruct (AddLog uri key (s, p)) as [r1 [s1 p1]] eqn:El.
  apply AddLog_ok in El as (-> & Hc1 & Hl); [|done]. destruct r1 as [log|]; [|injection H as _ <- <-; by split; [|left]].
  destruct (Hl _ eq_refl) as (_ & bytes & Hb & Hk). unfold mbindM, try in H.
  destruct (singleLogSubmit _ _ _ _ _) as [r2 [s2 p2]] eqn:Es. injection H as _ <- <-. unfold singleLogSubmit in Es.
  destruct (AddChain _ _ _ _) as [sct|]; [|injection Es as _ <- <-; by split; [|left]].
  destruct (VerifySCTSignature _ _ _) as [[]|] eqn:Ev; [|injection Es as _ <- <-; by split; [|left]].
  destruct (sctToInternal _ _) as [receipt|] eqn:Ei; [|injection Es as _ <- <-; by split; [|left]].
  destruct (AddSCTReceipt receipt s) as [r3 s3] eqn:Ea. injection Es as _ <- <-. split; [done|]. right.
  exists x, (verifier log), bytes, sct, receipt, r3. by split_and!.
Qed.

End publisher.

(** ** The updater's peers *)

Section deployed.
Context {GL : GoLib} {Cr : Crypto} {Q : SQL} {QL : SQLLaws Q} {J : StorageJSON} {X : X509} {OE : OcspEnv}.
Context {PJ : Bcodes.PdJSON} {PbJ : PbJSON} {PbL : PbJSONLaws PbJ} {SG : Signers} {CT : CTLib}.
Context (fs : Features.state) (fuel : nat) (ca : CA.CertificateAuthorityImpl) (pub : CtPublisher.Impl).
Context (attests : string -> string -> string -> Prop).
Notation C := (CA.CAState * CtPublisher.PubState)%type.

(** Each peer works on the database and its own state. *)
Definition on_ca {A} (m : M (World * CA.CAState) error A) : M (World * C) error A := fun '(w, (c, p)) =>
  let '(r, (w', c')) := m (w, c) in (r, (w', (c', p))).
Definition on_pub {A} (m : M (World * CtPublisher.PubState) error A) : M (World * C) error A := fun '(w, (c, p)) =>
  let '(r, (w', p')) := m (w, p) in (r, (w', (c, p'))).
Definition on_sa {A} (m : M World error A) : M (World * C) error A := fun '(w, c) =>
  let '(r, w') := m w in (r, (w', c)).

Definition deployed_ca : OCSPSigningRequest -> M (World * C) error string := fun req =>
  on_ca (CaWrappers.remote_ocsp (CA.GenerateOCSP ca) req).
Definition deployed_sa : StorageLookups (World * C) :=
  let sa := SaWrappers.remote_lookups (System.local_lookups fs) in {|
  GrpcStorage.GetRegistration := fun id => on_sa (GrpcStorage.GetRegistration _ sa id);
  GrpcStorage.GetRegistrationByKey := fun key => on_sa (GrpcStorage.GetRegistrationByKey _ sa key);
  GrpcStorage.GetAuthorization := fun id => on_sa (GrpcStorage.GetAuthorization _ sa id);
  GrpcStorage.GetValidAuthorizations := fun r n t => on_sa (GrpcStorage.GetValidAuthorizations _ sa r n t);
  GrpcStorage.GetCertificate := fun serial => on_sa (GrpcStorage.GetCertificate _ sa serial);
  GrpcStorage.GetCertificateStatus := fun serial => on_sa (GrpcStorage.GetCertificateStatus _ sa serial) |}.
Definition deployed_receipts : SignedCertificateTimestamp -> M World error unit :=
  GrpcStorage.AddSCTReceipt _ (SaWrappers.remote_updates (System.local_updates fs fuel)).
Definition deployed_publisher : Publisher (World * C) :=
  let p := CtPublisher.remote_publisher (CtPublisher.publisher deployed_receipts pub) in {|
  SubmitToCT := fun der => on_pub (SubmitToCT _ p der);
  SubmitToSingleCT := fun uri key der => on_pub (SubmitToSingleCT _ p uri key der) |}.

(** The signer puts the requested status of the requested certificate into its response. *)
Definition signer_attests : Prop := forall n issuer req response,
  ocsp_Sign n issuer req = Ok response -> attests response (os_CertDER req) (os_Status req).
Context (SA : signer_attests).

Notation world_ok := (world_ok attests).

Lemma deployed_ca_ok req w c r w' c' : deployed_ca req (w, c) = (r, (w', c')) ->
  w' = w /\ forall response, r = Ok response -> attests response (os_CertDER req) (os_Status req).
Proof.
  destruct c as [c p]. unfold deployed_ca, on_ca. rewrite GrpcServers.remote_ocsp_spec. unfold carry.
  destruct (CA.GenerateOCSP ca _ (w, c)) as [r1 [w1 c1]] eqn:E. pose proof E as E'.
  apply CaIssuance.GenerateOCSP_state in E as [-> _].
  destruct r1 as [response|]; intros [= <- <- _]; (split; [done|]); [|done]. intros ? [= <-].
  unfold CA.GenerateOCSP, mbindM, lift, fail, CA.state, CA.update in E'.
  destruct (ParseCertificate _); [|done]. destruct (CA.issuers ca !! _) as [issuer|]; [|done].
  destruct (CheckSignatureFrom _ _); [|done]. injection E' as E' _. by apply SA in E'.
Qed.

(** A call of the storage authority over gRPC that is one of its operations. *)
Lemma sa_call_ok op {A} (m : DB A) : op_ok attests op -> (forall w, snd (exec fs op w) = snd (m w)) ->
  forall w r w', world_ok w -> carry m w = (r, w') -> world_ok w' /\ later w w'.
Proof.
  intros Hop He w r w' Hw H. assert (w' = snd (exec fs op w)) as ->.
  { rewrite He. unfold carry in H. by destruct (m w) as [[] ?]; injection H as _ <-. }
  apply exec_ok with (fs := fs) (op := op) (r := fst (exec fs op w)); [done|done|]. by destruct (exec fs op w).
Qed.

Definition keeping (w w' : World) : Prop := world_ok w -> world_ok w' /\ later w w'.
#[local] Instance keeping_preorder : PreOrder keeping.
Proof.
  split; [intros w; split; [done|reflexivity]|]. intros w1 w2 w3 H1 H2 Hw. destruct (H1 Hw) as [K1 L1].
  destruct (H2 K1) as [K2 L2]. split; [done|by etransitivity].
Qed.
Definition first {T} (R : World -> World -> Prop) (x y : World * T) : Prop := R (fst x) (fst y).
#[local] Instance first_preorder {T} : PreOrder (first (T := T) keeping).
Proof. split; [intros x; unfold first; reflexivity|]. intros x y z. unfold first. by etransitivity. Qed.

Lemma receipts_keep receipt : preserves keeping (deployed_receipts receipt).
Proof.
  intros w r w' H Hw. unfold deployed_receipts in H.
  rewrite (proj1 (proj2 (proj2 (proj2 (proj2 (proj2 (proj2 (proj2 (updates_over_rpc (System.local_updates fs fuel)))))))))) in H.
  eapply (sa_call_ok (OpAddSCTReceipt (Grpc.wire_sct receipt))); [done| |exact Hw|exact H]. intros v. unfold exec, ignore, mbindM, try.
  simpl. by destruct (Storage.AddSCTReceipt _ v).
Qed.

Lemma submission_keeps uri key der : preserves (first keeping) (CtPublisher.SubmitToSingleCT deployed_receipts pub uri key der).
Proof.
  unfold CtPublisher.SubmitToSingleCT. apply preserves_lift_bind; [apply _|]. intros x _.
  apply preserves_bind; [apply _| |intros log].
  - intros [w p] r [w' p'] H. unfold CtPublisher.AddLog in H. unfold first. simpl.
    destruct (CtPublisher.cache p !! key); [|destruct (CtPublisher.NewLog uri key)]; injection H as _ <- _; reflexivity.
  - apply preserves_bind; [apply _| |intros; apply preserves_ret; apply _]. apply preserves_try.
    intros [w p] r [w' p'] H. unfold CtPublisher.singleLogSubmit in H. unfold first. simpl.
    destruct (AddChain _ _ _ _); [|injection H as _ <- _; reflexivity].
    destruct (VerifySCTSignature _ _ _); [|injection H as _ <- _; reflexivity].
    destruct (CtPublisher.sctToInternal _ _) as [receipt|]; [|injection H as _ <- _; reflexivity].
    destruct (deployed_receipts receipt w) as [r1 w1] eqn:E. injection H as _ <- _. by apply receipts_keep in E.
Qed.

Lemma on_pub_ok {A B} (h : M (World * CtPublisher.PubState) error A) (m : M (World * CtPublisher.PubState) error B) :
  preserves (first keeping) h -> (forall s, snd (m s) = snd (h s)) -> peer_ok attests (on_pub m).
Proof.
  intros Hh He w [c p] r w' c' H Hw. unfold on_pub in H. specialize (He (w, p)).
  destruct (m (w, p)) as [r1 [w1 p1]] eqn:Em. destruct (h (w, p)) as [r2 s2] eqn:Eh. simpl in He. subst s2.
  injection H as _ <- _. by apply Hh in Eh; apply Eh.
Qed.

Lemma rpc_state {S Req} m (h : handler S Req unit) req (s : S) :
  snd ((do! SaWrappers.rpc m h req in ret tt) s) = snd (h (Some req) s).
Proof. rewrite rpc_bind. unfold mbindM, carry. by destruct (h (Some req) s) as [[] ?]. Qed.

Lemma get_over_rpc serial w c : GrpcStorage.GetCertificate _ deployed_sa serial (w, c) =
  let '(r, w') := carry (let! cert := Storage.GetCertificate serial in ret (Grpc.wire_cert cert)) w in (r, (w', c)).
Proof.
  change (GrpcStorage.GetCertificate _ deployed_sa serial) with
    (on_sa (GrpcStorage.GetCertificate _ (SaWrappers.remote_lookups (System.local_lookups fs)) serial)).
  unfold on_sa. by rewrite (proj1 (proj2 (proj2 (proj2 (proj2 (lookups_over_rpc (System.local_lookups fs))))))).
Qed.

Lemma deployed_peers_ok : peers_ok attests deployed_ca deployed_sa deployed_publisher.
Proof.
  split.
  - apply deployed_ca_ok.
  - intros serial w c r w' c' H Hw. rewrite get_over_rpc in H. destruct (carry _ w) as [r1 w1] eqn:E.
    injection H as _ <- _. eapply (sa_call_ok (OpGetCertificate serial)); [done| |exact Hw|exact E].
    intros v. unfold exec, ignore, mbindM, try. by destruct (Storage.GetCertificate serial v) as [[] ?].
  - intros serial w c cert w' c' H. rewrite get_over_rpc in H. unfold carry, mbindM in H.
    destruct (Storage.GetCertificate serial w) as [[c0|] w2] eqn:E2; [|done].
    injection H as <- <- _. unfold Storage.GetCertificate in E2. destruct (ValidSerial serial); [|done]. simpl in E2.
    unfold mbindM, try in E2. destruct (Storage.SelectCertificate serial w) as [r2 w3] eqn:E3.
    destruct r2 as [c1|e]; [|by destruct e]. injection E2 as <- <-. apply query_Ok in E3 as (E3 & -> & _).
    destruct (certificates (db w) !! coll serial) as [c2|] eqn:Ec; [|done]. injection E3 as ->. by exists c1.
  - intros der. eapply on_pub_ok; [|intros s; apply rpc_state].
    apply preserves_forM; [apply _|]. intros log. apply submission_keeps.
  - intros uri key der. eapply on_pub_ok; [|intros s; apply rpc_state]. apply submission_keeps.
Qed.

(** C4. What the OCSP responder serves is true, in the deployed system: the updater asks
    the CA for signatures, the storage authority for certificates and the publisher for
    submissions over gRPC.  Take any history that starts with an empty database: ticks of
    the updater's loops, whose goroutines take turns in any order, operations of the
    storage authority between and during the ticks, and any database faults.  A response
    served for a serial number attests, for the stored certificate with this number, the
    status in the table; the one exception is a certificate revoked after the response was
    made, and then [revokedCertificatesTick] selects its row. *)
Theorem deployed_responses_are_truthful updater events (s0 : State C) keyHash n response w' :
  db (st_world s0) = emptyTables -> tx (st_world s0) = None -> clock_ok (st_world s0) ->
  Forall (event_ok attests) events ->
  Response keyHash keyHash n (st_world (history deployed_ca deployed_sa deployed_publisher updater events s0))
    = (Ok (Some response), w') ->
  exists cert row status,
    certificates (db w') !! coll (SerialToString n) = Some cert /\
    certificateStatus (db w') !! coll (SerialToString n) = Some row /\
    attests response (cert_DER cert) status /\
    (status = cs_Status row \/ cs_Status row = OCSPStatusRevoked /\ outdated_revocation row = true).
Proof. intros. eapply served_responses_are_truthful; eauto using deployed_peers_ok. Qed.

(** C21. The publisher stores only receipts it has verified: whatever a log answers, one
    submission leaves the storage authority alone or passes it one receipt, with the
    serial number of the certificate, whose signature over this certificate verified with
    the public key the log was configured with, and not one of another cached log. *)
Theorem published_receipts_are_verified uri key der (w : World) p r w' p' :
  cache_ok p -> CtPublisher.SubmitToSingleCT deployed_receipts pub uri key der (w, p) = (r, (w', p')) ->
  cache_ok p' /\ stores_verified deployed_receipts key der w w'.
Proof. apply submit_single. Qed.

End deployed.
End OcspSystem.
