(* ===== verification/Examples.v ===== *)
(** * A sample deployment

    Concrete instances of everything the development takes as a parameter, and a
    history that goes through the whole system: an account registers, obtains two
    authorizations, completes a challenge of each, the VA reports success, and a
    certificate is issued.  The theorems with hypotheses are applied to it. *)

From S2P Require Import Prelude GoStd Net Errors Features Core GoodKey PublicSuffix Policy RateLimit Csr Database Storage.
From S2P Require Import SaFrame SaInvariants SaQueries SaTransactions SaAuthz SaOpen.
From S2P Require Import RegistrationAuthority RaChecks RaIssuance RaStorage.

Module Examples.

(** ** The environment *)

Definition sample_golib : GoLib := Bcodes.toy_golib.
Definition sample_crypto : Crypto := toy_crypto.
Definition sample_elliptic : Elliptic := Csr.toy_elliptic.
Definition sample_policy_env : Policy.PolicyEnv := Policy.toy_policy_env.
Definition sample_sql : SQL := {|
  coll := fun s => s;
  like := fun pat s => match strip_suffix "%" pat with
                       | Some p => String.prefix p s
                       | None => String.eqb pat s
                       end |}.

Definition account_key : JsonWebKey := {| Key := ECDSAKey P256 0 22; Algorithm := EmptyString |}.
Definition sample_records : list ValidationRecord :=
  [{| vr_Authorities := []; vr_URL := "http://a.com/"; vr_Hostname := "a.com"; vr_Port := "80";
      vr_AddressesResolved := ["192.0.2.1"]; vr_AddressUsed := Some "192.0.2.1" |}].
Definition sample_json : StorageJSON := {|
  marshal_identifier := fun i => idType i ++s ":" ++s idValue i;
  marshal_jwk := fun _ => "jwk";
  unmarshal_jwk := fun _ => Ok account_key;
  marshal_problem := fun _ => "problem";
  unmarshal_problem := fun _ => Ok (Probs.Malformed "problem");
  marshal_records := fun _ => "records";
  unmarshal_records := fun _ => Ok sample_records |}.

Definition noon : Z := 1000 * Hour.
Definition sample_certificate : X509Certificate :=
  {| x5_SerialNumber := 255; x5_PublicKey := ECDSAKey P256 0 1; x5_CommonName := "b.com";
     x5_OtherSubject := []; x5_DNSNames := ["b.com"; "a.com"]; x5_EmailAddresses := [];
     x5_IPAddresses := []; x5_NotBefore := noon; x5_NotAfter := noon + 90 * 24 * Hour;
     x5_BasicConstraintsValid := true; x5_IsCA := false;
     x5_ExtKeyUsage := [ExtKeyUsageServerAuth; ExtKeyUsageClientAuth];
     x5_IssuingCertificateURL := ["http://ca.example/issuer"] |}.
Definition sample_x509 : X509 := {|
  ParseCertificate := fun der =>
    if String.eqb der "certificate" then Ok sample_certificate else Err (PlainError "asn1: syntax error") |}.

#[local] Existing Instances sample_golib sample_crypto sample_elliptic sample_policy_env sample_sql
  sample_json sample_x509.

Definition features_on : Features.state := snd (Features.Set_ [("AllowAccountDeactivation", true)] Features.init_).

Definition sample_sa : StorageAuthority World := storage_authority features_on 1.
#[local] Existing Instance sample_sa.

(** Challenges are drawn from a fixed token. *)
Definition sample_token : string := RandomString toy_bytes.
Definition sample_pa : PolicyAuthority :=
  policy_authority features_on Policy.toy_pa (fun _ => (sample_token, sample_token, sample_token, sample_token))
    (fun _ => seq 0) (fun _ => seq 0).
Definition sample_ca : CertificateAuthority World := {|
  ca_IssueCertificate := fun csr regID =>
    let! digest := Storage.AddCertificate "certificate" regID EmptyString in
    ret {| cert_RegistrationID := regID; cert_Serial := SerialToString 255; cert_Digest := digest;
           cert_DER := "certificate"; cert_Issued := noon; cert_Expires := noon + 90 * 24 * Hour |} |}.
Definition sample_env : RAEnv := {|
  va_IsSafeDomain := fun _ => Ok true;
  ParseAddressList := fun s => Some [s];
  url_Parse := fun c => match c with String "m" (String "a" (String "i" (String "l" (String "t"
                          (String "o" (String ":" rest)))))) => Some ("mailto", rest) | _ => None end;
  LookupMX := fun _ => Ok ["mx.example.com"];
  LookupHost := fun _ => Ok [];
  fmt_duration := fun _ => "a while";
  fmt_time := fun _ => "then";
  fmt_challenge := fun _ => "challenge" |}.
#[local] Existing Instances sample_pa sample_ca sample_env.

Definition sample_config : RA.Config :=
  {| RA.keyPolicy := GoodKey.NewKeyPolicy; RA.maxContactsPerReg := 2; RA.maxNames := 100;
     RA.forceCNFromSAN := true; RA.reuseValidAuthz := true; RA.authorizationLifetime := 300 * 24 * Hour;
     RA.pendingAuthorizationLifetime := 7 * 24 * Hour; RA.usingGRPC := true; RA.hasPublisher := true |}.

(** ** The history *)

Definition empty_storage : World :=
  {| db := emptyTables; tx := None; w_faults := []; w_now := noon; w_ticks := [];
     w_rng := fun n => "id" ++s itoa (Z.of_nat n); w_draws := 0 |}.
Definition start : RA.World World :=
  {| RA.sa := empty_storage; RA.rlPolicies := RateLimit.New; RA.totalIssuedCount := 0;
     RA.totalIssuedLastUpdate := zeroTime; RA.ra_now := noon; RA.ra_ticks := [1; 1; 1]; RA.draws := 0;
     RA.vaJobs := []; RA.ctJobs := []; RA.audit := []; RA.caRequests := [] |}.

Definition sample_registration : Registration :=
  {| reg_ID := 0; reg_Key := Some account_key; reg_Contact := Some ["mailto:ops@a.com"];
     reg_Agreement := EmptyString; reg_InitialIP := Some "0123"; reg_CreatedAt := zeroTime; reg_Status := EmptyString |}.
Definition request_for (name : string) : Authorization :=
  {| az_ID := EmptyString; az_Identifier := {| idType := IdentifierDNS; idValue := name |};
     az_RegistrationID := 0; az_Status := EmptyString; az_Expires := None; az_Challenges := [];
     az_Combinations := [] |}.

Definition run := RaIssuance.run features_on sample_config.
Definition ops1 : list RaIssuance.op :=
  [RaIssuance.OpNewRegistration sample_registration; RaIssuance.OpNewAuthorization (request_for "a.com") 1;
   RaIssuance.OpNewAuthorization (request_for "b.com") 1].

(** The authorization with an ID, as storage returns it. *)
Definition read (id : string) (w : RA.World World) : Authorization :=
  match fst (Storage.GetAuthorization id (RA.sa w)) with Ok a => a | Err _ => request_for "x.com" end.
Definition response : Challenge :=
  RA.set_ProvidedKeyAuthorization (HTTPChallenge01 sample_token)
    (sample_token ++s "." ++s b64_encode false (repeat_char "t" 32)).

Definition authz_a : Authorization := Eval vm_compute in read "id0" (run ops1 start).
Definition authz_b : Authorization := Eval vm_compute in read "id1" (run ops1 start).

Definition ops2 : list RaIssuance.op :=
  ops1 ++ [RaIssuance.OpUpdateAuthorization authz_a 0 response;
           RaIssuance.OpUpdateAuthorization authz_b 0 response;
           RaIssuance.OpValidated 1 sample_records None; RaIssuance.OpValidated 0 sample_records None].
Definition ops3 : list RaIssuance.op := ops2 ++ [RaIssuance.OpNewCertificate Csr.toy_csr 1].

(** ** The laws of the environment *)

Lemma prefix_spec p s : String.prefix p s = true <-> exists u, s = p ++s u.
Proof.
  revert s. induction p as [|c p IH]; intros s; simpl; [split; [intros _; by exists s|by destruct s]|].
  destruct s as [|d s]; [split; [done|by intros [u [=]]]|].
  simpl. destruct (ascii_dec c d) as [->|Hne].
  - rewrite IH. split; intros [u Hu]; exists u; congruence.
  - split; [done|]. intros [u [= -> _]]. done.
Qed.

#[local] Instance sample_sql_laws : SQLLaws sample_sql.
Proof.
  split.
  - intros p s _. simpl. rewrite (proj2 (strip_suffix_Some "%" (p ++s "%") p) eq_refl), prefix_spec. split.
    + intros [u ->]. by exists p, u.
    + intros (t & u & -> & <-). by exists u.
  - intros s t _ _ H. exact H.
Qed.

#[local] Instance sample_spec : StorageSpec World := storage_spec features_on 1.

#[local] Instance sample_ca_spec : CASpec World.
Proof.
  split. intros csr regID. simpl. apply preserves_bind; [apply _| |intros; apply preserves_ret; apply _].
  refine (exec_no_new features_on (SaInvariants.OpAddCertificate "certificate" regID EmptyString)
            (Storage.AddCertificate "certificate" regID EmptyString) eq_refl I).
Qed.

#[local] Instance sample_policy : PolicySpec.
Proof. apply policy_spec. Qed.

Lemma empty_ok : storage_ok empty_storage.
Proof. split; [reflexivity|]. split; [apply SaInvariants.wf_empty|apply SaOpen.open_wf_empty]. Qed.

Lemma start_ok : RaIssuance.starts start.
Proof. split; [apply empty_ok|]. split; [reflexivity|]. split; [reflexivity|]. repeat constructor; discriminate. Qed.

(** The responses are to authorizations read after the third step. *)
Lemma ops3_read : RaIssuance.from_storage features_on sample_config ops3 start.
Proof.
  intros pre base i resp post E. unfold ops3, ops2, ops1 in E. simpl in E.
  do 3 (destruct pre as [|? pre]; [discriminate E|injection E as <- E]).
  destruct pre as [|? pre]; [|injection E as <- E; destruct pre as [|? pre]].
  - injection E as <- <- <- <-. exists ops1, [], "id0"%string. eexists. split; [reflexivity|]. vm_compute. reflexivity.
  - injection E as <- <- <- <-. exists ops1. eexists _, "id1"%string, _. split; [reflexivity|]. vm_compute. reflexivity.
  - do 3 (injection E as <- E; destruct pre as [|? pre]; [discriminate E|]). injection E as <- E. destruct pre; discriminate E.
Qed.

(** The storage is in order at any point of the history. *)
Lemma history_ok n : sa_ok (RA.sa (run (take n ops3) start)).
Proof.
  apply (RaIssuance.sh_ok features_on sample_config (take n ops3) start).
  apply RaIssuance.sound_history_run; [apply start_ok|].
  apply (RaIssuance.from_storage_app features_on sample_config (take n ops3) (drop n ops3)). rewrite take_drop. apply ops3_read.
Qed.

(** ** The theorems applied *)

Lemma no_certificate_without_validation_witness :
  exists pre now, RA.ra_now (run pre start) <= now /\ holds_authorization (RA.sa (run pre start)) 1 "a.com" now /\
    RaIssuance.validated_in features_on sample_config pre start 1 "a.com".
Proof.
  destruct (RaIssuance.no_certificate_without_validation features_on sample_config ops3 start
    (Csr.normalizeCSR Csr.toy_csr true) 1) as (pre & req & post & now & _ & _ & [Hnow _] & Hn).
  - apply start_ok.
  - apply ops3_read.
  - assert (RA.caRequests (run ops3 start) = [(Csr.normalizeCSR Csr.toy_csr true, 1)]) as E
      by (vm_compute; reflexivity).
    unfold run in E. rewrite E. apply list_elem_of_singleton. reflexivity.
  - destruct (Hn "a.com"%string ltac:(vm_compute; left)) as [Ha [(k & a & e & H & _)|H]]; [discriminate H|].
    exists pre, now. split; [exact Hnow|]. split; [exact Ha|exact H].
Defined.

Definition before_issuance : RA.World World := run ops2 start.
Lemma before_issuance_ok : sa_ok (RA.sa before_issuance).
Proof. exact (history_ok 7). Qed.

Lemma NewCertificate_asks_only_for_authorized_names_witness :
  exists csr now,
    RA.caRequests (snd (RA.NewCertificate sample_config Csr.toy_csr 1 before_issuance)) =
      (csr, 1) :: RA.caRequests before_issuance /\ RA.ra_now before_issuance <= now /\
    forall n, n ∈ csr_DNSNames csr -> holds_authorization (RA.sa before_issuance) 1 (ToLower n) now.
Proof.
  destruct (RaIssuance.NewCertificate_asks_only_for_authorized_names sample_config Csr.toy_csr 1 before_issuance
    (fst (RA.NewCertificate sample_config Csr.toy_csr 1 before_issuance))
    (snd (RA.NewCertificate sample_config Csr.toy_csr 1 before_issuance))) as [H|(csr & now & H & _ & _ & _ & Hnow & Ha)].
  - apply before_issuance_ok.
  - assert (RA.ra_ticks before_issuance = []) as -> by (vm_compute; reflexivity). constructor.
  - apply surjective_pairing.
  - exfalso. vm_compute in H. discriminate H.
  - exists csr, now. split; [exact H|]. split; [apply Hnow|exact Ha].
Defined.

Lemma validation_outcome_witness :
  RA.sa (snd (RA.finish_validation sample_config authz_a 0 sample_records None start)) =
  snd (Storage.FinalizeAuthorization
         (RaChecks.finalized sample_config authz_a 0
            (RaChecks.answered (nth 0 (az_Challenges authz_a) response) sample_records StatusValid None) noon) empty_storage).
Proof.
  destruct (RaChecks.validation_outcome sample_config authz_a 0 (nth 0 (az_Challenges authz_a) response)
    sample_records None start (snd (RA.finish_validation sample_config authz_a 0 sample_records None start))
    (fst (RA.finish_validation sample_config authz_a 0 sample_records None start))) as (status & problem & HV & H).
  - reflexivity.
  - discriminate.
  - split; repeat (constructor; try discriminate).
  - left.
  - apply surjective_pairing.
  - inversion HV as [Hs Hr Hst Hp| | |Hs]; subst; [exact H|]. destruct Hs. left. split; [reflexivity|]. split; [discriminate|].
    repeat constructor; discriminate.
Defined.

(** A world with every certificate limit in force. *)
Definition limit_of (n : Z) : RateLimit.RateLimitPolicy :=
  {| RateLimit.Window := Hour; RateLimit.Threshold := n; RateLimit.Overrides := ∅;
     RateLimit.RegistrationOverrides := ∅ |}.
Definition limited : RA.World World :=
  {| RA.sa := empty_storage;
     RA.rlPolicies := {| RateLimit.rlPolicy := Some
       {| RateLimit.cfg_TotalCertificates := limit_of 100; RateLimit.cfg_CertificatesPerName := limit_of 2;
          RateLimit.cfg_RegistrationsPerIP := limit_of 3; RateLimit.cfg_PendingAuthorizationsPerAccount := limit_of 4;
          RateLimit.cfg_InvalidAuthorizationsPerAccount := limit_of 5;
          RateLimit.cfg_CertificatesPerFQDNSet := limit_of 6 |} |};
     RA.totalIssuedCount := 99; RA.totalIssuedLastUpdate := noon; RA.ra_now := noon; RA.ra_ticks := [1; 1];
     RA.draws := 0; RA.vaJobs := []; RA.ctJobs := []; RA.audit := []; RA.caRequests := [] |}.

Lemma checkLimits_sound_witness :
  RA.totalIssuedCount limited < 100 /\
  exists s, RaChecks.below_name_limit (limit_of 2) ["www.a.com"; "a.com"] 1 (noon + 1) empty_storage s /\
    RaChecks.below_set_limit (limit_of 6) ["www.a.com"; "a.com"] 1 s
      (RA.sa (snd (RA.checkLimits ["www.a.com"; "a.com"] 1 limited))).
Proof.
  destruct (RaChecks.checkLimits_sound ["www.a.com"; "a.com"] 1 limited
    (snd (RA.checkLimits ["www.a.com"; "a.com"] 1 limited))) as (HT & s & HN & HS).
  - vm_compute. reflexivity.
  - split; [apply HT; discriminate|]. exists s. split; [exact HN|exact HS].
Defined.

Lemma NewAuthorization_result_witness :
  RaChecks.reused 1 "a.com" (RA.ra_now before_issuance) (read "id0" before_issuance) \/
  RaChecks.created sample_config 1 {| idType := IdentifierDNS; idValue := "a.com" |} before_issuance
    (read "id0" before_issuance).
Proof.
  destruct (RaChecks.NewAuthorization_result sample_config (request_for "A.com") 1 before_issuance
    (snd (RA.NewAuthorization sample_config (request_for "A.com") 1 before_issuance))
    (read "id0" before_issuance)) as (_ & _ & [[_ H]|H]).
  - assert (RA.ra_ticks before_issuance = []) as -> by (vm_compute; reflexivity). constructor.
  - vm_compute. reflexivity.
  - left. exact H.
  - right. exact H.
Defined.

Lemma mergeUpdate_spec_witness :
  exists r', RA.mergeUpdate features_on sample_registration
      {| reg_ID := 7; reg_Key := None; reg_Contact := Some ["mailto:new@a.com"]; reg_Agreement := "v2";
         reg_InitialIP := None; reg_CreatedAt := 0; reg_Status := "odd" |} = Ok (r', true) /\
    reg_ID r' = 0 /\ reg_Status r' = EmptyString.
Proof.
  eexists. split; [vm_compute; reflexivity|].
  edestruct (RaChecks.mergeUpdate_spec features_on sample_registration
      {| reg_ID := 7; reg_Key := None; reg_Contact := Some ["mailto:new@a.com"]; reg_Agreement := "v2";
         reg_InitialIP := None; reg_CreatedAt := 0; reg_Status := "odd" |}) as (H1 & _ & _ & H2 & _);
    [vm_compute; reflexivity|].
  split; [exact H1|exact H2].
Defined.

(** ** Storage *)

(** After the two authorizations were requested, and after the certificate was issued. *)
Definition offered : World := RA.sa (run ops1 start).
Definition issued : World := RA.sa (run ops3 start).
Definition issued_names : list issuedNameModel := Eval vm_compute in issuedNames (db issued).
Lemma offered_wf : SaInvariants.wf (db offered).
Proof. exact (proj1 (proj2 (history_ok 3))). Qed.
Lemma issued_wf : SaInvariants.wf (db issued).
Proof. exact (proj1 (proj2 (history_ok 8))). Qed.

(** A few requests, one of which fails with its reply lost. *)
Definition sample_sa_ops : list (Features.state * SaInvariants.sa_op) :=
  [(features_on, SaInvariants.OpDeactivateAuthorization "id0");
   (features_on, SaInvariants.OpMarkCertificateRevoked (SerialToString 255) 1)].
Definition faulty : World :=
  {| db := db issued; tx := None; w_faults := [None; None; Some {| f_error := PlainError "timeout"; f_applied := true |}];
     w_now := noon; w_ticks := []; w_rng := fun _ => "id"; w_draws := 0 |}.

Lemma storage_history_is_append_only_witness :
  SaInvariants.grows (db faulty) (db (snd (SaInvariants.run sample_sa_ops faulty))).
Proof.
  apply (SaInvariants.storage_history_is_append_only sample_sa_ops faulty
    (fst (SaInvariants.run sample_sa_ops faulty))); [reflexivity|apply surjective_pairing].
Defined.

Lemma storage_stays_well_formed_witness :
  SaInvariants.wf (db (snd (SaInvariants.run
    [(features_on, SaInvariants.OpNewRegistration sample_registration)] empty_storage))).
Proof.
  apply (SaInvariants.storage_stays_well_formed [(features_on, SaInvariants.OpNewRegistration sample_registration)]
    empty_storage (fst (SaInvariants.run [(features_on, SaInvariants.OpNewRegistration sample_registration)] empty_storage)));
    [reflexivity|reflexivity|apply surjective_pairing].
Defined.

Lemma GetValidAuthorizations_spec_witness :
  exists m w', Storage.GetValidAuthorizations 1 ["a.com"] noon issued = (Ok m, w') /\
    forall a, m !! "a.com" = Some a -> az_RegistrationID a = 1.
Proof.
  destruct (Storage.GetValidAuthorizations 1 ["a.com"] noon issued) as [r w'] eqn:E.
  assert (is_ok r = true) as Hr
    by (replace r with (fst (Storage.GetValidAuthorizations 1 ["a.com"] noon issued)) by (rewrite E; reflexivity);
        vm_compute; reflexivity).
  destruct r as [m|]; [|discriminate Hr]. exists m, w'. split; [reflexivity|]. intros a Ha.
  destruct (SaQueries.GetValidAuthorizations_spec 1 ["a.com"] noon issued m w' E) as (_ & H & _).
  apply (H "a.com" a Ha).
Defined.

Lemma countCertificatesByName_spec_witness :
  exists serials : gset string,
    Storage.countCertificatesByName "a.com" 0 (2 * noon) issued = (Ok (Z.of_nat (size serials)), issued).
Proof.
  destruct (SaQueries.countCertificatesByName_spec "a.com" 0 (2 * noon) issued) as (serials & H & _).
  - vm_compute. reflexivity.
  - reflexivity.
  - assert (issuedNames (db issued) = issued_names) as -> by (vm_compute; reflexivity). repeat constructor.
  - vm_compute. discriminate.
  - exists serials. exact H.
Defined.

Lemma ipRange_spec_witness :
  let '(begin_, end_) := Storage.ipRange "0123" in
  String.leb begin_ (Net.To16 "0123") = true /\ String.ltb (Net.To16 "0123") end_ = true.
Proof.
  pose proof (SaQueries.ipRange_spec "0123" (Net.To16 "0123") (or_introl eq_refl) eq_refl) as H.
  destruct (Storage.ipRange "0123") as [b e]. apply H. vm_compute. reflexivity.
Defined.

Lemma AddCertificate_all_or_nothing_witness :
  exists digest, fst (Storage.AddCertificate "certificate" 1 EmptyString offered) = Ok digest /\
    SaTransactions.added "certificate" 1 EmptyString (db offered)
      (db (snd (Storage.AddCertificate "certificate" 1 EmptyString offered))).
Proof.
  pose proof (SaTransactions.AddCertificate_all_or_nothing "certificate" 1 EmptyString offered
    (fst (Storage.AddCertificate "certificate" 1 EmptyString offered))
    (snd (Storage.AddCertificate "certificate" 1 EmptyString offered))
    ltac:(vm_compute; reflexivity) (surjective_pairing _)) as H.
  destruct (fst (Storage.AddCertificate "certificate" 1 EmptyString offered)) eqn:E.
  - eexists. split; [reflexivity|exact (proj2 H)].
  - exfalso. vm_compute in E. discriminate E.
Defined.

Lemma added_certificate_is_found_witness :
  exists digest w', Storage.AddCertificate "certificate" 1 EmptyString offered = (Ok digest, w') /\
    Storage.FQDNSetExists ["A.com"; "b.com"] w' = (Ok true, w').
Proof.
  destruct (Storage.AddCertificate "certificate" 1 EmptyString offered) as [r w'] eqn:E.
  assert (is_ok r = true) as Hr
    by (replace r with (fst (Storage.AddCertificate "certificate" 1 EmptyString offered)) by (rewrite E; reflexivity);
        vm_compute; reflexivity).
  destruct r as [digest|]; [|discriminate Hr].
  exists digest, w'. split; [reflexivity|].
  destruct (SaTransactions.added_certificate_is_found "certificate" 1 EmptyString offered digest w') as (x & Hx & _ & H).
  - vm_compute. reflexivity.
  - exact E.
  - replace w' with (snd (Storage.AddCertificate "certificate" 1 EmptyString offered)) by (rewrite E; reflexivity).
    vm_compute. reflexivity.
  - apply H. simpl in Hx. injection Hx as <-. intros n.
    change (n ∈ ["a.com"; "b.com"] <-> n ∈ ["b.com"; "a.com"]).
    rewrite !elem_of_cons. tauto.
Defined.

Lemma MarkCertificateRevoked_works_witness :
  exists w', Storage.MarkCertificateRevoked (SerialToString 255) 1 issued = (Ok tt, w').
Proof.
  edestruct (SaTransactions.MarkCertificateRevoked_works (SerialToString 255) 1) as (w' & H & _).
  - apply issued_wf.
  - vm_compute. reflexivity.
  - vm_compute. reflexivity.
  - vm_compute. reflexivity.
  - vm_compute. reflexivity.
  - vm_compute. reflexivity.
  - exists w'. exact H.
Defined.

Lemma fresh_id_terminates_witness :
  exists id w', Storage.fresh_id 3 offered = (Ok (Some id), w').
Proof.
  destruct (SaAuthz.fresh_id_terminates 3 offered) as (id & w' & H & _).
  - vm_compute. reflexivity.
  - intros i j H. assert (w_rng offered = w_rng empty_storage) as E by (vm_compute; reflexivity).
    rewrite E in H. simpl in H. injection H as H. apply Nat2Z.inj, itoa_inj; [lia|lia|exact H].
  - vm_compute. repeat constructor.
  - exists id, w'. exact H.
Defined.

Definition fresh_request : Authorization :=
  {| az_ID := EmptyString; az_Identifier := {| idType := IdentifierDNS; idValue := "c.com" |};
     az_RegistrationID := 1; az_Status := StatusPending; az_Expires := Some (2 * noon);
     az_Challenges := [HTTPChallenge01 sample_token; DNSChallenge01 sample_token]; az_Combinations := [[0]; [1]] |}.

Lemma NewPendingAuthorization_roundtrip_witness :
  exists a' w', Storage.NewPendingAuthorization 1 fresh_request offered = (Ok (Some a'), w') /\
    Storage.GetAuthorization "id2" w' = (Ok a', w').
Proof.
  destruct (SaAuthz.NewPendingAuthorization_roundtrip fresh_request 0 offered) as (w' & H1 & _ & H2).
  - vm_compute. reflexivity.
  - vm_compute. reflexivity.
  - vm_compute. reflexivity.
  - vm_compute. reflexivity.
  - vm_compute. reflexivity.
  - eexists. vm_compute. reflexivity.
  - repeat constructor.
  - eexists. exists w'. split; [exact H1|]. exact H2.
Defined.

(** The first authorization with its first challenge validated. *)
Definition validated_a : Authorization :=
  RaChecks.finalized sample_config authz_a 0
    (RA.record_validation (nth 0 (az_Challenges authz_a) response) sample_records None) noon.

Lemma FinalizeAuthorization_all_or_nothing_witness :
  SaAuthz.finalized validated_a (db offered) (db (snd (Storage.FinalizeAuthorization validated_a offered))).
Proof.
  pose proof (SaAuthz.FinalizeAuthorization_all_or_nothing validated_a offered
    (fst (Storage.FinalizeAuthorization validated_a offered))
    (snd (Storage.FinalizeAuthorization validated_a offered))
    offered_wf ltac:(vm_compute; reflexivity) (surjective_pairing _)) as H.
  destruct (fst (Storage.FinalizeAuthorization validated_a offered)) eqn:E.
  - exact H.
  - exfalso. vm_compute in E. discriminate E.
Defined.

Lemma FinalizeAuthorization_works_witness :
  exists w', Storage.FinalizeAuthorization validated_a offered = (Ok tt, w') /\
    SaAuthz.finalized validated_a (db offered) (db w').
Proof.
  edestruct (SaAuthz.FinalizeAuthorization_works validated_a) as (w' & H & Hf & _).
  - apply offered_wf.
  - vm_compute. reflexivity.
  - vm_compute. reflexivity.
  - vm_compute. reflexivity.
  - vm_compute. reflexivity.
  - eexists. vm_compute. reflexivity.
  - reflexivity.
  - vm_compute. reflexivity.
  - repeat (constructor; try discriminate).
  - exists w'. split; [exact H|exact Hf].
Defined.

Lemma RevokeAuthorizationsByDomain_complete_witness :
  exists n0 n1 w', Storage.RevokeAuthorizationsByDomain 4 {| idType := IdentifierDNS; idValue := "a.com" |} issued
    = (Ok (Some (n0, n1)), w').
Proof.
  destruct (SaAuthz.RevokeAuthorizationsByDomain_complete {| idType := IdentifierDNS; idValue := "a.com" |} 4 issued)
    as (n0 & n1 & w' & H & _).
  - apply issued_wf.
  - vm_compute. reflexivity.
  - vm_compute. repeat constructor.
  - vm_compute. repeat constructor.
  - exists n0, n1, w'. exact H.
Defined.

End Examples.
