(* ===== verification/WebFrontEnd.v ===== *)
(** * wfe/: the web front end

    wfe/wfe.go and wfe/jose.go: the routing of HTTP requests, the authentication of
    signed requests ([verifyPOST]), and every handler.  The RA and the storage authority
    are the interfaces of the other components, on an abstract state.  The go-jose
    library, JSON, URL printing and net/http's redirects are parameters.  Log events
    are left out, except for the requester they name, which is also sent to the client. *)

From S2P Require Import Prelude GoStd Net Nonce Errors Features Core GoodKey Csr.
From S2P Require Import RegistrationAuthority GrpcStorage GrpcServers.

(** ** The libraries *)

(** go-jose: a parsed JWS, the header of each of its signatures, and verification,
    which yields the payload. *)
Record JoseHeader := { hdr_JsonWebKey : option JsonWebKey; hdr_Algorithm : string; hdr_Nonce : string }.
Record Signature := { sig_Header : JoseHeader; sig_Signature : string }.
Record JsonWebSignature := { jws_payload : string; jws_Signatures : list Signature }.
Class JOSE := {
  ParseSigned : string -> result error JsonWebSignature;
  jws_Verify : JsonWebSignature -> JsonWebKey -> result error string
}.

(** net/http: a request as a handler sees it, with canonical header names.  The body is
    nil, or what reading it yields. *)
Definition header := gmap string (list string).
Definition header_Get (h : header) (k : string) : string :=
  match h !! k with Some (v :: _) => v | _ => EmptyString end.
Record Request := {
  req_Method : string;
  req_Path : string;
  req_Header : header;
  req_Body : option (result error string);
  req_TLS : bool;
  req_Host : string;
  req_RemoteAddr : string
}.
Definition with_Path (r : Request) (path : string) : Request :=
  {| req_Method := req_Method r; req_Path := path; req_Header := req_Header r; req_Body := req_Body r;
     req_TLS := req_TLS r; req_Host := req_Host r; req_RemoteAddr := req_RemoteAddr r |}.

(** A response under construction: its header, status and header as they were sent by
    the first [WriteHeader], and the body. *)
Record Response := { rs_Header : header; rs_Sent : option (Z * header); rs_Body : string }.

(** [path.Clean] of a rooted path, and the [cleanPath] of [ServeMux]. *)
Definition clean_step (stack : list string) (part : string) : list string :=
  if is_empty part || String.eqb part "." then stack
  else if String.eqb part ".." then tail stack else part :: stack.
Definition cleanPath (p : string) : string :=
  if is_empty p then "/"
  else
    let p := if String.prefix "/" p then p else String "/" p in
    let np := String "/" (join "/" (rev (fold_left clean_step (split_on "/" p) []))) in
    if ends_with "/" p && negb (String.eqb np "/") then np ++s "/" else np.
Definition pathMatch (pattern path : string) : bool :=
  if ends_with "/" pattern then String.prefix pattern path else String.eqb pattern path.

(** A URL split at its scheme. *)
Record ParsedURI := { uri_Scheme : string; uri_Rest : string }.

(** What is turned into JSON, and what is read from it. *)
Inductive json_value :=
| JsonProblem (prob : Probs.ProblemDetails)
| JsonRegistration (reg : Registration)
| JsonAuthorization (authz : Authorization)
| JsonChallenge (challenge : Challenge)
| JsonDirectory (directory : gmap string string).

Class WfeEnv := {
  marshalIndent : json_value -> result error string;
  unmarshal_resource : string -> result error string;
  unmarshal_registration : string -> result error Registration;
  unmarshal_authorization : string -> result error Authorization;
  unmarshal_challenge : string -> result error Challenge;
  (* the DER bytes and the reason of a revocation request *)
  unmarshal_revocation : string -> result error (string * option Z);
  unmarshal_csr : string -> result error string;
  unmarshal_status : string -> result error string;
  (* the new key, nil if absent, and the account URL of a key change *)
  unmarshal_rollover : string -> result error (option PublicKey * string);
  (* url.URL{Scheme, Host, Path}.String() *)
  URL_of : string -> string -> string -> string;
  ParseRequestURI : string -> result error ParsedURI;
  URI_String : ParsedURI -> string;
  (* http.Redirect: the Location and the body, from the request and the target *)
  Redirect_to : Request -> string -> string * string;
  BuildID_text : string;
  BuildTime_text : string
}.

Module WFE.

(** ** wfe/jose.go *)

Definition curve_name (c : Curve) : string :=
  match c with P224 => "P-224" | P256 => "P-256" | P384 => "P-384" | P521 => "P-521" | OtherCurve n => n end.

Definition algorithmForKey (key : JsonWebKey) : result error string :=
  let none := Err (BoulderError Berrors.SignatureValidation "no signature algorithms suitable for given key type") in
  match Key key with
  | RSAKey _ _ => Ok "RS256"
  | ECDSAKey c _ _ =>
      let name := curve_name c in
      if String.eqb name "P-256" then Ok "ES256"
      else if String.eqb name "P-384" then Ok "ES384"
      else if String.eqb name "P-521" then Ok "ES512"
      else none
  | UnknownKey _ => none
  end.

(** [checkAlgorithm]: the name of the statistic comes with the error. *)
Definition checkAlgorithm (key : JsonWebKey) (parsedJws : JsonWebSignature) : result (string * error) unit :=
  match algorithmForKey key with
  | Err err => Err ("WFE.Errors.NoAlgorithmForKey", err)
  | Ok algorithm =>
      match jws_Signatures parsedJws with
      | [] => Err (EmptyString, PlainError "runtime error: index out of range")
      | sig :: _ =>
          let jwsAlgorithm := hdr_Algorithm (sig_Header sig) in
          if negb (String.eqb jwsAlgorithm algorithm) then
            Err ("WFE.Errors.InvalidJWSAlgorithm", BoulderError Berrors.SignatureValidation
                   ("signature type '" ++s jwsAlgorithm
                    ++s "' in JWS header is not supported, expected one of RS256, ES256, ES384 or ES512"))
          else if negb (is_empty (Algorithm key)) && negb (String.eqb (Algorithm key) algorithm) then
            Err ("WFE.Errors.InvalidAlgorithmOnKey", BoulderError Berrors.SignatureValidation
                   ("algorithm '" ++s Algorithm key ++s "' on JWK is unacceptable"))
          else Ok tt
      end
  end.

(** go-jose's [JsonWebKey.Valid]; the moduli and points of the model are never nil. *)
Definition Valid (k : JsonWebKey) : bool :=
  match Key k with
  | ECDSAKey _ _ _ => true
  | RSAKey _ E => negb (E =? 0)
  | UnknownKey _ => false
  end.

(** ** State *)

Notation directoryPath := "/directory".
Notation newRegPath := "/acme/new-reg".
Notation regPath := "/acme/reg/".
Notation newAuthzPath := "/acme/new-authz".
Notation authzPath := "/acme/authz/".
Notation challengePath := "/acme/challenge/".
Notation newCertPath := "/acme/new-cert".
Notation certPath := "/acme/cert/".
Notation revokeCertPath := "/acme/revoke-cert".
Notation termsPath := "/terms".
Notation issuerPath := "/acme/issuer-cert".
Notation buildIDPath := "/build".
Notation rolloverPath := "/acme/key-change".

(** [type WebFrontEndImpl struct], without the RA, the SA, clock, log, statistics and
    cache settings; the nonce service is part of the state. *)
Record WebFrontEndImpl := {
  BaseURL : string;
  IssuerCert : string;
  SubscriberAgreementURL : string;
  keyPolicy : GoodKey.KeyPolicy;
  AllowOrigins : list string;
  AcceptRevocationReason : bool;
  AllowAuthzDeactivation : bool
}.

(** The calls of the RA. *)
Inductive ra_call :=
| CallNewRegistration (init : Registration)
| CallNewAuthorization (init : Authorization) (regID : Z)
| CallNewCertificate (csr : CertificateRequest * string) (regID : Z)
| CallUpdateRegistration (base update : Registration)
| CallUpdateAuthorization (authz : Authorization) (challengeIndex : Z) (response : Challenge)
| CallRevokeCertificateWithReg (cert : X509Certificate * string) (code regID : Z)
| CallDeactivateRegistration (reg : Registration)
| CallDeactivateAuthorization (authz : Authorization)
| CallAdministrativelyRevokeCertificate (cert : X509Certificate * string) (code : Z) (adminName : string).

(** The state: the world of the other servers, the nonce service, random bytes and
    clock readings to come, the calls made of the RA, latest first; and, per request,
    the account it came from and the response. *)
Record State (W : Type) := {
  world : W;
  nonces : Nonce.NonceService;
  rand : nat -> option string;
  drawn : nat;
  clock : nat -> Z;
  reads : nat;
  raCalls : list ra_call;
  requester : Z;
  response : Response
}.
Arguments world {W} _.
Arguments nonces {W} _.
Arguments rand {W} _.
Arguments drawn {W} _.
Arguments clock {W} _.
Arguments reads {W} _.
Arguments raCalls {W} _.
Arguments requester {W} _.
Arguments response {W} _.

Definition no_response : Response := {| rs_Header := ∅; rs_Sent := None; rs_Body := EmptyString |}.
Definition zero_registration : Registration :=
  {| reg_ID := 0; reg_Key := None; reg_Contact := None; reg_Agreement := EmptyString; reg_InitialIP := None;
     reg_CreatedAt := zeroTime; reg_Status := EmptyString |}.

Section wfe.
Context {GL : GoLib} {Cr : Crypto} {EC : Elliptic} {X : X509} {CP : CSRParser} {AE : Nonce.AEAD}
        {JO : JOSE} {WE : WfeEnv} {W : Type}.
Context (fs : Features.state) (wfe : WebFrontEndImpl) (RA : RegistrationAuthority W) (SA : StorageLookups W).

(** Handlers: an error is a panic. *)
Definition WM (A : Type) : Type := M (State W) error A.

Definition set_world (s : State W) (w : W) : State W :=
  {| world := w; nonces := nonces s; rand := rand s; drawn := drawn s; clock := clock s; reads := reads s;
     raCalls := raCalls s; requester := requester s; response := response s |}.
Definition set_nonces (s : State W) (ns : Nonce.NonceService) (d : nat) : State W :=
  {| world := world s; nonces := ns; rand := rand s; drawn := d; clock := clock s; reads := reads s;
     raCalls := raCalls s; requester := requester s; response := response s |}.
Definition set_reads (s : State W) (n : nat) : State W :=
  {| world := world s; nonces := nonces s; rand := rand s; drawn := drawn s; clock := clock s; reads := n;
     raCalls := raCalls s; requester := requester s; response := response s |}.
Definition add_call (s : State W) (c : ra_call) : State W :=
  {| world := world s; nonces := nonces s; rand := rand s; drawn := drawn s; clock := clock s; reads := reads s;
     raCalls := c :: raCalls s; requester := requester s; response := response s |}.
Definition set_requester (s : State W) (id : Z) : State W :=
  {| world := world s; nonces := nonces s; rand := rand s; drawn := drawn s; clock := clock s; reads := reads s;
     raCalls := raCalls s; requester := id; response := response s |}.
Definition set_response (s : State W) (r : Response) : State W :=
  {| world := world s; nonces := nonces s; rand := rand s; drawn := drawn s; clock := clock s; reads := reads s;
     raCalls := raCalls s; requester := requester s; response := r |}.

(** *** The servers behind, the clock and the nonces *)

Definition on_world {A} (m : M W error A) : WM A :=
  fun s => let '(r, w) := m (world s) in (r, set_world s w).
Definition asking {A} (c : ra_call) (m : M W error A) : WM A :=
  do! modify (fun s => add_call s c) in on_world m.

Definition ra : RegistrationAuthority (State W) := {|
  ra_NewRegistration := fun init => asking (CallNewRegistration init) (ra_NewRegistration _ RA init);
  ra_NewAuthorization := fun init regID =>
    asking (CallNewAuthorization init regID) (ra_NewAuthorization _ RA init regID);
  ra_NewCertificate := fun csr regID => asking (CallNewCertificate csr regID) (ra_NewCertificate _ RA csr regID);
  ra_UpdateRegistration := fun base update =>
    asking (CallUpdateRegistration base update) (ra_UpdateRegistration _ RA base update);
  ra_UpdateAuthorization := fun authz i ch =>
    asking (CallUpdateAuthorization authz i ch) (ra_UpdateAuthorization _ RA authz i ch);
  ra_RevokeCertificateWithReg := fun cert code regID =>
    asking (CallRevokeCertificateWithReg cert code regID) (ra_RevokeCertificateWithReg _ RA cert code regID);
  ra_DeactivateRegistration := fun reg =>
    asking (CallDeactivateRegistration reg) (ra_DeactivateRegistration _ RA reg);
  ra_DeactivateAuthorization := fun authz =>
    asking (CallDeactivateAuthorization authz) (ra_DeactivateAuthorization _ RA authz);
  ra_AdministrativelyRevokeCertificate := fun cert code adminName =>
    asking (CallAdministrativelyRevokeCertificate cert code adminName)
      (ra_AdministrativelyRevokeCertificate _ RA cert code adminName)
|}.

Definition sa : StorageLookups (State W) := {|
  GetRegistration := fun id => on_world (GetRegistration _ SA id);
  GetRegistrationByKey := fun key => on_world (GetRegistrationByKey _ SA key);
  GetAuthorization := fun id => on_world (GetAuthorization _ SA id);
  GetValidAuthorizations := fun regID names now => on_world (GetValidAuthorizations _ SA regID names now);
  GetCertificate := fun serial => on_world (GetCertificate _ SA serial);
  GetCertificateStatus := fun serial => on_world (GetCertificateStatus _ SA serial)
|}.

Definition Now : WM Z := fun s => (Ok (clock s (reads s)), set_reads s (S (reads s))).
Definition new_nonce : WM (result Nonce.nonce_error string) := fun s =>
  let '(r, ns) := Nonce.Nonce (rand s (drawn s)) (nonces s) in (Ok r, set_nonces s ns (S (drawn s))).
Definition valid_nonce (nonce : string) : WM bool := fun s =>
  let '(b, ns) := Nonce.Valid nonce (nonces s) in (Ok b, set_nonces s ns (drawn s)).

(** *** The response writer *)

Definition on_response (f : Response -> Response) : WM unit := modify (fun s => set_response s (f (response s))).
Definition Header_Set (k v : string) : WM unit := on_response (fun r =>
  {| rs_Header := <[k := [v]]> (rs_Header r); rs_Sent := rs_Sent r; rs_Body := rs_Body r |}).
Definition Header_Add (k v : string) : WM unit := on_response (fun r =>
  {| rs_Header := <[k := default [] (rs_Header r !! k) ++ [v]]> (rs_Header r);
     rs_Sent := rs_Sent r; rs_Body := rs_Body r |}).
Definition WriteHeader (status : Z) : WM unit := on_response (fun r =>
  match rs_Sent r with
  | None => {| rs_Header := rs_Header r; rs_Sent := Some (status, rs_Header r); rs_Body := rs_Body r |}
  | Some _ => r
  end).
Definition Write_ (data : string) : WM unit :=
  do! WriteHeader 200 in
  on_response (fun r => {| rs_Header := rs_Header r; rs_Sent := rs_Sent r; rs_Body := rs_Body r ++s data |}).
Definition http_Redirect (request : Request) (url : string) (code : Z) : WM unit :=
  let '(location, body) := Redirect_to request url in
  do! Header_Set "Location" location in do! WriteHeader code in Write_ body.
Definition http_NotFound : WM unit :=
  do! Header_Set "Content-Type" "text/plain; charset=utf-8" in
  do! Header_Set "X-Content-Type-Options" "nosniff" in
  do! WriteHeader 404 in Write_ ("404 page not found" ++s String "010" EmptyString).

(** ** Responses *)

Definition writeJsonResponse (status : Z) (v : json_value) : WM (result error unit) :=
  match marshalIndent v with
  | Err err => ret (Err err)
  | Ok jsonReply =>
      do! Header_Set "Content-Type" "application/json" in
      do! WriteHeader status in do! Write_ jsonReply in ret (Ok tt)
  end.

Definition relativeEndpoint (request : Request) (endpoint : string) : string :=
  let specifiedProto := header_Get (req_Header request) "X-Forwarded-Proto" in
  let proto := if negb (is_empty specifiedProto) then specifiedProto
               else if req_TLS request then "https" else "http" in
  let host := if is_empty (req_Host request) then "localhost" else req_Host request in
  if negb (is_empty (BaseURL wfe)) then BaseURL wfe ++s endpoint else URL_of proto host endpoint.

Definition relativeDirectory (request : Request) (directory : gmap string string) : result error string :=
  marshalIndent (JsonDirectory (relativeEndpoint request <$> directory)).

Definition addNoCacheHeader : WM unit := Header_Add "Cache-Control" "public, max-age=0, no-cache".
Definition addRequesterHeader (requester : Z) : WM unit :=
  if 0 <? requester then Header_Set "Boulder-Requester" (itoa requester) else ret tt.

Definition link (url relation : string) : string :=
  "<" ++s url ++s ">;rel=" ++s dquote ++s relation ++s dquote.

Definition sendError (prob : Probs.ProblemDetails) : WM unit :=
  let code := Probs.ProblemDetailsToStatusCode prob in
  let problemDoc :=
    match marshalIndent (JsonProblem prob) with
    | Ok doc => doc
    | Err _ => "{" ++s dquote ++s "detail" ++s dquote ++s ": " ++s dquote
               ++s "Problem marshalling error message." ++s dquote ++s "}"
    end in
  do! Header_Set "Content-Type" "application/problem+json" in
  do! WriteHeader code in Write_ problemDoc.

(** The end of most handlers: the value as JSON, or an internal error. *)
Definition reply (status : Z) (v : json_value) (failure : string) : WM unit :=
  let! err := writeJsonResponse status v in
  match err with Ok _ => ret tt | Err _ => sendError (Probs.ServerInternal failure) end.

Definition addIssuingCertificateURLs (issuingCertificateURL : list string) : WM (result error unit) :=
  fold_right (fun rawURL rest =>
    match ParseRequestURI rawURL with
    | Err err => ret (Err err)
    | Ok parsedURI =>
        do! Header_Add "Link" (link (URI_String {| uri_Scheme := "https"; uri_Rest := uri_Rest parsedURI |}) "up") in
        rest
    end) (ret (Ok tt)) issuingCertificateURL.

(** ** Authentication *)

Definition extractJWSKey (body : string) : result error (JsonWebKey * JsonWebSignature) :=
  match ParseSigned body with
  | Err _ => Err (PlainError "Parse error reading JWS")
  | Ok parsedJws =>
      match jws_Signatures parsedJws with
      | [] => Err (PlainError "POST JWS not signed")
      | _ :: _ :: _ => Err (PlainError "Too many signatures in POST body")
      | [sig] =>
          match hdr_JsonWebKey (sig_Header sig) with
          | None => Err (PlainError "No JWK in JWS header")
          | Some key =>
              if negb (Valid key) then Err (PlainError "Invalid JWK in JWS header") else Ok (key, parsedJws)
          end
      end
  end.

Definition no_such_registration (err : error) : bool :=
  match err with CoreNoSuchRegistrationError _ => true | _ => Berrors.Is err Berrors.NotFound end.

(** The key to verify with: the account's, or, if the caller accepts unknown keys, the
    submitted one. *)
Definition select_key (regCheck : bool) (submittedKey : JsonWebKey)
    : WM (result Probs.ProblemDetails (option JsonWebKey * Registration)) :=
  let! found := try (GetRegistrationByKey _ sa (Some submittedKey)) in
  match found with
  | Ok reg => do! modify (fun s => set_requester s (reg_ID reg)) in ret (Ok (reg_Key reg, reg))
  | Err err =>
      if no_such_registration err && negb regCheck then
        match GoodKey.GoodKey (keyPolicy wfe) (Key submittedKey) with
        | Err err => ret (Err (Probs.Malformed (Error err)))
        | Ok _ => ret (Ok (Some submittedKey, zero_registration))
        end
      else if no_such_registration err then
        ret (Err (Probs.Unauthorized "No registration exists matching provided key"))
      else ret (Err (Probs.ServerInternal "Failed to get registration by key"))
  end.

(** The anti-replay nonce and the resource of a verified request. *)
Definition check_nonce_and_resource (parsedJws : JsonWebSignature) (payload resource : string)
    : WM (result Probs.ProblemDetails unit) :=
  let nonce := match jws_Signatures parsedJws with sig :: _ => hdr_Nonce (sig_Header sig) | [] => EmptyString end in
  if is_empty nonce then ret (Err (Probs.BadNonce "JWS has no anti-replay nonce"))
  else
    let! ok := valid_nonce nonce in
    if negb ok then ret (Err (Probs.BadNonce ("JWS has invalid anti-replay nonce " ++s nonce)))
    else ret (match unmarshal_resource payload with
              | Err _ => Err (Probs.Malformed "Request payload did not parse as JSON")
              | Ok parsed =>
                  if is_empty parsed then Err (Probs.Malformed "Request payload does not specify a resource")
                  else if negb (String.eqb resource parsed) then
                    Err (Probs.Malformed ("JWS resource payload does not match the HTTP resource: "
                                          ++s parsed ++s " != " ++s resource))
                  else Ok tt
              end).

Definition verifyPOST (request : Request) (regCheck : bool) (resource : string)
    : WM (result Probs.ProblemDetails (string * JsonWebKey * Registration)) :=
  match req_Header request !! "Content-Length", req_Body request with
  | None, _ => ret (Err Probs.ContentLengthRequired)
  | Some _, None => ret (Err (Probs.Malformed "No body on POST"))
  | Some _, Some (Err _) => ret (Err (Probs.ServerInternal "unable to read request body"))
  | Some _, Some (Ok body) =>
      match extractJWSKey body with
      | Err err => ret (Err (Probs.Malformed (Error err)))
      | Ok (submittedKey, parsedJws) =>
          let! selected := select_key regCheck submittedKey in
          match selected with
          | Err prob => ret (Err prob)
          | Ok (key, reg) =>
              if regCheck && flag fs Features.AllowAccountDeactivation
                 && negb (String.eqb (reg_Status reg) StatusValid) then
                ret (Err (Probs.Unauthorized ("Registration is not valid, has status '" ++s reg_Status reg ++s "'")))
              else
                match key with
                | None => fail nil_dereference
                | Some key =>
                    match checkAlgorithm key parsedJws with
                    | Err (_, err) => ret (Err (Probs.Malformed (Error err)))
                    | Ok _ =>
                        match jws_Verify parsedJws key with
                        | Err _ => ret (Err (Probs.Malformed "JWS verification error"))
                        | Ok payload =>
                            let! checked := check_nonce_and_resource parsedJws payload resource in
                            match checked with
                            | Err prob => ret (Err prob)
                            | Ok _ => ret (Ok (payload, key, reg))
                            end
                        end
                    end
                end
          end
      end
  end.

(** How every authenticated handler starts: [body], the key and the account go on to
    the rest, a problem to the client. *)
Definition authenticated (request : Request) (regCheck : bool) (resource : string)
    (k : string -> JsonWebKey -> Registration -> WM unit) : WM unit :=
  let! verified := verifyPOST request regCheck resource in
  let! s := get in
  do! addRequesterHeader (requester s) in
  match verified with
  | Err prob => sendError prob
  | Ok (body, key, reg) => k body key reg
  end.

Notation "'authenticate' request regCheck resource 'as' body key reg 'in' k" :=
  (authenticated request regCheck resource (fun body key reg => k))
  (at level 10, request at level 9, regCheck at level 9, resource at level 9,
   body name, key name, reg name, k at level 200).

(** ** Accounts *)

Definition set_Key_and_IP (init : Registration) (key : JsonWebKey) (ip : option string) : Registration :=
  {| reg_ID := reg_ID init; reg_Key := Some key; reg_Contact := reg_Contact init;
     reg_Agreement := reg_Agreement init; reg_InitialIP := ip; reg_CreatedAt := reg_CreatedAt init;
     reg_Status := reg_Status init |}.

Definition wrong_agreement (agreement : string) : Probs.ProblemDetails :=
  Probs.Malformed ("Provided agreement URL [" ++s agreement ++s "] does not match current agreement URL ["
                   ++s SubscriberAgreementURL wfe ++s "]").

Definition terms_link : WM unit :=
  if 0 <? len (SubscriberAgreementURL wfe)
  then Header_Add "Link" (link (SubscriberAgreementURL wfe) "terms-of-service") else ret tt.

(** The address of the client: the proxy's header, or else the connection. *)
Definition initialIP (request : Request) : option (option string) :=
  match Net.ParseIP (header_Get (req_Header request) "X-Real-Ip") with
  | Some ip => Some (Some ip)
  | None =>
      match Net.SplitHostPort (req_RemoteAddr request) with
      | Some (host, _) => Some (Net.ParseIP host)
      | None => None
      end
  end.

Definition NewRegistration (request : Request) : WM unit :=
  authenticate request false "new-reg" as body key _reg in
  let! existing := try (GetRegistrationByKey _ sa (Some key)) in
  match existing with
  | Ok existingReg =>
      do! Header_Set "Location" (relativeEndpoint request (regPath ++s itoa (reg_ID existingReg))) in
      sendError (Probs.Conflict "Registration key is already in use")
  | Err _ =>
      match unmarshal_registration body with
      | Err _ => sendError (Probs.Malformed "Error unmarshaling JSON")
      | Ok init =>
          if (0 <? len (reg_Agreement init)) && negb (String.eqb (reg_Agreement init) (SubscriberAgreementURL wfe)) then
            sendError (wrong_agreement (reg_Agreement init))
          else
            match initialIP request with
            | None =>
                sendError (Probs.ServerInternal "couldn't parse the remote (that is, the client's) address")
            | Some ip =>
                let! created := try (ra_NewRegistration _ ra (set_Key_and_IP init key ip)) in
                match created with
                | Err err => sendError (WfeProbs.problemDetailsForError err "Error creating new registration")
                | Ok reg =>
                    do! modify (fun s => set_requester s (reg_ID reg)) in
                    do! addRequesterHeader (reg_ID reg) in
                    do! Header_Add "Location" (relativeEndpoint request (regPath ++s itoa (reg_ID reg))) in
                    do! Header_Add "Link" (link (relativeEndpoint request newAuthzPath) "next") in
                    do! terms_link in
                    reply 201 (JsonRegistration reg) "Error marshaling registration"
                end
            end
      end
  end.

Definition set_reg_Status (reg : Registration) (status : AcmeStatus) : Registration :=
  {| reg_ID := reg_ID reg; reg_Key := reg_Key reg; reg_Contact := reg_Contact reg;
     reg_Agreement := reg_Agreement reg; reg_InitialIP := reg_InitialIP reg; reg_CreatedAt := reg_CreatedAt reg;
     reg_Status := status |}.

Definition deactivateRegistration (reg : Registration) : WM unit :=
  let! err := try (ra_DeactivateRegistration _ ra reg) in
  match err with
  | Err err => sendError (WfeProbs.problemDetailsForError err "Error deactivating registration")
  | Ok _ => reply 200 (JsonRegistration (set_reg_Status reg StatusDeactivated)) "Failed to marshal registration"
  end.

Definition set_reg_Key (reg : Registration) (key : option JsonWebKey) : Registration :=
  {| reg_ID := reg_ID reg; reg_Key := key; reg_Contact := reg_Contact reg;
     reg_Agreement := reg_Agreement reg; reg_InitialIP := reg_InitialIP reg; reg_CreatedAt := reg_CreatedAt reg;
     reg_Status := reg_Status reg |}.

Definition Registration_ (request : Request) : WM unit :=
  authenticate request true "reg" as body _key currReg in
  match Atoi (req_Path request) with
  | None => sendError (Probs.Malformed "Registration ID must be an integer")
  | Some id =>
      if id <=? 0 then
        sendError (Probs.Malformed ("Registration ID must be a positive non-zero integer, was " ++s itoa id))
      else if negb (id =? reg_ID currReg) then
        sendError (Probs.Unauthorized "Request signing key did not match registration key")
      else
        match unmarshal_registration body with
        | Err _ => sendError (Probs.Malformed "Error unmarshaling registration")
        | Ok update =>
            if flag fs Features.AllowAccountDeactivation
               && (negb (is_empty (reg_Status update)) && negb (String.eqb (reg_Status update) (reg_Status currReg))) then
              if negb (String.eqb (reg_Status update) StatusDeactivated) then
                sendError (Probs.Malformed "Invalid value provided for status field")
              else deactivateRegistration currReg
            else if (0 <? len (reg_Agreement update))
                    && negb (String.eqb (reg_Agreement update) (reg_Agreement currReg))
                    && negb (String.eqb (reg_Agreement update) (SubscriberAgreementURL wfe)) then
              sendError (wrong_agreement (reg_Agreement update))
            else
              let! updated := try (ra_UpdateRegistration _ ra currReg (set_reg_Key update (reg_Key currReg))) in
              match updated with
              | Err err => sendError (WfeProbs.problemDetailsForError err "Unable to update registration")
              | Ok updatedReg =>
                  do! Header_Add "Link" (link (relativeEndpoint request newAuthzPath) "next") in
                  do! terms_link in
                  reply 202 (JsonRegistration updatedReg) "Failed to marshal registration"
              end
        end
  end.

Definition KeyRollover (request : Request) : WM unit :=
  authenticate request true "key-change" as body _key reg in
  match extractJWSKey body with
  | Err err => sendError (Probs.Malformed (Error err))
  | Ok (newKey, parsedJWS) =>
      match jws_Verify parsedJWS newKey with
      | Err _ => sendError (Probs.Malformed "JWS verification error")
      | Ok payload =>
          match unmarshal_rollover payload with
          | Err _ => sendError (Probs.Malformed "Request payload did not parse as JSON")
          | Ok (rolloverKey, account) =>
              if negb (String.eqb (relativeEndpoint request (regPath ++s itoa (reg_ID reg))) account) then
                sendError (Probs.Malformed "Incorrect account URL provided in payload")
              else
                match PublicKeysEqual rolloverKey (Some (Key newKey)) with
                | Err _ => sendError (Probs.Malformed "Unable to marshal new JWK")
                | Ok false =>
                    sendError (Probs.Malformed "New JWK in inner payload doesn't match key used to sign inner JWS")
                | Ok true =>
                    let! updated := try (ra_UpdateRegistration _ ra reg (set_reg_Key zero_registration (Some newKey))) in
                    match updated with
                    | Err err => sendError (WfeProbs.problemDetailsForError err "Unable to update registration")
                    | Ok updatedReg =>
                        match marshalIndent (JsonRegistration updatedReg) with
                        | Err _ => sendError (Probs.ServerInternal "Failed to marshal registration")
                        | Ok jsonReply =>
                            do! Header_Set "Content-Type" "application/json" in
                            do! WriteHeader 200 in Write_ jsonReply
                        end
                    end
                end
          end
      end
  end.

(** ** Authorizations *)

Definition must_agree : Probs.ProblemDetails :=
  Probs.Unauthorized "Must agree to subscriber agreement before any further actions".

Definition prepChallengeForDisplay (request : Request) (authz : Authorization) (challenge : Challenge) : Challenge :=
  {| ch_ID := 0; ch_Type := ch_Type challenge; ch_Status := ch_Status challenge; ch_Error := ch_Error challenge;
     ch_URI := relativeEndpoint request (challengePath ++s az_ID authz ++s "/" ++s itoa (ch_ID challenge));
     ch_Token := ch_Token challenge; ch_ProvidedKeyAuthorization := ch_ProvidedKeyAuthorization challenge;
     ch_ValidationRecord := ch_ValidationRecord challenge |}.

Definition prepAuthorizationForDisplay (request : Request) (authz : Authorization) : Authorization :=
  {| az_ID := EmptyString; az_Identifier := az_Identifier authz; az_RegistrationID := 0;
     az_Status := az_Status authz; az_Expires := az_Expires authz;
     az_Challenges := map (prepChallengeForDisplay request authz) (az_Challenges authz);
     az_Combinations := az_Combinations authz |}.

Definition NewAuthorization (request : Request) : WM unit :=
  authenticate request true "new-authz" as body _key currReg in
  if is_empty (reg_Agreement currReg) then sendError must_agree
  else
    match unmarshal_authorization body with
    | Err _ => sendError (Probs.Malformed "Error unmarshaling JSON")
    | Ok init =>
        let! created := try (ra_NewAuthorization _ ra init (reg_ID currReg)) in
        match created with
        | Err err => sendError (WfeProbs.problemDetailsForError err "Error creating new authz")
        | Ok authz =>
            do! Header_Add "Location" (relativeEndpoint request (authzPath ++s az_ID authz)) in
            do! Header_Add "Link" (link (relativeEndpoint request newCertPath) "next") in
            reply 201 (JsonAuthorization (prepAuthorizationForDisplay request authz)) "Error marshaling authz"
        end
    end.

Definition show_challenge (request : Request) (authz : Authorization) (challenge : Challenge) : WM unit :=
  let challenge := prepChallengeForDisplay request authz challenge in
  do! Header_Add "Location" (ch_URI challenge) in
  do! Header_Add "Link" (link (relativeEndpoint request (authzPath ++s az_ID authz)) "up") in
  reply 202 (JsonChallenge challenge) "Failed to marshal challenge".

Definition getChallenge (request : Request) (authz : Authorization) (challenge : Challenge) : WM unit :=
  show_challenge request authz challenge.

Definition postChallenge (request : Request) (authz : Authorization) (challengeIndex : Z) : WM unit :=
  authenticate request true "challenge" as body _key currReg in
  if is_empty (reg_Agreement currReg) then
    sendError (Probs.Unauthorized "Registration didn't agree to subscriber agreement before any further actions")
  else if negb (reg_ID currReg =? az_RegistrationID authz) then
    sendError (Probs.Unauthorized "User registration ID doesn't match registration ID in authorization")
  else
    match unmarshal_challenge body with
    | Err _ => sendError (Probs.Malformed "Error unmarshaling challenge response")
    | Ok challengeUpdate =>
        let! updated := try (ra_UpdateAuthorization _ ra authz challengeIndex challengeUpdate) in
        match updated with
        | Err err => sendError (WfeProbs.problemDetailsForError err "Unable to update challenge")
        | Ok updatedAuthorization =>
            match az_Challenges updatedAuthorization !! Z.to_nat challengeIndex with
            | None => fail (PlainError "runtime error: index out of range")
            | Some challenge => show_challenge request authz challenge
            end
        end
    end.

(** [authz.Expires == nil || authz.Expires.Before(wfe.clk.Now())]; the message about
    an expired authorization reads through the pointer, nil or not. *)
Definition unless_expired (authz : Authorization) (k : WM unit) : WM unit :=
  match az_Expires authz with
  | None => fail nil_dereference
  | Some expires =>
      let! now := Now in
      if time_Before expires now then sendError (Probs.NotFound "Expired authorization") else k
  end.

Definition Challenge_ (request : Request) : WM unit :=
  let notFound := sendError (Probs.NotFound "No such challenge") in
  match split_on "/" (req_Path request) with
  | [authorizationID; id] =>
      match Atoi id with
      | None => notFound
      | Some challengeID =>
          let! found := try (GetAuthorization _ sa authorizationID) in
          match found with
          | Err _ => notFound
          | Ok authz =>
              unless_expired authz
                (let challengeIndex := FindChallenge authz challengeID in
                 if challengeIndex =? -1 then notFound
                 else
                   match az_Challenges authz !! Z.to_nat challengeIndex with
                   | None => fail (PlainError "runtime error: index out of range")
                   | Some challenge =>
                       if String.eqb (req_Method request) "GET" || String.eqb (req_Method request) "HEAD" then
                         getChallenge request authz challenge
                       else if String.eqb (req_Method request) "POST" then
                         postChallenge request authz challengeIndex
                       else ret tt
                   end)
          end
      end
  | _ => notFound
  end.

Definition set_az_Status (authz : Authorization) (status : AcmeStatus) : Authorization :=
  {| az_ID := az_ID authz; az_Identifier := az_Identifier authz; az_RegistrationID := az_RegistrationID authz;
     az_Status := status; az_Expires := az_Expires authz; az_Challenges := az_Challenges authz;
     az_Combinations := az_Combinations authz |}.

(** [deactivateAuthorization]; [k] goes on with the deactivated authorization. *)
Definition deactivateAuthorization (request : Request) (authz : Authorization) (k : Authorization -> WM unit) : WM unit :=
  authenticate request true "authz" as body _key reg in
  if negb (reg_ID reg =? az_RegistrationID authz) then
    sendError (Probs.Unauthorized "Registration ID doesn't match ID for authorization")
  else
    match unmarshal_status body with
    | Err _ => sendError (Probs.Malformed "Error unmarshaling JSON")
    | Ok status =>
        if negb (String.eqb status StatusDeactivated) then sendError (Probs.Malformed "Invalid status value")
        else
          let! err := try (ra_DeactivateAuthorization _ ra authz) in
          match err with
          | Err err => sendError (WfeProbs.problemDetailsForError err "Error deactivating authorization")
          | Ok _ => k (set_az_Status authz StatusDeactivated)
          end
    end.

Definition show_authorization (request : Request) (authz : Authorization) : WM unit :=
  do! Header_Add "Link" (link (relativeEndpoint request newCertPath) "next") in
  reply 200 (JsonAuthorization (prepAuthorizationForDisplay request authz)) "Failed to JSON marshal authz".

Definition Authorization_ (request : Request) : WM unit :=
  let! found := try (GetAuthorization _ sa (req_Path request)) in
  match found with
  | Err _ => sendError (Probs.NotFound "Unable to find authorization")
  | Ok authz =>
      unless_expired authz
        (if AllowAuthzDeactivation wfe && String.eqb (req_Method request) "POST" then
           deactivateAuthorization request authz (show_authorization request)
         else show_authorization request authz)
  end.

(** ** Certificates *)

Definition byte_at (s : string) (i : nat) : Z :=
  match String.get i s with Some c => byteZ c | None => -1 end.

Definition issuer_links (request : Request) (cert : X509Certificate) (k : WM unit) : WM unit :=
  if flag fs Features.UseAIAIssuerURL then
    let! err := addIssuingCertificateURLs (x5_IssuingCertificateURL cert) in
    match err with
    | Err _ => sendError (Probs.ServerInternal "unable to parse IssuingCertificateURL")
    | Ok _ => k
    end
  else do! Header_Add "Link" (link (relativeEndpoint request issuerPath) "up") in k.

Definition NewCertificate (request : Request) : WM unit :=
  authenticate request true "new-cert" as body _key reg in
  if is_empty (reg_Agreement reg) then sendError must_agree
  else
    match unmarshal_csr body with
    | Err _ => sendError (Probs.Malformed "Error unmarshaling certificate request")
    | Ok rawCSR =>
        if (10 <=? len rawCSR) && (byte_at rawCSR 8 =? 2) && (byte_at rawCSR 9 =? 0) then
          sendError (Probs.Malformed "CSR generated using a pre-1.0.2 OpenSSL with a client that doesn't properly specify the CSR version. See https://community.letsencrypt.org/t/openssl-bug-information/19591")
        else
          match ParseCertificateRequest rawCSR with
          | Err err => sendError (Probs.Malformed ("Error parsing certificate request: " ++s Error err))
          | Ok csr =>
              match GoodKey.GoodKey (keyPolicy wfe) (default (UnknownKey "%!s(<nil>)") (csr_PublicKey csr)) with
              | Err err => sendError (Probs.Malformed ("Invalid key in certificate request :: " ++s Error err))
              | Ok _ =>
                  let! issued := try (ra_NewCertificate _ ra (csr, rawCSR) (reg_ID reg)) in
                  match issued with
                  | Err err => sendError (WfeProbs.problemDetailsForError err "Error creating new cert")
                  | Ok cert =>
                      match ParseCertificate (cert_DER cert) with
                      | Err _ => sendError (Probs.ServerInternal "Unable to parse certificate")
                      | Ok parsedCertificate =>
                          do! Header_Add "Location" (relativeEndpoint request
                                (certPath ++s SerialToString (x5_SerialNumber parsedCertificate))) in
                          issuer_links request parsedCertificate
                            (do! Header_Set "Content-Type" "application/pkix-cert" in
                             do! WriteHeader 201 in Write_ (cert_DER cert))
                      end
                  end
              end
          end
    end.

Definition Certificate_ (request : Request) : WM unit :=
  let serial := req_Path request in
  if negb (ValidSerial serial) then sendError (Probs.NotFound "Certificate not found")
  else
    let! found := try (GetCertificate _ sa serial) in
    match found with
    | Err err =>
        if String.prefix "gorp: multiple rows returned" (Error err)
        then sendError (Probs.Conflict "Multiple certificates with same short serial")
        else sendError (Probs.NotFound "Certificate not found")
    | Ok cert =>
        do! Header_Set "Content-Type" "application/pkix-cert" in
        let finish := do! WriteHeader 200 in Write_ (cert_DER cert) in
        if flag fs Features.UseAIAIssuerURL then
          match ParseCertificate (cert_DER cert) with
          | Err _ => sendError (Probs.ServerInternal "Unable to parse certificate")
          | Ok parsedCertificate => issuer_links request parsedCertificate finish
          end
        else do! Header_Add "Link" (link (relativeEndpoint request issuerPath) "up") in finish
    end.

Definition regHoldsAuthorizations (regID : Z) (names : list string) : WM (result error bool) :=
  let! now := Now in
  let! found := try (GetValidAuthorizations _ sa regID names now) in
  ret (match found with
       | Err err => Err err
       | Ok authz =>
           if negb (length names =? size authz)%nat then Ok false
           else Ok (forallb (fun name => negb (is_nil (authz !! name))) names)
       end).

(** Who may revoke: the holder of the certificate's key, the account that asked for it,
    and accounts with authorizations for all its names. *)
Definition may_revoke (requestKey : JsonWebKey) (registration : Registration) (cert : Certificate)
    (parsedCertificate : X509Certificate) : WM (result Probs.ProblemDetails unit) :=
  if KeyDigestEquals (JwkPtr (Some requestKey)) (RawKey (x5_PublicKey parsedCertificate))
     || (reg_ID registration =? cert_RegistrationID cert) then ret (Ok tt)
  else
    let! valid := regHoldsAuthorizations (reg_ID registration) (x5_DNSNames parsedCertificate) in
    ret (match valid with
         | Err _ => Err (Probs.ServerInternal "Failed to retrieve authorizations for names in certificate")
         | Ok false =>
             Err (Probs.Unauthorized "Revocation request must be signed by private key of cert to be revoked, by the account key of the account that issued it, or by the account key of an account that holds valid authorizations for all names in the certificate.")
         | Ok true => Ok tt
         end).

Definition RevokeCertificate (request : Request) : WM unit :=
  authenticate request false "revoke-cert" as body requestKey registration in
  match unmarshal_revocation body with
  | Err _ => sendError (Probs.Malformed "Unable to JSON parse revoke request")
  | Ok (der, wanted) =>
      match ParseCertificate der with
      | Err _ => sendError (Probs.Malformed "Unable to parse certificate DER")
      | Ok providedCert =>
          let serial := SerialToString (x5_SerialNumber providedCert) in
          let! found := try (GetCertificate _ sa serial) in
          match found with
          | Err _ => sendError (Probs.NotFound "No such certificate")
          | Ok cert =>
              if negb (String.eqb (cert_DER cert) der) then sendError (Probs.NotFound "No such certificate")
              else
                match ParseCertificate (cert_DER cert) with
                | Err _ => sendError (Probs.ServerInternal "invalid parse of stored certificate")
                | Ok parsedCertificate =>
                    let! status := try (GetCertificateStatus _ sa serial) in
                    match status with
                    | Err _ => sendError (Probs.NotFound "Certificate status not yet available")
                    | Ok certStatus =>
                        if String.eqb (cs_Status certStatus) OCSPStatusRevoked then
                          sendError (Probs.Conflict "Certificate already revoked")
                        else
                          let! allowed := may_revoke requestKey registration cert parsedCertificate in
                          match allowed with
                          | Err prob => sendError prob
                          | Ok _ =>
                              let asked := if AcceptRevocationReason wfe then wanted else None in
                              if match asked with Some reason => negb (bool_decide (reason ∈ UserAllowedReasons)) | None => false end
                              then sendError (Probs.Malformed "unsupported revocation reason code provided")
                              else
                                let! err := try (ra_RevokeCertificateWithReg _ ra (parsedCertificate, cert_DER cert)
                                                   (default 0 asked) (reg_ID registration)) in
                                match err with
                                | Err err => sendError (WfeProbs.problemDetailsForError err "Failed to revoke certificate")
                                | Ok _ => WriteHeader 200
                                end
                          end
                    end
                end
          end
      end
  end.

(** ** Static resources *)

Definition Index (request : Request) : WM unit :=
  if negb (String.eqb (req_Path request) "/") then
    do! http_NotFound in Header_Set "Content-Type" "application/problem+json"
  else if negb (String.eqb (req_Method request) "GET") then
    do! Header_Set "Allow" "GET" in WriteHeader Probs.StatusMethodNotAllowed
  else
    do! addNoCacheHeader in
    do! Header_Set "Content-Type" "text/html" in
    let nl := String "010" EmptyString in
    let tab := String "009" EmptyString in
    let a href text := "<a href=" ++s dquote ++s href ++s dquote ++s ">" ++s text ++s "</a>" in
    Write_ ("<html>" ++s nl ++s tab ++s tab ++s "<body>" ++s nl
      ++s tab ++s tab ++s tab ++s "This is an " ++s a "https://github.com/ietf-wg-acme/acme/" "ACME" ++s nl
      ++s tab ++s tab ++s tab ++s "Certificate Authority running "
      ++s a "https://github.com/letsencrypt/boulder" "Boulder" ++s "." ++s nl
      ++s tab ++s tab ++s tab ++s "JSON directory is available at " ++s a directoryPath directoryPath ++s "." ++s nl
      ++s tab ++s tab ++s "</body>" ++s nl ++s tab ++s "</html>" ++s nl ++s tab).

Definition Directory (request : Request) : WM unit :=
  let directoryEndpoints : gmap string string :=
    {["new-reg" := newRegPath; "new-authz" := newAuthzPath; "new-cert" := newCertPath; "revoke-cert" := revokeCertPath]} in
  let directoryEndpoints :=
    if flag fs Features.AllowKeyRollover
       && negb (String.prefix "LetsEncryptPythonClient" (header_Get (req_Header request) "User-Agent"))
    then <["key-change" := rolloverPath]> directoryEndpoints else directoryEndpoints in
  do! Header_Set "Content-Type" "application/json" in
  match relativeDirectory request directoryEndpoints with
  | Err _ => sendError (Probs.ServerInternal "unable to marshal JSON directory")
  | Ok relDir => Write_ relDir
  end.

Definition Terms (request : Request) : WM unit := http_Redirect request (SubscriberAgreementURL wfe) 302.

Definition Issuer (request : Request) : WM unit :=
  do! Header_Set "Content-Type" "application/pkix-cert" in
  do! WriteHeader 200 in Write_ (IssuerCert wfe).

Definition BuildID (request : Request) : WM unit :=
  do! Header_Set "Content-Type" "text/plain" in
  do! WriteHeader 200 in
  Write_ ("Boulder=(" ++s BuildID_text ++s " " ++s BuildTime_text ++s ")" ++s String "010" EmptyString).

(** ** Dispatch *)

Definition setCORSHeaders (request : Request) (allowMethods : string) : WM unit :=
  let reqOrigin := header_Get (req_Header request) "Origin" in
  let finish :=
    do! (if negb (is_empty allowMethods) then Header_Set "Access-Control-Allow-Methods" allowMethods else ret tt) in
    do! Header_Set "Access-Control-Expose-Headers" "Link, Replay-Nonce" in
    Header_Set "Access-Control-Max-Age" "86400" in
  if is_empty reqOrigin then ret tt
  else
    match List.find (fun ao => String.eqb ao "*" || String.eqb ao reqOrigin) (AllowOrigins wfe) with
    | None => ret tt
    | Some ao =>
        do! (if String.eqb ao "*" then Header_Set "Access-Control-Allow-Origin" "*"
             else do! Header_Set "Vary" "Origin" in Header_Set "Access-Control-Allow-Origin" ao) in
        finish
    end.

Definition Options (request : Request) (methods : list string) : WM unit :=
  do! Header_Set "Allow" (join ", " methods) in
  let reqMethod := header_Get (req_Header request) "Access-Control-Request-Method" in
  let reqMethod := if is_empty reqMethod then "GET" else reqMethod in
  if bool_decide (reqMethod ∈ methods) then setCORSHeaders request (join ", " methods) else ret tt.

(** The wrapper that [HandleFunc] registers. *)
Definition HandleFunc (h : Request -> WM unit) (methods : list string) (request : Request) : WM unit :=
  let methods := if bool_decide ("GET" ∈ methods) && negb (bool_decide ("HEAD" ∈ methods))
                 then methods ++ ["HEAD"] else methods in
  let! nonce := new_nonce in
  do! match nonce with Ok nonce => Header_Set "Replay-Nonce" nonce | Err _ => ret tt end in
  if String.eqb (req_Method request) "OPTIONS" then Options request methods
  else
    do! addNoCacheHeader in
    if negb (bool_decide (req_Method request ∈ methods)) then
      do! Header_Set "Allow" (join ", " methods) in sendError Probs.MethodNotAllowed
    else do! setCORSHeaders request EmptyString in h request.

(** The patterns with their handlers and methods. *)
Definition routes : list (string * (Request -> WM unit) * list string) :=
  [(directoryPath, Directory, ["GET"]); (newRegPath, NewRegistration, ["POST"]);
   (newAuthzPath, NewAuthorization, ["POST"]); (newCertPath, NewCertificate, ["POST"]);
   (regPath, Registration_, ["POST"]); (authzPath, Authorization_, ["GET"; "POST"]);
   (challengePath, Challenge_, ["GET"; "POST"]); (certPath, Certificate_, ["GET"]);
   (revokeCertPath, RevokeCertificate, ["POST"]); (termsPath, Terms, ["GET"]);
   (issuerPath, Issuer, ["GET"]); (buildIDPath, BuildID, ["GET"])]
  ++ (if flag fs Features.AllowKeyRollover then [(rolloverPath, KeyRollover, ["POST"])] else []).

(** [Handler]: the [ServeMux].  A path that is not clean, or lacks the final slash of a
    pattern, is redirected; no two patterns match the same path, except for the root,
    which matches what is left.  [StripPrefix] leaves the handler the rest of the path. *)
Definition Handler (request : Request) : WM unit :=
  let path := req_Path request in
  if negb (String.eqb (req_Method request) "CONNECT") && negb (String.eqb (cleanPath path) path) then
    http_Redirect request (cleanPath path) 301
  else
    match List.find (fun '(pattern, _, _) => pathMatch pattern path) routes with
    | Some (pattern, h, methods) =>
        HandleFunc h methods
          (with_Path request (String.substring (String.length pattern) (String.length path - String.length pattern) path))
    | None =>
        if existsb (fun '(pattern, _, _) => String.eqb pattern (path ++s "/")) routes
        then http_Redirect request (path ++s "/") 301
        else Index request
    end.

(** One request: a fresh log event, of which only the requester matters here, and a fresh
    response.  The random [Boulder-Request-ID] header is left out. *)
Definition serve (request : Request) (s : State W) : result error unit * State W :=
  Handler request (set_response (set_requester s 0) no_response).

End wfe.

End WFE.
