(* ===== verification/WfeChecks.v ===== *)
(** * What the web front end asks of the other servers

    A request that is not signed with the right key, or whose nonce was used before,
    has no effect: every call of the RA is traced back to a signed request, its account
    and the checks of its handler. *)

From S2P Require Import Prelude GoStd Net Nonce Errors Features Core GoodKey Csr.
From S2P Require Import RegistrationAuthority GrpcStorage GrpcServers WebFrontEnd.

Module WfeChecks.
Import WFE.

Section checks.
Context {GL : GoLib} {Cr : Crypto} {EC : Elliptic} {X : X509} {CP : CSRParser} {AE : Nonce.AEAD}
        {JO : JOSE} {WE : WfeEnv} {W : Type}.
Context (fs : Features.state) (wfe : WebFrontEndImpl) (RA : RegistrationAuthority W) (SA : StorageLookups W).
Notation St := (State W).
Notation ra := (ra RA).
Notation sa := (sa SA).

(** ** Statements *)

(** The storage authority was asked, and nothing else happened to the other servers. *)
Inductive lookup : W -> W -> Prop :=
| look_registration id w : lookup w (snd (GetRegistration _ SA id w))
| look_key key w : lookup w (snd (GetRegistrationByKey _ SA key w))
| look_authorization id w : lookup w (snd (GetAuthorization _ SA id w))
| look_valid regID names now w : lookup w (snd (GetValidAuthorizations _ SA regID names now w))
| look_certificate serial w : lookup w (snd (GetCertificate _ SA serial w))
| look_status serial w : lookup w (snd (GetCertificateStatus _ SA serial w)).
Definition consulted : W -> W -> Prop := rtc lookup.

(** [m] answered [a], in a state after some lookups of this request. *)
Definition answered {A} (w0 : W) (m : M W error A) (a : A) : Prop :=
  exists w w', consulted w0 w /\ m w = (Ok a, w').

(** The one signature of the request verifies with [key], which is of the kind the
    signature's algorithm demands, over a payload for this resource. *)
Definition signed (request : Request) (key : JsonWebKey) (payload resource : string) : Prop :=
  exists body jws sig, req_Body request = Some (Ok body) /\ ParseSigned body = Ok jws /\
    jws_Signatures jws = [sig] /\ checkAlgorithm key jws = Ok tt /\ jws_Verify jws key = Ok payload /\
    unmarshal_resource payload = Ok resource.

(** The key in the header of the request. *)
Definition submitted (request : Request) (key : JsonWebKey) : Prop :=
  exists body jws sig, req_Body request = Some (Ok body) /\ ParseSigned body = Ok jws /\
    jws_Signatures jws = [sig] /\ hdr_JsonWebKey (sig_Header sig) = Some key /\ Valid key = true.

(** The nonce in the header of the request. *)
Definition request_nonce (request : Request) : string :=
  match req_Body request with
  | Some (Ok body) =>
      match ParseSigned body with
      | Ok jws => match jws_Signatures jws with sig :: _ => hdr_Nonce (sig_Header sig) | [] => EmptyString end
      | Err _ => EmptyString
      end
  | _ => EmptyString
  end.

(** The request is signed with the key of the account [reg], which is in good standing. *)
Definition from_account (request : Request) (w0 : W) (payload resource : string) (reg : Registration) : Prop :=
  exists key sub, signed request key payload resource /\ submitted request sub /\
    answered w0 (GetRegistrationByKey _ SA (Some sub)) reg /\ reg_Key reg = Some key /\
    (flag fs Features.AllowAccountDeactivation = true -> reg_Status reg = StatusValid).

(** The request is signed with [key], the key of the account [reg]; or with an
    acceptable key that belongs to no account, and then [reg] is empty. *)
Definition from_key_holder (request : Request) (w0 : W) (payload resource : string)
    (key : JsonWebKey) (reg : Registration) : Prop :=
  signed request key payload resource /\
  exists sub, submitted request sub /\
    ((answered w0 (GetRegistrationByKey _ SA (Some sub)) reg /\ reg_Key reg = Some key) \/
     (key = sub /\ reg = zero_registration /\ GoodKey.GoodKey (keyPolicy wfe) (Key key) = Ok tt)).

(** Why the front end makes a call of the RA: [request], served when the other servers
    were in the state [w0] and the clock showed the times [clk], justifies it. *)
Definition justified (request : Request) (w0 : W) (clk : nat -> Z) (c : ra_call) : Prop :=
  match c with
  | CallNewRegistration init =>
      exists payload key reg asked, from_key_holder request w0 payload "new-reg" key reg /\
        unmarshal_registration payload = Ok asked /\ reg_Key init = Some key /\
        reg_Contact init = reg_Contact asked /\ reg_Agreement init = reg_Agreement asked /\
        (reg_Agreement init = EmptyString \/ reg_Agreement init = SubscriberAgreementURL wfe) /\
        exists w w' err, consulted w0 w /\ GetRegistrationByKey _ SA (Some key) w = (Err err, w')
  | CallNewAuthorization init regID =>
      exists payload reg, from_account request w0 payload "new-authz" reg /\ regID = reg_ID reg /\
        reg_Agreement reg <> EmptyString /\ unmarshal_authorization payload = Ok init
  | CallNewCertificate (csr, raw) regID =>
      exists payload reg key, from_account request w0 payload "new-cert" reg /\ regID = reg_ID reg /\
        reg_Agreement reg <> EmptyString /\ unmarshal_csr payload = Ok raw /\
        ParseCertificateRequest raw = Ok csr /\ csr_PublicKey csr = Some key /\
        GoodKey.GoodKey (keyPolicy wfe) key = Ok tt
  | CallUpdateRegistration base update =>
      (exists payload, from_account request w0 payload "reg" base /\ 0 < reg_ID base /\
         reg_Key update = reg_Key base /\
         (reg_Agreement update = EmptyString \/ reg_Agreement update = reg_Agreement base \/
          reg_Agreement update = SubscriberAgreementURL wfe)) \/
      (exists payload inner newKey claimed jws account, from_account request w0 payload "key-change" base /\
         update = set_reg_Key zero_registration (Some newKey) /\
         extractJWSKey payload = Ok (newKey, jws) /\ jws_Verify jws newKey = Ok inner /\
         unmarshal_rollover inner = Ok (Some claimed, account) /\
         PublicKeysEqual (Some claimed) (Some (Key newKey)) = Ok true /\
         account = relativeEndpoint wfe request ("/acme/reg/" ++s itoa (reg_ID base)))
  | CallUpdateAuthorization authz i response =>
      exists payload reg id ch expires n, from_account request w0 payload "challenge" reg /\
        answered w0 (GetAuthorization _ SA id) authz /\ az_RegistrationID authz = reg_ID reg /\
        reg_Agreement reg <> EmptyString /\ az_Expires authz = Some expires /\ clk n <= expires /\
        az_Challenges authz !! Z.to_nat i = Some ch /\ unmarshal_challenge payload = Ok response
  | CallRevokeCertificateWithReg (cert, der) code regID =>
      exists payload key reg stored serial status,
        from_key_holder request w0 payload "revoke-cert" key reg /\ regID = reg_ID reg /\
        answered w0 (GetCertificate _ SA serial) stored /\ cert_DER stored = der /\ ParseCertificate der = Ok cert /\
        serial = SerialToString (x5_SerialNumber cert) /\
        answered w0 (GetCertificateStatus _ SA serial) status /\ cs_Status status <> OCSPStatusRevoked /\
        code ∈ UserAllowedReasons /\
        (KeyDigestEquals (JwkPtr (Some key)) (RawKey (x5_PublicKey cert)) = true \/
         regID = cert_RegistrationID stored \/
         exists n auths, answered w0 (GetValidAuthorizations _ SA regID (x5_DNSNames cert) (clk n)) auths /\
           forall name, name ∈ x5_DNSNames cert -> is_Some (auths !! name))
  | CallDeactivateRegistration reg =>
      exists payload update, from_account request w0 payload "reg" reg /\
        unmarshal_registration payload = Ok update /\ reg_Status update = StatusDeactivated
  | CallDeactivateAuthorization authz =>
      exists payload reg id, from_account request w0 payload "authz" reg /\
        answered w0 (GetAuthorization _ SA id) authz /\ az_RegistrationID authz = reg_ID reg /\
        unmarshal_status payload = Ok StatusDeactivated
  | CallAdministrativelyRevokeCertificate _ _ _ => False
  end.

(** ** Frames *)

(** Only the response changes. *)
Definition still (s s' : St) : Prop :=
  world s' = world s /\ nonces s' = nonces s /\ raCalls s' = raCalls s /\ clock s' = clock s.
#[local] Instance still_preorder : PreOrder still.
Proof. split; [done|]. intros ? ? ? (? & ? & ? & ?) (? & ? & ? & ?). unfold still. split_and!; congruence. Qed.

Lemma still_modify f : (forall s, still s (f s)) -> preserves still (modify (E := error) f).
Proof. intros H s r s' [= <- <-]. apply H. Qed.
Lemma still_get : preserves still (get (E := error)).
Proof. intros s r s' [= <- <-]. reflexivity. Qed.
Lemma still_Now : preserves still (Now (W := W)).
Proof. intros s r s' [= <- <-]. done. Qed.
Lemma still_Header_Set k v : preserves still (Header_Set (W := W) k v).
Proof. by apply still_modify. Qed.
Lemma still_Header_Add k v : preserves still (Header_Add (W := W) k v).
Proof. by apply still_modify. Qed.
Lemma still_WriteHeader n : preserves still (WriteHeader (W := W) n).
Proof. by apply still_modify. Qed.

Ltac stills leaf :=
  repeat (cbv zeta;
    match goal with
    | |- preserves _ (ret _) => apply preserves_ret; apply _
    | |- preserves _ (fail _) => apply preserves_fail; apply _
    | |- preserves _ get => apply still_get
    | |- preserves _ Now => apply still_Now
    | |- preserves _ (Header_Set _ _) => apply still_Header_Set
    | |- preserves _ (Header_Add _ _) => apply still_Header_Add
    | |- preserves _ (WriteHeader _) => apply still_WriteHeader
    | |- preserves _ (modify _) => apply still_modify; intros; done
    | |- preserves _ (on_response _) => apply still_modify; intros; done
    | |- preserves _ (mbindM _ _) => apply preserves_bind; [apply _| |intros]
    | |- preserves _ (match ?x with _ => _ end) => destruct x
    | |- preserves _ _ => leaf
    end).

Lemma still_Write data : preserves still (Write_ (W := W) data).
Proof. unfold Write_. stills ltac:(fail). Qed.
Lemma still_sendError prob : preserves still (sendError (W := W) prob).
Proof. unfold sendError. stills ltac:(apply still_Write). Qed.
Lemma still_reply status v msg : preserves still (reply (W := W) status v msg).
Proof. unfold reply, writeJsonResponse. stills ltac:(first [apply still_Write | apply still_sendError]). Qed.
Lemma still_redirect request url code : preserves still (http_Redirect (W := W) request url code).
Proof. unfold http_Redirect. destruct (Redirect_to request url). stills ltac:(apply still_Write). Qed.
Lemma still_links urls : preserves still (addIssuingCertificateURLs (W := W) urls).
Proof. induction urls as [|u urls IH]; simpl; stills ltac:(exact IH). Qed.

(** ** Handlers

    [leads_to J m]: started in a state where only lookups have happened, [m] makes no
    call, or one that [J] accepts.  [checks_in J n m]: the same for a handler that still
    has to authenticate the request; a call needs the nonce [n] to be redeemed. *)

Section handlers.
Context (w0 : W) (clk : nat -> Z) (J : ra_call -> Prop).

Definition leads_to {A} (m : WM A) : Prop := forall s r s',
  consulted w0 (world s) -> clock s = clk -> m s = (r, s') ->
  nonces s' = nonces s /\ (raCalls s' = raCalls s \/ exists c, raCalls s' = c :: raCalls s /\ J c).

Definition checks_in {A} (n : string) (m : WM A) : Prop := forall s r s',
  consulted w0 (world s) -> clock s = clk -> m s = (r, s') ->
  (raCalls s' = raCalls s /\ (nonces s' = nonces s \/ nonces s' = snd (Nonce.Valid n (nonces s)))) \/
  (Nonce.Valid n (nonces s) = (true, nonces s') /\ exists c, raCalls s' = c :: raCalls s /\ J c).

Lemma leads_still {A} (m : WM A) : preserves still m -> leads_to m.
Proof. intros H s r s' _ _ E. apply H in E as (? & ? & ? & ?). auto. Qed.

Lemma checks_still {A} n (m : WM A) : preserves still m -> checks_in n m.
Proof. intros H s r s' _ _ E. apply H in E as (? & ? & ? & ?). auto. Qed.

Lemma leads_still_bind {A B} (m : WM A) (k : A -> WM B) :
  preserves still m -> (forall a, leads_to (k a)) -> leads_to (mbindM m k).
Proof.
  intros Hm Hk s r s' Hw Hc E. unfold mbindM in E. destruct (m s) as [x s1] eqn:E1.
  apply Hm in E1 as (H1 & H2 & H3 & H4). destruct x as [a|e]; [|injection E as <- <-; auto].
  rewrite <- H2, <- H3. eapply Hk; [| |exact E]; congruence.
Qed.

Lemma checks_still_bind {A B} n (m : WM A) (k : A -> WM B) :
  preserves still m -> (forall a, checks_in n (k a)) -> checks_in n (mbindM m k).
Proof.
  intros Hm Hk s r s' Hw Hc E. unfold mbindM in E. destruct (m s) as [x s1] eqn:E1.
  apply Hm in E1 as (H1 & H2 & H3 & H4). destruct x as [a|e]; [|injection E as <- <-; auto].
  rewrite <- H2, <- H3. eapply Hk; [| |exact E]; congruence.
Qed.

(** A reading of the clock. *)
Lemma leads_Now {B} (k : Z -> WM B) : (forall n, leads_to (k (clk n))) -> leads_to (mbindM Now k).
Proof. intros H s r s' Hw Hc E. unfold mbindM, Now in E. rewrite Hc in E. exact (H _ (set_reads s (S (reads s))) _ _ Hw Hc E). Qed.
Lemma checks_Now {B} n (k : Z -> WM B) : (forall i, checks_in n (k (clk i))) -> checks_in n (mbindM Now k).
Proof. intros H s r s' Hw Hc E. unfold mbindM, Now in E. rewrite Hc in E. exact (H _ (set_reads s (S (reads s))) _ _ Hw Hc E). Qed.

(** A lookup: whatever it answers, the handler goes on. *)
Lemma lookup_run {A} (m : M W error A) (s : St) : try (on_world m) s = (Ok (fst (m (world s))), set_world s (snd (m (world s)))).
Proof. unfold try, on_world. by destruct (m (world s)). Qed.

Lemma leads_lookup {A B} (m : M W error A) (k : result error A -> WM B) :
  (forall w, lookup w (snd (m w))) ->
  (forall w, consulted w0 w -> leads_to (k (fst (m w)))) -> leads_to (mbindM (try (on_world m)) k).
Proof.
  intros Hm Hk s r s' Hw Hc E. unfold mbindM in E. rewrite lookup_run in E.
  apply (Hk _ Hw) in E; [done| |done]. eapply rtc_r; [exact Hw|apply Hm].
Qed.
Lemma checks_lookup {A B} n (m : M W error A) (k : result error A -> WM B) :
  (forall w, lookup w (snd (m w))) ->
  (forall w, consulted w0 w -> checks_in n (k (fst (m w)))) -> checks_in n (mbindM (try (on_world m)) k).
Proof.
  intros Hm Hk s r s' Hw Hc E. unfold mbindM in E. rewrite lookup_run in E.
  apply (Hk _ Hw) in E; [done| |done]. eapply rtc_r; [exact Hw|apply Hm].
Qed.

(** The call of the RA: nothing but the response follows. *)
Lemma leads_call {A B} c (m : M W error A) (k : result error A -> WM B) :
  J c -> (forall a, preserves still (k a)) -> leads_to (mbindM (try (asking c m)) k).
Proof.
  intros HJ Hk s r s' Hw Hc E. unfold mbindM, try, asking, modify, on_world in E. cbn [mbindM] in E.
  unfold mbindM in E. cbn [world add_call] in E. destruct (m (world s)) as [x w1].
  apply Hk in E as (_ & H2 & H3 & _). split; [exact H2|right]. exists c. split; [exact H3|exact HJ].
Qed.

End handlers.

(** ** Authentication *)

Definition accepted (request : Request) (w0 : W) (regCheck : bool) (payload resource : string)
    (key : JsonWebKey) (reg : Registration) : Prop :=
  signed request key payload resource /\
  exists sub, submitted request sub /\
    ((answered w0 (GetRegistrationByKey _ SA (Some sub)) reg /\ reg_Key reg = Some key /\
      (regCheck = true -> flag fs Features.AllowAccountDeactivation = true -> reg_Status reg = StatusValid)) \/
     (regCheck = false /\ key = sub /\ reg = zero_registration /\
      GoodKey.GoodKey (keyPolicy wfe) (Key key) = Ok tt)).

Lemma accepted_account request w0 payload resource key reg :
  accepted request w0 true payload resource key reg -> from_account request w0 payload resource reg.
Proof. intros (HS & sub & Hsub & [(HA & HK & HV)|[[=] _]]). exists key, sub. split_and!; auto. Qed.

Lemma accepted_key_holder request w0 payload resource key reg :
  accepted request w0 false payload resource key reg -> from_key_holder request w0 payload resource key reg.
Proof. intros (HS & sub & Hsub & H). split; [done|]. exists sub. naive_solver. Qed.

Lemma extractJWSKey_Ok body key jws : extractJWSKey body = Ok (key, jws) ->
  ParseSigned body = Ok jws /\ exists sig, jws_Signatures jws = [sig] /\
    hdr_JsonWebKey (sig_Header sig) = Some key /\ Valid key = true.
Proof.
  unfold extractJWSKey. destruct (ParseSigned body) as [jws'|]; [|done].
  destruct (jws_Signatures jws') as [|sig [|]] eqn:E; try done.
  destruct (hdr_JsonWebKey (sig_Header sig)) as [k|] eqn:Ek; [|done].
  destruct (Valid k) eqn:Ev; [|done]. intros [= -> ->]. split; [done|]. by exists sig.
Qed.

(** The states [verifyPOST] goes through before the nonce. *)
Lemma select_key_spec w0 regCheck sub s r s' :
  consulted w0 (world s) -> select_key wfe SA regCheck sub s = (r, s') ->
  consulted w0 (world s') /\ raCalls s' = raCalls s /\ clock s' = clock s /\ nonces s' = nonces s /\
  forall key reg, r = Ok (Ok (key, reg)) ->
    (answered w0 (GetRegistrationByKey _ SA (Some sub)) reg /\ key = reg_Key reg) \/
    (regCheck = false /\ key = Some sub /\ reg = zero_registration /\
     GoodKey.GoodKey (keyPolicy wfe) (Key sub) = Ok tt).
Proof.
  intros Hw. unfold select_key, mbindM. cbn [GetRegistrationByKey WFE.sa]. rewrite lookup_run.
  set (w := world s) in *.
  assert (consulted w0 (snd (GetRegistrationByKey _ SA (Some sub) w))) as Hw'
    by (eapply rtc_r; [exact Hw|apply look_key]).
  destruct (GetRegistrationByKey _ SA (Some sub) w) as [[reg|err] w1] eqn:E; cbn [fst snd] in *.
  - intros [= <- <-]. split_and!; try done. intros key reg' [= <- <-]. left. split; [by exists w, w1|done].
  - destruct (no_such_registration err && negb regCheck) eqn:Eb.
    + destruct (GoodKey.GoodKey _ _) as [[]|] eqn:Eg; intros [= <- <-]; split_and!; try done.
      intros key reg [= <- <-]. right. split_and!; try done. by destruct regCheck, (no_such_registration err).
    + destruct (no_such_registration err); intros [= <- <-]; by split_and!.
Qed.

Lemma check_nonce_spec jws payload resource (s : St) r s' n :
  n = match jws_Signatures jws with sig :: _ => hdr_Nonce (sig_Header sig) | [] => EmptyString end ->
  check_nonce_and_resource jws payload resource s = (r, s') ->
  world s' = world s /\ raCalls s' = raCalls s /\ clock s' = clock s /\
  ((r = Ok (Ok tt) /\ Nonce.Valid n (nonces s) = (true, nonces s') /\ unmarshal_resource payload = Ok resource) \/
   (r <> Ok (Ok tt) /\ (nonces s' = nonces s \/ nonces s' = snd (Nonce.Valid n (nonces s))))).
Proof.
  intros ->. unfold check_nonce_and_resource. set (n := match jws_Signatures jws with [] => _ | _ => _ end).
  destruct (is_empty n); [intros [= <- <-]; split_and!; try done; by right; split; [|left]|].
  unfold mbindM, valid_nonce. destruct (Nonce.Valid n (nonces s)) as [b ns] eqn:E.
  destruct b; cbv [negb]; [|intros [= <- <-]; split_and!; try done; right; split; [done|by right]].
  intros [= <- <-]. split_and!; try done. cbn [nonces set_nonces].
  destruct (unmarshal_resource payload) as [parsed|]; [|right; split; [done|by right]].
  destruct (is_empty parsed); [right; split; [done|by right]|].
  destruct (String.eqb_spec resource parsed) as [->|]; [by left|right; split; [done|by right]].
Qed.

Lemma verifyPOST_spec w0 request regCheck resource s r s' :
  consulted w0 (world s) -> verifyPOST fs wfe SA request regCheck resource s = (r, s') ->
  consulted w0 (world s') /\ raCalls s' = raCalls s /\ clock s' = clock s /\
  match r with
  | Ok (Ok (payload, key, reg)) =>
      Nonce.Valid (request_nonce request) (nonces s) = (true, nonces s') /\
      accepted request w0 regCheck payload resource key reg
  | _ => nonces s' = nonces s \/ nonces s' = snd (Nonce.Valid (request_nonce request) (nonces s))
  end.
Proof.
  intros Hw. unfold verifyPOST.
  destruct (req_Header request !! _); [|intros [= <- <-]; auto].
  destruct (req_Body request) as [[body|]|] eqn:Eb; try (intros [= <- <-]; by auto).
  destruct (extractJWSKey body) as [[sub jws]|] eqn:Ex; [|intros [= <- <-]; by auto].
  apply extractJWSKey_Ok in Ex as (Hp & sig & Hs & Hk & Hv).
  assert (request_nonce request = match jws_Signatures jws with sig :: _ => hdr_Nonce (sig_Header sig) | [] => EmptyString end)
    as Hn by (unfold request_nonce; by rewrite Eb, Hp).
  unfold mbindM at 1. destruct (select_key wfe SA regCheck sub s) as [sel s1] eqn:Esel.
  apply (select_key_spec w0) in Esel as (Hw1 & HC1 & HK1 & HN1 & Hsel); [|done].
  destruct sel as [[[key reg]|prob]|e]; try (intros [= <- <-]; by auto).
  specialize (Hsel key reg eq_refl).
  destruct (regCheck && flag fs Features.AllowAccountDeactivation && _) eqn:Est; [intros [= <- <-]; by auto|].
  destruct key as [key|]; [|intros [= <- <-]; by auto].
  destruct (checkAlgorithm key jws) as [[]|[? ?]] eqn:Ea; [|intros [= <- <-]; by auto].
  destruct (jws_Verify jws key) as [payload|] eqn:Ever; [|intros [= <- <-]; by auto].
  unfold mbindM. destruct (check_nonce_and_resource jws payload resource s1) as [x s2] eqn:Ec.
  apply (check_nonce_spec _ _ _ _ _ _ _ Hn) in Ec as (HW2 & HC2 & HK2 & [(-> & HN2 & Hres)|[Hx HN2]]).
  - intros [= <- <-]. split_and!; [by rewrite HW2|congruence|congruence|by rewrite <- HN1|].
    split; [exists body, jws, sig; by split_and!|]. exists sub. split; [exists body, jws, sig; by split_and!|].
    destruct Hsel as [[HA HR]|(-> & [= ->] & -> & HG)]; [left|right; by split_and!].
    split_and!; [done|done|]. intros -> Hf. rewrite Hf in Est. by destruct (String.eqb_spec (reg_Status reg) StatusValid).
  - destruct x as [[[]|]|]; [done| |]; intros [= <- <-]; by rewrite <- HN1, HW2, HC2, HK2, HC1, HK1.
Qed.

Lemma checks_authenticated w0 clk J request regCheck resource k :
  (forall payload key reg, accepted request w0 regCheck payload resource key reg ->
     leads_to w0 clk J (k payload key reg)) ->
  checks_in w0 clk J (request_nonce request) (authenticated fs wfe SA request regCheck resource k).
Proof.
  intros Hk s r s' Hw Hc E. unfold authenticated in E. unfold mbindM at 1 in E.
  destruct (verifyPOST fs wfe SA request regCheck resource s) as [v s1] eqn:Ev.
  apply (verifyPOST_spec w0) in Ev as (Hw1 & HC1 & HK1 & Hv); [|done].
  destruct v as [v|e]; [|injection E as <- <-; by left]. unfold mbindM at 1, get at 1 in E.
  unfold mbindM at 1 in E. destruct (addRequesterHeader (requester s1) s1) as [x s2] eqn:Er.
  assert (still s1 s2 /\ exists a, x = Ok a) as [(H1 & H2 & H3 & H4) [[] ->]].
  { unfold addRequesterHeader in Er. destruct (0 <? requester s1); injection Er as <- <-; split; by eauto. }
  destruct v as [[[payload key] reg]|prob].
  - destruct Hv as [HV Hacc]. apply (Hk _ _ _ Hacc) in E as [HN HCall]; [|congruence|congruence].
    rewrite HN, H2. rewrite H3, HC1 in HCall. destruct HCall as [->|HCall]; [left|by right].
    split; [done|right]. by rewrite HV.
  - left. apply still_sendError in E as (_ & HN & HR & _). rewrite HN, HR, H2, H3. by split.
Qed.

(** ** The handlers, one by one *)

Lemma answered_intro {A} w0 w (m : M W error A) a : consulted w0 w -> fst (m w) = Ok a -> answered w0 m a.
Proof. intros H E. exists w, (snd (m w)). split; [done|]. by rewrite (surjective_pairing (m w)), E. Qed.

Lemma still_terms_link : preserves still (terms_link (W := W) wfe).
Proof. unfold terms_link. stills ltac:(fail). Qed.
Lemma still_requester id : preserves still (addRequesterHeader (W := W) id).
Proof. unfold addRequesterHeader. stills ltac:(fail). Qed.
Lemma still_show_challenge request authz ch : preserves still (show_challenge (W := W) wfe request authz ch).
Proof. unfold show_challenge. stills ltac:(apply still_reply). Qed.
Lemma still_show_authorization request authz : preserves still (show_authorization (W := W) wfe request authz).
Proof. unfold show_authorization. stills ltac:(apply still_reply). Qed.
Lemma still_issuer_links request cert (k : WM unit) :
  preserves still k -> preserves still (issuer_links (W := W) fs wfe request cert k).
Proof. intros Hk. unfold issuer_links. stills ltac:(first [exact Hk | apply still_links | apply still_sendError]). Qed.

(** What follows the call of the RA, and every refusal. *)
Ltac responds :=
  stills ltac:(idtac; match goal with
    | |- preserves _ (sendError _) => apply still_sendError
    | |- preserves _ (reply _ _ _) => apply still_reply
    | |- preserves _ (terms_link _) => apply still_terms_link
    | |- preserves _ (addRequesterHeader _) => apply still_requester
    | |- preserves _ (show_challenge _ _ _ _) => apply still_show_challenge
    | |- preserves _ (show_authorization _ _ _) => apply still_show_authorization
    | |- preserves _ (issuer_links _ _ _ _ _) => apply still_issuer_links
    | |- preserves _ (Write_ _) => apply still_Write
    | |- preserves _ (http_Redirect _ _ _) => apply still_redirect
    | |- preserves _ (addIssuingCertificateURLs _) => apply still_links
    end).

Ltac equalities :=
  repeat match goal with
  | H : negb (String.eqb _ _) = false |- _ => apply negb_false_iff, String.eqb_eq in H
  | H : negb (Z.eqb _ _) = false |- _ => apply negb_false_iff, Z.eqb_eq in H
  | H : (_ <=? _) = false |- _ => apply Z.leb_gt in H
  end; subst.

(** Through a handler after authentication, up to the call of the RA. *)
Ltac leads :=
  repeat first
    [ progress cbv zeta
    | match goal with
      | |- leads_to _ _ _ (mbindM (try (GetAuthorization _ _ _)) _) => apply leads_lookup; [intros; constructor|intros ? ?]
      | |- leads_to _ _ _ (mbindM (try (GetCertificate _ _ _)) _) => apply leads_lookup; [intros; constructor|intros ? ?]
      | |- leads_to _ _ _ (mbindM (try (GetCertificateStatus _ _ _)) _) => apply leads_lookup; [intros; constructor|intros ? ?]
      | |- leads_to _ _ _ (mbindM (try (GetRegistrationByKey _ _ _)) _) => apply leads_lookup; [intros; constructor|intros ? ?]
      | |- leads_to _ _ _ (mbindM (try _) _) => apply leads_call; [|intros; responds]
      | |- leads_to _ _ _ (match ?x with _ => _ end) => destruct x eqn:?
      | |- leads_to _ _ _ _ => apply leads_still; solve [responds]
      end ].

Lemma regHolds_true w0' clk' J' regID names (k : result error bool -> WM unit) :
  (forall n auths, answered w0' (GetValidAuthorizations _ SA regID names (clk' n)) auths ->
     (forall name, name ∈ names -> is_Some (auths !! name)) -> leads_to w0' clk' J' (k (Ok true))) ->
  (forall r, r <> Ok true -> leads_to w0' clk' J' (k r)) ->
  leads_to w0' clk' J' (mbindM (regHoldsAuthorizations SA regID names) k).
Proof.
  intros Ht Hf s r s' Hw Hc E. unfold regHoldsAuthorizations in E.
  unfold mbindM at 1, mbindM at 1, Now at 1 in E. rewrite Hc in E.
  unfold mbindM at 1 in E. cbn [GetValidAuthorizations WFE.sa] in E. rewrite lookup_run in E.
  cbn [world set_reads] in E. set (m := GetValidAuthorizations _ SA regID names _) in E.
  assert (consulted w0' (snd (m (world s)))) as Hw' by (eapply rtc_r; [exact Hw|apply look_valid]).
  set (s1 := set_world _ _) in E. unfold ret in E.
  match type of E with k ?a _ = _ => set (b := a) in E end.
  change (nonces s) with (nonces s1). change (raCalls s) with (raCalls s1).
  assert (b = Ok true \/ b <> Ok true) as [Eb|Eb] by (destruct b as [[]|]; [by left|by right..]);
    [|exact (Hf b Eb s1 _ _ Hw' Hc E)].
  rewrite Eb in E. destruct (fst (m (world s))) as [auths|] eqn:Em; [|done].
  eapply (Ht (reads s) auths); [exact (answered_intro _ _ m _ Hw Em)| |exact Hw'|exact Hc|exact E].
  intros name Hn. subst b. destruct (negb _); [done|]. injection Eb as Eb. rewrite forallb_forall in Eb.
  specialize (Eb name). rewrite <- list_elem_of_In in Eb. specialize (Eb Hn).
  destruct (auths !! name); [by eexists|done].
Qed.

(** Whoever may revoke is the holder of the key, the account, or an account with
    authorizations for all the names. *)
Lemma leads_may_revoke w0' clk' J' key reg stored cert (k : result Probs.ProblemDetails unit -> WM unit) :
  ((KeyDigestEquals (JwkPtr (Some key)) (RawKey (x5_PublicKey cert)) = true \/
    reg_ID reg = cert_RegistrationID stored \/
    exists n auths, answered w0' (GetValidAuthorizations _ SA (reg_ID reg) (x5_DNSNames cert) (clk' n)) auths /\
      forall name, name ∈ x5_DNSNames cert -> is_Some (auths !! name)) -> leads_to w0' clk' J' (k (Ok tt))) ->
  (forall prob, leads_to w0' clk' J' (k (Err prob))) ->
  leads_to w0' clk' J' (mbindM (may_revoke SA key reg stored cert) k).
Proof.
  intros Hok Herr. unfold may_revoke. destruct (_ || _) eqn:E.
  - intros s r s' Hw Hc. unfold mbindM, ret. apply Hok; try done.
    apply orb_true_iff in E as [E|E%Z.eqb_eq]; auto.
  - intros s r s' Hw Hc. rewrite (mbindM_assoc _ _ _ s). revert s r s' Hw Hc.
    apply regHolds_true.
    + intros n auths HA Hall s r s' Hw Hc. unfold mbindM, ret. apply Hok; try done. right. right. eauto.
    + intros x Hx s r s' Hw Hc. unfold mbindM, ret. destruct x as [[]|]; [done| |]; by apply Herr.
Qed.

Section one_by_one.
Context (request : Request) (w0 : W) (clk : nat -> Z).
Notation J := (justified request w0 clk).
Notation checks := (checks_in w0 clk J (request_nonce request)).

Lemma checks_NewAuthorization : checks (NewAuthorization fs wfe RA SA request).
Proof.
  apply checks_authenticated. intros payload key reg Hacc%accepted_account. leads.
  exists payload, reg. split_and!; try done. intros E. by rewrite E in *.
Qed.

Lemma checks_NewCertificate : checks (NewCertificate fs wfe RA SA request).
Proof.
  apply checks_authenticated. intros payload key reg Hacc%accepted_account. leads.
  destruct (csr_PublicKey _) as [k|] eqn:Ek in *; [|done].
  exists payload, reg, k. split_and!; try done; [intros E; by rewrite E in *|].
  match goal with H : GoodKey.GoodKey _ _ = Ok ?u |- _ => by destruct u end.
Qed.

Lemma checks_NewRegistration : checks (NewRegistration fs wfe RA SA request).
Proof.
  apply checks_authenticated. intros payload key reg Hacc%accepted_key_holder. leads.
  match goal with H : fst (GetRegistrationByKey _ SA _ ?w) = Err ?e |- _ => rename H into Hnone end.
  match goal with H : unmarshal_registration _ = Ok ?i |- _ => rename i into asked end.
  exists payload, key, reg, asked. split_and!; try done.
  - cbn [reg_Agreement set_Key_and_IP]. destruct (reg_Agreement asked) as [|c t] eqn:Ea; [by left|right].
    destruct (String.eqb_spec (String c t) (SubscriberAgreementURL wfe)); [done|].
    assert (0 <? len (String c t) = true) as Hl by (apply Z.ltb_lt; unfold len; cbn [String.length]; lia).
    rewrite Hl in *. done.
  - eexists _, _, _. split; [eassumption|]. rewrite (surjective_pairing (GetRegistrationByKey _ SA _ _)), Hnone. done.
Qed.

Lemma checks_Registration : checks (Registration_ fs wfe RA SA request).
Proof.
  apply checks_authenticated. intros payload key reg Hacc%accepted_account. unfold deactivateRegistration. leads.
  - equalities. exists payload. eexists. by split_and!.
  - equalities. left. exists payload. split_and!; [done|lia|done|]. cbn [reg_Agreement set_reg_Key].
    match goal with H : unmarshal_registration _ = Ok ?i |- _ => destruct (reg_Agreement i) as [|c t] eqn:Ea end; [by left|right].
    assert (0 <? len (String c t) = true) as Hl by (apply Z.ltb_lt; unfold len; cbn [String.length]; lia).
    rewrite Hl in *. destruct (String.eqb_spec (String c t) (reg_Agreement reg)); [by left|].
    destruct (String.eqb_spec (String c t) (SubscriberAgreementURL wfe)); [by right|done].
Qed.

Lemma checks_KeyRollover : checks (KeyRollover fs wfe RA SA request).
Proof.
  apply checks_authenticated. intros payload key reg Hacc%accepted_account. leads.
  match goal with H : PublicKeysEqual ?k _ = Ok true |- _ => destruct k as [claimed|]; [|done] end.
  equalities. right. exists payload. eexists _, _, claimed, _, _. by split_and!.
Qed.

Lemma checks_postChallenge authz i ch id expires n :
  answered w0 (GetAuthorization _ SA id) authz -> az_Expires authz = Some expires -> clk n <= expires ->
  az_Challenges authz !! Z.to_nat i = Some ch -> checks (postChallenge fs wfe RA SA request authz i).
Proof.
  intros HA HE Hn Hch. apply checks_authenticated. intros payload key reg Hacc%accepted_account. leads.
  exists payload, reg, id, ch, expires, n.
  equalities. split_and!; try done. intros E. by rewrite E in *.
Qed.

Lemma checks_deactivateAuthorization authz id k :
  answered w0 (GetAuthorization _ SA id) authz -> (forall a, preserves still (k a)) ->
  checks (deactivateAuthorization fs wfe RA SA request authz k).
Proof.
  intros HA Hk. apply checks_authenticated. intros payload key reg Hacc%accepted_account. leads; [|apply Hk].
  equalities. exists payload, reg, id. by split_and!.
Qed.
Lemma checks_RevokeCertificate : checks (RevokeCertificate fs wfe RA SA request).
Proof.
  apply checks_authenticated. intros payload key reg Hacc%accepted_key_holder. leads.
  apply leads_may_revoke; [intros Hmay|intros; leads]. leads.
  repeat match goal with H : fst (_ ?w) = Ok _ |- _ => apply (answered_intro w0) in H; [|done] end.
  equalities. simplify_eq. exists payload, key, reg. eexists _, _, _. split_and!; try done; [congruence| |].
  - by match goal with H : String.eqb _ _ = false |- _ => apply String.eqb_neq in H end.
  - destruct (if AcceptRevocationReason wfe then _ else _) as [reason|]; [|unfold UserAllowedReasons; set_solver].
    match goal with H : negb (bool_decide _) = false |- _ => by apply negb_false_iff, bool_decide_eq_true in H end.
Qed.

(** The two handlers that look up an authorization first. *)
Lemma checks_unless_expired authz (k : WM unit) :
  (forall expires n, az_Expires authz = Some expires -> clk n <= expires -> checks k) ->
  checks (unless_expired authz k).
Proof.
  intros Hk. unfold unless_expired. destruct (az_Expires authz) as [expires|]; [|apply checks_still; responds].
  apply checks_Now. intros n. destruct (time_Before expires (clk n)) eqn:E; [apply checks_still; responds|].
  apply (Hk expires n); [done|]. unfold time_Before in E. by apply Z.ltb_ge in E.
Qed.

Lemma checks_Challenge : checks (Challenge_ fs wfe RA SA request).
Proof.
  unfold Challenge_. cbv zeta. set (nf := sendError _).
  assert (checks nf) as Hnf by (apply checks_still; apply still_sendError). clearbody nf.
  destruct (split_on "/" _) as [|id [|c [|]]]; try done. destruct (Atoi c) as [cid|]; [|done].
  apply checks_lookup; [intros; constructor|intros w Hw].
  destruct (fst _) as [authz|] eqn:E; [|done]. apply (answered_intro w0) in E; [|done].
  apply checks_unless_expired. intros expires n He Hn. cbv zeta.
  destruct (_ =? -1); [done|]. destruct (az_Challenges authz !! _) as [ch|] eqn:Ech; [|apply checks_still; responds].
  destruct (_ || _); [apply checks_still, still_show_challenge|].
  destruct (String.eqb _ _); [by eapply checks_postChallenge|apply checks_still; responds].
Qed.

Lemma checks_Authorization : checks (Authorization_ fs wfe RA SA request).
Proof.
  unfold Authorization_. apply checks_lookup; [intros; constructor|intros w Hw].
  destruct (fst _) as [authz|] eqn:E; [|apply checks_still; responds]. apply (answered_intro w0) in E; [|done].
  apply checks_unless_expired. intros expires n He Hn.
  destruct (_ && _); [|apply checks_still, still_show_authorization].
  eapply checks_deactivateAuthorization; [exact E|]. intros. apply still_show_authorization.
Qed.

Lemma checks_Certificate : checks (Certificate_ fs wfe SA request).
Proof.
  unfold Certificate_. cbv zeta. destruct (negb _); [apply checks_still; responds|].
  apply checks_lookup; [intros; constructor|intros w Hw]. apply checks_still. responds.
Qed.

Lemma checks_routes pattern h methods : (pattern, h, methods) ∈ routes fs wfe RA SA -> checks (h request).
Proof.
  assert (forall m : WM unit, preserves still m -> checks m) as Hs by (intros; by apply checks_still).
  unfold routes. intros H. apply elem_of_app in H as [H|H].
  - repeat (apply elem_of_cons in H as [[= -> -> ->]|H];
      [first [ apply checks_NewRegistration | apply checks_NewAuthorization | apply checks_NewCertificate
             | apply checks_Registration | apply checks_Authorization | apply checks_Challenge
             | apply checks_Certificate | apply checks_RevokeCertificate
             | apply Hs; unfold Directory, Terms, Issuer, BuildID; responds ]|]).
    by apply not_elem_of_nil in H.
  - destruct (flag fs _); [|by apply not_elem_of_nil in H].
    apply list_elem_of_singleton in H as [= -> -> ->]. apply checks_KeyRollover.
Qed.

Lemma still_CORS methods : preserves still (setCORSHeaders (W := W) wfe request methods).
Proof. unfold setCORSHeaders. responds. Qed.

(** Making a nonce for the response changes only the nonce service. *)
Lemma new_nonce_run (s : St) : exists r, new_nonce s =
  (Ok r, set_nonces s (snd (Nonce.Nonce (rand s (drawn s)) (nonces s))) (S (drawn s))).
Proof. unfold new_nonce. destruct (Nonce.Nonce _ _) as [r ns] eqn:E. by exists r. Qed.

End one_by_one.

(** One request, from the state of the nonce service after the response's nonce. *)
Definition after_nonce (s : St) : Nonce.NonceService := snd (Nonce.Nonce (rand s (drawn s)) (nonces s)).

Lemma HandleFunc_spec request w0 clk h methods (s : St) r s' :
  checks_in w0 clk (justified request w0 clk) (request_nonce request) (h request) ->
  consulted w0 (world s) -> clock s = clk -> HandleFunc wfe h methods request s = (r, s') ->
  (raCalls s' = raCalls s /\
   (nonces s' = after_nonce s \/ nonces s' = snd (Nonce.Valid (request_nonce request) (after_nonce s)))) \/
  (Nonce.Valid (request_nonce request) (after_nonce s) = (true, nonces s') /\
   exists c, raCalls s' = c :: raCalls s /\ justified request w0 clk c).
Proof.
  intros Hh Hw Hc. unfold HandleFunc. cbv zeta. unfold mbindM at 1.
  destruct (new_nonce_run s) as [n ->]. set (s1 := set_nonces s _ _).
  change (raCalls s) with (raCalls s1). change (after_nonce s) with (nonces s1).
  match goal with |- ?m s1 = _ -> _ =>
    assert (checks_in w0 clk (justified request w0 clk) (request_nonce request) m) as H end.
  { apply checks_still_bind; [destruct n; responds|intros _].
    destruct (String.eqb _ _).
    { apply checks_still. unfold Options. stills ltac:(apply still_CORS). }
    apply checks_still_bind; [unfold addNoCacheHeader; responds|intros _].
    destruct (negb _); [apply checks_still; responds|].
    apply checks_still_bind; [apply still_CORS|by intros _]. }
  exact (H s1 r s' Hw Hc).
Qed.

(** One request in general. *)
Lemma serve_spec request (s : St) r s' : serve fs wfe RA SA request s = (r, s') ->
  (raCalls s' = raCalls s /\
   (nonces s' = nonces s \/ nonces s' = after_nonce s \/
    nonces s' = snd (Nonce.Valid (request_nonce request) (after_nonce s)))) \/
  (Nonce.Valid (request_nonce request) (after_nonce s) = (true, nonces s') /\
   exists c, raCalls s' = c :: raCalls s /\ justified request (world s) (clock s) c).
Proof.
  unfold serve, Handler. cbv zeta. set (s1 := set_response _ _).
  assert (forall m : WM unit, preserves still m -> m s1 = (r, s') -> raCalls s' = raCalls s /\ nonces s' = nonces s) as Hs.
  { intros m Hm E. by apply Hm in E as (_ & ? & ? & _). }
  destruct (negb _ && negb _); [intros E; apply Hs in E as [? ?]; [left; auto|responds]|].
  destruct (List.find _ _) as [[[pattern h] methods]|] eqn:Ef.
  - apply find_some in Ef as [Hin _]. apply list_elem_of_In in Hin. set (request' := with_Path request _).
    intros E. apply (HandleFunc_spec request' (world s) (clock s)) in E; [|by eapply checks_routes|done|done].
    destruct E as [(? & [?|?])|?]; auto.
  - intros E. left. destruct (existsb _ _); apply Hs in E as [? ?]; auto; [responds|].
    unfold Index, http_NotFound, addNoCacheHeader. responds.
Qed.

(** C2. A request makes the front end call the RA at most once, and only if the request
    justifies the call: it carries one signature that verifies with the key of the account
    acted for (for registrations and revocations, with the key it carries), over a payload
    for this resource, with a nonce that the nonce service accepts; and the handler's own
    conditions hold: the subscriber agreement, ownership of the authorization, the key
    proof of a key change, and the right to revoke. *)
Theorem calls_are_authenticated request (s : St) r s' : serve fs wfe RA SA request s = (r, s') ->
  raCalls s' = raCalls s \/
  exists c, raCalls s' = c :: raCalls s /\ justified request (world s) (clock s) c /\
    Nonce.Valid (request_nonce request) (after_nonce s) = (true, nonces s').
Proof. intros E. apply serve_spec in E as [[? _]|[? (c & ? & ?)]]; eauto. Qed.

(** ** Replay *)

(** What happens over time: requests, and steps of the other servers. *)
Inductive event :=
| Visit (request : Request)
| Elsewhere (f : W -> W).
Definition happen (s : St) (e : event) : St :=
  match e with
  | Visit request => snd (serve fs wfe RA SA request s)
  | Elsewhere f => set_world s (f (world s))
  end.
Definition run (events : list event) (s : St) : St := fold_left happen events s.

(** The request makes the front end call the RA. *)
Definition acts (s : St) (request : Request) : Prop := raCalls (snd (serve fs wfe RA SA request s)) <> raCalls s.

Definition blocked (c : Z) (ns : Nonce.NonceService) : Prop := c ∈ Nonce.used ns \/ c <= Nonce.earliest ns.

Lemma step_Valid n ns : snd (Nonce.step (Nonce.OpValid n) ns) = snd (Nonce.Valid n ns).
Proof.
  simpl. unfold Nonce.Valid. destruct (Nonce.decrypt n) as [c|]; [|done]. by destruct (Nonce.redeem c ns) as [[] ?].
Qed.

Lemma keeps_blocked (R : Nonce.NonceService -> Nonce.NonceService) o :
  (forall ns, R ns = snd (Nonce.step o ns)) -> forall ns, Nonce.Inv ns ->
  Nonce.Inv (R ns) /\ forall c, blocked c ns -> blocked c (R ns).
Proof.
  intros HR ns HI. rewrite HR. destruct (Nonce.step o ns) as [x ns'] eqn:E. simpl. split.
  - by eapply Nonce.step_inv.
  - intros c. by eapply Nonce.step_blocked.
Qed.

Lemma after_nonce_blocked (s : St) : Nonce.Inv (nonces s) ->
  Nonce.Inv (after_nonce s) /\ forall c, blocked c (nonces s) -> blocked c (after_nonce s).
Proof. apply (keeps_blocked (fun ns => snd (Nonce.Nonce (rand s (drawn s)) ns)) (Nonce.OpNonce (rand s (drawn s)))). done. Qed.

Lemma happen_blocked e (s : St) : Nonce.Inv (nonces s) ->
  Nonce.Inv (nonces (happen s e)) /\ forall c, blocked c (nonces s) -> blocked c (nonces (happen s e)).
Proof.
  intros HI. destruct e as [request|f]; [|done]. cbn [happen].
  destruct (serve fs wfe RA SA request s) as [r s'] eqn:E. cbn [snd].
  destruct (after_nonce_blocked s HI) as [HI1 HB1].
  destruct (keeps_blocked (fun ns => snd (Nonce.Valid (request_nonce request) ns)) (Nonce.OpValid (request_nonce request))
    (fun ns => eq_sym (step_Valid _ ns)) _ HI1) as [HI2 HB2].
  apply serve_spec in E as [(_ & [->|[->| ->]])|[HV _]]; [by auto| by auto | |].
  - split; [done|]. auto.
  - rewrite HV in HI2, HB2. split; [done|]. cbn [snd] in HB2. auto.
Qed.

Lemma run_blocked events : forall s : St, Nonce.Inv (nonces s) ->
  Nonce.Inv (nonces (run events s)) /\ forall c, blocked c (nonces s) -> blocked c (nonces (run events s)).
Proof.
  induction events as [|e events IH]; intros s HI; [done|].
  destruct (happen_blocked e s HI) as [HI1 HB1]. destruct (IH _ HI1) as [HI2 HB2]. split; [done|]. auto.
Qed.

(** A request that acts redeems its nonce: not blocked before, blocked afterwards. *)
Lemma acts_redeems (s : St) request : Nonce.Inv (nonces s) -> acts s request ->
  exists c, Nonce.decrypt (request_nonce request) = Ok c /\ ~ blocked c (nonces s) /\
    blocked c (nonces (happen s (Visit request))).
Proof.
  intros HI Hact. unfold acts in Hact. cbn [happen]. destruct (serve fs wfe RA SA request s) as [r s'] eqn:E.
  cbn [snd] in *. apply serve_spec in E as [[? _]|[HV _]]; [done|].
  destruct (after_nonce_blocked s HI) as [HI1 HB1]. unfold Nonce.Valid in HV.
  destruct (Nonce.decrypt (request_nonce request)) as [c|] eqn:Ed; [|done]. exists c. split; [done|].
  destruct (Nonce.step_redeemed (Nonce.OpValid (request_nonce request)) (after_nonce s) c (nonces s') HI1) as (H1 & H2 & H3).
  { simpl. by rewrite Ed, HV. }
  split; [|done]. intros [Hu|Hu]%HB1; [done|lia].
Qed.

(** C3. No request is acted on twice: in any history that starts with a fresh nonce
    service, two requests that make the front end call the RA carry nonces for different
    counters; a request that is sent again has no effect. *)
Theorem no_request_acts_twice pre r1 mid r2 (s0 : St) :
  nonces s0 = Nonce.NewNonceService ->
  acts (run pre s0) r1 -> acts (run (pre ++ Visit r1 :: mid) s0) r2 ->
  Nonce.decrypt (request_nonce r1) <> Nonce.decrypt (request_nonce r2) /\ req_Body r1 <> req_Body r2.
Proof.
  intros H0 H1 H2.
  assert (Nonce.Inv (nonces (run pre s0))) as HI by (apply run_blocked; rewrite H0; apply Nonce.Inv_new).
  destruct (happen_blocked (Visit r1) _ HI) as [HI1 _].
  destruct (acts_redeems _ _ HI H1) as (c & Hc & _ & Hb).
  unfold run in H2. rewrite fold_left_app in H2. cbn [fold_left] in H2.
  destruct (run_blocked mid _ HI1) as [HI2 HB2]. apply HB2 in Hb.
  destruct (acts_redeems _ _ HI2 H2) as (d & Hd & Hnb & _).
  assert (Nonce.decrypt (request_nonce r1) <> Nonce.decrypt (request_nonce r2)) as Hne.
  { rewrite Hc, Hd. intros [= ->]. done. }
  split; [done|]. intros Eb. apply Hne. unfold request_nonce. by rewrite Eb.
Qed.


(** ** Exactly which requests are accepted *)

(** The key the request is verified with, and the account, if any. *)
Definition selects (regCheck : bool) (sub : JsonWebKey) (w : W) (key : JsonWebKey) (reg : Registration) : Prop :=
  (fst (GetRegistrationByKey _ SA (Some sub) w) = Ok reg /\ reg_Key reg = Some key /\
   (regCheck = true -> flag fs Features.AllowAccountDeactivation = true -> reg_Status reg = StatusValid)) \/
  (regCheck = false /\ key = sub /\ reg = zero_registration /\
   GoodKey.GoodKey (keyPolicy wfe) (Key sub) = Ok tt /\
   exists err, fst (GetRegistrationByKey _ SA (Some sub) w) = Err err /\ no_such_registration err = true).

Lemma select_key_exactly regCheck sub (s : St) key reg :
  (fst (select_key wfe SA regCheck sub s) = Ok (Ok (Some key, reg)) /\
   (regCheck && flag fs Features.AllowAccountDeactivation && negb (String.eqb (reg_Status reg) StatusValid)) = false) <->
  selects regCheck sub (world s) key reg.
Proof.
  unfold select_key, selects, mbindM. generalize (flag fs Features.AllowAccountDeactivation). intros fl. cbn [GetRegistrationByKey WFE.sa]. rewrite lookup_run.
  destruct (fst (GetRegistrationByKey _ SA (Some sub) (world s))) as [reg'|err].
  - cbn. split.
    + intros [[= HK ->] H]. left. split_and!; [done|done|]. intros -> Hf. rewrite Hf in H.
      by destruct (String.eqb_spec (reg_Status reg) StatusValid).
    + intros [([= ->] & -> & Hv)|(_ & _ & _ & _ & ? & [=] & _)]. split; [done|].
      destruct regCheck, fl; try done. by rewrite (Hv eq_refl eq_refl).
  - destruct (no_such_registration err) eqn:En, regCheck; cbn.
    + split; [by intros [[=] _]|by intros [([=] & _)|([=] & _)]].
    + destruct (GoodKey.GoodKey _ _) as [[]|]; cbn.
      * split; [intros [[= -> <-] _]; right; by eauto 10|].
        by intros [([=] & _)|(_ & -> & -> & _)].
      * split; [by intros [[=] _]|by intros [([=] & _)|(_ & _ & _ & [=] & _)]].
    + split; [by intros [[=] _]|by intros [([=] & _)|([=] & _)]].
    + split; [by intros [[=] _]|]. intros [([=] & _)|(_ & _ & _ & _ & e & [= <-] & He)]. congruence.
Qed.

Lemma check_nonce_exactly jws sig payload resource (s : St) : jws_Signatures jws = [sig] ->
  fst (check_nonce_and_resource jws payload resource s) = Ok (Ok tt) <->
  hdr_Nonce (sig_Header sig) <> EmptyString /\
  fst (Nonce.Valid (hdr_Nonce (sig_Header sig)) (nonces s)) = true /\
  unmarshal_resource payload = Ok resource /\ resource <> EmptyString.
Proof.
  intros Hs. unfold check_nonce_and_resource. rewrite Hs. unfold mbindM, valid_nonce, is_empty.
  destruct (String.eqb_spec (hdr_Nonce (sig_Header sig)) EmptyString) as [->|Hn]; [by split; [|intros [[] _]]|].
  destruct (Nonce.Valid _ _) as [[] ns]; cbn; [|split; [done|by intros (_ & [=] & _)]].
  destruct (unmarshal_resource payload) as [parsed|]; [|split; [done|by intros (_ & _ & [=] & _)]].
  destruct (String.eqb_spec parsed EmptyString) as [->|Hp]; [split; [done|by intros (_ & _ & [= <-] & ?)]|].
  destruct (String.eqb_spec resource parsed) as [->|Hr]; cbn; [by split_and!|].
  split; [done|by intros (_ & _ & [= <-] & _)].
Qed.

(** The nonce service is as before when the nonce is checked. *)
Lemma select_key_nonces regCheck sub (s : St) : nonces (snd (select_key wfe SA regCheck sub s)) = nonces s.
Proof.
  destruct (select_key wfe SA regCheck sub s) as [r s'] eqn:E.
  by apply (select_key_spec (world s)) in E as (_ & _ & _ & ? & _); [|apply rtc_refl].
Qed.

Lemma check_nonce_same jws payload resource (s s' : St) : nonces s = nonces s' ->
  fst (check_nonce_and_resource jws payload resource s) = fst (check_nonce_and_resource jws payload resource s').
Proof.
  intros H. unfold check_nonce_and_resource. cbv zeta. destruct (is_empty _); [done|].
  unfold mbindM, valid_nonce. rewrite H. by destruct (Nonce.Valid _ _) as [[] ?].
Qed.

(** C32. [verifyPOST] accepts exactly the requests with a Content-Length and a body that
    is a JWS with one signature, whose header carries a well-formed key; the key belongs
    to an account (in good standing, where the caller asks for that and deactivation is
    enabled) or, where the caller accepts unknown keys, is a good key without account; the
    signature's algorithm is the one for the account's key; it verifies; its nonce is
    accepted; and its payload names the resource. *)
Theorem verifyPOST_accepts_exactly request regCheck resource (s : St) payload key reg :
  fst (verifyPOST fs wfe SA request regCheck resource s) = Ok (Ok (payload, key, reg)) <->
  exists body jws sig sub,
    is_Some (req_Header request !! "Content-Length") /\ req_Body request = Some (Ok body) /\
    ParseSigned body = Ok jws /\ jws_Signatures jws = [sig] /\
    hdr_JsonWebKey (sig_Header sig) = Some sub /\ Valid sub = true /\
    selects regCheck sub (world s) key reg /\ checkAlgorithm key jws = Ok tt /\ jws_Verify jws key = Ok payload /\
    hdr_Nonce (sig_Header sig) <> EmptyString /\
    fst (Nonce.Valid (hdr_Nonce (sig_Header sig)) (nonces s)) = true /\
    unmarshal_resource payload = Ok resource /\ resource <> EmptyString.
Proof.
  unfold verifyPOST. destruct (req_Header request !! _) as [cl|]; [|split; [done|by intros (? & ? & ? & ? & [? [=]] & _)]].
  destruct (req_Body request) as [[body|]|]; try (split; [done|by intros (? & ? & ? & ? & _ & [=] & _)]).
  destruct (extractJWSKey body) as [[sub jws]|] eqn:Ex.
  2:{ split; [done|]. intros (body' & jws & sig & sub & _ & [= <-] & HP & HS & HK & HV & _).
      unfold extractJWSKey in Ex. by rewrite HP, HS, HK, HV in Ex. }
  apply extractJWSKey_Ok in Ex as (HP & sig & HS & HK & HV).
  transitivity (selects regCheck sub (world s) key reg /\ checkAlgorithm key jws = Ok tt /\
    jws_Verify jws key = Ok payload /\ fst (check_nonce_and_resource jws payload resource s) = Ok (Ok tt)).
  2:{ rewrite (check_nonce_exactly _ sig) by done. split.
      - intros (? & ? & ? & ?). exists body, jws, sig, sub. split_and!; (done || tauto || by eexists).
      - intros (body' & jws' & sig' & sub' & _ & [= <-] & HP' & HS' & HK' & _ & ?).
        rewrite HP in HP'. injection HP' as <-. rewrite HS in HS'. injection HS' as <-.
        rewrite HK in HK'. injection HK' as <-. tauto. }
  rewrite <- select_key_exactly. unfold mbindM at 1.
  pose proof (select_key_nonces regCheck sub s) as HN.
  destruct (select_key wfe SA regCheck sub s) as [[[[k r]|prob]|e] s1]; cbn [fst snd] in *;
    [|split; [done|by intros [[[=] _] _]]..].
  destruct (regCheck && _ && _) eqn:Est; [split; [done|by intros [[[= -> ->] ?] _]; congruence]|].
  destruct k as [k|]; [|split; [done|by intros [[[=] _] _]]].
  destruct (checkAlgorithm k jws) as [[]|[]] eqn:Ea; [|split; [done|by intros ([[= -> ->] _] & ? & _); congruence]].
  destruct (jws_Verify jws k) as [p|] eqn:Ev; [|split; [done|by intros ([[= -> ->] _] & _ & ? & _); congruence]].
  pose proof (check_nonce_same jws payload resource s1 s HN) as Hsame. unfold mbindM. rewrite <- Hsame.
  destruct (check_nonce_and_resource jws p resource s1) as [[[[]|]|] s2] eqn:Ec; cbn.
  - split; [intros [= <- <- <-]; by rewrite Ec|intros ([[= -> ->] _] & _ & Hp & _); congruence].
  - split; [done|]. intros ([[= -> ->] _] & _ & Hp & Hfin). rewrite Ev in Hp. injection Hp as ->. by rewrite Ec in Hfin.
  - split; [done|]. intros ([[= -> ->] _] & _ & Hp & Hfin). rewrite Ev in Hp. injection Hp as ->. by rewrite Ec in Hfin.
Qed.


(** ** A key change *)

(** C40. The front end passes a key change on to the RA whatever the quality of the new
    key: authentication, the proof of possession of the new key and the account URL are
    all it takes.  (The RA does not check the key either, [RA.UpdateRegistration].) *)
Theorem KeyRollover_ignores_key_policy request (s s1 : St) payload key reg newKey jws inner claimed :
  verifyPOST fs wfe SA request true "key-change" s = (Ok (Ok (payload, key, reg)), s1) ->
  extractJWSKey payload = Ok (newKey, jws) -> jws_Verify jws newKey = Ok inner ->
  unmarshal_rollover inner = Ok (Some claimed, relativeEndpoint wfe request ("/acme/reg/" ++s itoa (reg_ID reg))) ->
  PublicKeysEqual (Some claimed) (Some (Key newKey)) = Ok true ->
  raCalls (snd (KeyRollover fs wfe RA SA request s)) =
  CallUpdateRegistration reg (set_reg_Key zero_registration (Some newKey)) :: raCalls s.
Proof.
  intros Hv Hx Hj Hu Hk.
  assert (raCalls s1 = raCalls s) as Hs1 by (by apply (verifyPOST_spec (world s)) in Hv as (_ & ? & _); [|apply rtc_refl]).
  unfold KeyRollover, authenticated. rewrite (mbindM_run _ _ _ _ _ Hv). unfold mbindM at 1, get at 1.
  destruct (addRequesterHeader (requester s1) s1) as [x s2] eqn:Er.
  assert (raCalls s2 = raCalls s /\ x = Ok tt) as [Hs2 ->].
  { unfold addRequesterHeader in Er. destruct (0 <? requester s1); injection Er as <- <-; by split. }
  rewrite (mbindM_run _ _ _ _ _ Er), Hx, Hj, Hu, String.eqb_refl. cbn [negb]. rewrite Hk.
  set (c := CallUpdateRegistration reg _). unfold mbindM at 1. cbn [ra_UpdateRegistration WFE.ra].
  unfold try, asking, mbindM at 1, modify at 1, on_world. cbn [world add_call].
  destruct (ra_UpdateRegistration _ RA _ _ _) as [y w2].
  match goal with |- raCalls (snd (?m ?st)) = _ => assert (preserves still m) as Hm by responds; destruct (m st) as [z s3] eqn:E end.
  apply Hm in E as (_ & _ & E & _). cbn [snd]. rewrite E. cbn [raCalls set_world add_call]. by rewrite Hs2.
Qed.

End checks.
End WfeChecks.
