(* ===== verification/WfeExamples.v ===== *)
(** * A sample front end

    Concrete instances of the parameters of the web front end: a JWS is the nonce and the
    payload with a bar between them, signed by the account of [Examples]; a payload is
    the name of its resource.  The theorems with hypotheses are applied to it. *)

From S2P Require Import Prelude GoStd Net Nonce Errors Features Core GoodKey Csr.
From S2P Require Import RegistrationAuthority GrpcStorage GrpcServers Examples WebFrontEnd WfeChecks.

Module WfeExamples.
Import Examples WFE.

(** ** The environment *)

Definition weak_key : JsonWebKey := {| Key := RSAKey 15 3; Algorithm := EmptyString |}.

Definition sample_jws (key : JsonWebKey) (alg nonce payload : string) : JsonWebSignature :=
  {| jws_payload := payload;
     jws_Signatures := [{| sig_Header := {| hdr_JsonWebKey := Some key; hdr_Algorithm := alg; hdr_Nonce := nonce |};
                           sig_Signature := EmptyString |}] |}.

(** A body without a bar is the inner JWS of a key change, signed with the new key. *)
Definition sample_jose : JOSE := {|
  ParseSigned := fun body =>
    match split_on "|" body with
    | [nonce; payload] => Ok (sample_jws account_key "ES256" nonce payload)
    | [payload] => Ok (sample_jws weak_key "RS256" EmptyString payload)
    | _ => Err (PlainError "square/go-jose: invalid input")
    end;
  jws_Verify := fun jws key =>
    if existsb (fun sig => bool_decide (option_map Key (hdr_JsonWebKey (sig_Header sig)) = Some (Key key))) (jws_Signatures jws)
    then Ok (jws_payload jws) else Err (PlainError "square/go-jose: error in cryptographic primitive") |}.

Definition sample_wfe_env : WfeEnv := {|
  marshalIndent := fun _ => Ok "{}";
  unmarshal_resource := fun payload => Ok payload;
  unmarshal_registration := fun _ => Ok sample_registration;
  unmarshal_authorization := fun _ => Ok (request_for "a.com");
  unmarshal_challenge := fun _ => Ok (HTTPChallenge01 sample_token);
  unmarshal_revocation := fun _ => Ok ("certificate", None);
  unmarshal_csr := fun _ => Ok "request";
  unmarshal_status := fun _ => Ok StatusDeactivated;
  unmarshal_rollover := fun _ => Ok (Some (Key weak_key), "http://ca.example/acme/reg/1");
  URL_of := fun scheme host path => scheme ++s "://" ++s host ++s path;
  ParseRequestURI := fun url => Ok {| uri_Scheme := "http"; uri_Rest := url |};
  URI_String := fun uri => uri_Scheme uri ++s ":" ++s uri_Rest uri;
  Redirect_to := fun _ url => (url, EmptyString);
  BuildID_text := "id"; BuildTime_text := "time" |}.

Definition sample_csr_parser : CSRParser := {|
  ParseCertificateRequest := fun raw =>
    if String.eqb raw "request" then Ok Csr.toy_csr else Err (PlainError "asn1: syntax error") |}.

Definition sample_wfe : WebFrontEndImpl :=
  {| BaseURL := "http://ca.example"; IssuerCert := "issuer"; SubscriberAgreementURL := "http://ca.example/terms";
     keyPolicy := GoodKey.NewKeyPolicy; AllowOrigins := ["*"]; AcceptRevocationReason := true;
     AllowAuthzDeactivation := true |}.

(** Servers without state: one account, and an RA that is out of order. *)
Definition account : Registration :=
  {| reg_ID := 1; reg_Key := Some account_key; reg_Contact := None; reg_Agreement := "http://ca.example/terms";
     reg_InitialIP := None; reg_CreatedAt := zeroTime; reg_Status := StatusValid |}.
Definition unavailable {A} : M unit error A := fail (PlainError "unavailable").
Definition sample_lookups : StorageLookups unit := {|
  GetRegistration := fun _ => ret account; GetRegistrationByKey := fun _ => ret account;
  GetAuthorization := fun _ => unavailable; GetValidAuthorizations := fun _ _ _ => unavailable;
  GetCertificate := fun _ => unavailable; GetCertificateStatus := fun _ => unavailable |}.
Definition sample_ra : RegistrationAuthority unit := {|
  ra_NewRegistration := fun _ => unavailable; ra_NewAuthorization := fun _ _ => unavailable;
  ra_NewCertificate := fun _ _ => unavailable; ra_UpdateRegistration := fun _ _ => unavailable;
  ra_UpdateAuthorization := fun _ _ _ => unavailable; ra_RevokeCertificateWithReg := fun _ _ _ => unavailable;
  ra_DeactivateRegistration := fun _ => unavailable; ra_DeactivateAuthorization := fun _ => unavailable;
  ra_AdministrativelyRevokeCertificate := fun _ _ _ => unavailable |}.

#[local] Existing Instances sample_golib sample_crypto sample_elliptic sample_x509 sample_csr_parser Nonce.toy_aead
  sample_jose sample_wfe_env.

Definition start : State unit :=
  {| world := tt; nonces := Nonce.NewNonceService; rand := fun _ => Some Nonce.toy_rnd; drawn := 0;
     clock := fun _ => noon; reads := 0; raCalls := []; requester := 0; response := no_response |}.

(** The first two nonces the service hands out. *)
Definition nonce_of (c : Z) : string :=
  match Nonce.encrypt (Some Nonce.toy_rnd) c with Ok n => n | Err _ => EmptyString end.
Definition sample_get (path : string) : Request :=
  {| req_Method := "GET"; req_Path := path; req_Header := ∅; req_Body := None; req_TLS := false;
     req_Host := "ca.example"; req_RemoteAddr := "198.51.100.7:40000" |}.
Definition sample_post (path nonce payload : string) : Request :=
  {| req_Method := "POST"; req_Path := path; req_Header := {["Content-Length" := ["1"]]};
     req_Body := Some (Ok (nonce ++s "|" ++s payload)); req_TLS := false;
     req_Host := "ca.example"; req_RemoteAddr := "198.51.100.7:40000" |}.

Definition ask_certificate : Request := sample_post "/acme/new-cert" (nonce_of 1) "new-cert".
Definition ask_authorization : Request := sample_post "/acme/new-authz" (nonce_of 2) "new-authz".

Notation sample_run := (WfeChecks.run features_on sample_wfe sample_ra sample_lookups).
Notation directory := (WfeChecks.Visit (W := unit) (sample_get "/directory")).

(** ** The theorems applied *)

Definition prepared : State unit := Eval vm_compute in sample_run [directory; directory] start.

Lemma calls_are_authenticated_witness :
  exists c, raCalls (snd (serve features_on sample_wfe sample_ra sample_lookups ask_certificate prepared)) = [c] /\
    WfeChecks.justified features_on sample_wfe sample_lookups ask_certificate tt (fun _ => noon) c.
Proof.
  destruct (WfeChecks.calls_are_authenticated features_on sample_wfe sample_ra sample_lookups ask_certificate prepared
    (fst (serve features_on sample_wfe sample_ra sample_lookups ask_certificate prepared))
    (snd (serve features_on sample_wfe sample_ra sample_lookups ask_certificate prepared)))
    as [H|(c & H & HJ & _)].
  - apply surjective_pairing.
  - vm_compute in H. discriminate H.
  - exists c. split; [exact H|exact HJ].
Defined.

Lemma no_request_acts_twice_witness :
  Nonce.decrypt (WfeChecks.request_nonce ask_certificate) <> Nonce.decrypt (WfeChecks.request_nonce ask_authorization) /\
  req_Body ask_certificate <> req_Body ask_authorization.
Proof.
  apply (WfeChecks.no_request_acts_twice features_on sample_wfe sample_ra sample_lookups
    [directory; directory] ask_certificate [WfeChecks.Elsewhere id] ask_authorization start).
  - reflexivity.
  - vm_compute. discriminate.
  - vm_compute. discriminate.
Defined.

Definition change_key : Request := sample_post "/acme/key-change" (nonce_of 1) "key-change".

Lemma KeyRollover_ignores_key_policy_witness :
  GoodKey.GoodKey (keyPolicy sample_wfe) (Key weak_key) <> Ok tt /\
  raCalls (snd (KeyRollover features_on sample_wfe sample_ra sample_lookups change_key prepared)) =
  [CallUpdateRegistration account (set_reg_Key zero_registration (Some weak_key))].
Proof.
  split; [vm_compute; discriminate|].
  eapply (WfeChecks.KeyRollover_ignores_key_policy features_on sample_wfe sample_ra sample_lookups change_key prepared).
  - vm_compute. reflexivity.
  - vm_compute. reflexivity.
  - vm_compute. reflexivity.
  - vm_compute. reflexivity.
  - vm_compute. reflexivity.
Defined.

End WfeExamples.
