(* ===== verification/SystemExamples.v ===== *)
(** * A sample run of the deployment

    Concrete instances of the parameters of the VA, the CA and the gRPC layer, and the
    history of [Examples] once more with every server in its own process: the VA
    validates the two names against a sample Internet, the CA signs and stores the
    certificate.  The theorems on these components are applied to it. *)

From S2P Require Import Prelude GoStd Net Errors Features Core GoodKey PublicSuffix Policy RateLimit Csr Bdns Cdr Grpc.
From S2P Require Import Database Storage SaFrame SaInvariants SaQueries ValidationAuthority VaChecks.
From S2P Require Import RegistrationAuthority RaChecks GrpcStorage RaIssuance GrpcRefinement RaStorage RaValidation.
From S2P Require Import CertificateAuthority CaIssuance GrpcServers System Examples.

Module SystemExamples.
Import Examples.

(** ** The environment *)

(** A codec for [[][]int]: the digits of the number stdpp assigns to it. *)
Fixpoint digits (p : positive) : string :=
  match p with
  | xH => "."
  | xO p => String "0" (digits p)
  | xI p => String "1" (digits p)
  end.
Fixpoint undigits (s : string) : option positive :=
  match s with
  | String c EmptyString => if Ascii.eqb c "." then Some 1%positive else None
  | String c s =>
      match undigits s with
      | Some p => Some (if Ascii.eqb c "0" then xO p else xI p)
      | None => None
      end
  | EmptyString => None
  end.

Lemma undigits_digits p : undigits (digits p) = Some p.
Proof.
  induction p as [p IH|p IH|]; [| |done].
  - change (undigits (String "1" (digits p)) = Some p~1%positive). destruct (digits p) eqn:E; [done|].
    change (match undigits (String a s) with Some q => Some (xI q) | None => None end = Some p~1%positive). by rewrite IH.
  - change (undigits (String "0" (digits p)) = Some p~0%positive). destruct (digits p) eqn:E; [done|].
    change (match undigits (String a s) with Some q => Some (xO q) | None => None end = Some p~0%positive). by rewrite IH.
Qed.

#[local] Instance JsonWebKey_eq_dec : EqDecision JsonWebKey.
Proof. solve_decision. Defined.

Definition sample_pbjson : PbJSON := {|
  jwk_MarshalJSON := fun k => if bool_decide (k = account_key) then Ok "jwk" else Err (PlainError "unknown key");
  jwk_UnmarshalJSON := fun _ => Ok account_key;
  marshal_combinations := fun c => digits (encode c);
  unmarshal_combinations := fun s =>
    match undigits s ≫= decode with Some c => Ok c | None => Err (PlainError "invalid character") end |}.

#[local] Instance sample_pbjson_laws : PbJSONLaws sample_pbjson.
Proof.
  split.
  - intros k s. simpl. case_bool_decide; [by intros [= <-]; subst|done].
  - intros c. simpl. rewrite undigits_digits. simpl. by rewrite decode_encode.
Qed.

Definition sample_parser : CSRParser := {|
  ParseCertificateRequest := fun raw =>
    if String.eqb raw "request" then Ok Csr.toy_csr else Err (PlainError "asn1: syntax error") |}.

Definition web_address : string := "0123".
Definition key_authorization : string := sample_token ++s "." ++s b64_encode false (repeat_char "t" 32).
Definition sample_dns : DNSResolver := {|
  res_LookupTXT := fun _ _ => Ok ([], []);
  res_LookupHost := fun _ _ => Ok [web_address];
  res_LookupCAA := fun _ _ => Ok [] |}.
Definition sample_internet : Internet := {|
  http_Do := fun _ _ _ => HttpResponse 200 (Ok key_authorization);
  tls_Dial := fun _ _ => Err (ConnOther "refused");
  URL_String := fun scheme host path => scheme ++s "://" ++s host ++s "/" ++s path;
  request_ok := fun _ => true |}.
Definition sample_va : VA.ValidationAuthorityImpl :=
  {| VA.issuerDomain := "ca.example"; VA.httpPort := 80; VA.httpsPort := 443; VA.tlsPort := 443; VA.caaDR := None |}.

Definition sample_issuer : IssuerCert :=
  {| ic_CommonName := "Test CA"; ic_NotAfter := noon + 3650 * 24 * Hour; ic_Raw := "issuer" |}.
Definition sample_signers : Signers := {|
  pem_Encode := fun _ der => der;
  pem_Decode := fun pem => Some ("CERTIFICATE", pem);
  ee_Sign := fun _ _ _ => Ok "certificate";
  ocsp_Sign := fun _ _ _ => Ok "response";
  cert_IssuerCN := fun _ => "Test CA";
  CheckSignatureFrom := fun _ _ => Ok tt |}.
Definition sample_ca_impl : CA.CertificateAuthorityImpl :=
  {| CA.rsaProfile := "rsaEE"; CA.ecdsaProfile := "ecdsaEE"; CA.issuers := {["Test CA" := sample_issuer]};
     CA.defaultIssuer := sample_issuer; CA.keyPolicy := GoodKey.NewKeyPolicy; CA.prefix := 1;
     CA.validityPeriod := 90 * 24 * Hour; CA.maxNames := 100; CA.forceCNFromSAN := true;
     CA.enableMustStaple := true; CA.hasPublisher := true |}.
Definition ca_start : CA.CAState :=
  {| CA.ca_now := noon; CA.ca_ticks := []; CA.ca_rand := fun _ => Ok (fun _ => "r"%char); CA.ca_draws := 0;
     CA.ca_calls := 0; CA.ca_signed := []; CA.ca_orphans := []; CA.ca_ctJobs := [] |}.

(** The records of a validation, as they come out of a JSON column. *)
Definition stored_records : list ValidationRecord :=
  [{| vr_Authorities := []; vr_URL := "http://a.com/"; vr_Hostname := "a.com"; vr_Port := "80";
      vr_AddressesResolved := [web_address]; vr_AddressUsed := Some (Net.To16 web_address) |}].
Definition column_json : StorageJSON := {|
  marshal_identifier := marshal_identifier (StorageJSON := sample_json);
  marshal_jwk := fun _ => "jwk"; unmarshal_jwk := fun _ => Ok account_key;
  marshal_problem := fun _ => "problem"; unmarshal_problem := fun _ => Ok (Probs.Malformed "problem");
  marshal_records := fun _ => "records"; unmarshal_records := fun _ => Ok stored_records |}.

#[local] Existing Instances sample_golib sample_crypto sample_elliptic sample_policy_env sample_sql sample_sql_laws
  column_json sample_x509 sample_pa sample_policy sample_env Bcodes.toy_pdjson sample_pbjson sample_parser sample_signers.

#[local] Instance sys_storage : StorageAuthority Database.World := System.grpc_storage features_on 1.
#[local] Instance sys_certificates : CertificateStorage Database.World := System.grpc_certificates features_on 1.
#[local] Instance sys_ca : CertificateAuthority (Database.World * CA.CAState) := System.grpc_ca features_on 1 sample_ca_impl.

(** ** The history *)

Definition sys_start : RA.World (Database.World * CA.CAState) :=
  {| RA.sa := (empty_storage, ca_start); RA.rlPolicies := RateLimit.New; RA.totalIssuedCount := 0;
     RA.totalIssuedLastUpdate := zeroTime; RA.ra_now := noon; RA.ra_ticks := [1; 1; 1]; RA.draws := 0;
     RA.vaJobs := []; RA.ctJobs := []; RA.audit := []; RA.caRequests := [] |}.
Definition sys_run := RaIssuance.run (S := Database.World * CA.CAState) features_on sample_config.
Definition sys_read (id : string) (w : RA.World (Database.World * CA.CAState)) : Authorization :=
  match fst (sa_GetAuthorization id (RA.sa w)) with Ok a => a | Err _ => request_for "x.com" end.

Definition sys_a : Authorization := Eval vm_compute in sys_read "id0" (sys_run ops1 sys_start).
Definition sys_b : Authorization := Eval vm_compute in sys_read "id1" (sys_run ops1 sys_start).
(** What the RA receives from the gRPC client of the VA. *)
Definition received_records (name : string) (ch : Challenge) (a : Authorization) : list ValidationRecord :=
  fst (fst (VaWrappers.remote_validation (VaWrappers.va_impl (R := sample_dns) (I := sample_internet) sample_va) name ch a tt)).
Definition records_a : list ValidationRecord := Eval vm_compute in received_records "a.com" response sys_a.
Definition records_b : list ValidationRecord := Eval vm_compute in received_records "b.com" response sys_b.

Definition sys_ops : list RaIssuance.op :=
  ops1 ++ [RaIssuance.OpUpdateAuthorization sys_a 0 response; RaIssuance.OpUpdateAuthorization sys_b 0 response;
           RaIssuance.OpValidated 1 records_b None; RaIssuance.OpValidated 0 records_a None;
           RaIssuance.OpNewCertificate Csr.toy_csr 1].

(** ** The theorems applied *)

Lemma sys_parsed : Forall System.parsed_request sys_ops.
Proof. repeat constructor. Qed.

Lemma sys_from_storage : RaIssuance.from_storage features_on sample_config sys_ops sys_start.
Proof.
  intros pre base i resp post E. unfold sys_ops, ops1 in E. simpl in E.
  do 3 (destruct pre as [|? pre]; [discriminate E|injection E as <- E]).
  destruct pre as [|? pre]; [|injection E as <- E; destruct pre as [|? pre]].
  - injection E as <- <- <- <-. exists ops1, [], "id0"%string. eexists. split; [reflexivity|]. vm_compute. reflexivity.
  - injection E as <- <- <- <-. exists ops1. eexists _, "id1"%string, _. split; [reflexivity|]. vm_compute. reflexivity.
  - do 3 (injection E as <- E; destruct pre as [|? pre]; [discriminate E|]). injection E as <- E. destruct pre; discriminate E.
Qed.

(** DNS and the Internet do not change. *)
Definition sample_env_at (step : nat) : DNSResolver * Internet := (sample_dns, sample_internet).

Lemma sys_validated :
  System.validated_over_grpc features_on 1 sample_config sample_va sample_ca_impl sample_env_at sys_ops sys_start.
Proof.
  intros pre j records post authz i ch E Hj Hch. exists (VaWrappers.ProblemPointer None).
  do 5 (destruct pre as [|? pre]; [discriminate E|injection E as <- E]).
  destruct pre as [|? pre]; [|injection E as <- E; destruct pre as [|? pre]].
  - injection E as <- <- <-. vm_compute in Hj. injection Hj as <- <-. vm_compute in Hch. injection Hch as <-.
    split; vm_compute; reflexivity.
  - injection E as <- <- <-. vm_compute in Hj. injection Hj as <- <-. vm_compute in Hch. injection Hch as <-.
    split; vm_compute; reflexivity.
  - injection E as <- E. destruct pre as [|? pre]; [discriminate E|]. injection E as <- E. destruct pre; discriminate E.
Qed.

Lemma every_signature_rests_on_proofs_of_control_witness :
  exists pre n, (n = "a.com" \/ n = ToLower "a.com") /\
    RaValidation.proved_control features_on sample_config sample_va sample_env_at pre sys_start 1 n.
Proof.
  destruct (System.every_signature_rests_on_proofs_of_control features_on 1 sample_config sample_va sample_ca_impl sample_env_at
    sys_ops sys_start (fst (nth 0 (CA.ca_signed (snd (RA.sa (sys_run sys_ops sys_start)))) (CA.sign_request sample_ca_impl Csr.toy_csr EmptyString 0 [], 0)))
    1) as (pre & creq & post & now & _ & _ & _ & H).
  - exact empty_ok.
  - reflexivity.
  - reflexivity.
  - reflexivity.
  - repeat constructor; discriminate.
  - exact sys_from_storage.
  - exact sys_parsed.
  - exact sys_validated.
  - vm_compute. left.
  - destruct (H "a.com"%string ltac:(vm_compute; left)) as (n & Hn & _ & [(k & a & e & Hk & _)|HP]); [discriminate Hk|].
    exists pre, n. split; [exact Hn|exact HP].
Defined.

(** *** The VA *)

Definition completed : Challenge := RA.set_ProvidedKeyAuthorization (HTTPChallenge01 sample_token) key_authorization.

Lemma PerformValidation_sound_witness :
  exists records, VA.PerformValidation (R := sample_dns) (I := sample_internet) sample_va "a.com" completed = (records, None) /\
    VaChecks.evidence (R := sample_dns) (I := sample_internet) sample_va "a.com" completed records.
Proof.
  eexists. split; [vm_compute; reflexivity|].
  eapply (VaChecks.PerformValidation_sound (R := sample_dns) (I := sample_internet) sample_va "a.com" completed).
  vm_compute. reflexivity.
Defined.

(** A zone that allows only another CA, and a distributed resolver that sees nothing. *)
Definition other_ca : CAA := {| caa_Name := "a.com"; caa_Ttl := 60; caa_Flag := 0; caa_Tag := "issue"; caa_Value := "other.example" |}.
Definition refusing_dns : DNSResolver := {|
  res_LookupTXT := fun _ _ => Ok ([], []); res_LookupHost := fun _ _ => Ok [web_address];
  res_LookupCAA := fun _ _ => Ok [other_ca] |}.
Definition distributed_va : VA.ValidationAuthorityImpl :=
  {| VA.issuerDomain := "ca.example"; VA.httpPort := 80; VA.httpsPort := 443; VA.tlsPort := 443;
     VA.caaDR := Some (fun _ _ => Ok []) |}.

Lemma local_refusal_is_overridden_witness :
  VA.checkCAAInternal (R := refusing_dns) distributed_va {| idType := "dns"; idValue := "a.com" |} <> None /\
  VA.checkCAA (R := refusing_dns) distributed_va {| idType := "dns"; idValue := "a.com" |} = None.
Proof.
  apply (VaChecks.local_refusal_is_overridden (R := refusing_dns) distributed_va
    {| idType := "dns"; idValue := "a.com" |} (fun _ _ => Ok []) [other_ca]).
  - reflexivity.
  - discriminate.
  - intros [_ [H|(caa & H & Hv)]].
    + apply (H other_ca); [left|reflexivity].
    + apply list_elem_of_singleton in H as ->. destruct Hv as [_ Hv]. vm_compute in Hv. discriminate Hv.
  - reflexivity.
  - reflexivity.
Defined.

(** An Internet with a server of the applicant's at a private address. *)
Definition hostile_internet : Internet := {|
  http_Do := fun n url d =>
    if String.eqb d "10.0.0.1:80" then HttpResponse 200 (Ok "secret") else http_Do (Internet := sample_internet) n url d;
  tls_Dial := tls_Dial (Internet := sample_internet); URL_String := URL_String (Internet := sample_internet);
  request_ok := fun _ => true |}.

Lemma private_server addr port : len addr = 4 \/ len addr = 16 ->
  ~ VaChecks.reserved addr -> Net.JoinHostPort (Net.IP_String addr) port <> "10.0.0.1:80".
Proof.
  intros Hl Hp H. unfold Net.JoinHostPort in H. destruct (_ || _) eqn:E; [discriminate H|].
  apply orb_false_iff in E as [E _]. apply (f_equal (split_on ":")) in H.
  change (Net.IP_String addr ++s ":" ++s port) with (Net.IP_String addr ++s String ":" port) in H.
  rewrite split_on_app in H by exact E. change (split_on ":" "10.0.0.1:80") with ["10.0.0.1"; "80"] in H.
  injection H as H _.
  pose proof (Net.ParseIP_String addr Hl) as HP. rewrite H in HP.
  assert (Net.To4 addr = Some (Net.bytes_of [10; 0; 0; 1])) as H4.
  { change (Net.ParseIP "10.0.0.1") with (Some (Net.v4InV6Prefix ++s Net.bytes_of [10; 0; 0; 1])) in HP.
    apply (inj Some) in HP. unfold Net.To16 in HP. destruct Hl as [Hl|Hl]; rewrite Hl in HP; simpl in HP.
    - injection HP as <-. reflexivity.
    - rewrite <- HP. reflexivity. }
  apply Hp. unfold VaChecks.reserved. rewrite H4. left. reflexivity.
Qed.

Lemma validation_ignores_reserved_servers_witness :
  VA.PerformValidation (R := VA.bdns_resolver (EX := Bdns.sample_exchanger) Bdns.sample_resolver) (I := sample_internet)
    sample_va "a.com" completed =
  VA.PerformValidation (R := VA.bdns_resolver (EX := Bdns.sample_exchanger) Bdns.sample_resolver) (I := hostile_internet)
    sample_va "a.com" completed.
Proof.
  apply (VaChecks.validation_ignores_reserved_servers (EX := Bdns.sample_exchanger) Bdns.sample_resolver sample_va).
  - reflexivity.
  - split_and!; try reflexivity. intros n url d (addr & port & Hl & Hp & ->). cbn [http_Do hostile_internet].
    destruct (String.eqb_spec (Net.JoinHostPort (Net.IP_String addr) port) "10.0.0.1:80") as [E|_]; [|reflexivity].
    destruct (private_server addr port Hl Hp E).
Defined.

(** *** The CA *)

Definition asked := CA.IssueCertificate (S := Database.World) features_on sample_ca_impl Csr.toy_csr 1 (offered, ca_start).
Definition asked_req : SignRequest := CA.sign_request sample_ca_impl (Csr.normalizeCSR Csr.toy_csr true) "ecdsaEE"
  (CA.serial_number sample_ca_impl (fun _ => "r"%char)) [].

Lemma serial_number_spec_witness :
  CA.serial_number sample_ca_impl (fun _ => "r"%char) = 2 ^ 136 + CaIssuance.random_value 17 (fun _ => "r"%char) /\
  len (SerialToString (CA.serial_number sample_ca_impl (fun _ => "r"%char))) = 36.
Proof.
  destruct (CaIssuance.serial_number_spec sample_ca_impl (fun _ => "r"%char) (fun _ => "s"%char)) as (H1 & _ & H2 & _).
  - split; reflexivity.
  - split; [exact H1|exact H2].
Defined.

Lemma IssueCertificate_signs_what_was_checked_witness :
  exists req, CA.ca_signed (snd (snd asked)) = [(req, 1)] /\ sr_Hosts req = ["a.com"; "b.com"].
Proof.
  destruct (CaIssuance.IssueCertificate_signs_what_was_checked features_on sample_ca_impl Csr.toy_csr 1 offered ca_start
    (fst asked) (fst (snd asked)) (snd (snd asked))) as [[_ H]|(csr' & req & random & HV & HS & _ & HH & _)].
  - unfold asked. destruct (CA.IssueCertificate _ _ _ _ _) as [? [? ?]]. reflexivity.
  - vm_compute in H. discriminate H.
  - exists req. split; [exact HS|]. rewrite HH. vm_compute in HV. injection HV as <-. reflexivity.
Defined.

Lemma signed_certificates_are_accounted_for_witness :
  exists n, match ee_Sign n sample_issuer asked_req with
            | Ok pem => if len pem =? 0 then is_ok (fst asked) = false /\ fst (snd asked) = offered
                        else CaIssuance.accounted pem (SerialToString (sr_Serial asked_req)) 1 offered ca_start
                               (fst asked) (fst (snd asked)) (snd (snd asked))
            | Err _ => is_ok (fst asked) = false /\ fst (snd asked) = offered
            end.
Proof.
  apply (CaIssuance.signed_certificates_are_accounted_for features_on sample_ca_impl Csr.toy_csr 1 offered ca_start
    (fst asked) (fst (snd asked)) (snd (snd asked)) asked_req).
  - unfold asked. destruct (CA.IssueCertificate _ _ _ _ _) as [? [? ?]]. reflexivity.
  - vm_compute. reflexivity.
Defined.

Definition ocsp_request : OCSPSigningRequest :=
  {| os_CertDER := "certificate"; os_Status := "good"; os_Reason := 0; os_RevokedAt := zeroTime |}.

Lemma GenerateOCSP_only_for_own_certificates_witness :
  exists issuer n, CA.issuers sample_ca_impl !! "Test CA" = Some issuer /\
    ocsp_Sign n issuer ocsp_request = Ok "response".
Proof.
  destruct (CaIssuance.GenerateOCSP_only_for_own_certificates sample_ca_impl ocsp_request offered ca_start "response"
    offered (CA.called ca_start)) as (issuer & n & _ & HI & _ & HS).
  - vm_compute. reflexivity.
  - exists issuer, n. split; [exact HI|exact HS].
Defined.

Definition sample_ca_config : CA.CAConfig :=
  {| CA.cc_SerialPrefix := 1; CA.cc_CFSSL := Ok tt; CA.cc_LifespanOCSP := Hour; CA.cc_RSAProfile := "rsaEE";
     CA.cc_ECDSAProfile := "ecdsaEE"; CA.cc_DoNotForceCN := false; CA.cc_EnableMustStaple := true;
     CA.cc_Expiry := "2160h"; CA.cc_ParsedExpiry := Ok (90 * 24 * Hour); CA.cc_MaxNames := 100 |}.
Definition sample_issuers : list CA.Issuer :=
  [{| CA.iss_Signer := true; CA.iss_Cert := Some sample_issuer; CA.iss_eeSigner := Ok tt; CA.iss_ocspSigner := Ok tt |}].

Lemma NewCertificateAuthorityImpl_wf_witness :
  CA.NewCertificateAuthorityImpl sample_ca_config sample_issuers GoodKey.NewKeyPolicy true = Ok sample_ca_impl /\
  0 < CA.prefix sample_ca_impl < 256.
Proof.
  split; [vm_compute; reflexivity|].
  apply (CaIssuance.NewCertificateAuthorityImpl_wf sample_ca_config sample_issuers GoodKey.NewKeyPolicy true sample_ca_impl).
  vm_compute. reflexivity.
Defined.

(** *** The gRPC layer *)

Lemma authz_roundtrip_witness :
  (let? pb := Grpc.authzToPB sys_a in
   if Grpc.authorizationValid pb then Grpc.pbToAuthz pb else Err Grpc.errIncompleteRequest) = Ok sys_a.
Proof. exact (Grpc.authz_roundtrip sys_a). Defined.

Lemma registration_roundtrip_witness :
  (let? pb := Grpc.registrationToPB sample_registration in
   if Grpc.registrationValid pb then Grpc.pbToRegistration pb else Err Grpc.errIncompleteRequest) =
  Ok (Grpc.wire_registration sample_registration).
Proof. exact (Grpc.registration_roundtrip sample_registration). Defined.

Lemma wire_authz_id_witness : Grpc.wire_authz sys_a = sys_a.
Proof.
  apply (Grpc.wire_authz_id sys_a); [reflexivity|]. split_and!; [reflexivity| |].
  - eexists. split; [reflexivity|]. unfold int64_ok. lia.
  - repeat (constructor; try discriminate).
Defined.

Lemma remote_lookups_refine_witness :
  GrpcStorage.GetAuthorization _ (SaWrappers.remote_lookups (System.local_lookups features_on)) "id0" offered =
  GrpcStorage.GetAuthorization _ (wire_lookups (System.local_lookups features_on)) "id0" offered.
Proof.
  destruct (remote_lookups_refine (System.local_lookups features_on)) as (_ & _ & H & _). exact (H "id0" offered).
Defined.

Lemma remote_counts_refine_witness :
  GrpcStorage.FQDNSetExists _ (SaWrappers.remote_counts System.local_counts) ["a.com"] offered =
  GrpcStorage.FQDNSetExists _ (wire_counts System.local_counts) ["a.com"] offered.
Proof.
  destruct (remote_counts_refine System.local_counts) as (_ & _ & _ & _ & _ & _ & _ & H). exact (H ["a.com"] offered).
Defined.

Lemma remote_updates_refine_witness :
  GrpcStorage.FinalizeAuthorization _ (SaWrappers.remote_updates (System.local_updates features_on 1)) sys_a offered =
  GrpcStorage.FinalizeAuthorization _ (wire_updates (System.local_updates features_on 1)) sys_a offered.
Proof.
  destruct (remote_updates_refine (System.local_updates features_on 1)) as (_ & _ & _ & _ & H & _).
  exact (H sys_a offered).
Defined.

Definition sys_ra := System.local_ra features_on 1 sample_config sample_ca_impl.
Lemma remote_ra_refines_witness :
  ra_NewRegistration _ (RaWrappers.remote_ra sys_ra) sample_registration sys_start =
  ra_NewRegistration _ (GrpcServers.wire_ra sys_ra) sample_registration sys_start.
Proof. destruct (GrpcServers.remote_ra_refines sys_ra) as (H & _). exact (H sample_registration sys_start). Defined.

Lemma remote_ca_issues_the_same_witness :
  CaWrappers.remote_issue (CA.IssueCertificate (S := Database.World) features_on sample_ca_impl)
    (Csr.normalizeCSR Csr.toy_csr true) 1 (offered, ca_start) =
  carry (let! cert := CA.IssueCertificate features_on sample_ca_impl (Csr.normalizeCSR Csr.toy_csr true) 1 in
         ret (Grpc.wire_cert cert)) (offered, ca_start).
Proof.
  apply (GrpcServers.remote_ca_issues_the_same features_on sample_ca_impl Csr.toy_csr).
  - reflexivity.
  - reflexivity.
  - repeat (constructor; try discriminate).
  - reflexivity.
Defined.

Lemma remote_success_is_a_non_nil_error_witness :
  snd (fst (VaWrappers.remote_validation (VaWrappers.va_impl (R := sample_dns) (I := sample_internet) sample_va)
    "a.com" completed sys_a tt)) = VaWrappers.ProblemPointer None.
Proof.
  destruct (GrpcServers.remote_success_is_a_non_nil_error
    (VaWrappers.va_impl (R := sample_dns) (I := sample_internet) sample_va) "a.com" completed sys_a tt
    (fst (VA.PerformValidation (R := sample_dns) (I := sample_internet) sample_va "a.com" completed))) as (H & _).
  - reflexivity.
  - vm_compute. reflexivity.
  - vm_compute. reflexivity.
  - rewrite H. reflexivity.
Defined.

End SystemExamples.
