(* ===== verification/OcspExamples.v ===== *)
(** * A sample OCSP updater

    A certificate is stored, gets its first OCSP response, is revoked while its response is
    being renewed, and gets a new response.  The theorems on the updater and the publisher
    are applied to this history. *)

From S2P Require Import Prelude GoStd Errors Features Core Csr Database Storage SaFrame SaInvariants.
From S2P Require Import Grpc GrpcStorage CertificateAuthority Backoff OcspUpdater OcspChecks OcspRenewal CtPublisher OcspSystem.
From S2P Require Import Examples SystemExamples.

Module OcspExamples.
Import Examples SystemExamples SaInvariants Backoff Ocsp OcspChecks.

(** ** The environment *)

(** A response is the status and the certificate. *)
Definition ocsp_signers : Signers := {|
  pem_Encode := fun _ der => der;
  pem_Decode := fun pem => Some ("CERTIFICATE", pem);
  ee_Sign := fun _ _ _ => Ok "certificate";
  ocsp_Sign := fun _ _ req => Ok (os_Status req ++s ":" ++s os_CertDER req);
  cert_IssuerCN := fun _ => "Test CA";
  CheckSignatureFrom := fun _ _ => Ok tt |}.
Definition says (response der status : string) : Prop := response = status ++s ":" ++s der.

Definition sample_ocsp_env : OcspEnv := {|
  md5 := fun _ => "0123456789abcdef";
  ocsp_CreateRequest := fun _ _ => Ok "request";
  cert_OCSPServer := fun _ => ["http://ocsp.example"];
  cert_SubjectKeyId := fun _ => "key";
  core_LoadCert := fun _ => Ok "issuer";
  cmd_LoadCert := fun _ => Ok "issuer" |}.

(** Logs whose receipts are signed with their keys. *)
Definition sample_sct : LogSCT :=
  {| ls_SCTVersion := 0; ls_LogID := "log"; ls_Timestamp := noon; ls_Extensions := EmptyString; ls_Signature := "signature" |}.
Definition sample_ct : CTLib := {|
  url_Parse := fun _ => Ok {| url_Before := "https://"; url_Host := "ct.example"; url_Path := "/log/"; url_After := EmptyString |};
  ctClient_New := fun _ _ => Ok tt;
  ParsePKIXPublicKey := fun _ => Ok (ECDSAKey P256 0 22);
  NewSignatureVerifier := fun _ => Ok tt;
  AddChain := fun _ _ _ _ => Ok sample_sct;
  VerifySCTSignature := fun _ sct _ => if String.eqb (ls_Signature sct) "signature" then Ok tt else Err (PlainError "bad signature");
  MarshalDigitallySigned := fun s => Ok s |}.

#[local] Existing Instances sample_golib sample_crypto sample_sql sample_sql_laws sample_json sample_x509 Bcodes.toy_pdjson
  sample_pbjson sample_pbjson_laws ocsp_signers sample_ocsp_env sample_ct.

Lemma signers_attest : OcspSystem.signer_attests says.
Proof. intros n issuer req response [= <-]. done. Qed.

Definition sample_publisher : CtPublisher.Impl * CtPublisher.PubState := CtPublisher.New ["issuer"] [] 0.
Definition sample_updater : OCSPUpdater :=
  {| ocspMinTimeToExpiry := 30 * Minute; ocspStaleMaxAge := 720 * Hour; oldestIssuedSCT := 24 * Hour;
     parallelGenerateOCSPRequests := 2; logs := []; loops := []; ccu := false; issuer := None |}.
Definition loop_of (f : tick_func) : looper :=
  {| l_batchSize := 10; l_tickDur := Hour; l_tickFunc := f; l_name := "loop"; l_failureBackoffFactor := f_tenths 13;
     l_failureBackoffMax := Hour; l_failures := 0 |}.
Definition sample_state : State (CA.CAState * CtPublisher.PubState) :=
  {| st_world := empty_storage; st_peers := (ca_start, snd sample_publisher); st_purges := []; st_others := [];
     st_turns := []; st_rand := [] |}.

(** The certificate is revoked before the third database call of its second renewal. *)
Definition revocation : list (Features.state * sa_op) := [(features_on, OpMarkCertificateRevoked (SerialToString 255) 1)].
Definition sample_events : list event :=
  [Between [(features_on, OpNewRegistration sample_registration); (features_on, OpAddCertificate "certificate" 1 EmptyString)];
   Tick features_on 10 (loop_of NewCertificateTick) [] [1%nat] [];
   Tick features_on 10 (loop_of OldOCSPResponsesTick) [[]; []; revocation] [] [];
   Tick features_on 10 (loop_of RevokedCertificatesTick) [] [] []].

Definition sample_history : State (CA.CAState * CtPublisher.PubState) :=
  history (OcspSystem.deployed_ca sample_ca_impl) (OcspSystem.deployed_sa features_on)
    (OcspSystem.deployed_publisher features_on 1 (fst sample_publisher)) sample_updater sample_events sample_state.

Lemma deployed_responses_are_truthful_witness :
  exists cert row status, certificates (db (st_world sample_history)) !! SerialToString 255 = Some cert /\
    certificateStatus (db (st_world sample_history)) !! SerialToString 255 = Some row /\
    says "revoked:certificate" (cert_DER cert) status.
Proof.
  destruct (OcspSystem.deployed_responses_are_truthful features_on 1 sample_ca_impl (fst sample_publisher) says signers_attest
    sample_updater sample_events sample_state "key" 255 "revoked:certificate" (st_world sample_history))
    as (cert & row & status & Hc & Hr & Hs & _).
  - reflexivity.
  - reflexivity.
  - split; [constructor|vm_compute; discriminate].
  - repeat constructor. intros H. destruct (H eq_refl).
  - vm_compute. reflexivity.
  - exists cert, row, status. split; [exact Hc|]. split; [exact Hr|exact Hs].
Defined.

(** The certificate has its first response, which is an hour old. *)
Definition first_response : State (CA.CAState * CtPublisher.PubState) :=
  history (OcspSystem.deployed_ca sample_ca_impl) (OcspSystem.deployed_sa features_on)
    (OcspSystem.deployed_publisher features_on 1 (fst sample_publisher)) sample_updater (take 2 sample_events) sample_state.
Definition always_signs (req : OCSPSigningRequest) : M (World * (CA.CAState * CtPublisher.PubState)) error string :=
  ret (os_Status req ++s ":" ++s os_CertDER req).

Lemma oldOCSPResponsesTick_renews_witness :
  exists s' row', oldOCSPResponsesTick always_signs sample_updater 10 first_response = (Ok tt, s') /\
    certificateStatus (db (st_world s')) !! SerialToString 255 = Some row' /\
    OcspRenewal.renewed always_signs (w_now (st_world first_response)) (certificates (db (st_world first_response)))
      (SerialToString 255) row'.
Proof.
  destruct (OcspRenewal.oldOCSPResponsesTick_renews always_signs ltac:(intros req w c; eexists _, _; reflexivity)
    sample_updater 10 first_response) as (s' & E & H).
  - repeat split; vm_compute; try reflexivity; try discriminate. constructor.
  - apply (bool_decide_unpack (map_Forall (fun k (row : CertificateStatus) => coll (cs_Serial row) = k /\
      is_Some (certificates (db (st_world first_response)) !! k)) (certificateStatus (db (st_world first_response))))).
    vm_compute. exact I.
  - vm_compute. reflexivity.
  - vm_compute. discriminate.
  - destruct (certificateStatus (db (st_world first_response)) !! SerialToString 255) as [row|] eqn:Er;
      [|vm_compute in Er; discriminate Er].
    assert (OcspRenewal.due sample_updater (st_world first_response) row) as Hd.
    { clear -Er. vm_compute in Er. injection Er as <-. split; [split; vm_compute; reflexivity|reflexivity]. }
    destruct (H _ row Er Hd) as (row' & Hk & _ & HR). exists s', row'. split; [exact E|]. split; [exact Hk|exact HR].
Defined.

Lemma renewal_drops_the_reason_witness :
  exists statuses s' status, findStaleOCSPResponses sample_updater (w_now (st_world sample_history) - 1) 10 sample_history = (Ok statuses, s') /\
    status ∈ statuses /\ cs_Status status = OCSPStatusRevoked /\
    option_map cs_RevokedReason (certificateStatus (db (st_world sample_history)) !! cs_Serial status) = Some 1 /\
    os_Reason (sign_request status (cs_Status status)
      {| cert_RegistrationID := 1; cert_Serial := SerialToString 255; cert_Digest := "digest"; cert_DER := "certificate";
         cert_Issued := noon; cert_Expires := noon |}) = 0.
Proof.
  destruct (findStaleOCSPResponses sample_updater (w_now (st_world sample_history) - 1) 10 sample_history) as [r s'] eqn:E.
  pose proof (f_equal fst E) as E'. vm_compute in E'. simpl in E'. subst r. eexists _, s', _. split; [reflexivity|].
  split; [left|]. split; [reflexivity|]. split; [vm_compute; reflexivity|].
  eapply (OcspRenewal.renewal_drops_the_reason (C := CA.CAState * CtPublisher.PubState)); [exact E|left].
Defined.

Lemma published_receipts_are_verified_witness :
  OcspSystem.stores_verified (OcspSystem.deployed_receipts features_on 1) "a2V5" "certificate" (st_world first_response)
    (fst (snd (CtPublisher.SubmitToSingleCT (OcspSystem.deployed_receipts features_on 1) (fst sample_publisher)
       "https://ct.example/log/" "a2V5" "certificate" (st_world first_response, snd sample_publisher)))).
Proof.
  destruct (CtPublisher.SubmitToSingleCT (OcspSystem.deployed_receipts features_on 1) (fst sample_publisher)
    "https://ct.example/log/" "a2V5" "certificate" (st_world first_response, snd sample_publisher)) as [r [w' p']] eqn:E.
  apply (OcspSystem.published_receipts_are_verified features_on 1 (fst sample_publisher)
    "https://ct.example/log/" "a2V5" "certificate" _ (snd sample_publisher) r w' p'); [|exact E].
  intros key log H. vm_compute in H. discriminate H.
Defined.

End OcspExamples.
