(* ===== verification/AuthzPurger.v ===== *)
(** * cmd/expired-authz-purger: deletion of expired authorizations

    The purger deletes authorizations that expired more than a grace period ago, and their
    challenges, from the tables of the storage authority.  A query without ORDER BY
    returns the rows of an unchanged table in one order; nobody else writes while the
    purger runs. *)

From S2P Require Import Prelude GoStd Errors Core Database Storage SaFrame SaInvariants.

Module AuthzPurger.
Import SaInvariants.

(** [batchSize] is the one field of [expiredAuthzPurger] with an effect. *)
Record expiredAuthzPurger := { batchSize : Z }.

(** Standard input: what the successive reads return, the end of the input after the last. *)
Definition Stdin := list string.

(** [os.Exit(0)] ends the process in the middle of a function. *)
Inductive outcome := Returned | Exited.

Definition lf : ascii := "010".
Fixpoint cut_line (s : string) : option (string * string) :=
  match s with
  | EmptyString => None
  | String c s' =>
      if Ascii.eqb c lf then Some (String c EmptyString, s')
      else match cut_line s' with Some (line, rest) => Some (String c line, rest) | None => None end
  end.

(** [reader.ReadString] of a [bufio.Reader] that has [buf] read but not returned; [None]
    is [io.EOF]. *)
Fixpoint ReadString (stdin : Stdin) (buf : string) : option (string * string * Stdin) :=
  match cut_line buf with
  | Some (line, rest) => Some (line, rest, stdin)
  | None => match stdin with [] => None | chunk :: stdin' => ReadString stdin' (buf ++s chunk) end
  end.

Section purger.
Context {GL : GoLib} {Q : SQL}.

Definition PM (A : Type) : Type := M (World * Stdin) error A.
Definition on_db {A} (m : DB A) : PM A := fun '(w, stdin) => let '(r, w') := m w in (r, (w', stdin)).

(** The question: [None] when the input ends.  What the reader has buffered is lost with
    the reader. *)
Fixpoint confirm (fuel : nat) (stdin : Stdin) (buf : string) : option bool * Stdin :=
  match fuel with
  | O => (None, stdin)
  | S fuel' =>
      match ReadString stdin buf with
      | None => (None, [])
      | Some (text, buf', stdin') =>
          let text := ToLower text in
          let says s := String.eqb text (s ++s String lf EmptyString) in
          if says "y" then (Some true, stdin')
          else if says "n" || says EmptyString then (Some false, stdin')
          else confirm fuel' stdin' buf'
      end
  end.
Definition input_size (stdin : Stdin) : nat := sum_list_with String.length stdin.

Definition expired (purgeBefore : Z) (a : Authorization) : bool :=
  match az_Expires a with Some e => e <=? purgeBefore | None => false end.

(** The two queries and the two statements of the switches on [table]. *)
Definition rows_of_table (table : string) (t : Tables) : result error (list Authorization) :=
  if String.eqb table "pendingAuthorizations" then Ok (map pa_Authorization (map_to_list (pendingAuthorizations t)).*2)
  else if String.eqb table "authz" then Ok ((map_to_list (authz t)).*2)
  else Err (PlainError "Error 1065: Query was empty").
Definition select_expired (table : string) (purgeBefore limit : Z) (offset : nat) : DB (list string) :=
  query (fun t =>
    let? rows := rows_of_table table t in
    if limit <? 0 then Err (PlainError "Error 1064: You have an error in your SQL syntax")
    else Ok (take (Z.to_nat limit) (drop offset
           (map az_ID (filter (fun a => expired purgeBefore a = true) rows))))).
Definition delete_challenges (id : string) : DB unit :=
  call (fun t => Ok (tt, set_challenges t
    (filter (fun c => Storage.ceq (cm_AuthorizationID c) id = false) (challenges t)) (nextChallenge t))).
Definition delete_row (table id : string) : DB unit :=
  call (fun t =>
    if String.eqb table "pendingAuthorizations" then
      Ok (tt, set_authzs t (delete (coll id) (pendingAuthorizations t)) (authz t))
    else if String.eqb table "authz" then
      Ok (tt, set_authzs t (pendingAuthorizations t) (delete (coll id) (authz t)))
    else Err (PlainError "Error 1065: Query was empty")).

(** The first loop of [purge]. *)
Fixpoint collect (fuel : nat) (p : expiredAuthzPurger) (table : string) (purgeBefore : Z) (ids : list string)
    : DB (list string) :=
  match fuel with
  | O => fail (PlainError "out of fuel")
  | S fuel' =>
      let! r := try (select_expired table purgeBefore (batchSize p) (length ids)) in
      match r with
      | Err ErrNoRows => ret ids
      | Err err => fail err
      | Ok [] => ret ids
      | Ok idBatch => collect fuel' p table purgeBefore (ids ++ idBatch)
      end
  end.

Definition purge_each (table : string) (ids : list string) : DB unit :=
  forM ids (fun id => do! delete_challenges id in delete_row table id).

Definition ask (yes : bool) : PM (option bool) := fun '(w, stdin) =>
  if yes then (Ok (Some true), (w, stdin))
  else let '(answer, stdin') := confirm (S (input_size stdin)) stdin EmptyString in (Ok answer, (w, stdin')).

Definition purge (fuel : nat) (p : expiredAuthzPurger) (table : string) (yes : bool) (purgeBefore : Z) : PM outcome :=
  let! ids := on_db (collect fuel p table purgeBefore []) in
  let! answer := ask yes in
  match answer with
  | None => fail (PlainError "EOF")
  | Some false => ret Exited
  | Some true => do! on_db (purge_each table ids) in ret Returned
  end.

Definition purgeAuthzs (fuel : nat) (p : expiredAuthzPurger) (purgeBefore : Z) (yes : bool) : PM outcome :=
  let! o := purge fuel p "pendingAuthorizations" yes purgeBefore in
  match o with
  | Exited => ret Exited
  | Returned => purge fuel p "authz" yes purgeBefore
  end.

(** [main] after its set-up: [None] when it refuses to run. *)
Definition main (fuel : nat) (p : expiredAuthzPurger) (GracePeriod : Z) (yes : bool) : PM (option outcome) :=
  if GracePeriod =? 0 then ret None
  else
    let! now := on_db Now in
    let! o := purgeAuthzs fuel p (time_Add now (- GracePeriod)) yes in
    ret (Some o).

End purger.

(** ** What a purge leaves *)

Section properties.
Context {GL : GoLib} {Q : SQL} (before : Z).
Implicit Types t : Tables.

Definition no_challenges t (k : string) : Prop := forall c, c ∈ challenges t -> coll (cm_AuthorizationID c) <> k.
(** An expired authorization is filed under this key. *)
Definition dead t (k : string) : Prop :=
  (exists pa, pendingAuthorizations t !! k = Some pa /\ expired before (pa_Authorization pa) = true) \/
  (exists a, authz t !! k = Some a /\ expired before a = true).

(** Only expired authorizations are gone, each with all its challenges, and only
    challenges of expired authorizations; the other tables are as they were. *)
Record purged t t' : Prop := {
  pu_frame : exists p a cs, t' = set_challenges (set_authzs t p a) cs (nextChallenge t);
  pu_pending : forall k pa, pendingAuthorizations t !! k = Some pa ->
    pendingAuthorizations t' !! k = Some pa \/ expired before (pa_Authorization pa) = true /\ no_challenges t' k;
  pu_authz : forall k a, authz t !! k = Some a ->
    authz t' !! k = Some a \/ expired before a = true /\ no_challenges t' k;
  pu_no_new : pendingAuthorizations t' ⊆ pendingAuthorizations t /\ authz t' ⊆ authz t;
  pu_challenges : challenges t' `sublist_of` challenges t /\
    forall c, c ∈ challenges t -> c ∈ challenges t' \/ dead t (coll (cm_AuthorizationID c))
}.

(** Rows are filed under their own keys. *)
Definition keyed t : Prop :=
  (forall k pa, pendingAuthorizations t !! k = Some pa -> k = coll (az_ID (pa_Authorization pa))) /\
  (forall k a, authz t !! k = Some a -> k = coll (az_ID a)).

Definition table_ok (table : string) : Prop := table = "pendingAuthorizations"%string \/ table = "authz"%string.
(** An expired row of this table has this ID. *)
Definition expired_id (table : string) t (id : string) : Prop :=
  exists rows a, rows_of_table table t = Ok rows /\ a ∈ rows /\ expired before a = true /\ az_ID a = id.

Lemma wf_keyed t : wf t -> keyed t.
Proof. intros H. split; intros k x Hx; [by destruct (wf_pending t H _ _ Hx)|by destruct (wf_authz t H _ _ Hx)]. Qed.

Lemma purged_refl t : purged t t.
Proof.
  split; auto. by exists (pendingAuthorizations t), (authz t), (challenges t); destruct t.
Qed.

Lemma purged_dead t t' k : purged t t' -> dead t' k -> dead t k.
Proof.
  intros [_ _ _ [Hp Ha] _] [(pa & E & ?)|(a & E & ?)]; [left; exists pa|right; exists a]; (split; [|done]);
    eapply lookup_weaken; eauto.
Qed.

Lemma purged_trans t t' t'' : purged t t' -> purged t' t'' -> purged t t''.
Proof.
  intros H1 H2. pose proof (purged_dead t t') as Hd. pose proof H1 as H1'. destruct H1 as [(p1 & a1 & c1 & E1) Hp1 Ha1 [N1 N1'] [S1 C1]].
  destruct H2 as [(p2 & a2 & c2 & E2) Hp2 Ha2 [N2 N2'] [S2 C2]]. split.
  - exists p2, a2, c2. rewrite E2, E1. by destruct t.
  - intros k pa Hk. destruct (Hp1 _ _ Hk) as [Hk'|[He Hn]]; [auto|]. right. split; [done|].
    intros c Hc. apply Hn. by eapply sublist_subseteq.
  - intros k pa Hk. destruct (Ha1 _ _ Hk) as [Hk'|[He Hn]]; [auto|]. right. split; [done|].
    intros c Hc. apply Hn. by eapply sublist_subseteq.
  - split; etrans; eassumption.
  - split; [by etrans|]. intros c Hc. destruct (C1 _ Hc) as [Hc'|?]; [|auto]. destruct (C2 _ Hc') as [?|Hd']; [auto|].
    right. by apply Hd.
Qed.

#[local] Instance purged_preorder : PreOrder purged.
Proof. split; [exact purged_refl|exact purged_trans]. Qed.

Lemma expired_dead table t id : keyed t -> expired_id table t id -> dead t (coll id).
Proof.
  intros [Hkp Hka] (rows & a & Hr & Ha & He & <-). unfold rows_of_table in Hr. repeat case_in Hr; injection Hr as <-.
  - apply list_elem_of_fmap in Ha as (pa & -> & Ha). apply list_elem_of_fmap in Ha as ([k pa'] & -> & Ha).
    apply elem_of_map_to_list in Ha. left. exists pa'. pose proof (Hkp _ _ Ha). simpl in *. by subst k.
  - apply list_elem_of_fmap in Ha as ([k a'] & -> & Ha). apply elem_of_map_to_list in Ha.
    right. exists a'. pose proof (Hka _ _ Ha). simpl in *. by subst k.
Qed.

(** Deleting the challenges of an expired authorization, and then its row. *)
Lemma purge_challenges t0 t id : purged t0 t -> dead t0 (coll id) ->
  purged t0 (set_challenges t (filter (fun c => Storage.ceq (cm_AuthorizationID c) id = false) (challenges t)) (nextChallenge t)).
Proof.
  intros [(p & a & cs & E) Hp Ha Hn [S C]] Hd. split; simpl.
  - eexists p, a, _. rewrite E. by destruct t0.
  - intros k pa Hk. destruct (Hp _ _ Hk) as [?|[? Hc]]; [auto|]. right. split; [done|].
    intros c [_ Hin]%list_elem_of_filter. by apply Hc.
  - intros k x Hk. destruct (Ha _ _ Hk) as [?|[? Hc]]; [auto|]. right. split; [done|].
    intros c [_ Hin]%list_elem_of_filter. by apply Hc.
  - done.
  - split; [etrans; [apply sublist_filter|done]|]. intros c Hc. destruct (C _ Hc) as [Hc'|?]; [|auto].
    destruct (Storage.ceq (cm_AuthorizationID c) id) eqn:Eid; [|left; by apply list_elem_of_filter].
    apply ceq_true in Eid. right. by rewrite Eid.
Qed.

Lemma purge_row t0 t table id t' : keyed t0 -> table_ok table -> purged t0 t -> expired_id table t0 id -> no_challenges t (coll id) ->
  (if String.eqb table "pendingAuthorizations" then
     t' = set_authzs t (delete (coll id) (pendingAuthorizations t)) (authz t)
   else t' = set_authzs t (pendingAuthorizations t) (delete (coll id) (authz t))) -> purged t0 t'.
Proof.
  intros [Hkp Hka] Ht [(p & a & cs & E) Hp Ha [Np Na] [S C]] (rows & x & Hr & Hx & He & <-) Hno Et.
  unfold rows_of_table in Hr. destruct (String.eqb_spec table "pendingAuthorizations") as [->|Hne];
    [|destruct Ht as [->| ->]; [done|]; simpl in Hr]; injection Hr as <-; rewrite Et; split; simpl.
  - exists (delete (coll (az_ID x)) p), a, cs. rewrite E. by destruct t0.
  - intros k pa Hk. destruct (decide (coll (az_ID x) = k)) as [<-|Hne]; [|rewrite lookup_delete_ne by done; by apply Hp].
    right. split; [|done]. apply list_elem_of_fmap in Hx as (pa' & -> & Hx). apply list_elem_of_fmap in Hx as ([k pa''] & -> & Hx).
    apply elem_of_map_to_list in Hx. pose proof (Hkp _ _ Hx). simpl in *. subst k. congruence.
  - done.
  - split; [|done]. etrans; [apply delete_subseteq|done].
  - done.
  - exists p, (delete (coll (az_ID x)) a), cs. rewrite E. by destruct t0.
  - done.
  - intros k y Hk. destruct (decide (coll (az_ID x) = k)) as [<-|Hne']; [|rewrite lookup_delete_ne by done; by apply Ha].
    right. split; [|done]. apply list_elem_of_fmap in Hx as ([k x'] & -> & Hx). apply elem_of_map_to_list in Hx.
    pose proof (Hka _ _ Hx). simpl in *. subst k. congruence.
  - split; [done|]. etrans; [apply delete_subseteq|done].
  - done.
Qed.

(** Whatever calls fail, the loop stays on the safe side. *)
Lemma purge_each_purged t0 table ids : keyed t0 -> table_ok table -> Forall (expired_id table t0) ids ->
  forall w r w', purged t0 (db w) -> purge_each table ids w = (r, w') -> purged t0 (db w').
Proof.
  intros Hk Ht. induction ids as [|id ids IH]; intros Hids w r w' Hp H; [by injection H as <- <-|].
  apply Forall_cons in Hids as [Hid Hids]. unfold purge_each in H. simpl in H. rewrite mbindM_assoc in H.
  pose proof (expired_dead table t0 id Hk Hid) as Hd. unfold mbindM at 1 in H.
  destruct (delete_challenges id w) as [r1 w1] eqn:E1. unfold delete_challenges, call in E1.
  pose proof (purge_challenges t0 (db w) id Hp Hd) as Hp1.
  destruct r1 as [[]|e]; [|destruct (next_fault w) as [f|]; [|done]; injection E1 as _ <-; injection H as _ <-; by destruct (f_applied f)].
  destruct (next_fault w); [done|]. injection E1 as <-. set (w1 := set_db _ _) in H.
  assert (no_challenges (db w1) (coll id)) as Hno.
  { intros c [Hc _]%list_elem_of_filter Hcid. apply ceq_true in Hcid. congruence. }
  assert (exists t2, (if String.eqb table "pendingAuthorizations" then
      t2 = set_authzs (db w1) (delete (coll id) (pendingAuthorizations (db w1))) (authz (db w1))
    else t2 = set_authzs (db w1) (pendingAuthorizations (db w1)) (delete (coll id) (authz (db w1)))) /\
    delete_row table id w1 = call (fun _ => Ok (tt, t2)) w1) as (t2 & Et2 & Ed).
  { unfold delete_row, call. destruct Ht as [->| ->]; simpl; eexists; split; reflexivity. }
  pose proof (purge_row t0 (db w1) table id t2 Hk Ht Hp1 Hid Hno Et2) as Hp2.
  unfold mbindM in H. rewrite Ed in H. unfold call in H. destruct (next_fault w1) as [f|].
  - injection H as _ <-. by destruct (f_applied f).
  - by apply (IH Hids (set_db (pop_fault w1) t2) r w' Hp2), H.
Qed.

(** The IDs that are collected. *)
Definition expired_ids (table : string) t : list string :=
  match rows_of_table table t with
  | Ok rows => map az_ID (filter (fun a => expired before a = true) rows)
  | Err _ => []
  end.

Lemma expired_ids_spec table t : Forall (expired_id table t) (expired_ids table t).
Proof.
  unfold expired_ids, expired_id. destruct (rows_of_table table t) as [rows|]; [|constructor].
  apply Forall_forall. intros id Hid. apply list_elem_of_fmap in Hid as (a & -> & Ha).
  apply list_elem_of_filter in Ha as [? ?]. eauto 6.
Qed.

Lemma collect_ids fuel p table : forall ids w r w', Forall (expired_id table (db w)) ids ->
  collect fuel p table before ids w = (r, w') ->
  db w' = db w /\ forall ids', r = Ok ids' -> Forall (expired_id table (db w)) ids'.
Proof.
  induction fuel as [|fuel IH]; intros ids w r w' Hids H; [by injection H as <- <-|]. simpl in H.
  unfold mbindM, try in H. destruct (select_expired _ _ _ _ w) as [r1 w1] eqn:E1.
  assert (db w1 = db w /\ forall batch, r1 = Ok batch -> Forall (expired_id table (db w)) batch) as [Hdb Hb].
  { pose proof (expired_ids_spec table (db w)) as Hall. unfold expired_ids in Hall. unfold select_expired, query, call, rbind in E1.
    destruct (rows_of_table table (db w)) as [rows|] eqn:Er; [|destruct (next_fault w); injection E1 as <- <-; done].
    destruct (_ <? 0); [destruct (next_fault w); injection E1 as <- <-; done|].
    destruct (next_fault w) as [f|]; [destruct (f_applied f)|]; injection E1 as <- <-; [done..|].
    split; [done|]. intros batch [= <-]. by apply Forall_take, Forall_drop. }
  destruct r1 as [[|id batch]|e].
  - injection H as <- <-. split; [done|]. by intros ids' [= <-].
  - rewrite <- Hdb in Hids, Hb |- *. eapply IH, H. apply Forall_app. split; [done|]. by apply Hb.
  - destruct e; injection H as <- <-; split; try done. by intros ids' [= <-].
Qed.

(** Without faults: all of them, when there is fuel for one more page than there are rows. *)
Lemma collect_complete fuel p table w : w_faults w = [] -> table_ok table -> 0 < batchSize p ->
  forall ids, let all := expired_ids table (db w) in
  ids = take (length ids) all -> (length all - length ids < fuel)%nat ->
  collect fuel p table before ids w = (Ok all, w).
Proof.
  intros Hf Ht Hb. induction fuel as [|fuel IH]; intros ids all Hids Hfuel; [lia|]. cbn [collect].
  unfold mbindM, try, select_expired. rewrite query_nofault by done.
  assert (exists rows, rows_of_table table (db w) = Ok rows) as [rows Er].
  { unfold rows_of_table. destruct Ht as [->| ->]; simpl; eauto. }
  unfold rbind. rewrite Er. rewrite (proj2 (Z.ltb_ge _ _)) by lia.
  replace (map az_ID (filter _ rows)) with all by (unfold all, expired_ids; by rewrite Er).
  set (page := take (Z.to_nat (batchSize p)) (drop (length ids) all)).
  assert (ids ++ page = take (length ids + Z.to_nat (batchSize p)) all) as Hp by (rewrite Hids at 1; subst page; by rewrite take_take_drop).
  assert (length page = Z.to_nat (batchSize p) `min` (length all - length ids))%nat as Hl by (subst page; by rewrite length_take, length_drop).
  destruct page as [|id page'] eqn:Epage.
  - cbn [length] in Hl. rewrite Hids, take_ge; [done|]. lia.
  - apply IH.
    + fold all. rewrite Hp, length_take. destruct (decide (length ids + Z.to_nat (batchSize p) <= length all)%nat).
      * by rewrite Nat.min_l by lia.
      * by rewrite Nat.min_r, !take_ge by lia.
    + rewrite length_app. simpl in *. fold all. lia.
Qed.

(** The rows a loop without faults leaves. *)
Definition without {A} (ids : list string) (m : gmap string A) : gmap string A :=
  foldl (fun m id => delete (coll id) m) m ids.
Lemma lookup_without {A} ids : forall (m : gmap string A) k x, without ids m !! k = Some x ->
  m !! k = Some x /\ forall id, id ∈ ids -> coll id <> k.
Proof.
  induction ids as [|id ids IH]; intros m k x H; simpl in H; [split; [done|]; by intros ? ?%elem_of_nil|].
  apply IH in H as [H Hids]. apply lookup_delete_Some in H as [Hne H]. split; [done|].
  intros i [->|Hi]%elem_of_cons; auto.
Qed.

Lemma purge_each_deletes table ids : table_ok table -> forall w, w_faults w = [] -> exists t',
  purge_each table ids w = (Ok tt, set_db w t') /\
  if String.eqb table "pendingAuthorizations"
  then pendingAuthorizations t' = without ids (pendingAuthorizations (db w)) /\ authz t' = authz (db w)
  else authz t' = without ids (authz (db w)) /\ pendingAuthorizations t' = pendingAuthorizations (db w).
Proof.
  intros Ht. induction ids as [|id ids IH]; intros w Hf.
  { exists (db w). rewrite set_db_same. split; [done|]. by destruct (String.eqb _ _). }
  unfold purge_each. simpl. rewrite mbindM_assoc. unfold mbindM, delete_challenges. rewrite call_nofault by done.
  unfold delete_row. rewrite call_nofault by done.
  destruct Ht as [->| ->]; simpl; edestruct IH as (t' & E & H1 & H2); [|setoid_rewrite E| |setoid_rewrite E]; try done.
  all: exists t'; split; [done|]; by split.
Qed.

Definition none_expired t : Prop :=
  (forall k pa, pendingAuthorizations t !! k = Some pa -> expired before (pa_Authorization pa) = false) /\
  (forall k a, authz t !! k = Some a -> expired before a = false).

Lemma purged_keyed t t' : purged t t' -> keyed t -> keyed t'.
Proof.
  intros [_ _ _ [Np Na] _] [Hp Ha]. split; intros k x Hx; [eapply Hp|eapply Ha]; by eapply lookup_weaken.
Qed.

Lemma purge_purged fuel p table yes w stdin r w' stdin' : keyed (db w) -> table_ok table ->
  purge fuel p table yes before (w, stdin) = (r, (w', stdin')) -> purged (db w) (db w').
Proof.
  intros Hk Ht H. unfold purge, mbindM at 1, on_db at 1 in H.
  destruct (collect fuel p table before [] w) as [r1 w1] eqn:E1.
  apply collect_ids in E1 as [Hdb Hids]; [|constructor].
  assert (purged (db w) (db w1)) as Hp1 by (rewrite Hdb; apply purged_refl).
  destruct r1 as [ids|e]; [|injection H as _ <- _; done]. specialize (Hids _ eq_refl).
  unfold mbindM at 1 in H. destruct (ask yes (w1, stdin)) as [r2 [w2 stdin2]] eqn:E2.
  assert (w2 = w1) as ->.
  { unfold ask in E2. destruct yes; [by injection E2|]. by destruct (confirm _ _ _) as [? ?]; injection E2. }
  destruct r2 as [[[]|]|]; try (injection H as _ <- _; done). unfold mbindM, on_db in H.
  destruct (purge_each table ids w1) as [r3 w3] eqn:E3. eapply purge_each_purged in E3; eauto.
  destruct r3; injection H as _ <- _; done.
Qed.

Lemma expired_ids_size table t : table_ok table ->
  (length (expired_ids table t) <= if String.eqb table "pendingAuthorizations" then size (pendingAuthorizations t) else size (authz t))%nat.
Proof.
  intros Ht. unfold expired_ids, rows_of_table. destruct Ht as [->| ->]; simpl;
    rewrite length_map; (etrans; [apply length_filter|]); by rewrite ?length_map, ?length_fmap, length_map_to_list.
Qed.

Lemma purge_complete fuel p table w stdin : w_faults w = [] -> keyed (db w) -> table_ok table -> 0 < batchSize p ->
  (length (expired_ids table (db w)) < fuel)%nat ->
  exists t', purge fuel p table true before (w, stdin) = (Ok Returned, (set_db w t', stdin)) /\
    if String.eqb table "pendingAuthorizations"
    then (forall k pa, pendingAuthorizations t' !! k = Some pa -> expired before (pa_Authorization pa) = false) /\ authz t' = authz (db w)
    else (forall k a, authz t' !! k = Some a -> expired before a = false) /\ pendingAuthorizations t' = pendingAuthorizations (db w).
Proof.
  intros Hf [Hkp Hka] Ht Hb Hfuel. unfold purge, mbindM at 1, on_db at 1.
  rewrite (collect_complete fuel p table w Hf Ht Hb []) by (done || simpl; lia). unfold mbindM, on_db; cbn [ask].
  destruct (purge_each_deletes table (expired_ids table (db w)) Ht w Hf) as (t' & -> & Hrows). exists t'. split; [done|].
  unfold expired_ids, rows_of_table in Hrows. destruct Ht as [->| ->]; simpl in *; destruct Hrows as [-> ->]; (split; [|done]).
  - intros k pa Hk. apply lookup_without in Hk as [Hk Hids]. apply not_true_is_false. intros He. pose proof (Hkp _ _ Hk) as ->.
    eapply Hids; [|done]. apply list_elem_of_fmap_2, list_elem_of_filter. split; [done|].
    apply list_elem_of_fmap_2, (list_elem_of_fmap_2 snd _ (coll (az_ID (pa_Authorization pa)), pa)), elem_of_map_to_list, Hk.
  - intros k a Hk. apply lookup_without in Hk as [Hk Hids]. apply not_true_is_false. intros He. pose proof (Hka _ _ Hk) as ->.
    eapply Hids; [|done]. apply list_elem_of_fmap_2, list_elem_of_filter. split; [done|].
    apply (list_elem_of_fmap_2 snd _ (coll (az_ID a), a)), elem_of_map_to_list, Hk.
Qed.

(** C24. Purging is safe and complete.  Whatever the answers to its questions and
    whatever database calls fail, only authorizations that expired before the given time
    are deleted, none of them leaves a challenge behind, no challenge of another
    authorization is deleted, and no other table changes.  Without faults and questions,
    the purge ends, and no such authorization is left. *)
Theorem purgeAuthzs_exact fuel p yes w stdin r w' stdin' :
  wf (db w) -> purgeAuthzs fuel p before yes (w, stdin) = (r, (w', stdin')) ->
  purged (db w) (db w') /\
  (yes = true -> w_faults w = [] -> 0 < batchSize p ->
   (size (pendingAuthorizations (db w)) < fuel)%nat -> (size (authz (db w)) < fuel)%nat ->
   r = Ok Returned /\ none_expired (db w')).
Proof.
  intros Hwf H. apply wf_keyed in Hwf. unfold purgeAuthzs in H. split.
  - unfold mbindM in H. destruct (purge _ _ "pendingAuthorizations" _ _ _) as [r1 [w1 stdin1]] eqn:E1.
    apply purge_purged in E1; [|done|by left]. destruct r1 as [[]|]; try (injection H as _ <- _; done).
    apply purge_purged in H; [by etrans|by eapply purged_keyed|by right].
  - intros -> Hf Hb Hs1 Hs2.
    pose proof (expired_ids_size "pendingAuthorizations" (db w) ltac:(by left)) as Hl1. simpl in Hl1.
    destruct (purge_complete fuel p "pendingAuthorizations" w stdin) as (t1 & E1 & Hp & Ha); [done..|by left|done|lia|].
    rewrite (mbindM_run _ _ _ _ _ E1) in H. pose proof E1 as E1'. apply purge_purged in E1'; [|done|by left].
    pose proof (expired_ids_size "authz" (db (set_db w t1)) ltac:(by right)) as Hl2. simpl in Hl2. rewrite Ha in Hl2.
    destruct (purge_complete fuel p "authz" (set_db w t1) stdin) as (t2 & E2 & Ha2 & Hp2);
      [done|by eapply purged_keyed|by right|done|simpl; lia|].
    rewrite E2 in H. injection H as <- <- <-. split; [done|]. split; [|done]. intros k pa Hk. apply (Hp k). simpl in Hp2, Hk. by rewrite <- Hp2.
Qed.

(** ** The questions *)

Lemma cut_line_shrinks s line rest : cut_line s = Some (line, rest) -> (String.length rest < String.length s)%nat.
Proof.
  revert line. induction s as [|c s IH]; intros line H; [done|]. simpl in H. destruct (Ascii.eqb c lf).
  - injection H as _ <-. simpl. lia.
  - destruct (cut_line s) as [[l r]|]; [|done]. injection H as _ <-. specialize (IH _ eq_refl). simpl. lia.
Qed.

Lemma ReadString_shrinks stdin : forall buf line buf' stdin', ReadString stdin buf = Some (line, buf', stdin') ->
  (String.length buf' + input_size stdin' < String.length buf + input_size stdin)%nat.
Proof.
  induction stdin as [|chunk stdin IH]; intros buf line buf' stdin' H; simpl in H;
    destruct (cut_line buf) as [[l rest]|] eqn:E; try done.
  1,2: injection H as _ <- <-; apply cut_line_shrinks in E; lia.
  apply IH in H. rewrite slength_app in H. unfold input_size in *. simpl. lia.
Qed.

(** The loop reads a line in each round, so the size of the input bounds it. *)
Lemma confirm_fuel fuel : forall stdin buf, (String.length buf + input_size stdin < fuel)%nat ->
  confirm (S fuel) stdin buf = confirm fuel stdin buf.
Proof.
  induction fuel as [|fuel IH]; intros stdin buf H; [lia|]. cbn [confirm].
  destruct (ReadString stdin buf) as [[[text buf'] stdin']|] eqn:E; [|done]. apply ReadString_shrinks in E.
  destruct (String.eqb _ _); [done|]. destruct (_ || _); [done|]. apply IH. lia.
Qed.

End properties.

(** Each question has a reader of its own: when one read returns both answers, the second
    is lost with the first reader, and the run fails with the second table not purged. *)
Lemma second_answer_is_lost {GL : GoLib} {Q : SQL} p w :
  w_faults w = [] -> db w = emptyTables -> 0 <= batchSize p ->
  let yes_yes := String "y" (String lf (String "y" (String lf EmptyString))) in
  purgeAuthzs 1 p 0 false (w, [yes_yes]) = (Err (PlainError "EOF"), (w, [])).
Proof.
  intros Hf Hd Hb yes_yes. unfold purgeAuthzs, purge, mbindM, on_db. cbn [collect].
  unfold mbindM, try, select_expired. rewrite !query_nofault, Hd by done. simpl. rewrite !(proj2 (Z.ltb_ge _ _)) by lia.
  simpl. rewrite !map_to_list_empty. simpl. rewrite !take_nil. simpl.
  rewrite query_nofault, Hd by done. simpl. rewrite map_to_list_empty. simpl. by rewrite take_nil.
Qed.
End AuthzPurger.
