(* ===== verification/OrphanFinder.v ===== *)
(** * cmd/orphan-finder: certificates the CA could not store

    When the CA cannot store a certificate it has signed, it logs a line with the
    certificate.  The orphan finder reads these lines and adds the certificates to the
    database.  The storage authority is an interface. *)

From S2P Require Import Prelude GoStd Errors Features Core GoodKey Policy Csr RegistrationAuthority CertificateAuthority.
From S2P Require Import CaIssuance.

Module OrphanFinder.

(** ** Strings and regular expressions *)

Fixpoint strip_prefix (p s : string) : option string :=
  match p, s with
  | EmptyString, _ => Some s
  | String a p', String b s' => if Ascii.eqb a b then strip_prefix p' s' else None
  | String _ _, EmptyString => None
  end.
(** [strings.Contains]. *)
Fixpoint contains (p s : string) : bool :=
  match strip_prefix p s with
  | Some _ => true
  | None => match s with EmptyString => false | String _ s' => contains p s' end
  end.
(** The longest prefix with this class of characters, and the rest. *)
Fixpoint span (class : ascii -> bool) (s : string) : string * string :=
  match s with
  | EmptyString => (EmptyString, EmptyString)
  | String c s' => if class c then let '(run, rest) := span class s' in (String c run, rest) else (EmptyString, s)
  end.

(** The group of the leftmost match of an expression [p([class]+)\]] for a literal [p] and
    a class without the bracket, at the start of the text and anywhere in it. *)
Definition match_here (p : string) (class : ascii -> bool) (s : string) : option string :=
  match strip_prefix p s with
  | None => None
  | Some rest =>
      match span class rest with
      | (String c run, String "]" _) => Some (String c run)
      | _ => None
      end
  end.
Fixpoint FindStringSubmatch (p : string) (class : ascii -> bool) (s : string) : option string :=
  match match_here p class s with
  | Some group => Some group
  | None => match s with EmptyString => None | String _ s' => FindStringSubmatch p class s' end
  end.

Definition lower_hex (c : ascii) : bool := in_range "0" "9" c || in_range "a" "f" c.
Definition digit (c : ascii) : bool := in_range "0" "9" c.
Definition derOrphan : string -> option string := FindStringSubmatch "cert=[" lower_hex.
Definition regOrphan : string -> option string := FindStringSubmatch "regID=[" digit.

(** [hex.DecodeString]. *)
Fixpoint hex_decode (s : string) : option string :=
  match s with
  | EmptyString => Some EmptyString
  | String a (String b s') =>
      match hex_val a, hex_val b, hex_decode s' with
      | Some x, Some y, Some rest => Some (String (Zbyte (x * 16 + y)) rest)
      | _, _, _ => None
      end
  | String _ EmptyString => None
  end.

(** ** The finder *)

Record certificateStorage (S : Type) := {
  sai_AddCertificate : string -> Z -> string -> M S error string;
  sai_GetCertificate : string -> M S error Certificate
}.

Definition errAlreadyExists : error := PlainError "Certificate already exists in DB".

Section finder.
Context {X : X509} {S : Type} (sai : certificateStorage S).

Definition checkDER (der : string) : M S error unit :=
  match ParseCertificate der with
  | Err err => fail (PlainError ("Failed to parse DER: " ++s Error err))
  | Ok cert =>
      let! r := try (sai_GetCertificate _ sai (SerialToString (x5_SerialNumber cert))) in
      match r with
      | Ok _ => fail errAlreadyExists
      | Err (CoreNotFoundError _) => ret tt
      | Err err => if Berrors.Is err Berrors.NotFound then ret tt
                   else fail (PlainError ("Existing certificate lookup failed: " ++s Error err))
      end
  end.

Definition parseLogLine (line : string) : M S error (bool * bool) :=
  if negb (contains "cert=" line) || negb (contains "orphaning certificate" line) then ret (false, false)
  else
    match derOrphan line with
    | None => ret (true, false)
    | Some derStr =>
        match hex_decode derStr with
        | None => ret (true, false)
        | Some der =>
            let! r := try (checkDER der) in
            match r with
            | Err _ => ret (true, false)
            | Ok _ =>
                match regOrphan line with
                | None => ret (true, false)
                | Some regStr =>
                    match Atoi regStr with
                    | None => ret (true, false)
                    | Some regID =>
                        let! r := try (sai_AddCertificate _ sai der regID EmptyString) in
                        ret (true, is_ok r)
                    end
                end
            end
        end
    end.

(** The commands: the numbers of orphans found and added, and one certificate from a file. *)
Fixpoint parse_lines (lines : list string) (orphansFound orphansAdded : Z) : M S error (Z * Z) :=
  match lines with
  | [] => ret (orphansFound, orphansAdded)
  | line :: lines' =>
      let! outcome := parseLogLine line in
      let '(found, added) := outcome in
      parse_lines lines' (if found then orphansFound + 1 else orphansFound)
        (if found && added then orphansAdded + 1 else orphansAdded)
  end.
Definition parse_ca_log (logData : string) : M S error (Z * Z) :=
  parse_lines (split_on "010" logData) 0 0.
Definition parse_der (der : string) (regID : Z) : M S error unit :=
  if regID =? 0 then fail (PlainError "exit status 1")
  else
    do! checkDER der in
    do! sai_AddCertificate _ sai der regID EmptyString in
    ret tt.

End finder.

(** ** What is found in a line *)

Lemma strip_prefix_Some p s rest : strip_prefix p s = Some rest <-> s = p ++s rest.
Proof.
  revert s. induction p as [|a p IH]; intros [|b s]; simpl; try (split; congruence).
  destruct (Ascii.eqb_spec a b) as [->|Hne]; [|split; congruence]. rewrite IH. split; congruence.
Qed.

Lemma contains_app p a b : contains p (a ++s (p ++s b)) = true.
Proof.
  induction a as [|c a IH]; simpl.
  - pose proof (proj2 (strip_prefix_Some p (p ++s b) b) eq_refl) as E. by destruct (p ++s b); simpl; rewrite E.
  - simpl. destruct (strip_prefix p _); [done|exact IH].
Qed.

Lemma span_app class run c rest : all_chars class run = true -> class c = false ->
  span class (run ++s String c rest) = (run, String c rest).
Proof.
  intros Hr Hc. induction run as [|a run IH]; simpl in *; [by rewrite Hc|]. bool_solve. by rewrite H, IH.
Qed.

(** A literal that starts in one text and ends in the next is split between them. *)
Lemma strip_prefix_app p u v rest : strip_prefix p (u ++s v) = Some rest ->
  (exists w, u = p ++s w) \/ exists p2, p = u ++s p2 /\ v = p2 ++s rest.
Proof.
  revert p. induction u as [|c u IH]; intros p H; simpl in H.
  - right. exists p. split; [done|]. by apply strip_prefix_Some.
  - destruct p as [|a p]; [left; by exists (String c u)|]. simpl in H. destruct (Ascii.eqb_spec a c) as [->|]; [|done].
    apply IH in H as [[w ->]|(p2 & -> & ->)]; [left; by exists w|right; by exists p2].
Qed.

Lemma has_char_app c s t : has_char c (s ++s t) = has_char c s || has_char c t.
Proof. unfold has_char. rewrite all_chars_app. by destruct (all_chars _ s), (all_chars _ t). Qed.

(** Text without an equals sign is skipped, when the text after it does not complete the literal. *)
Definition inner (p : string) (v : string) : Prop :=
  forall u p2 rest, u <> EmptyString -> p = u ++s p2 -> v = p2 ++s rest -> has_char "=" u = true.
Lemma skip p class u v : has_char "=" p = true -> has_char "=" u = false -> inner p v ->
  FindStringSubmatch p class (u ++s v) = FindStringSubmatch p class v.
Proof.
  intros Hp Hu Hv. induction u as [|c u IH]; [done|]. simpl.
  replace (match_here p class (String c (u ++s v))) with (@None string).
  - apply IH. unfold has_char in *. simpl in Hu. destruct (Ascii.eqb c "="); [done|]. exact Hu.
  - unfold match_here. destruct (strip_prefix p (String c (u ++s v))) as [rest|] eqn:E; [|done]. exfalso.
    apply (strip_prefix_app p (String c u) v) in E as [[w E]|(p2 & E & Ev)].
    + rewrite E, has_char_app, Hp in Hu. done.
    + specialize (Hv (String c u) p2 rest). rewrite Hv in Hu; done.
Qed.

(** A match does not go beyond a closing bracket. *)
Lemma strip_prefix_stop p x rest : has_char "]" p = false ->
  strip_prefix p (x ++s String "]" rest) = (fun w => w ++s String "]" rest) <$> strip_prefix p x.
Proof.
  intros Hp. destruct (strip_prefix p x) as [w|] eqn:E; simpl.
  - apply strip_prefix_Some in E as ->. apply strip_prefix_Some. by rewrite sapp_assoc.
  - destruct (strip_prefix p (x ++s _)) as [r|] eqn:E'; [|done]. exfalso.
    apply strip_prefix_app in E' as [[w ->]|(p2 & -> & E2)].
    + by rewrite (proj2 (strip_prefix_Some p (p ++s w) w) eq_refl) in E.
    + destruct p2 as [|c p2]; [|injection E2 as <- _; rewrite has_char_app in Hp; by destruct (has_char "]" x)].
      rewrite sapp_nil_r in E. by rewrite (proj2 (strip_prefix_Some x x EmptyString)) in E by (by rewrite sapp_nil_r).
Qed.

Lemma span_stop class w rest : class "]"%char = false ->
  exists run c tail, span class (w ++s String "]" EmptyString) = (run, String c tail) /\
    span class (w ++s String "]" rest) = (run, String c tail ++s rest).
Proof.
  intros Hc. induction w as [|a w IH]; simpl.
  - rewrite Hc. by eexists _, _, _.
  - destruct IH as (run & c & tail & -> & ->). destruct (class a); [by eexists _, _, _|].
    eexists _, _, (w ++s "]"). split; [done|]. simpl. by rewrite sapp_assoc.
Qed.

Lemma match_here_stop p class x rest : has_char "]" p = false -> class "]"%char = false ->
  match_here p class (x ++s String "]" rest) = match_here p class (x ++s String "]" EmptyString).
Proof.
  intros Hp Hc. unfold match_here. rewrite !strip_prefix_stop by done. destruct (strip_prefix p x) as [w|]; [|done]. simpl.
  destruct (span_stop class w rest Hc) as (run & c & tail & -> & ->). destruct run; [done|]. simpl.
  by destruct c as [[] [] [] [] [] [] [] []].
Qed.

Lemma find_stop p class x rest : has_char "]" p = false -> class "]"%char = false -> p <> EmptyString ->
  FindStringSubmatch p class (x ++s String "]" EmptyString) = None ->
  FindStringSubmatch p class (x ++s String "]" rest) = FindStringSubmatch p class rest.
Proof.
  intros Hp Hc Hne H. induction x as [|a x IH]; simpl in *.
  - destruct p as [|b p]; [done|]. unfold match_here. simpl. destruct (Ascii.eqb_spec b "]") as [->|]; [|done].
    unfold has_char in Hp. by simpl in Hp.
  - pose proof (match_here_stop p class (String a x) rest Hp Hc) as E. simpl in E. rewrite E.
    destruct (match_here p class (String a (x ++s "]"))); [done|]. auto.
Qed.

Lemma match_found p class group rest : all_chars class group = true -> class "]"%char = false -> group <> EmptyString ->
  FindStringSubmatch p class (p ++s (group ++s String "]" rest)) = Some group.
Proof.
  intros Hg Hc Hne. assert (match_here p class (p ++s (group ++s String "]" rest)) = Some group) as E.
  { unfold match_here. rewrite (proj2 (strip_prefix_Some p _ _) eq_refl), span_app by done. by destruct group. }
  by destruct (p ++s _); simpl; rewrite E.
Qed.

(** What is found is there. *)
Lemma span_spec class s run rest : span class s = (run, rest) -> s = run ++s rest /\ all_chars class run = true.
Proof.
  revert run rest. induction s as [|c s IH]; intros run rest; simpl; [by intros [= <- <-]|].
  destruct (class c) eqn:Ec; [|by intros [= <- <-]]. destruct (span class s) as [run' rest']. intros [= <- <-].
  destruct (IH _ _ eq_refl) as [-> H]. simpl. by rewrite Ec.
Qed.

Lemma find_sound p class s group : FindStringSubmatch p class s = Some group ->
  exists a b, s = a ++s p ++s group ++s "]" ++s b /\ group <> EmptyString /\ all_chars class group = true.
Proof.
  assert (forall s, match_here p class s = Some group ->
    exists b, s = p ++s group ++s "]" ++s b /\ group <> EmptyString /\ all_chars class group = true) as Hh.
  { intros t. unfold match_here. destruct (strip_prefix p t) as [rest|] eqn:Ep; [|done]. apply strip_prefix_Some in Ep as ->.
    destruct (span class rest) as [[|c run] [|d tail]] eqn:Es; try done. apply span_spec in Es as [-> Hc].
    intros H. destruct (Ascii.eqb_spec d "]") as [->|Hd].
    - injection H as <-. by exists tail.
    - exfalso. by destruct d as [[] [] [] [] [] [] [] []]. }
  induction s as [|c s IH]; simpl.
  - destruct (match_here p class EmptyString) eqn:E; [|done]. intros [= ->]. apply Hh in E as (b & E & H). by exists EmptyString, b.
  - destruct (match_here p class (String c s)) eqn:E.
    + intros [= ->]. apply Hh in E as (b & E & H). by exists EmptyString, b.
    + intros (a & b & -> & H)%IH. by exists (String c a), b.
Qed.

(** A text that contains what looks like the account of a line. *)
Definition names_account (text : string) : Prop :=
  exists a account b, text = a ++s "regID=[" ++s account ++s "]" ++s b /\ account <> EmptyString /\
    all_chars (fun c => (48 <=? byteZ c) && (byteZ c <=? 57)) account = true.
Lemma no_account text : ~ names_account text -> regOrphan text = None.
Proof.
  intros H. destruct (regOrphan text) as [account|] eqn:E; [|done]. exfalso. apply H.
  apply find_sound in E as (a & b & E & Hne & Ha). by exists a, account, b.
Qed.

(** ** Codes *)

Lemma nibbles c : 0 <= byteZ c / 16 < 16 /\ 0 <= byteZ c mod 16 < 16.
Proof.
  pose proof (byteZ_bound c). split; [|by apply Z.mod_pos_bound].
  split; [apply Z.div_pos|apply Z.div_lt_upper_bound]; lia.
Qed.

Lemma hex_decode_string der : hex_decode (hex_string der) = Some der.
Proof.
  unfold hex_string. induction der as [|c der IH]; [done|]. cbn [String.list_ascii_of_string flat_map app chars_of hex_decode].
  destruct (nibbles c). rewrite !hex_val_char, IH by done.
  replace (byteZ c / 16 * 16 + byteZ c mod 16) with (byteZ c) by (pose proof (Z.div_mod (byteZ c) 16); lia).
  by rewrite Zbyte_byteZ.
Qed.

Lemma hex_string_hex der : all_chars lower_hex (hex_string der) = true.
Proof.
  unfold hex_string. induction der as [|c der IH]; [done|]. cbn [String.list_ascii_of_string flat_map app chars_of all_chars].
  destruct (nibbles c). rewrite IH, andb_true_r. apply andb_true_intro.
  split; (apply small_forall with (n := 16) (P := fun d => lower_hex (hex_char d)); [vm_compute; reflexivity|done]).
Qed.

Lemma itoa_digits n : 0 <= n -> all_chars digit (itoa n) = true /\ itoa n <> EmptyString.
Proof.
  intros Hn. unfold itoa. destruct (Z.ltb_spec n 0); [lia|]. split.
  - pose proof (digits_range 10 n ltac:(lia) Hn) as HF. induction HF as [|d ds Hd _ IH]; [done|].
    cbn [chars_of all_chars]. rewrite IH, andb_true_r.
    by apply small_forall with (n := 10) (P := fun d => digit (hex_char d)).
  - destruct (digits_cons 10 n ltac:(lia) Hn) as (d & ds & ->). done.
Qed.

Lemma all_chars_no_eq class s : (forall c, class c = true -> Ascii.eqb c "=" = false) -> all_chars class s = true -> has_char "=" s = false.
Proof.
  intros Hc Hs. unfold has_char. apply negb_false_iff. eapply all_chars_impl; [|exact Hs].
  intros c H. by rewrite Hc.
Qed.
Lemma lower_hex_no_eq s : all_chars lower_hex s = true -> has_char "=" s = false.
Proof. apply all_chars_no_eq. intros c H. by destruct (Ascii.eqb_spec c "=") as [->|]. Qed.

Ltac inner_solve :=
  intros u p2 rest Hu E Ev;
  repeat (destruct u as [|? u]; [first [done | exfalso; simpl in E; subst p2; discriminate Ev]|];
          simpl in E; injection E as <- E); try reflexivity; try (exfalso; discriminate).

(** ** The line of the CA *)

Section lines.
Context (pre serialHex der : string) (err : error) (regID : Z).
Hypothesis (Hpre : has_char "=" pre = false) (Hserial : has_char "=" serialHex = false).
Hypothesis (Hder : der <> EmptyString).
Notation line := (pre ++s CA.orphan_line serialHex der err regID).

Lemma hex_nonempty : hex_string der <> EmptyString.
Proof. by destruct der. Qed.

Lemma derOrphan_line : derOrphan line = Some (hex_string der).
Proof.
  unfold derOrphan.
  assert (line = (pre ++s "Failed RPC to store at SA, orphaning certificate: seria") ++s ("l=[" ++s (serialHex ++s ("] " ++s
    ("cert=[" ++s (hex_string der ++s String "]" (" err=[" ++s (Error err ++s "], regID=[" ++s itoa regID ++s "]")))))))) as ->
    by (unfold CA.orphan_line; rewrite sapp_assoc; reflexivity).
  rewrite skip; [|done|by rewrite has_char_app, Hpre|inner_solve]. cbn [String.append FindStringSubmatch match_here strip_prefix Ascii.eqb Bool.eqb].
  rewrite skip; [|done|done|inner_solve]. cbn [String.append FindStringSubmatch match_here strip_prefix Ascii.eqb Bool.eqb].
  apply (match_found "cert=["); [apply hex_string_hex|done|apply hex_nonempty].
Qed.

(** The text of the error comes before the account: it must not look like one. *)
Lemma regOrphan_line : 0 <= regID -> regOrphan (Error err ++s "]") = None -> regOrphan line = Some (itoa regID).
Proof.
  intros Hreg Herr. unfold regOrphan in *.
  assert (line = (pre ++s "Failed RPC to store at SA, orphaning certificate: seria") ++s ("l=[" ++s ((serialHex ++s "] cer") ++s ("t=[" ++s
    ((hex_string der ++s "] er") ++s ("r=[" ++s (Error err ++s String "]" (", " ++s ("regID=[" ++s (itoa regID ++s String "]" EmptyString)))))))))) as ->
    by (unfold CA.orphan_line; rewrite !sapp_assoc; reflexivity).
  rewrite skip; [|done|by rewrite has_char_app, Hpre|inner_solve]. cbn [String.append FindStringSubmatch match_here strip_prefix Ascii.eqb Bool.eqb].
  rewrite skip; [|done|by rewrite has_char_app, Hserial|inner_solve]. cbn [String.append FindStringSubmatch match_here strip_prefix Ascii.eqb Bool.eqb].
  rewrite skip; [|done|by rewrite has_char_app, (lower_hex_no_eq _ (hex_string_hex der))|inner_solve].
  cbn [String.append FindStringSubmatch match_here strip_prefix Ascii.eqb Bool.eqb].
  rewrite find_stop; [|done..]. cbn [String.append FindStringSubmatch match_here strip_prefix Ascii.eqb Bool.eqb].
  destruct (itoa_digits regID Hreg). by apply (match_found "regID=[").
Qed.

Lemma line_is_orphan : contains "cert=" line = true /\ contains "orphaning certificate" line = true.
Proof.
  split.
  - assert (line = (pre ++s "Failed RPC to store at SA, orphaning certificate: serial=[" ++s serialHex ++s "] ") ++s ("cert=" ++s
      ("[" ++s (hex_string der ++s "] err=[" ++s (Error err ++s "], regID=[" ++s itoa regID ++s "]"))))) as ->
      by (unfold CA.orphan_line; rewrite !sapp_assoc; reflexivity). apply contains_app.
  - assert (line = (pre ++s "Failed RPC to store at SA, ") ++s ("orphaning certificate" ++s (": serial=[" ++s serialHex ++s "] cert=[" ++s
      (hex_string der ++s "] err=[" ++s (Error err ++s "], regID=[" ++s itoa regID ++s "]"))))) as ->
      by (unfold CA.orphan_line; rewrite !sapp_assoc; reflexivity). apply contains_app.
Qed.

(** What is to become of a certificate that was logged: it is looked up by its serial
    number; it is added, for the account, when the storage has no such certificate, and
    nothing is written when it has one, when the lookup fails in another way and when the
    bytes are not a certificate.  The run answers with the two flags found and added. *)
Definition not_found (e : error) : Prop :=
  (exists msg, e = CoreNotFoundError msg) \/ (exists msg, e = BoulderError Berrors.NotFound msg).
Definition recovered {X : X509} {S : Type} (sai : certificateStorage S) (der : string) (regID : Z) (s : S)
    (run : result error (bool * bool) * S) : Prop :=
  (forall x r s1, ParseCertificate der = Ok x -> sai_GetCertificate _ sai (SerialToString (x5_SerialNumber x)) s = (r, s1) ->
     (forall e r2 s2, r = Err e -> not_found e -> sai_AddCertificate _ sai der regID EmptyString s1 = (r2, s2) ->
        run = (Ok (true, is_ok r2), s2)) /\
     (is_ok r = true \/ (exists e, r = Err e /\ ~ not_found e) -> run = (Ok (true, false), s1))) /\
  ((forall x, ParseCertificate der <> Ok x) -> run = (Ok (true, false), s)).

Lemma Is_NotFound e : Berrors.Is e Berrors.NotFound = true <-> exists msg, e = BoulderError Berrors.NotFound msg.
Proof.
  split; [|by intros [msg ->]]. destruct e; try done. simpl. intros ->%Z.eqb_eq. by eexists.
Qed.

(** What the finder makes of the line. *)
Lemma parse_orphan_line {X : X509} {S : Type} (sai : certificateStorage S) s :
  0 <= regID -> int64_ok regID -> regOrphan (Error err ++s "]") = None ->
  recovered sai der regID s (parseLogLine sai line s).
Proof.
  intros Hreg Hok Herr. unfold parseLogLine. destruct line_is_orphan as [-> ->]. cbn [negb orb].
  rewrite derOrphan_line, hex_decode_string, regOrphan_line, Atoi_itoa by done. unfold checkDER, mbindM, try. split.
  - intros x r s1 -> ->. split.
    + intros e r2 s2 -> [[msg ->]|[msg ->]] EA; simpl; by rewrite EA.
    + intros [Hr|(e & -> & He)]; [by destruct r|].
      assert (Berrors.Is e Berrors.NotFound = false) as E
        by (apply not_true_is_false; rewrite Is_NotFound; intros ?; apply He; by right).
      destruct e; rewrite ?E; try done. exfalso. apply He. left. by eexists.
  - intros Hx. destruct (ParseCertificate der) as [x|]; [|done]. by destruct (Hx x).
Qed.
End lines.

Lemma SerialToString_no_eq n : has_char "=" (SerialToString n) = false.
Proof.
  unfold SerialToString. rewrite !has_char_app.
  assert (has_char "=" (if n <? 0 then "-" else EmptyString) = false) as -> by (by destruct (n <? 0)). cbn [orb].
  apply orb_false_iff. split; apply lower_hex_no_eq; [by apply all_repeat|].
  induction (digits_range 16 (Z.abs n) ltac:(lia) ltac:(lia)) as [|d ds Hd _ IH]; [done|]. cbn [chars_of all_chars].
  rewrite IH, andb_true_r. by apply small_forall with (n := 16) (P := fun d => lower_hex (hex_char d)).
Qed.

Section recovery.
Context {S : Type} {GL : GoLib} {EC : Elliptic} {X : X509} {SG : Signers} {ST : CertificateStorage S}
        {PA : PolicyAuthority}.
Context (fs : Features.state) (ca : CA.CertificateAuthorityImpl).

(** C25. What the CA cannot store is not lost: the line it logs makes the orphan finder
    look up the certificate that was signed by its serial number and, when the storage
    answers that there is none, add those very bytes for the account that asked for
    them.  It adds nothing when the storage has the certificate, when the lookup fails
    otherwise and when the bytes do not parse.  Log lines may have any header without an
    equals sign; the account is a number that fits in 64 bits; the certificate is not
    empty; and the text of the storage error, which comes before the account in the line,
    must not itself contain what looks like an account. *)
Theorem orphans_are_recovered csr regID s c e s' c' line pre :
  CA.IssueCertificate fs ca csr regID (s, c) = (Err e, (s', c')) -> CA.ca_orphans c' = line :: CA.ca_orphans c ->
  0 <= regID -> int64_ok regID -> has_char "=" pre = false ->
  exists n req pem der err,
    CA.ca_signed c' = (req, regID) :: CA.ca_signed c /\ ee_Sign n (CA.defaultIssuer ca) req = Ok pem /\
    pem_Decode pem = Some ("CERTIFICATE"%string, der) /\ line = CA.orphan_line (SerialToString (sr_Serial req)) der err regID /\
    (der <> EmptyString -> ~ names_account (Error err ++s "]") ->
     forall T (sai : certificateStorage T) t, recovered sai der regID t (parseLogLine sai (pre ++s line) t)).
Proof.
  intros H HL Hreg Hok Hpre. assert (forall l : list string, l <> line :: l) as Hcons
    by (intros l El; apply (f_equal length) in El; simpl in El; lia).
  apply CaIssuance.IssueCertificate_cases in H as [(_ & _ & _ & E)|(csr' & req & n & _ & _ & HS & _ & HA)]; [by rewrite E in HL; edestruct Hcons|].
  destruct (ee_Sign n (CA.defaultIssuer ca) req) as [pem|] eqn:ES; [|destruct HA as (_ & _ & E); by rewrite E in HL; edestruct Hcons].
  destruct (len pem =? 0); [destruct HA as (_ & _ & E); by rewrite E in HL; edestruct Hcons|]. unfold CaIssuance.accounted in HA.
  destruct (pem_Decode pem) as [[type_ der]|] eqn:EP; [|destruct HA as (_ & _ & E); by rewrite E in HL; edestruct Hcons].
  destruct (String.eqb_spec type_ "CERTIFICATE") as [->|]; [|destruct HA as (_ & _ & E); by rewrite E in HL; edestruct Hcons].
  destruct HA as (ocsp & [(cert & digest & ? & _)|(err & _ & _ & EO)]); [done|].
  rewrite EO in HL. injection HL as <-. eexists n, req, pem, der, _. split; [exact HS|]. split; [exact ES|]. split; [exact EP|].
  split; [reflexivity|]. intros Hder Herr T sai t. 
  apply parse_orphan_line; [done|apply SerialToString_no_eq|done|done|done|by apply no_account].
Qed.
End recovery.

(** The text of the error can name another account: what is stored for account 1 here was
    issued to account 2. *)
Lemma error_text_names_the_account :
  regOrphan (CA.orphan_line "00" "cert" (PlainError "regID=[1]") 2) = Some "1"%string.
Proof. vm_compute. reflexivity. Qed.
End OrphanFinder.
