(* ===== verification/CertChecker.v ===== *)
(** * cmd/cert-checker: checks of issued certificates

    The checker reads the certificates of the last months from the database, checks each
    against what issuance should have ensured, and reports; several workers share the
    work.  The policy authority is an interface. *)

From S2P Require Import Prelude GoStd Errors Features Core GoodKey Csr Database Storage SaFrame.
From S2P Require Import SaInvariants SaTransactions SaCertificates RegistrationAuthority RaChecks.

Module CertChecker.

Definition expectedValidityPeriod : Z := Hour * 24 * 90.

(** ** Forbidden domains *)

Definition white (c : ascii) : bool :=
  Ascii.eqb c " " || Ascii.eqb c "009" || Ascii.eqb c "010" || Ascii.eqb c "012" || Ascii.eqb c "013".
Definition has_suffix (suf s : string) : bool := negb (is_nil (strip_suffix suf s)).

(** The regular expressions, each with its text. *)
Definition forbiddenDomainPatterns : list ((string -> bool) * string) :=
  [(all_chars white, "^\s*$");
   (has_suffix ".mil", "\.mil$");
   (has_suffix ".local", "\.local$");
   (String.eqb "localhost", "^localhost$");
   (has_suffix ".localhost", "\.localhost$")]%string.

Definition isForbiddenDomain (name : string) : option string :=
  snd <$> head (filter (fun r => fst r name = true) forbiddenDomainPatterns).

(** ** One certificate *)

Record reportEntry := { Valid : bool; Problems : list string }.
Record report := { GoodCerts : Z; BadCerts : Z; Entries : gmap string reportEntry }.

Section checker.
Context {GL : GoLib} {Cr : Crypto} {X : X509} {PA : PolicyAuthority} {Q : SQL}.

Definition when (b : bool) (problem : string) : list string := if b then [problem] else [].

Definition check_name (name : string) : list string :=
  match pa_WillingToIssue {| idType := IdentifierDNS; idValue := name |} with
  | Err err => ["Policy Authority isn't willing to issue for '" ++s name ++s "': " ++s Error err]
  | Ok _ =>
      match isForbiddenDomain name with
      | Some pattern =>
          ["Policy Authority was willing to issue but domain '" ++s name ++s "' matches forbiddenDomains entry "
             ++s Quote pattern]
      | None => []
      end
  end.

Definition check_parsed (cert : Certificate) (parsedCert : X509Certificate) : list string :=
  match StringToSerial (cert_Serial cert) with
  | Err _ => ["Stored serial is invalid"]
  | Ok storedSerial => when (negb (x5_SerialNumber parsedCert =? storedSerial)) "Stored serial doesn't match certificate serial"
  end
  ++ when (negb (x5_NotAfter parsedCert =? cert_Expires cert)) "Stored expiration doesn't match certificate NotAfter"
  ++ when (negb (x5_BasicConstraintsValid parsedCert)) "Certificate doesn't have basic constraints set"
  ++ when (x5_IsCA parsedCert) "Certificate can sign other certificates"
  ++ (let validityPeriod := time_Sub (x5_NotAfter parsedCert) (x5_NotBefore parsedCert) in
      if expectedValidityPeriod <? validityPeriod then ["Certificate has a validity period longer than 2160h0m0s"]
      else when (validityPeriod <? expectedValidityPeriod) "Certificate has a validity period shorter than 2160h0m0s")
  ++ when (time_Before (x5_NotBefore parsedCert) (time_Add (cert_Issued cert) (-6 * Hour))
           || time_After (x5_NotBefore parsedCert) (time_Add (cert_Issued cert) (6 * Hour)))
       "Stored issuance date is outside of 6 hour window of certificate NotBefore"
  ++ when (64 <? len (x5_CommonName parsedCert))
       ("Certificate has common name >64 characters long (" ++s itoa (len (x5_CommonName parsedCert)) ++s ")")
  ++ flat_map check_name (x5_DNSNames parsedCert ++ [x5_CommonName parsedCert])
  ++ when (negb (bool_decide (x5_ExtKeyUsage parsedCert = [ExtKeyUsageServerAuth; ExtKeyUsageClientAuth])))
       "Certificate has incorrect key usage extensions".

Definition checkCert (cert : Certificate) : list string :=
  when (negb (String.eqb (cert_Digest cert) (Fingerprint256 (cert_DER cert)))) "Stored digest doesn't match certificate digest"
  ++ match ParseCertificate (cert_DER cert) with
     | Err err => ["Couldn't parse stored certificate: " ++s Error err]
     | Ok parsedCert => check_parsed cert parsedCert
     end.

(** ** Retrieval *)

(** The order in which the database returns the rows of a query without ORDER BY, and the
    package's variable [batchSize], 1000 by default. *)
Context (order : list Certificate -> list Certificate) (batchSize : nat).

(** [issued >= :issued AND expires >= :now]; zero is before every date. *)
Definition selected (begin : Z) (now : option Z) (cert : Certificate) : bool :=
  (begin <=? cert_Issued cert) && match now with Some now => now <=? cert_Expires cert | None => true end.
Definition rows (begin : Z) (now : option Z) (t : Tables) : list Certificate :=
  order (filter (fun cert => selected begin now cert = true) (map_to_list (certificates t)).*2).
Definition after_serial (lastSerial : string) (cert : Certificate) : bool :=
  String.ltb (coll lastSerial) (coll (cert_Serial cert)).

(** The loop of [getCerts]; the certificates go into the channel in this order. *)
Fixpoint pages (fuel : nat) (begin : Z) (now : option Z) (count offset : Z) (lastSerial : string) : DB (list Certificate) :=
  if count <=? offset then ret []
  else match fuel with
  | O => fail (PlainError "out of fuel")
  | S fuel' =>
      let! certs := query (fun t => Ok (take batchSize (filter (fun cert => after_serial lastSerial cert = true) (rows begin now t)))) in
      match last certs with
      | None => ret []
      | Some cert =>
          let! more := pages fuel' begin now count (offset + Z.of_nat (length certs)) (cert_Serial cert) in
          ret (certs ++ more)
      end
  end.

Definition getCerts (fuel : nat) (checkPeriod : Z) (unexpiredOnly : bool) : DB (list Certificate) :=
  let! end_ := Now in
  let begin := time_Add end_ (- checkPeriod) in
  let! now := (if unexpiredOnly then let! now := Now in ret (Some now) else ret None) in
  let! count := query (fun t => Ok (Z.of_nat (length (rows begin now t)))) in
  pages fuel begin now count 0 EmptyString.

(** ** Workers *)

(** A goroutine of [processCerts], by what it does next: receive a certificate, enter its
    result in the report, count it. *)
Inductive worker :=
| Receiving
| Entering (cert : Certificate) (problems : list string)
| Counting (valid : bool).

Definition valid (problems : list string) : bool := bool_decide (problems = []).
Definition enter (badResultsOnly : bool) (cert : Certificate) (problems : list string) (r : report) : report :=
  if negb badResultsOnly || (badResultsOnly && negb (valid problems)) then
    {| GoodCerts := GoodCerts r; BadCerts := BadCerts r;
       Entries := <[cert_Serial cert := {| Valid := valid problems; Problems := problems |}]> (Entries r) |}
  else r.
Definition count_cert (v : bool) (r : report) : report :=
  if v then {| GoodCerts := GoodCerts r + 1; BadCerts := BadCerts r; Entries := Entries r |}
  else {| GoodCerts := GoodCerts r; BadCerts := BadCerts r + 1; Entries := Entries r |}.

Definition step_worker (badResultsOnly : bool) (g : worker) (certs : list Certificate) (r : report)
    : option worker * list Certificate * report :=
  match g with
  | Receiving =>
      match certs with
      | [] => (None, [], r)
      | cert :: certs' => (Some (Entering cert (checkCert cert)), certs', r)
      end
  | Entering cert problems => (Some (Counting (valid problems)), certs, enter badResultsOnly cert problems r)
  | Counting v => (Some Receiving, certs, count_cert v r)
  end.

(** The workers take turns in any order until all have returned. *)
Fixpoint processCerts (fuel : nat) (badResultsOnly : bool) (turns : list nat) (workers : list worker)
    (certs : list Certificate) (r : report) : option report :=
  match workers with
  | [] => Some r
  | _ =>
      match fuel with
      | O => None
      | S fuel' =>
          let i := (default O (head turns) mod length workers)%nat in
          match workers !! i with
          | None => None
          | Some g =>
              let '(g', certs', r') := step_worker badResultsOnly g certs r in
              processCerts fuel' badResultsOnly (tail turns) (take i workers ++ option_list g' ++ drop (S i) workers) certs' r'
          end
      end
  end.

Definition emptyReport : report := {| GoodCerts := 0; BadCerts := 0; Entries := ∅ |}.

End checker.

(** ** What the checker accepts *)

Section accepted.
Context {GL : GoLib} {Cr : Crypto} {X : X509} {PA : PolicyAuthority} {Q : SQL}.

Lemma when_nil b problem : when b problem = [] <-> b = false.
Proof. by destruct b. Qed.

Lemma check_name_nil name : check_name name = [] <->
  pa_WillingToIssue {| idType := IdentifierDNS; idValue := name |} = Ok tt /\ isForbiddenDomain name = None.
Proof.
  unfold check_name. destruct (pa_WillingToIssue _) as [[]|]; [|split; [done|by intros [? _]]].
  destruct (isForbiddenDomain name); split; try done. by intros [_ ?].
Qed.

Lemma flat_map_nil {A B} (f : A -> list B) l : flat_map f l = [] <-> forall x, x ∈ l -> f x = [].
Proof.
  induction l as [|x l IH]; simpl; [split; [by intros _ ? ?%elem_of_nil|done]|].
  rewrite app_nil, IH. setoid_rewrite elem_of_cons. naive_solver.
Qed.

(** The names that are forbidden: blank ones, the local host, and everything under [mil],
    [local] and [localhost]. *)
Definition forbidden (name : string) : Prop :=
  (forall c, c ∈ String.list_ascii_of_string name -> c ∈ [" "; "009"; "010"; "012"; "013"]%char) \/
  name = "localhost"%string \/
  exists p suffix, suffix ∈ [".mil"; ".local"; ".localhost"]%string /\ name = p ++s suffix.

Lemma all_white name : all_chars white name = true <->
  forall c, c ∈ String.list_ascii_of_string name -> c ∈ [" "; "009"; "010"; "012"; "013"]%char.
Proof.
  induction name as [|a name IH]; simpl; [split; [by intros _ ? ?%elem_of_nil|done]|].
  rewrite andb_true_iff, IH. setoid_rewrite elem_of_cons. unfold white. rewrite !orb_true_iff, !Ascii.eqb_eq.
  split; [intros [H1 H2] c [->|Hc]; [set_solver|by apply H2]|]. intros H. split; [|auto].
  specialize (H a (or_introl eq_refl)). set_solver.
Qed.

(** A name that no pattern forbids. *)
Lemma has_suffix_false suf name : has_suffix suf name = false <-> forall p, name <> p ++s suf.
Proof.
  unfold has_suffix. pose proof (strip_suffix_Some suf name) as H. destruct (strip_suffix suf name) as [p|]; simpl; split; try done.
  - intros Hn. exfalso. by apply (Hn p), H.
  - intros _ p Hp. by apply H in Hp.
Qed.

Lemma isForbiddenDomain_None name : isForbiddenDomain name = None <->
  all_chars white name = false /\ name <> "localhost"%string /\
  (forall p, name <> p ++s ".mil") /\ (forall p, name <> p ++s ".local") /\ (forall p, name <> p ++s ".localhost").
Proof.
  assert (isForbiddenDomain name = None <-> Forall (fun r => fst r name = false) forbiddenDomainPatterns) as ->.
  { unfold isForbiddenDomain. induction forbiddenDomainPatterns as [|r l IH]; [split; [constructor|done]|].
    rewrite filter_cons, Forall_cons, <- IH. destruct (decide (fst r name = true)) as [E|E]; simpl.
    - split; [done|]. rewrite E. by intros [? _].
    - split; [intros H; split; [by apply not_true_is_false|done]|by intros [_ ?]]. }
  unfold forbiddenDomainPatterns. rewrite !Forall_cons, Forall_nil. cbn [fst]. rewrite <- !has_suffix_false, String.eqb_neq.
  split; [intros (? & ? & ? & Hl & ? & _)|intros (? & Hl & ? & ? & ?)]; split_and!; try done; intros E; by apply Hl.
Qed.

Lemma allowed_spec name : isForbiddenDomain name = None <-> ~ forbidden name.
Proof.
  rewrite isForbiddenDomain_None. unfold forbidden. rewrite <- all_white. split.
  - intros (Hw & Hl & Hm & Hlo & Hlh) [H|[H|(p & suffix & Hs & ->)]]; [congruence|done|].
    repeat (apply elem_of_cons in Hs as [->|Hs]; [naive_solver|]). by apply elem_of_nil in Hs.
  - intros H. split_and!.
    + apply not_true_is_false. intros E. apply H. by left.
    + intros ->. apply H. right. by left.
    + intros p ->. apply H. right. right. exists p, ".mil"%string. set_solver.
    + intros p ->. apply H. right. right. exists p, ".local"%string. set_solver.
    + intros p ->. apply H. right. right. exists p, ".localhost"%string. set_solver.
Qed.

(** The number that a column of hexadecimal digits denotes: whole bytes, at least one, of
    which 36 digits count. *)
Definition denotes (text : string) (n : Z) : Prop :=
  all_chars is_hex text = true /\ Z.even (len text) = true /\
  exists d ds, vals_of hex_val (String.substring 0 36 text) = Some (d :: ds) /\ n = value 16 (d :: ds).

Lemma StringToSerial_spec text n : StringToSerial text = Ok n <-> denotes text n.
Proof.
  unfold StringToSerial, denotes, scan_hex36. rewrite ValidSerial_spec.
  destruct (all_chars is_hex text); [|split; [done|by intros [? _]]].
  destruct (Z.even (len text)); [|split; [done|by intros (_ & ? & _)]]. simpl.
  destruct (vals_of hex_val (String.substring 0 36 text)) as [[|d ds]|]; split; try done; try naive_solver.
Qed.

(** What is demanded of a row and its certificate. *)
Record in_order (cert : Certificate) (x : X509Certificate) : Prop := {
  io_serial : denotes (cert_Serial cert) (x5_SerialNumber x);
  io_expires : cert_Expires cert = x5_NotAfter x;
  io_leaf : x5_BasicConstraintsValid x = true /\ x5_IsCA x = false;
  io_period : x5_NotAfter x - x5_NotBefore x = 90 * 24 * Hour;
  io_issued : - 6 * Hour <= x5_NotBefore x - cert_Issued cert <= 6 * Hour;
  io_cn : len (x5_CommonName x) <= 64;
  io_names : forall name, name ∈ x5_CommonName x :: x5_DNSNames x ->
    pa_WillingToIssue {| idType := IdentifierDNS; idValue := name |} = Ok tt /\ ~ forbidden name;
  io_usage : x5_ExtKeyUsage x = [ExtKeyUsageServerAuth; ExtKeyUsageClientAuth]
}.

Lemma period_spec x : time_Sub (x5_NotAfter x) (x5_NotBefore x) = expectedValidityPeriod <->
  x5_NotAfter x - x5_NotBefore x = 90 * 24 * Hour.
Proof. unfold time_Sub, expectedValidityPeriod, Hour, Minute, Second, MaxInt64, MinInt64. lia. Qed.

Lemma check_parsed_nil cert x : check_parsed cert x = [] <-> in_order cert x.
Proof.
  unfold check_parsed. rewrite !app_nil, !when_nil, flat_map_nil. setoid_rewrite check_name_nil. setoid_rewrite allowed_spec.
  rewrite !negb_false_iff, bool_decide_eq_true, orb_false_iff. unfold time_Before, time_After, time_Add.
  rewrite !Z.ltb_ge, Z.eqb_eq. setoid_rewrite elem_of_app. setoid_rewrite list_elem_of_singleton. split.
  - intros (Hs & He & Hb & Hc & Hp & Hi & Hn & Hf & Hu). split; [|done|done| |lia|done| |done].
    + apply StringToSerial_spec. destruct (StringToSerial _) as [n|]; [|done]. apply when_nil in Hs. bool_solve. by subst n.
    + apply period_spec. destruct (Z.ltb_spec expectedValidityPeriod (time_Sub (x5_NotAfter x) (x5_NotBefore x))); [done|].
      apply when_nil in Hp. bool_solve. lia.
    + intros name [->|Hin]%elem_of_cons; apply Hf; [by right|by left].
  - intros [Hs%StringToSerial_spec He [Hb Hc] Hp Hi Hn Hf Hu]. rewrite Hs. split_and!; [|done|done|done| |lia|lia|done| |done].
    + apply when_nil. by rewrite Z.eqb_refl.
    + apply period_spec in Hp. rewrite Hp. by rewrite Z.ltb_irrefl.
    + intros name [Hin| ->]; apply Hf; [by right|by left].
Qed.

(** C26. The checker accepts exactly the certificates that are in order.  It has nothing to
    report if and only if the stored digest is that of the stored bytes, they parse, and
    the row and the certificate agree: the column denotes the serial number, the expiry is
    that of the certificate, which is a leaf valid for 90 days from within six hours of
    the issuance that was recorded; the common name has at most 64 bytes; the policy
    authority is willing to issue for the common name and for every other name, none of
    which is forbidden; and the certificate is for servers and clients, in this order. *)
Theorem checkCert_exact cert : checkCert cert = [] <->
  cert_Digest cert = b64_encode false (sha256 (cert_DER cert)) /\
  exists x, ParseCertificate (cert_DER cert) = Ok x /\ in_order cert x.
Proof.
  unfold checkCert, Fingerprint256. rewrite app_nil, when_nil, negb_false_iff, String.eqb_eq.
  destruct (ParseCertificate (cert_DER cert)) as [x|]; [|split; [by intros [_ ?]|by intros (_ & x & ? & _)]].
  rewrite check_parsed_nil. split; [naive_solver|by intros (? & y & [= <-] & ?)].
Qed.

End accepted.

(** ** The report *)

Section reporting.
Context {GL : GoLib} {Cr : Crypto} {X : X509} {PA : PolicyAuthority} {Q : SQL} (badResultsOnly : bool).

Definition good (cert : Certificate) : bool := valid (checkCert cert).
Definition reported (cert : Certificate) : bool := negb badResultsOnly || negb (good cert).
Definition entry (cert : Certificate) : string * reportEntry :=
  (cert_Serial cert, {| Valid := good cert; Problems := checkCert cert |}).
Definition entries (certs : list Certificate) : gmap string reportEntry :=
  list_to_map (map entry (filter (fun cert => reported cert = true) certs)).
Definition count (v : bool) (certs : list Certificate) : Z :=
  Z.of_nat (length (filter (fun cert => good cert = v) certs)).

(** What the workers hold. *)
Definition held (g : worker) : list Certificate := match g with Entering cert _ => [cert] | _ => [] end.
Definition uncounted (v : bool) (g : worker) : Z := match g with Counting v' => if Bool.eqb v v' then 1 else 0 | _ => 0 end.
Definition uncounteds (v : bool) (gs : list worker) : Z := fold_right (fun g n => uncounted v g + n) 0 gs.
Definition weight (g : worker) : nat := match g with Receiving => 1 | Entering _ _ => 3 | Counting _ => 2 end.

Record progress (all : list Certificate) (workers : list worker) (certs : list Certificate) (r : report) : Prop := {
  pr_checked : Forall (fun g => match g with Entering cert problems => problems = checkCert cert | _ => True end) workers;
  pr_done : exists done, all ≡ₚ done ++ flat_map held workers ++ certs /\ Entries r = entries done /\
    GoodCerts r + uncounteds true workers = count true done /\ BadCerts r + uncounteds false workers = count false done;
  pr_end : workers = [] -> certs = []
}.

Lemma uncounteds_app v l k : uncounteds v (l ++ k) = uncounteds v l + uncounteds v k.
Proof. unfold uncounteds. induction l as [|g l IH]; simpl; lia. Qed.

Lemma count_cons v cert done : count v (cert :: done) = (if Bool.eqb v (good cert) then 1 else 0) + count v done.
Proof.
  unfold count. rewrite filter_cons. destruct (decide (good cert = v)) as [<-|Hne].
  - rewrite Bool.eqb_reflx. simpl length. lia.
  - destruct (Bool.eqb_spec v (good cert)); [congruence|done].
Qed.

Lemma enter_entries cert r done : Entries r = entries done ->
  Entries (enter badResultsOnly cert (checkCert cert) r) = entries (cert :: done).
Proof.
  intros He. unfold enter, entries. rewrite filter_cons. fold (good cert).
  assert (negb badResultsOnly || badResultsOnly && negb (good cert) = reported cert) as ->
    by (unfold reported; by destruct badResultsOnly, (good cert)).
  destruct (decide (reported cert = true)) as [->|E]; [simpl; by rewrite He|].
  apply not_true_is_false in E. by rewrite E.
Qed.

(** One turn. *)
Lemma progress_step all l g k certs r : progress all (l ++ g :: k) certs r ->
  let '(g', certs', r') := step_worker badResultsOnly g certs r in
  progress all (l ++ option_list g' ++ k) certs' r' /\
  (3 * length certs + sum_list_with weight (l ++ g :: k)
   = S (3 * length certs' + sum_list_with weight (l ++ option_list g' ++ k)))%nat.
Proof.
  intros [Hc (done & Hp & He & Hg & Hb) Hend]. rewrite flat_map_app in Hp. simpl in Hp.
  rewrite uncounteds_app in Hg, Hb. simpl in Hg, Hb. apply Forall_app in Hc as [Hc1 Hc2]. apply Forall_cons in Hc2 as [Hcg Hc2].
  assert (forall h, l ++ h :: k <> []) as Hne by (intros h; by destruct l).
  destruct g as [|cert problems|v]; [destruct certs as [|cert certs]|..]; simpl in *; (split; [split|]);
    rewrite ?Forall_app, ?Forall_cons, ?sum_list_with_app; simpl; try done; try lia; try (intros E; by apply Hne in E).
  - exists done. rewrite flat_map_app, !uncounteds_app. split_and!; try done; lia.
  - exists done. rewrite flat_map_app, !uncounteds_app. simpl. split_and!; try done; try lia.
    rewrite Hp. apply Permutation_app_head. rewrite <- !app_assoc. apply Permutation_app_head. simpl. by rewrite Permutation_middle.
  - subst problems. exists (cert :: done). rewrite flat_map_app, !uncounteds_app, !count_cons. simpl. fold (good cert). split_and!.
    + rewrite Hp, <- Permutation_middle. simpl. by rewrite <- Permutation_middle.
    + by apply enter_entries.
    + unfold enter. destruct (_ || _), (good cert); simpl; lia.
    + unfold enter. destruct (_ || _), (good cert); simpl; lia.
  - exists done. rewrite flat_map_app, !uncounteds_app. simpl. split_and!; try done; destruct v; simpl in *; try done; lia.
Qed.

Lemma processCerts_progress fuel : forall all turns workers certs r, progress all workers certs r ->
  (3 * length certs + sum_list_with weight workers <= fuel)%nat ->
  exists r', processCerts fuel badResultsOnly turns workers certs r = Some r' /\ progress all [] [] r'.
Proof.
  induction fuel as [|fuel IH]; intros all turns workers certs r H Hf.
  - destruct workers as [|g workers]; [|exfalso; destruct g; simpl in Hf; lia].
    pose proof (pr_end _ _ _ _ H eq_refl) as ->. by exists r.
  - destruct workers as [|g workers]; [pose proof (pr_end _ _ _ _ H eq_refl) as ->; by exists r|].
    cbn [processCerts]. set (i := (_ mod length (g :: workers))%nat).
    assert (i < length (g :: workers))%nat as Hi by (apply Nat.mod_upper_bound; done).
    destruct (lookup_lt_is_Some_2 _ _ Hi) as [h Hh]. rewrite Hh. pose proof (take_drop_middle _ _ _ Hh) as E.
    rewrite <- E in H. pose proof (progress_step _ _ _ _ _ _ H) as Hs. rewrite E in Hs.
    destruct (step_worker badResultsOnly h certs r) as [[g' certs'] r']. destruct Hs as [Hs Hw]. apply IH; [done|lia].
Qed.

(** C30. The report is complete, however the workers take turns: with at least one worker,
    every certificate that was retrieved is checked and counted exactly once, and the
    report has an entry for each, or for each bad one, with its problems. *)
Theorem report_is_complete n turns certs : (0 < n)%nat -> NoDup (map cert_Serial certs) ->
  exists r, processCerts (3 * length certs + n) badResultsOnly turns (replicate n Receiving) certs emptyReport = Some r /\
    GoodCerts r = count true certs /\ BadCerts r = count false certs /\ Entries r = entries certs.
Proof.
  intros Hn Hnd. destruct (processCerts_progress (3 * length certs + n) certs turns (replicate n Receiving) certs emptyReport)
    as (r & -> & [_ (done & Hp & He & Hg & Hb) _]).
  - assert (flat_map held (replicate n Receiving) = [] /\ forall v, uncounteds v (replicate n Receiving) = 0) as [Hh Hu]
      by (clear; induction n as [|n [IH1 IH2]]; simpl; split; auto).
    split; [by apply Forall_replicate| |by destruct n; [lia|]]. exists []. rewrite Hh, !Hu. done.
  - assert (sum_list_with weight (replicate n Receiving) = n) as -> by (clear; induction n; simpl; lia). done.
  - simpl in *. rewrite app_nil_r in Hp. exists r. split; [done|].
    assert (forall v, count v certs = count v done) as Hc by (intros v; unfold count; f_equal; by apply Permutation_length, filter_Permutation).
    rewrite !Hc. split; [lia|]. split; [lia|]. rewrite He. unfold entries. apply list_to_map_proper;
      [|by apply Permutation_map, filter_Permutation].
    rewrite <- list_fmap_compose. simpl. apply (sublist_NoDup _ (map cert_Serial done)); [by rewrite <- Hp|].
    apply fmap_sublist, sublist_filter.
Qed.

End reporting.

(** ** Retrieval *)

Section retrieval.
Context {Q : SQL} (order : list Certificate -> list Certificate) (batchSize : nat).

Definition key (cert : Certificate) : string := coll (cert_Serial cert).
Definition serial_lt (a b : Certificate) : Prop := String.ltb (key a) (key b) = true.

(** The database returns the rows in the order of their primary key. *)
Definition in_key_order : Prop := forall l, order l ≡ₚ l /\ (NoDup (map key l) -> StronglySorted serial_lt (order l)).

Lemma ltb_asym x y : String.ltb x y = true -> String.ltb y x = false.
Proof. unfold String.ltb. rewrite (String.compare_antisym y x). by destruct (String.compare x y). Qed.
Lemma ltb_irrefl x : String.ltb x x = false.
Proof. destruct (String.ltb x x) eqn:E; [|done]. by rewrite (ltb_asym _ _ E) in E. Qed.

Lemma filter_id {A} (P : A -> Prop) `{forall x, Decision (P x)} l : Forall P l -> filter P l = l.
Proof. induction 1 as [|x l Hx _ IH]; [done|]. by rewrite filter_cons, decide_True, IH by done. Qed.

(** The rows after the last one of a page. *)
Lemma after_cert L : StronglySorted serial_lt L -> forall i c, L !! i = Some c ->
  filter (fun cert => after_serial (cert_Serial c) cert = true) L = drop (S i) L.
Proof.
  induction 1 as [|a L HL IH Ha]; intros i c Hc; [done|]. rewrite filter_cons. destruct i as [|i]; simpl in *.
  - injection Hc as <-. rewrite decide_False by (unfold after_serial; by rewrite ltb_irrefl). rewrite drop_0. by apply filter_id.
  - pose proof (Forall_lookup_1 _ _ _ _ Ha Hc) as Hac. unfold serial_lt, key in Hac.
    rewrite decide_False by (unfold after_serial; by rewrite (ltb_asym _ _ Hac)). by apply IH.
Qed.

Lemma pages_complete begin now w : w_faults w = [] -> (0 < batchSize)%nat ->
  let L := rows order begin now (db w) in StronglySorted serial_lt L ->
  forall fuel i lastSerial, filter (fun cert => after_serial lastSerial cert = true) L = drop i L ->
  (i <= length L)%nat -> (length L - i <= fuel)%nat ->
  pages order batchSize fuel begin now (Z.of_nat (length L)) (Z.of_nat i) lastSerial w = (Ok (drop i L), w).
Proof.
  intros Hf Hb L HL. induction fuel as [|fuel IH]; intros i lastSerial Hlast Hi Hfuel.
  { cbn [pages]. rewrite (proj2 (Z.leb_le _ _)) by lia. by rewrite drop_ge by lia. }
  cbn [pages]. destruct (Z.leb_spec (Z.of_nat (length L)) (Z.of_nat i)); [by rewrite drop_ge by lia|].
  unfold mbindM. rewrite query_nofault by done. fold L. rewrite Hlast. set (page := take batchSize (drop i L)).
  assert (length page = batchSize `min` (length L - i))%nat as Hlen by (subst page; by rewrite length_take, length_drop).
  destruct (last page) as [c|] eqn:El; [|apply last_None in El; rewrite El in Hlen; simpl in Hlen; lia].
  rewrite last_lookup, Hlen in El. subst page. rewrite lookup_take_lt in El by lia. rewrite lookup_drop in El.
  rewrite <- Nat2Z.inj_add, Hlen, IH; [| |lia|lia].
  - unfold ret. do 2 f_equal. rewrite <- drop_drop, <- length_drop.
    destruct (decide (batchSize <= length (drop i L))%nat); [by rewrite Nat.min_l, take_drop by done|].
    rewrite Nat.min_r, take_ge, (drop_ge (drop i L)) by lia. apply app_nil_r.
  - erewrite after_cert by done. f_equal. lia.
Qed.

(** Nothing is missed when the database answers in the order of the serial numbers. *)
Lemma getCerts_complete {GL : GoLib} {Cr : Crypto} {J : StorageJSON} {X : X509} fuel checkPeriod unexpiredOnly w :
  w_faults w = [] -> SaInvariants.wf (db w) -> in_key_order -> (0 < batchSize)%nat -> (size (certificates (db w)) <= fuel)%nat ->
  (forall k c, certificates (db w) !! k = Some c -> String.ltb (coll EmptyString) k = true) ->
  exists certs w' now, getCerts order batchSize fuel checkPeriod unexpiredOnly w = (Ok certs, w') /\ db w' = db w /\
    (now = if unexpiredOnly then Some (w_now (pop_tick w)) else None) /\
    certs ≡ₚ filter (fun cert => selected (w_now w - checkPeriod) now cert = true) (map_to_list (certificates (db w))).*2.
Proof.
  intros Hf Hwf Hord Hb Hfuel Hne. unfold getCerts. rewrite bind_Now. set (w1 := pop_tick w). set (begin := time_Add _ _).
  assert (exists now w2, (if unexpiredOnly then let! now := Now in ret (Some now) else ret None) w1 = (Ok now, w2) /\
    db w2 = db w /\ w_faults w2 = [] /\ now = if unexpiredOnly then Some (w_now (pop_tick w)) else None) as (now & w2 & E & Hdb & Hf2 & Hnow)
    by (destruct unexpiredOnly; eexists _, _; (split; [reflexivity|done])).
  rewrite (mbindM_run _ _ _ _ _ E). unfold mbindM. rewrite query_nofault by done. rewrite Hdb.
  set (L := rows order begin now (db w)). set (all := (map_to_list (certificates (db w))).*2).
  assert (L ≡ₚ filter (fun cert => selected begin now cert = true) all) as Hperm by apply Hord.
  assert (NoDup (map key all)) as Hnd.
  { unfold all. rewrite <- list_fmap_compose. erewrite (list_fmap_ext _ fst); [apply NoDup_fst_map_to_list|].
    intros i [k c] Hi. apply list_elem_of_lookup_2, elem_of_map_to_list in Hi. by destruct (SaInvariants.wf_certificates _ Hwf _ _ Hi) as [-> _]. }
  assert (StronglySorted serial_lt L) as HL.
  { apply Hord. eapply sublist_NoDup; [exact Hnd|]. apply fmap_sublist, sublist_filter. }
  assert (filter (fun cert => after_serial EmptyString cert = true) L = drop 0 L) as H0.
  { rewrite drop_0. apply filter_id, Forall_forall. intros c Hc. rewrite Hperm in Hc. apply list_elem_of_filter in Hc as [_ Hc].
    apply list_elem_of_fmap in Hc as ([k c'] & -> & Hc). apply elem_of_map_to_list in Hc. unfold after_serial.
    destruct (SaInvariants.wf_certificates _ Hwf _ _ Hc) as [Hk _]. simpl. rewrite <- Hk. by eapply Hne. }
  pose proof (pages_complete begin now w2 Hf2 Hb) as Hp. rewrite Hdb in Hp. fold L in Hp. exists L, w2, now.
  assert (length L <= fuel)%nat as HLf.
  { rewrite Hperm. etrans; [apply length_filter|]. unfold all. by rewrite length_fmap, length_map_to_list. }
  change 0 with (Z.of_nat 0). rewrite (Hp HL fuel 0%nat EmptyString H0) by lia. by rewrite drop_0.
Qed.

End retrieval.

(** The query has no ORDER BY.  Here the rows come in the order of issuance, one per page:
    the second is counted and never retrieved. *)
Definition plain_sql : SQL := {| coll := id; like := fun _ _ => false |}.
Definition toy_cert (serial : string) (issued : Z) : Certificate :=
  {| cert_RegistrationID := 1; cert_Serial := serial; cert_Digest := EmptyString; cert_DER := EmptyString;
     cert_Issued := issued; cert_Expires := 100 |}.
Definition issued_before (a b : Certificate) : Prop := cert_Issued a <= cert_Issued b.
#[export] Instance issued_before_dec : RelDecision issued_before := fun a b => Z_le_dec _ _.
Lemma unordered_pages_lose_certificates :
  let t := set_certs emptyTables [] {["02"%string := toy_cert "02" 1; "01"%string := toy_cert "01" 2]} ∅ in
  let w := {| db := t; tx := None; w_faults := []; w_now := 10; w_ticks := []; w_rng := fun _ => EmptyString; w_draws := 0 |} in
  fst (@getCerts plain_sql (merge_sort issued_before) 1 5 100 false w) = Ok [toy_cert "02" 1].
Proof. vm_compute. reflexivity. Qed.
End CertChecker.
