(* ===== verification/AdminRevoker.v ===== *)
(** * cmd/admin-revoker: revocation by an operator

    The tool finds certificates in the database and asks the RA to revoke them, and asks
    the storage authority to revoke authorizations.  It reads in a transaction of its own,
    which sees the tables as they were at its first read; the RA and the storage authority
    are other processes that change them.  Reading the configuration is left out. *)

From S2P Require Import Prelude GoStd Errors Features Core Database Storage SaFrame SaInvariants SaTransactions SaCertificates.
From S2P Require Import GoodKey PublicSuffix Policy RateLimit Csr Bdns Grpc RegistrationAuthority GrpcStorage GrpcRefinement.
From S2P Require Import CertificateAuthority CaIssuance GrpcServers System OcspChecks.

Module AdminRevoker.
Import SaInvariants.

(** The ways to stop: an error is returned, [panic], [os.Exit(1)] after a message. *)
Inductive stop :=
| Failed (err : error)
| Panicked (message : string)
| Exited (message : string).

Section tool.
Context {GL : GoLib} {X : X509} {Q : SQL} {S : Type}.

(** [peers] is the state of the other processes, [snapshot] what the transaction sees
    since its first read; calls to the database fail as [faults] says. *)
Record Tool := {
  peers : S;
  snapshot : option Tables;
  faults : list (option error);
  log : list string
}.
Definition TM (A : Type) : Type := M Tool stop A.

(** The tables in the state of the peers, the order in which a query without ORDER BY
    returns rows, the client of the RA, the two calls that go to the storage authority,
    and the operator's name. *)
Context (tables : S -> Tables) (order : list Certificate -> list Certificate).
Context (rac : RegistrationAuthority S).
Context (sac_GetRegistration : Z -> M S error Registration).
Context (sac_RevokeAuthorizationsByDomain : AcmeIdentifier -> M S error (Z * Z)).
Context (user_Current : result error string).

Definition with_peers (w : Tool) (s : S) : Tool :=
  {| peers := s; snapshot := snapshot w; faults := faults w; log := log w |}.
Definition with_db (w : Tool) (t : option Tables) : Tool :=
  {| peers := peers w; snapshot := t; faults := tail (faults w); log := log w |}.
Definition say (line : string) : TM unit := fun w =>
  (Ok tt, {| peers := peers w; snapshot := snapshot w; faults := faults w; log := log w ++ [line] |}).

(** A call to another process, and its error as the caller gets it. *)
Definition remote {A} (m : M S error A) : TM (result error A) := fun w =>
  let '(r, s) := m (peers w) in (Ok r, with_peers w s).
Definition returning {A} (r : result error A) : TM A :=
  match r with Ok a => ret a | Err err => fail (Failed err) end.

Definition next (w : Tool) : option error := default None (head (faults w)).
Definition read {A} (f : Tables -> result error A) : TM (result error A) := fun w =>
  let t := default (tables (peers w)) (snapshot w) in
  match next w with
  | Some err => (Ok (Err err), with_db w (snapshot w))
  | None => (Ok (f t), with_db w (Some t))
  end.

(** [dbMap.Begin] returns nil with an error, and rolling back nil panics; the commit only
    ends the reads. *)
Definition begin : TM unit := fun w =>
  match next w with
  | Some _ => (Err (Panicked "runtime error: invalid memory address or nil pointer dereference"), with_db w None)
  | None => (Ok tt, with_db w None)
  end.
Definition FailOnError {A} (r : result error A) (msg : string) : TM A :=
  match r with Ok a => ret a | Err err => fail (Exited (msg ++s ": " ++s Error err)) end.
Definition commit : TM unit := fun w =>
  FailOnError (match next w with Some err => Err err | None => Ok tt end) "Couldn't cleanly close transaction" (with_db w None).

(** [cmd.FailOnError(sa.Rollback(tx, err), msg)] when the step fails. *)
Definition or_rollback (m : TM unit) (msg : string) : TM unit :=
  let! r := try m in
  match r with
  | Ok _ => ret tt
  | Err (Failed err) => fun w =>
      FailOnError (Err (RollbackError err (next w))) msg (with_db w None)
  | Err stopped => fail stopped
  end.

Definition revokeBySerial (serial : string) (reasonCode : Z) : TM unit :=
  if (reasonCode <? 0) || (reasonCode =? 7) || (10 <? reasonCode) then
    fail (Panicked ("Invalid reason code: " ++s itoa reasonCode))
  else
    let! r := read (fun t => need ErrNoRows (certificates t !! coll serial)) in
    match r with
    | Err ErrNoRows => fail (Failed (BoulderError Berrors.NotFound ("certificate with serial " ++s Quote serial ++s " not found")))
    | Err err => fail (Failed err)
    | Ok certObj =>
        let! cert := returning (ParseCertificate (cert_DER certObj)) in
        match user_Current with
        | Err _ => fail (Panicked "runtime error: invalid memory address or nil pointer dereference")
        | Ok username =>
            let! r := remote (ra_AdministrativelyRevokeCertificate _ rac (cert, cert_DER certObj) reasonCode username) in
            do! returning r in
            say ("Revoked certificate " ++s serial ++s " with reason '" ++s ReasonToString reasonCode ++s "'")
        end
    end.

Definition select_serials (regID : Z) (t : Tables) : list string :=
  map cert_Serial (order (filter (fun cert => cert_RegistrationID cert = regID) (map_to_list (certificates t)).*2)).

Definition revokeByReg (regID reasonCode : Z) : TM unit :=
  let! r := read (fun t => Ok (select_serials regID t)) in
  let! certs := returning r in
  forM certs (fun serial => revokeBySerial serial reasonCode).

(** The commands of [main]. *)
Definition integer (func arg msg : string) : TM Z :=
  FailOnError (need (PlainError (num_error func arg)) (Atoi arg)) msg.

Definition serial_revoke (serial code : string) : TM unit :=
  let! reasonCode := integer "Atoi" code "Reason code argument must be an integer" in
  do! begin in
  do! or_rollback (revokeBySerial serial reasonCode) "Couldn't revoke certificate" in
  commit.

Definition reg_revoke (id code : string) : TM unit :=
  let! regID := integer "ParseInt" id "Registration ID argument must be an integer" in
  let! reasonCode := integer "Atoi" code "Reason code argument must be an integer" in
  do! begin in
  let! r := remote (sac_GetRegistration regID) in
  let! _ := FailOnError r "Couldn't fetch registration" in
  do! or_rollback (revokeByReg regID reasonCode) "Couldn't revoke certificate" in
  commit.

Definition nl : string := String "010" EmptyString.
Definition list_reasons : TM unit :=
  do! say ("Revocation reason codes" ++s nl ++s "-----------------------" ++s nl ++s nl) in
  forM (merge_sort Z.le (map_to_list reasons).*1) (fun k => say (itoa k ++s ": " ++s ReasonToString k ++s nl)).

Definition auth_revoke (domain : string) : TM unit :=
  let! r := remote (sac_RevokeAuthorizationsByDomain {| idType := IdentifierDNS; idValue := domain |}) in
  let! counts := FailOnError r ("Failed to revoke authorizations for " ++s domain) in
  let '(authsRevoked, pendingAuthsRevoked) := counts in
  say ("Revoked " ++s itoa pendingAuthsRevoked ++s " pending authorizations and " ++s itoa authsRevoked
       ++s " final authorizations" ++s nl).

Definition main (command : string) (args : list string) : TM unit :=
  match args with
  | [a; b] =>
      if String.eqb command "serial-revoke" then serial_revoke a b
      else if String.eqb command "reg-revoke" then reg_revoke a b
      else if String.eqb command "list-reasons" then list_reasons
      else fail (Exited "usage")
  | [a] =>
      if String.eqb command "list-reasons" then list_reasons
      else if String.eqb command "auth-revoke" then auth_revoke a
      else fail (Exited "usage")
  | _ => if String.eqb command "list-reasons" then list_reasons else fail (Exited "usage")
  end.

End tool.
Arguments Tool : clear implicits.

(** ** What is revoked *)

Definition revoked_with (reason : Z) (t : Tables) (k : string) : Prop :=
  exists row, certificateStatus t !! k = Some row /\ cs_Status row = OCSPStatusRevoked /\ cs_RevokedReason row = reason.

(** From [t] to [t'] only the status of certificates with [mine] has changed, to revoked
    for this reason. *)
Definition revokes (mine : string -> Prop) (reason : Z) (t t' : Tables) : Prop :=
  certificates t' = certificates t /\
  forall k, certificateStatus t' !! k = certificateStatus t !! k \/ mine k /\ revoked_with reason t' k.

Lemma revokes_done mine reason t t' k : revokes mine reason t t' -> revoked_with reason t k -> revoked_with reason t' k.
Proof. intros [_ H] (row & E & Hr). destruct (H k) as [Ek|[_ ?]]; [|done]. exists row. by rewrite Ek. Qed.

#[global] Instance revokes_preorder mine reason : PreOrder (revokes mine reason).
Proof.
  split; [by intros t; split; [|by left]|]. intros t1 t2 t3 [C1 S1] H2. pose proof H2 as [C2 S2]. split; [congruence|].
  intros k. destruct (S2 k) as [E2|?]; [|by right]. destruct (S1 k) as [E1|[? Hr]]; [left; congruence|].
  right. split; [done|]. by eapply revokes_done.
Qed.

Lemma revokes_mono (mine mine' : string -> Prop) reason t t' : (forall k, mine k -> mine' k) -> revokes mine reason t t' -> revokes mine' reason t t'.
Proof. intros Hm [C H]. split; [done|]. intros k. destruct (H k) as [|[]]; auto. Qed.

Definition certs_keyed {Q : SQL} (t : Tables) : Prop := forall k c, certificates t !! k = Some c -> k = coll (cert_Serial c).
Definition of_account (regID : Z) (t : Tables) (k : string) : Prop :=
  exists c, certificates t !! k = Some c /\ cert_RegistrationID c = regID.

(** What the tool relies on. *)
Class Peers {GL : GoLib} {X : X509} {Q : SQL} {S} (tables : S -> Tables) (rac : RegistrationAuthority S)
    (sac_GetRegistration : Z -> M S error Registration) (ok : S -> Prop) := {
  pe_revoke x der reason user s r s' : ok s -> ParseCertificate der = Ok x ->
    ra_AdministrativelyRevokeCertificate _ rac (x, der) reason user s = (r, s') ->
    let k := coll (SerialToString (x5_SerialNumber x)) in
    ok s' /\ revokes (eq k) reason (tables s) (tables s') /\ (is_ok r = true -> revoked_with reason (tables s') k);
  pe_lookup id s r s' : ok s -> sac_GetRegistration id s = (r, s') -> ok s' /\ tables s' = tables s
}.

Section revoking.
Context {GL : GoLib} {Cr : Crypto} {X : X509} {Q : SQL} {S : Type}.
Context (tables : S -> Tables) (order : list Certificate -> list Certificate).
Context (rac : RegistrationAuthority S) (sac_GetRegistration : Z -> M S error Registration) (user_Current : result error string).
Context (ok : S -> Prop) {P : Peers tables rac sac_GetRegistration ok}.
Context (t0 : Tables) (Hkeyed : certs_keyed t0) (Hfaithful : SaCertificates.all_faithful t0).
Context (regID reason : Z).
Notation mine := (of_account regID t0).

(** The state while the certificates of an account are being revoked. *)
Definition going (w : Tool S) : Prop :=
  ok (peers w) /\ revokes mine reason t0 (tables (peers w)) /\
  certificates (default (tables (peers w)) (snapshot w)) = certificates t0.

(** Nothing else has been touched on the way from [w] to [w']. *)
Definition onwards (w w' : Tool S) : Prop := going w' /\ revokes mine reason (tables (peers w)) (tables (peers w')).
Lemma onwards_refl w w' : going w' -> peers w' = peers w -> onwards w w'.
Proof. intros H E. split; [done|]. by rewrite E. Qed.
Lemma onwards_trans w w1 w' : onwards w w1 -> onwards w1 w' -> onwards w w'.
Proof. intros [_ H1] [H H2]. split; [done|]. by etrans. Qed.
#[local] Ltac stops H := injection H as <- <-; split; [by apply onwards_refl|done].

Lemma read_going {A} (f : Tables -> result error A) w r w' : going w -> read tables f w = (r, w') ->
  going w' /\ peers w' = peers w /\
  exists x, r = Ok x /\ forall a, x = Ok a -> exists t, certificates t = certificates t0 /\ f t = Ok a.
Proof.
  unfold read, going. intros (Hok & Hr & Hc) H. destruct (next w); injection H as <- <-; simpl; (split; [done|]); (split; [done|]).
  - eexists. split; [done|]. by intros ? [=].
  - eexists. split; [done|]. intros a Ha. eauto.
Qed.

Lemma revokeBySerial_going serial w r w' : mine (coll serial) -> going w ->
  revokeBySerial tables rac user_Current serial reason w = (r, w') ->
  onwards w w' /\ (is_ok r = true -> revoked_with reason (tables (peers w')) (coll serial)).
Proof.
  intros (c & Hc & Hreg) Hw H. unfold revokeBySerial in H. destruct (_ || _); [stops H|].
  unfold mbindM at 1 in H. destruct (read _ _ w) as [x w1] eqn:E1.
  apply (read_going _ w) in E1 as (Hw1 & Hp & y & -> & Hy); [|done].
  destruct y as [cert|e]; [|destruct e; stops H].
  destruct (Hy _ eq_refl) as (t & Et & Ht). rewrite Et, Hc in Ht. injection Ht as <-.
  destruct (Hfaithful _ _ Hc) as (x & HP & Hs & _). rewrite HP in H. cbn [returning] in H. unfold mbindM at 1, ret at 1 in H.
  destruct user_Current as [username|]; [|stops H].
  unfold mbindM at 1, remote in H. destruct (ra_AdministrativelyRevokeCertificate _ _ _ _ _ _) as [y s'] eqn:E2.
  destruct Hw1 as (Hok & Hr & Hcs). eapply pe_revoke in E2 as (Hok' & Hr' & Hd); [|done..].
  rewrite <- Hs, <- (Hkeyed _ _ Hc) in Hr', Hd. apply (revokes_mono _ mine) in Hr'; [|intros ? <-; by exists c].
  assert (onwards w (with_peers w1 s')) as Hw2.
  { split; [|by rewrite <- Hp]. split; [done|]. split; [by etrans|].
    destruct Hr as [Er _], Hr' as [Er' _]. simpl. destruct (snapshot w1); simpl in *; congruence. }
  destruct y as [[]|e]; [|by injection H as <- <-]. cbn in H. injection H as <- <-. split; [done|]. intros _. by apply Hd.
Qed.

Lemma serials_going serials : Forall (fun serial => mine (coll serial)) serials -> forall w r w', going w ->
  forM serials (fun serial => revokeBySerial tables rac user_Current serial reason) w = (r, w') ->
  onwards w w' /\ (is_ok r = true -> Forall (fun serial => revoked_with reason (tables (peers w')) (coll serial)) serials).
Proof.
  induction serials as [|serial serials IH]; intros Hs w r w' Hw H; [injection H as <- <-; split; [by apply onwards_refl|constructor]|].
  apply Forall_cons in Hs as [Hm Hs]. simpl in H. unfold mbindM in H.
  destruct (revokeBySerial _ _ _ _ _ w) as [r1 w1] eqn:E1. apply revokeBySerial_going in E1 as [Ho Hd]; [|done..].
  destruct r1 as [[]|]; [|by injection H as <- <-]. apply IH in H as [Ho' Hd']; [|done|by destruct Ho].
  split; [by eapply onwards_trans|]. intros Hr. constructor; [|auto]. eapply revokes_done; [apply Ho'|auto].
Qed.

Lemma select_serials_spec t : (forall l, order l ≡ₚ l) -> certificates t = certificates t0 ->
  Forall (fun serial => mine (coll serial)) (select_serials order regID t) /\
  forall k, mine k -> exists serial, serial ∈ select_serials order regID t /\ k = coll serial.
Proof.
  intros Ho Et. unfold select_serials. rewrite Et. split.
  - apply Forall_forall. intros serial (c & -> & Hc)%list_elem_of_fmap. rewrite Ho in Hc.
    apply list_elem_of_filter in Hc as [Hreg Hc]. apply list_elem_of_fmap in Hc as ([k c'] & -> & Hc).
    apply elem_of_map_to_list in Hc. exists c'. simpl. by rewrite <- (Hkeyed _ _ Hc).
  - intros k (c & Hc & Hreg). exists (cert_Serial c). split; [|by apply Hkeyed]. apply list_elem_of_fmap_2. rewrite Ho.
    apply list_elem_of_filter. split; [done|]. apply (list_elem_of_fmap_2 snd _ (k, c)). by apply elem_of_map_to_list.
Qed.

Lemma revokeByReg_going w r w' : (forall l, order l ≡ₚ l) -> going w ->
  revokeByReg tables order rac user_Current regID reason w = (r, w') ->
  onwards w w' /\ (is_ok r = true -> forall k, mine k -> revoked_with reason (tables (peers w')) k).
Proof.
  intros Ho Hw H. unfold revokeByReg, mbindM at 1 in H. destruct (read _ _ w) as [x w1] eqn:E1.
  apply (read_going _ w) in E1 as (Hw1 & Hp & y & -> & Hy); [|done].
  destruct y as [serials|]; [|stops H].
  destruct (Hy _ eq_refl) as (t & Et & [= <-]). destruct (select_serials_spec t Ho Et) as [Hs Hall].
  cbn [returning] in H. unfold mbindM at 1, ret at 1 in H. apply serials_going in H as [Hon Hd]; [|done..].
  split; [by eapply onwards_trans; [apply onwards_refl|]|]. intros Hr k Hk. destruct (Hall k Hk) as (serial & Hin & ->).
  by apply (proj1 (Forall_forall _ _) (Hd Hr)).
Qed.

Lemma or_rollback_going (m : TM unit) msg (w : Tool S) r w' : or_rollback m msg w = (r, w') ->
  exists r1 w1, m w = (r1, w1) /\ peers w' = peers w1 /\ (is_ok r = true -> r1 = Ok tt).
Proof.
  unfold or_rollback, mbindM, try. destruct (m w) as [r1 w1]. intros H. exists r1, w1. split; [done|].
  destruct r1 as [[]|[]]; injection H as <- <-; done.
Qed.

(** The whole command. *)
Lemma reg_revoke_revokes id code w r w' : (forall l, order l ≡ₚ l) -> Atoi id = Some regID -> Atoi code = Some reason ->
  ok (peers w) -> t0 = tables (peers w) ->
  reg_revoke tables order rac sac_GetRegistration user_Current id code w = (r, w') ->
  revokes mine reason t0 (tables (peers w')) /\
  (is_ok r = true -> forall k, mine k -> revoked_with reason (tables (peers w')) k).
Proof.
  intros Ho Hid Hcode Hok Ht H. unfold reg_revoke, integer in H. rewrite Hid, Hcode in H. cbn [need FailOnError] in H.
  do 2 (unfold mbindM at 1, ret at 1 in H). unfold mbindM at 1, begin in H.
  destruct (next w); [injection H as <- <-; simpl; by rewrite <- Ht|].
  unfold mbindM at 1, remote in H. simpl peers in H. destruct (sac_GetRegistration regID (peers w)) as [r1 s1] eqn:E1.
  apply pe_lookup in E1 as [Hok1 Hs1]; [|done]. set (w1 := with_peers _ s1) in H.
  assert (going w1) as Hw1 by (unfold going; simpl; rewrite Hs1, <- Ht; by split_and!).
  unfold mbindM at 1 in H. destruct r1 as [reg|]; [|injection H as <- <-; split; [apply Hw1|done]].
  cbn [FailOnError] in H. unfold ret at 1, mbindM in H. destruct (or_rollback _ _ w1) as [r2 w2] eqn:E2.
  apply or_rollback_going in E2 as (r3 & w3 & E3 & Hp & Hr2). apply revokeByReg_going in E3 as [[(_ & Hr3 & _) _] Hd]; [|done..].
  assert (peers w' = peers w2 /\ (is_ok r = true -> is_ok r2 = true)) as [-> Hr].
  { destruct r2 as [[]|]; [|by injection H as <- <-]. unfold commit in H. destruct (next w2); by injection H as <- <-. }
  rewrite Hp. split; [done|]. intros Hrok. apply Hd. by rewrite Hr2 by auto.
Qed.

End revoking.

(** ** The deployment *)

Section deployment.
Context {GL : GoLib} {Cr : Crypto} {EC : Elliptic} {X : X509} {PE : Policy.PolicyEnv} {SG : Signers}
        {Q : SQL} {SL : SQLLaws Q} {J : StorageJSON} {PJ : Bcodes.PdJSON} {PB : PbJSON} {PBL : PbJSONLaws PB}
        {CP : CSRParser} {PA : PolicyAuthority} {RE : RAEnv}.
Context (fs : Features.state) (fuel : nat) (cfg : RA.Config) (ca : CA.CertificateAuthorityImpl).
Notation W := (RA.World (World * CA.CAState)).

Definition stored (w : W) : Tables := db (fst (RA.sa w)).
Definition at_storage {A} (m : M World error A) : M W error A := fun w =>
  let '(r, s) := m (fst (RA.sa w)) in (r, RA.set_sa w (s, snd (RA.sa w))).
Definition deployed_ra : RegistrationAuthority W := RaWrappers.remote_ra (System.local_ra fs fuel cfg ca).
Definition deployed_lookup (id : Z) : M W error Registration :=
  at_storage (GrpcStorage.GetRegistration _ (SaWrappers.remote_lookups (System.local_lookups fs)) id).

(** The connection is idle, and rows of statuses are filed under their own keys. *)
Definition status_keyed (t : Tables) : Prop := forall k c, certificateStatus t !! k = Some c -> k = coll (cs_Serial c).
Definition at_rest (w : W) : Prop := tx (fst (RA.sa w)) = None /\ status_keyed (stored w).

Lemma revoke_row serial reason now v row t : status_keyed t -> certificateStatus t !! coll serial = Some row ->
  let t' := set_certs t (issuedNames t) (certificates t)
    (<[coll (cs_Serial row) := Storage.set_version (Storage.revoke_status row now reason) v]> (certificateStatus t)) in
  status_keyed t' /\ revokes (eq (coll serial)) reason t t' /\ revoked_with reason t' (coll serial).
Proof.
  intros Hk Hrow. rewrite <- (Hk _ _ Hrow). intros t'. assert (revoked_with reason t' (coll serial)) as Hr.
  { eexists. unfold t'. simpl. rewrite lookup_insert_eq. by split_and!. }
  split_and!; [|split; [done|]|done]; intros k; destruct (decide (coll serial = k)) as [<-|Hne].
  - intros c. unfold t'. simpl. rewrite lookup_insert_eq. intros [= <-]. by apply Hk in Hrow.
  - intros c. unfold t'. simpl. rewrite lookup_insert_ne by done. apply Hk.
  - by right.
  - left. unfold t'. simpl. by rewrite lookup_insert_ne.
Qed.

Lemma mark_revokes serial reason w r w' :
  tx w = None -> status_keyed (db w) -> Storage.MarkCertificateRevoked serial reason w = (r, w') ->
  tx w' = None /\ status_keyed (db w') /\
  revokes (eq (coll serial)) reason (db w) (db w') /\ (is_ok r = true -> revoked_with reason (db w') (coll serial)).
Proof.
  intros Htx Hk H. unfold Storage.MarkCertificateRevoked, mbindM at 1, try at 1 in H.
  destruct (Storage.GetCertificate serial w) as [r1 w1] eqn:E1. apply OcspChecks.GetCertificate_reading in E1 as (_ & D1 & T1).
  destruct r1 as [c|]; [|by injection H as <- <-; rewrite D1, T1]. unfold mbindM at 1, try at 1 in H.
  destruct (Storage.GetCertificateStatus serial w1) as [r2 w2] eqn:E2.
  apply OcspChecks.GetCertificateStatus_reading in E2 as (_ & D2 & T2). rewrite D1 in D2. rewrite T1, Htx in T2.
  destruct r2 as [c2|]; [|by injection H as <- <-; rewrite D2, T2].
  apply (SaTransactions.in_tx_atomic _ (fun _ t t' => status_keyed t -> status_keyed t' /\
    revokes (eq (coll serial)) reason t t' /\ revoked_with reason t' (coll serial))) in H.
  - rewrite D2 in H. destruct H as [HT H]. split; [done|].
    destruct r; [destruct (H Hk) as (? & ? & ?); by split_and!|]. destruct H as [->|[a H]]; [done|].
    destruct (H Hk) as (? & ? & ?). by split_and!.
  - intros w0 a w3 Hb Hk0. apply OcspChecks.mark_body in Hb as (row & Hrow & ->). by apply revoke_row.
  - unfold Storage.SelectCertificateStatus, Storage.update_status. frame. by statement.
  - done.
Qed.

(** The remote call to the RA is one remote call to the storage authority. *)
Lemma deployed_revocation x der reason user (s : W) r s' : ParseCertificate der = Ok x ->
  ra_AdministrativelyRevokeCertificate _ deployed_ra (x, der) reason user s = (r, s') ->
  exists r0, Storage.MarkCertificateRevoked (SerialToString (x5_SerialNumber x)) reason (fst (RA.sa s)) = (r0, fst (RA.sa s')) /\
    is_ok r = is_ok r0.
Proof.
  intros HP H. unfold deployed_ra in H. rewrite GrpcServers.remote_AdministrativelyRevokeCertificate in H.
  cbn [GrpcServers.wire_ra ra_AdministrativelyRevokeCertificate snd] in H. unfold carry in H at 1.
  rewrite lift_run, HP in H. cbn [System.local_ra ra_AdministrativelyRevokeCertificate fst] in H.
  set (serial := SerialToString (x5_SerialNumber x)).
  destruct (Storage.MarkCertificateRevoked serial reason (fst (RA.sa s))) as [r0 w'] eqn:E. exists r0.
  assert (exists r1, sa_MarkCertificateRevoked (StorageAuthority := @CaIssuance.product_storage _ (System.grpc_storage fs fuel))
    serial reason (RA.sa s) = (r1, (w', snd (RA.sa s))) /\ is_ok r1 = is_ok r0) as (r1 & E1 & <-).
  { destruct (RA.sa s) as [w c]. cbn [sa_MarkCertificateRevoked CaIssuance.product_storage]. unfold CaIssuance.on_storage, CA.storage.
    exists (fst (carry (Storage.MarkCertificateRevoked serial reason) w)). simpl fst in E. simpl snd.
    change (sa_MarkCertificateRevoked serial reason) with
      (GrpcStorage.MarkCertificateRevoked _ (SaWrappers.remote_updates (System.local_updates fs fuel)) serial reason).
    rewrite (proj1 (proj2 (proj2 (proj2 (proj2 (proj2 (updates_over_rpc (System.local_updates fs fuel)))))))).
    cbn [GrpcRefinement.wire_updates GrpcStorage.MarkCertificateRevoked System.local_updates]. unfold carry. rewrite E. by destruct r0. }
  unfold RA.AdministrativelyRevokeCertificate, RA.revoke, mbindM, try, RA.rpc, ret, lift in H. fold serial in H.
  rewrite E1 in H. destruct r1 as [[]|]; by injection H as <- <-.
Qed.

#[local] Existing Instance OcspChecks.same_tables_preorder.
Lemma deployed_lookup_reads id : preserves (inside OcspChecks.same_tables)
  (GrpcStorage.GetRegistration _ (SaWrappers.remote_lookups (System.local_lookups fs)) id).
Proof.
  eapply preserves_ext; [intros; apply (proj1 (lookups_over_rpc (System.local_lookups fs)))|].
  apply preserves_carry. cbn [GrpcStorage.GetRegistration System.local_lookups]. apply preserves_bind; [apply _| |].
  - unfold Storage.GetRegistration, Storage.selectRegistration_by_id. frame.
  - intros reg. apply preserves_lift; apply _.
Qed.

#[export] Instance deployed_peers : Peers stored deployed_ra deployed_lookup at_rest.
Proof.
  split.
  - intros x der reason user s r s' [Htx Hk] HP H k. apply deployed_revocation in H as (r0 & H & ->); [|done].
    apply mark_revokes in H as (? & ? & ? & ?); [|done..]. by split_and!.
  - intros id s r s' [Htx Hk] H. unfold deployed_lookup, at_storage in H.
    destruct (GrpcStorage.GetRegistration _ _ id _) as [r1 w1] eqn:E. injection H as <- <-.
    apply deployed_lookup_reads in E as [T D]. unfold at_rest, stored in *. simpl. by rewrite D, T.
Qed.

(** C22. The operator revokes an account's certificates.  Against the deployed RA and
    storage authority, whatever calls fail: the command changes no certificate and no
    status but those of the account's certificates, and these only to revoked, for the
    given reason.  When it ends without an error, every certificate the account had
    when it began is revoked for that reason. *)
Theorem reg_revoke_exact order user_Current id code regID reason (w : Tool W) r w' :
  (forall l, order l ≡ₚ l) -> Atoi id = Some regID -> Atoi code = Some reason ->
  tx (fst (RA.sa (peers w))) = None -> wf (stored (peers w)) -> SaCertificates.all_faithful (stored (peers w)) ->
  reg_revoke stored order deployed_ra deployed_lookup user_Current id code w = (r, w') ->
  revokes (of_account regID (stored (peers w))) reason (stored (peers w)) (stored (peers w')) /\
  (is_ok r = true -> forall k, of_account regID (stored (peers w)) k -> revoked_with reason (stored (peers w')) k).
Proof.
  intros Ho Hid Hcode Htx Hwf Hf H.
  apply (reg_revoke_revokes stored order deployed_ra deployed_lookup user_Current at_rest
    (stored (peers w))) with (regID := regID) (reason := reason) in H; try done.
  - intros k c Hc. by destruct (wf_certificates _ Hwf _ _ Hc).
  - split; [done|]. intros k c Hc. by destruct (wf_status _ Hwf _ _ Hc).
Qed.

End deployment.
End AdminRevoker.
