(* ===== verification/ExpirationMailer.v ===== *)
(** * cmd/expiration-mailer: notices of expiring certificates

    The mailer looks for certificates that expire soon, for one interval before expiry
    after the other, writes to the contacts of their accounts, and notes in the database
    that it did.  The storage authority that is asked for accounts, the mail server
    behind [bmail.Mailer], the two templates and the order in which Go ranges over a map
    are parameters.  Statistics, the log and the configuration are left out. *)

From S2P Require Import Prelude GoStd GoTime Backoff Errors Core Grpc Csr Database Storage SaFrame RegistrationAuthority.

Module ExpirationMailer.
Import Backoff.

(** A function returns an error, or panics. *)
Inductive stop := Failed (err : error) | Panicked (message : string).

Record mailer := { nagTimes : list Z; limit : Z }.

(** What the email template is filled in with. *)
Record email := { ExpirationDate : string; DaysToExpiration : Z; DNSNames : string }.

(** Calls of [bmail.Mailer]; the n-th of them has the n-th outcome. *)
Inductive call := Connect | SendMail (to : list string) (subject msg : string) | Close.
Record EM := { base : World; calls : list call; outcomes : nat -> option error }.

Section mailer.
Context {GL : GoLib} {X : X509} {Q : SQL} {RE : RAEnv}.
Context (GetRegistration : Z -> DB Registration).
Context (subjectTemplate : string -> result error string) (emailTemplate : email -> result error string).
Context (range : list (Z * list Certificate) -> list (Z * list Certificate)).

Definition NM (A : Type) : Type := M EM stop A.

(** A step on the database or the clock, and its error as the caller gets it. *)
Definition asking {A} (m : DB A) : NM (result error A) := fun w =>
  let '(r, b) := m (base w) in (Ok r, {| base := b; calls := calls w; outcomes := outcomes w |}).
Definition checked {A} (r : result error A) : NM A :=
  match r with Ok a => ret a | Err err => fail (Failed err) end.
Definition now : NM Z := let! r := asking Now in checked r.
Definition mail (c : call) : NM (result error unit) := fun w =>
  (Ok match outcomes w (length (calls w)) with None => Ok tt | Some err => Err err end,
   {| base := base w; calls := calls w ++ [c]; outcomes := outcomes w |}).

(** The addresses among the contacts. *)
Definition mailto (contact : string) : list string :=
  match url_Parse contact with
  | Some (scheme, opaque) => if String.eqb scheme "mailto" then [opaque] else []
  | None => []
  end.

(** The expiration date that is closest to being hit. *)
Fixpoint soonest (certs : list X509Certificate) (expiresIn expDate : Z) : NM (Z * Z) :=
  match certs with
  | [] => ret (expiresIn, expDate)
  | cert :: certs' =>
      let! t := now in
      let possible := time_Sub (x5_NotAfter cert) t in
      if possible <? expiresIn then soonest certs' possible (x5_NotAfter cert) else soonest certs' expiresIn expDate
  end.

(** [int(d.Hours() / 24)]. *)
Definition days (d : Z) : Z :=
  let hours := f_add (f_of_int (Z.quot d Hour)) (f_div (f_of_int (Z.rem d Hour)) (f_of_int Hour)) in
  f_to_int (f_div hours (f_of_int 24)).

Definition subject_of (domains : list string) : option string :=
  match domains with
  | [] => None
  | d :: rest => Some (Quote d ++s match rest with [] => EmptyString | _ => " (and " ++s itoa (Z.of_nat (length rest)) ++s " more)" end)
  end.

Definition sendNags (contacts : list string) (certs : list X509Certificate) : NM unit :=
  if bool_decide (contacts = []) then ret tt
  else if bool_decide (certs = []) then fail (Failed (PlainError "no certs given to send nags for"))
  else
    let emails := flat_map mailto contacts in
    if bool_decide (emails = []) then ret tt
    else
      let! expDate := now in
      let! soon := soonest certs MaxInt64 expDate in
      let '(expiresIn, expDate) := soon in
      let domains := sort_strings (UniqueLowerNames (flat_map x5_DNSNames certs)) in
      match subject_of domains with
      | None => fail (Panicked "runtime error: index out of range")
      | Some expiringSubject =>
          let! subject := checked (subjectTemplate expiringSubject) in
          let! msg := checked (emailTemplate {| ExpirationDate := GoTime.RFC822Z expDate; DaysToExpiration := days expiresIn;
                                                DNSNames := join (String "010" EmptyString) domains |}) in
          let! _ := now in
          let! r := mail (SendMail emails subject msg) in
          do! checked r in
          let! _ := now in
          ret tt
      end.

Definition with_nag (row : CertificateStatus) (t : Z) : CertificateStatus :=
  {| cs_Serial := cs_Serial row; cs_SubscriberApproved := cs_SubscriberApproved row; cs_Status := cs_Status row;
     cs_OCSPLastUpdated := cs_OCSPLastUpdated row; cs_RevokedDate := cs_RevokedDate row;
     cs_RevokedReason := cs_RevokedReason row; cs_LastExpirationNagSent := t; cs_OCSPResponse := cs_OCSPResponse row;
     cs_NotAfter := cs_NotAfter row; cs_IsExpired := cs_IsExpired row; cs_LockCol := cs_LockCol row |}.

Definition updateCertStatus (serial : string) : DB unit :=
  let! t := Now in
  Database.call (fun tb => Ok (tt, set_certs tb (issuedNames tb) (certificates tb)
    (alter (fun row => with_nag row t) (coll serial) (certificateStatus tb)))).

(** A later set of the same names; a serial has one set. *)
Definition renewed_by (a b : FQDNSet) : bool := String.eqb (fs_SetHash a) (fs_SetHash b) && (fs_Issued a <? fs_Issued b).
Definition is_renewed (t : Tables) (serial : string) : bool :=
  existsb (fun a => Storage.ceq (fs_Serial a) serial && existsb (renewed_by a) (fqdnSets t)) (fqdnSets t).
Definition certIsRenewed (serial : string) : DB bool := query (fun t => Ok (is_renewed t serial)).

Definition regIDToCerts (allCerts : list Certificate) : gmap Z (list Certificate) :=
  foldl (fun m cert => <[cert_RegistrationID cert := default [] (m !! cert_RegistrationID cert) ++ [cert]]> m) ∅ allCerts.

(** The certificates of an account that have not been renewed; those that have are noted. *)
Fixpoint not_renewed (certs : list Certificate) : NM (list X509Certificate) :=
  match certs with
  | [] => ret []
  | cert :: certs' =>
      match ParseCertificate (cert_DER cert) with
      | Err _ => not_renewed certs'
      | Ok parsedCert =>
          let! renewed := asking (certIsRenewed (cert_Serial cert)) in
          match renewed with
          | Ok true => let! _ := asking (updateCertStatus (cert_Serial cert)) in not_renewed certs'
          | _ => let! parsedCerts := not_renewed certs' in ret (parsedCert :: parsedCerts)
          end
      end
  end.

Definition process_account (regID : Z) (certs : list Certificate) : NM unit :=
  let! r := asking (GetRegistration regID) in
  match r with
  | Err _ => ret tt
  | Ok reg =>
      let! parsedCerts := not_renewed certs in
      if bool_decide (parsedCerts = []) then ret tt
      else
        match reg_Contact reg with
        | None => ret tt
        | Some contacts =>
            let! r := try (sendNags contacts parsedCerts) in
            match r with
            | Err (Failed _) => ret tt
            | Err panic => fail panic
            | Ok _ => forM parsedCerts (fun cert =>
                        let! _ := asking (updateCertStatus (SerialToString (x5_SerialNumber cert))) in ret tt)
            end
        end
  end.

Definition processCerts (allCerts : list Certificate) : NM unit :=
  let! r := mail Connect in
  match r with
  | Err _ => ret tt
  | Ok _ =>
      let! r := try (forM (range (map_to_list (regIDToCerts allCerts))) (fun '(regID, certs) => process_account regID certs)) in
      let! _ := mail Close in
      match r with Ok _ => ret tt | Err panic => fail panic end
  end.

(** [COALESCE(TIMESTAMPDIFF(SECOND, lastExpirationNagSent, notAfter) > nagCutoff, 1)];
    the difference is in whole seconds, and there is none with a zero date. *)
Definition nag_due (expiresIn : Z) (row : CertificateStatus) : bool :=
  time_IsZero (cs_LastExpirationNagSent row)
  || (expiresIn <? Z.quot (cs_NotAfter row - cs_LastExpirationNagSent row) Second * Second).
Definition expiring (left right expiresIn : Z) (row : CertificateStatus) : bool :=
  (left <? cs_NotAfter row) && (cs_NotAfter row <=? right) && negb (Storage.ceq (cs_Status row) OCSPStatusRevoked)
  && nag_due expiresIn row.

Definition notAfter_le (a b : CertificateStatus) : Prop := cs_NotAfter a <= cs_NotAfter b.
#[global] Instance notAfter_le_dec a b : Decision (notAfter_le a b).
Proof. unfold notAfter_le. apply _. Defined.

Definition select_expiring (m : mailer) (left right expiresIn : Z) : DB (list string) :=
  query (fun t =>
    if limit m <? 0 then Err (PlainError "Error 1064: You have an error in your SQL syntax")
    else Ok (map cs_Serial (take (Z.to_nat (limit m)) (merge_sort notAfter_le
           (filter (fun row => expiring left right expiresIn row = true) (map_to_list (certificateStatus t)).*2))))).

Definition select_cert (serial : string) : DB Certificate :=
  query (fun t => need ErrNoRows (certificates t !! coll serial)).

Fixpoint load_certs (serials : list string) : NM (list Certificate) :=
  match serials with
  | [] => ret []
  | serial :: serials' =>
      let! r := asking (select_cert serial) in
      let! cert := checked r in
      let! certs := load_certs serials' in
      ret (cert :: certs)
  end.

(** The loop over [m.nagTimes]; [left] is where the previous interval ended. *)
Fixpoint nag_groups (m : mailer) (t left : Z) (times : list Z) : NM unit :=
  match times with
  | [] => ret tt
  | expiresIn :: times' =>
      let right := time_Add t expiresIn in
      let! r := asking (select_expiring m left right expiresIn) in
      let! serials := checked r in
      let! certs := load_certs serials in
      do! (if bool_decide (certs = []) then ret tt
           else let! _ := now in do! processCerts certs in let! _ := now in ret tt) in
      nag_groups m t right times'
  end.

Definition findExpiringCertificates (m : mailer) : NM unit :=
  let! t := now in nag_groups m t t (nagTimes m).

End mailer.

(** ** Notices are warranted *)

Section warranted.
Context {GL : GoLib} {X : X509} {Q : SQL} {RE : RAEnv}.
Context (GetRegistration : Z -> DB Registration).
Context (subjectTemplate : string -> result error string) (emailTemplate : email -> result error string).
Context (range : list (Z * list Certificate) -> list (Z * list Certificate)).
Context (Hrange : forall l, range l ≡ₚ l).
(** When the run starts. *)
Context (start : Z).

(** Only the times of notices have changed, to times of the run. *)
Definition touched (t t' : Tables) : Prop :=
  exists rows, t' = set_certs t (issuedNames t) (certificates t) rows /\
    forall k, rows !! k = certificateStatus t !! k \/
      exists row n, certificateStatus t !! k = Some row /\ rows !! k = Some (with_nag row n) /\ start <= n.

#[export] Instance touched_preorder : PreOrder touched.
Proof.
  split; [intros t; exists (certificateStatus t); split; [by destruct t|by left]|].
  intros t1 t2 t3 (r2 & -> & H2) (r3 & -> & H3). exists r3. split; [done|]. intros k.
  destruct (H3 k) as [E3|(row & n & E & E3 & Hn)]; simpl in *.
  - rewrite E3. apply H2.
  - destruct (H2 k) as [E2|(row' & n' & E1 & E2 & _)]; right.
    + exists row, n. by rewrite <- E2.
    + exists row', n. rewrite E2 in E. injection E as <-. by rewrite E3.
Qed.

(** A step on the database: time goes on, and no faults come up where there are none. *)
Definition db_step (b b' : World) : Prop :=
  Forall (Z.le 0) (w_ticks b) -> start <= w_now b ->
  Forall (Z.le 0) (w_ticks b') /\ start <= w_now b' /\ touched (db b) (db b') /\ (w_faults b = [] -> w_faults b' = []).
#[export] Instance db_step_preorder : PreOrder db_step.
Proof.
  split; [unfold db_step; by auto|]. intros b1 b2 b3 H1 H2 Ht Hn. destruct (H1 Ht Hn) as (Ht2 & Hn2 & T2 & F2).
  destruct (H2 Ht2 Hn2) as (Ht3 & Hn3 & T3 & F3). split_and!; [done|done|by etrans|auto].
Qed.

(** A step of the mailer: the calls it makes have [P]. *)
Definition follows (P : call -> Prop) (w w' : EM) : Prop :=
  db_step (base w) (base w') /\ outcomes w' = outcomes w /\ exists new, calls w' = calls w ++ new /\ Forall P new.
#[export] Instance follows_preorder P : PreOrder (follows P).
Proof.
  split; [intros w; split_and!; [done|done|exists []; by rewrite app_nil_r]|].
  intros w1 w2 w3 (D2 & O2 & n2 & C2 & P2) (D3 & O3 & n3 & C3 & P3). split_and!; [by etrans|congruence|].
  exists (n2 ++ n3). rewrite C3, C2, app_assoc. split; [done|by apply Forall_app].
Qed.
Lemma follows_mono (P P' : call -> Prop) w w' : (forall c, P c -> P' c) -> follows P w w' -> follows P' w w'.
Proof. intros H (D & O & new & C & HP). split_and!; [done|done|]. exists new. split; [done|]. by eapply Forall_impl. Qed.

Lemma Now_step : preserves db_step Now.
Proof.
  intros b r b' [= <- <-] Ht Hn. simpl. destruct Ht as [|d ds Hd Hds]; simpl; split_and!; auto; try lia; reflexivity.
Qed.

Lemma call_step {A} (stmt : Tables -> result error (A * Tables)) b r b' :
  (start <= w_now b -> forall a t, stmt (db b) = Ok (a, t) -> touched (db b) t) ->
  Database.call stmt b = (r, b') -> db_step b b'.
Proof.
  intros Hs H Ht Hn. specialize (Hs Hn). unfold Database.call in H.
  assert (w_ticks b' = w_ticks b /\ w_now b' = w_now b /\ (db b' = db b \/ exists a t, stmt (db b) = Ok (a, t) /\ db b' = t) /\
    w_faults b' = tail (w_faults b)) as (-> & -> & Hd & Hf).
  { destruct (next_fault b) as [f|]; destruct (stmt (db b)) as [[a t]|e]; [destruct (f_applied f)|..]; injection H as <- <-; eauto 10. }
  split_and!; [done|done| |intros E; by rewrite Hf, E].
  destruct Hd as [->|(a & t & E & ->)]; [done|by eapply Hs].
Qed.

Lemma query_step {A} (q : Tables -> result error A) : preserves db_step (query q).
Proof.
  intros b r b'. apply call_step. intros _ a t. destruct (q (db b)); [|done]. intros [= <- <-]. reflexivity.
Qed.

Lemma update_step serial : preserves db_step (updateCertStatus serial).
Proof.
  intros b r b' H. unfold updateCertStatus in H. rewrite bind_Now in H. intros Ht Hn.
  destruct (Now_step b (Ok (w_now b)) (pop_tick b) eq_refl Ht Hn) as (Ht1 & Hn1 & T1 & F1).
  assert (db_step (pop_tick b) b') as D.
  { eapply call_step, H. intros _ a t [= <- <-]. eexists. split; [done|]. intros k.
    destruct (decide (coll serial = k)) as [<-|Hne]; [|left; by rewrite lookup_alter_ne].
    rewrite lookup_alter_eq. simpl. destruct (certificateStatus (db b) !! coll serial) as [row|] eqn:E; [|by left].
    right. exists row, (w_now b). auto. }
  destruct (D Ht1 Hn1) as (? & ? & ? & ?). split_and!; [done|done|done|auto].
Qed.

Lemma asking_follows {A} P (m : DB A) : preserves db_step m -> preserves (follows P) (asking m).
Proof.
  intros Hm w r w' H. unfold asking in H. destruct (m (base w)) as [x b] eqn:E. injection H as <- <-.
  apply Hm in E. split_and!; [done|done|]. exists []. by rewrite app_nil_r.
Qed.
(** The same, with what was answered. *)
Lemma asking_run {A} P (m : DB A) w q w' : preserves db_step m -> asking m w = (q, w') ->
  follows P w w' /\ exists y, q = Ok y /\ m (base w) = (y, base w').
Proof.
  intros Hm H. split; [by eapply asking_follows|]. unfold asking in H. destruct (m (base w)) as [y b].
  injection H as <- <-. eauto.
Qed.
Lemma certIsRenewed_step serial : preserves db_step (certIsRenewed serial).
Proof. apply query_step. Qed.

Lemma now_follows P : preserves (follows P) now.
Proof.
  unfold now. apply preserves_bind; [apply _|apply asking_follows, Now_step|]. intros [t|e]; [apply preserves_ret|apply preserves_fail]; apply _.
Qed.
Lemma mail_follows (P : call -> Prop) c : P c -> preserves (follows P) (mail c).
Proof. intros Hc w r w' [= <- <-]. split_and!; [reflexivity|done|]. exists [c]. auto. Qed.
Lemma checked_follows {A} P (x : result error A) : preserves (follows P) (checked x).
Proof. destruct x; [apply preserves_ret|apply preserves_fail]; apply _. Qed.

Lemma soonest_follows P certs : forall a b, preserves (follows P) (soonest certs a b).
Proof.
  induction certs as [|c certs IH]; intros a b; simpl; [apply preserves_ret; apply _|].
  apply preserves_bind; [apply _|apply now_follows|]. intros t. destruct (_ <? _); apply IH.
Qed.

(** A notice to these contacts about these certificates. *)
Definition notice_of (contacts : list string) (certs : list X509Certificate) (c : call) : Prop :=
  match c with
  | SendMail to subject msg =>
      let domains := sort_strings (UniqueLowerNames (flat_map x5_DNSNames certs)) in
      to = flat_map mailto contacts /\ to <> [] /\ certs <> [] /\
      exists s expDate d, subject_of domains = Some s /\ subjectTemplate s = Ok subject /\
        emailTemplate {| ExpirationDate := GoTime.RFC822Z expDate; DaysToExpiration := d;
                         DNSNames := join (String "010" EmptyString) domains |} = Ok msg
  | _ => True
  end.

Lemma preserves_checked_bind {A B} P (x : result error A) (k : A -> NM B) :
  (forall a, x = Ok a -> preserves (follows P) (k a)) -> preserves (follows P) (mbindM (checked x) k).
Proof. destruct x as [a|e]; intros H; [by apply H|]. intros w r w' [= _ <-]. reflexivity. Qed.

Lemma sendNags_follows contacts certs :
  preserves (follows (notice_of contacts certs)) (sendNags subjectTemplate emailTemplate contacts certs).
Proof.
  unfold sendNags. repeat case_bool_decide; try (apply preserves_ret; apply _); try (apply preserves_fail; apply _).
  apply preserves_bind; [apply _|apply now_follows|]. intros t.
  apply preserves_bind; [apply _|apply soonest_follows|]. intros [expiresIn expDate].
  destruct (subject_of _) as [subj|] eqn:Es; [|apply preserves_fail; apply _].
  apply preserves_checked_bind. intros subject Hs. apply preserves_checked_bind. intros msg Hm.
  apply preserves_bind; [apply _|apply now_follows|]. intros _. apply preserves_bind; [apply _| |].
  - apply mail_follows. split_and!; [done..|]. by exists subj, expDate, (days expiresIn).
  - intros r. apply preserves_checked_bind. intros _ _. apply preserves_bind; [apply _|apply now_follows|].
    intros _. apply preserves_ret; apply _.
Qed.

Context (t0 : Tables) (quiet : Prop).
Context (Hget : forall id, preserves db_step (GetRegistration id)).

(** The state during a run that began with the tables [t0], without faults if [quiet]. *)
Definition going (w : EM) : Prop :=
  Forall (Z.le 0) (w_ticks (base w)) /\ start <= w_now (base w) /\ touched t0 (db (base w)) /\ (quiet -> w_faults (base w) = []).

Lemma going_follows P w w' : follows P w w' -> going w -> going w'.
Proof.
  intros [D _] (Ht & Hn & T & F). destruct (D Ht Hn) as (Ht' & Hn' & T' & F'). split_and!; [done|done|by etrans|auto].
Qed.

Lemma touched_renewed t serial : touched t0 t -> is_renewed t serial = is_renewed t0 serial.
Proof. by intros (rows & -> & _). Qed.

Definition parses (cert : Certificate) (x : X509Certificate) : Prop := ParseCertificate (cert_DER cert) = Ok x.

Lemma not_renewed_outcome P certs : forall w r w', going w -> not_renewed certs w = (r, w') -> follows P w w' /\
  exists kept parsed, r = Ok parsed /\ kept `sublist_of` certs /\ Forall2 parses kept parsed /\
    (quiet -> Forall (fun c => is_renewed t0 (cert_Serial c) = false) kept).
Proof.
  induction certs as [|cert certs IH]; intros w r w' Hw H; simpl in H.
  { injection H as <- <-. split; [reflexivity|]. by exists [], []. }
  assert (forall w1 r w', follows P w w1 -> not_renewed certs w1 = (r, w') -> follows P w w' /\
    exists kept parsed, r = Ok parsed /\ kept `sublist_of` cert :: certs /\ Forall2 parses kept parsed /\
    (quiet -> Forall (fun c => is_renewed t0 (cert_Serial c) = false) kept)) as Hskip.
  { intros w1 r1 w1' Hf H1. apply IH in H1 as (Hf1 & kept & parsed & -> & Hs & H2 & Hq); [|by eapply going_follows].
    split; [by etrans|]. exists kept, parsed. split_and!; [done|by apply sublist_cons|done..]. }
  destruct (ParseCertificate (cert_DER cert)) as [x|] eqn:Ex; [|by eapply Hskip; [reflexivity|]].
  unfold mbindM at 1 in H. destruct (asking _ w) as [q w1] eqn:E1.
  destruct (asking_run P _ _ _ _ (certIsRenewed_step _) E1) as (Hf1 & y & -> & Eq).
  assert (quiet -> y = Ok (is_renewed t0 (cert_Serial cert))) as Hy.
  { intros Hq. destruct Hw as (_ & _ & T & F). unfold certIsRenewed in Eq. rewrite query_nofault in Eq by auto.
    injection Eq as <- _. by rewrite (touched_renewed _ _ T). }
  destruct y as [[]|e].
  1:{ unfold mbindM in H. destruct (asking (updateCertStatus _) w1) as [q2 w2] eqn:E2.
      destruct (asking_run P _ _ _ _ (update_step _) E2) as (Hf2 & y & -> & _). eapply Hskip; [|done]. by etrans. }
  all: unfold mbindM in H; destruct (not_renewed certs w1) as [q2 w2] eqn:E2;
    apply IH in E2 as (Hf2 & kept & parsed & -> & Hs & H2 & Hq); [|by eapply going_follows];
    injection H as <- <-; (split; [by etrans|]); exists (cert :: kept), (x :: parsed);
    (split_and!; [done|by apply sublist_skip|by constructor|]); intros HQ; constructor; auto; specialize (Hy HQ).
  - by injection Hy as <-.
  - done.
Qed.

(** What a mail to an account must be about. *)
Definition account_notice (regID : Z) (certs : list Certificate) (c : call) : Prop :=
  match c with
  | SendMail _ _ _ => exists reg b b' contacts kept parsed,
      touched t0 (db b) /\ GetRegistration regID b = (Ok reg, b') /\ reg_Contact reg = Some contacts /\ kept `sublist_of` certs /\
      Forall2 parses kept parsed /\ (quiet -> Forall (fun c => is_renewed t0 (cert_Serial c) = false) kept) /\
      notice_of contacts parsed c
  | _ => True
  end.

Lemma process_account_follows regID certs w r w' : going w ->
  process_account GetRegistration subjectTemplate emailTemplate regID certs w = (r, w') ->
  follows (account_notice regID certs) w w'.
Proof.
  intros Hw H. unfold process_account, mbindM at 1 in H. destruct (asking (GetRegistration regID) w) as [q w1] eqn:E1.
  destruct (asking_run (account_notice regID certs) _ _ _ _ (Hget regID) E1) as (Hf1 & y & -> & Hy).
  destruct y as [reg|]; [|by injection H as _ <-].
  unfold mbindM at 1 in H. destruct (not_renewed certs w1) as [q w2] eqn:E2.
  apply (not_renewed_outcome (account_notice regID certs)) in E2 as (Hf2 & kept & parsed & -> & Hs & H2 & Hq); [|by eapply going_follows].
  assert (follows (account_notice regID certs) w w2) as Hf by (by etrans).
  case_bool_decide; [by injection H as _ <-|]. destruct (reg_Contact reg) as [contacts|] eqn:Ec; [|by injection H as _ <-].
  unfold mbindM, try in H. destruct (sendNags _ _ contacts parsed w2) as [q w3] eqn:E3.
  apply sendNags_follows in E3. apply (follows_mono _ (account_notice regID certs)) in E3.
  2:{ intros [|to subject msg|] HP; [done| |done]. exists reg, (base w), (base w1), contacts, kept, parsed.
      split; [apply Hw|done]. }
  assert (follows (account_notice regID certs) w w3) as Hf3 by (by etrans).
  destruct q as [[]|[]]; [|by injection H as _ <-..]. etrans; [exact Hf3|]. revert H. apply preserves_forM; [apply _|].
  intros x. apply preserves_bind; [apply _|apply asking_follows, update_step|]. intros _. apply preserves_ret; apply _.
Qed.

Lemma regIDToCerts_spec allCerts regID certs : regIDToCerts allCerts !! regID = Some certs ->
  Forall (fun c => c ∈ allCerts /\ cert_RegistrationID c = regID) certs.
Proof.
  unfold regIDToCerts. revert certs. induction allCerts as [|c l IH] using rev_ind; intros certs; [simpl; by rewrite lookup_empty|].
  rewrite foldl_app. simpl. set (m := foldl _ ∅ l) in *.
  assert (forall cs, m !! regID = Some cs -> Forall (fun c' => c' ∈ l ++ [c] /\ cert_RegistrationID c' = regID) cs) as Hm.
  { intros cs Hcs. eapply Forall_impl; [by apply IH|]. intros c' [? ?]. split; [apply elem_of_app; by left|done]. }
  destruct (decide (cert_RegistrationID c = regID)) as [E|Hne]; [|rewrite lookup_insert_ne by done; apply Hm].
  rewrite <- E, lookup_insert_eq, E. intros [= <-]. apply Forall_app_2.
  - destruct (m !! regID) as [cs|] eqn:Em; [by apply Hm|constructor].
  - constructor; [|constructor]. split; [|done]. apply elem_of_app. right. by apply list_elem_of_singleton.
Qed.

(** A mail about certificates out of a list, all of one account. *)
Definition list_notice (allCerts : list Certificate) (c : call) : Prop :=
  exists regID certs, Forall (fun c => c ∈ allCerts /\ cert_RegistrationID c = regID) certs /\ account_notice regID certs c.

Lemma list_notice_other allCerts c : match c with SendMail _ _ _ => False | _ => True end -> list_notice allCerts c.
Proof. destruct c; try done; intros _; by exists 0, []. Qed.

Lemma processCerts_follows allCerts w r w' : going w ->
  processCerts GetRegistration subjectTemplate emailTemplate range allCerts w = (r, w') -> follows (list_notice allCerts) w w'.
Proof.
  intros Hw H. unfold processCerts, mbindM at 1 in H. destruct (mail Connect w) as [q w1] eqn:E1.
  pose proof (mail_follows (list_notice allCerts) Connect (list_notice_other allCerts Connect I) _ _ _ E1) as Hf1.
  unfold mail in E1. injection E1 as <- <-. destruct (outcomes w _); [by injection H as _ <-|].
  assert (forall l, Forall (fun g => regIDToCerts allCerts !! g.1 = Some g.2) l -> forall w r w', going w ->
    forM l (fun '(regID, certs) => process_account GetRegistration subjectTemplate emailTemplate regID certs) w = (r, w') ->
    follows (list_notice allCerts) w w') as Hloop.
  { induction 1 as [|[regID certs] l Hg _ IH]; intros x rx x' Hx HF; [by injection HF as _ <-|]. simpl in HF, Hg.
    unfold mbindM in HF. destruct (process_account _ _ _ regID certs x) as [q1 x1] eqn:E2.
    apply process_account_follows in E2; [|done]. apply (follows_mono _ (list_notice allCerts)) in E2.
    2:{ intros c Hc. exists regID, certs. split; [by apply regIDToCerts_spec|done]. }
    destruct q1 as [[]|]; [|by injection HF as _ <-]. etrans; [exact E2|]. eapply IH, HF. by eapply going_follows. }
  unfold mbindM, try in H. destruct (forM _ _ _) as [q w2] eqn:E2. apply Hloop in E2; [|clear E2 H|by eapply going_follows].
  - pose proof (mail_follows (list_notice allCerts) Close (list_notice_other allCerts Close I) w2 _ _ eq_refl) as Hf3.
    cbn [mail] in H. etrans; [exact Hf1|]. etrans; [exact E2|]. etrans; [exact Hf3|]. destruct q as [[]|]; by injection H as _ <-.
  - apply Forall_forall. intros [regID certs] Hin. rewrite Hrange in Hin. by apply elem_of_map_to_list in Hin.
Qed.

(** ** Runs *)

(** The row calls for a notice [expiresIn] before the certificate expires: it does so by
    then, is not revoked, and there was no notice, or none in that time. *)
Definition due (expiresIn : Z) (row : CertificateStatus) : Prop :=
  start < cs_NotAfter row <= start + expiresIn /\ coll (cs_Status row) <> coll OCSPStatusRevoked /\
  (cs_LastExpirationNagSent row = zeroTime \/ cs_LastExpirationNagSent row < cs_NotAfter row - expiresIn).

Lemma expiring_due expiresIn row : 0 <= expiresIn -> expiring start (start + expiresIn) expiresIn row = true -> due expiresIn row.
Proof.
  intros He H. unfold expiring, nag_due, time_IsZero, Storage.ceq, Second in H.
  rewrite !andb_true_iff, orb_true_iff, negb_true_iff, Z.eqb_eq, !Z.ltb_lt, Z.leb_le, String.eqb_neq in H.
  destruct H as [[[Hl Hr] Hs] H]. split_and!; [lia|lia|done|]. destruct H as [H|H]; [by left|right].
  pose proof (Z.quot_rem' (cs_NotAfter row - cs_LastExpirationNagSent row) 1000000000) as Hq.
  destruct (Z.le_ge_cases 0 (cs_NotAfter row - cs_LastExpirationNagSent row)) as [Hd|Hd].
  - pose proof (Z.rem_nonneg (cs_NotAfter row - cs_LastExpirationNagSent row) 1000000000). lia.
  - pose proof (Z.quot_le_mono (cs_NotAfter row - cs_LastExpirationNagSent row) 0 1000000000 ltac:(lia) Hd) as Hneg.
    change (Z.quot 0 1000000000) with 0 in Hneg. lia.
Qed.

(** The certificate has such a row at the start of the run. *)
Definition calls_for_notice (times : list Z) (regID : Z) (cert : Certificate) : Prop :=
  cert_RegistrationID cert = regID /\ (quiet -> is_renewed t0 (cert_Serial cert) = false) /\
  exists k row expiresIn, expiresIn ∈ times /\ certificateStatus t0 !! k = Some row /\
    certificates t0 !! coll (cs_Serial row) = Some cert /\ due expiresIn row.

Definition warranted (times : list Z) (c : call) : Prop :=
  match c with
  | SendMail _ _ _ => exists regID reg b b' contacts certs parsed,
      touched t0 (db b) /\ GetRegistration regID b = (Ok reg, b') /\ reg_Contact reg = Some contacts /\
      Forall (calls_for_notice times regID) certs /\ Forall2 parses certs parsed /\ notice_of contacts parsed c
  | _ => True
  end.

(** A certificate for which a notice was sent during the run is not due again. *)
Lemma nagged_not_due row n expiresIn : zeroTime < start -> 0 <= expiresIn -> start <= n -> cs_NotAfter row <= start + expiresIn ->
  nag_due expiresIn (with_nag row n) = false.
Proof.
  intros Hz He Hn Ha. unfold nag_due, time_IsZero, with_nag, Second. simpl. apply orb_false_iff.
  split; [apply Z.eqb_neq; lia|]. apply Z.ltb_ge. pose proof (Z.quot_rem' (cs_NotAfter row - n) 1000000000) as Hq.
  destruct (Z.le_ge_cases 0 (cs_NotAfter row - n)).
  - pose proof (Z.rem_nonneg (cs_NotAfter row - n) 1000000000 ltac:(lia) ltac:(lia)). lia.
  - pose proof (Z.quot_le_mono (cs_NotAfter row - n) 0 1000000000 ltac:(lia) ltac:(lia)). rewrite Z.quot_0_l in * by lia. lia.
Qed.

Lemma expiring_first left right expiresIn k row t : zeroTime < start -> start <= left -> 0 <= expiresIn -> right = start + expiresIn ->
  touched t0 t -> certificateStatus t !! k = Some row -> expiring left right expiresIn row = true ->
  certificateStatus t0 !! k = Some row /\ expiring start right expiresIn row = true.
Proof.
  intros Hz Hl He -> (rows & -> & Hrows) Hk H. simpl in Hk. unfold expiring in *. rewrite !andb_true_iff, Z.ltb_lt, Z.leb_le in *.
  destruct H as [[[H1 H2] H3] H4]. split; [|split_and!; (done || lia)].
  destruct (Hrows k) as [E|(row' & n & E & E' & Hn)]; [by rewrite <- E|].
  rewrite E' in Hk. injection Hk as <-. simpl in H2. by rewrite (nagged_not_due row' n) in H4.
Qed.

(** Certificates with these serials, as the database has had them all along. *)
Lemma load_certs_outcome P serials : forall w r w', going w -> load_certs serials w = (r, w') -> follows P w w' /\
  forall certs, r = Ok certs -> Forall2 (fun serial cert => certificates t0 !! coll serial = Some cert) serials certs.
Proof.
  induction serials as [|serial serials IH]; intros w r w' Hw H; simpl in H.
  { injection H as <- <-. split; [reflexivity|]. intros certs [= <-]. constructor. }
  unfold mbindM at 1 in H. destruct (asking _ w) as [q w1] eqn:E1.
  destruct (asking_run P (select_cert serial) _ _ _ (query_step _) E1) as (Hf1 & y & -> & Ey).
  destruct y as [cert|]; [|injection H as <- <-; by split]. cbn [checked] in H. unfold mbindM, ret in H.
  apply query_Ok in Ey as (Ey & _). destruct Hw as (? & ? & (rows & Et & ?) & ?).
  destruct (load_certs serials w1) as [q w2] eqn:E2. apply IH in E2 as [Hf2 Hl]; [|eapply going_follows; [exact Hf1|]; split_and!; eauto].
  2:{ exists rows. auto. }
  split; [etrans; [exact Hf1|]; destruct q; by injection H as _ <-|]. intros certs Hr. destruct q as [cs|]; [|by injection H as <- _].
  injection H as <- _. injection Hr as <-. constructor; [|by apply Hl]. rewrite Et in Ey. simpl in Ey.
  by destruct (certificates t0 !! coll serial) as [c|]; simpl in Ey; [injection Ey as <-|].
Qed.

Lemma select_expiring_outcome m left right expiresIn b serials b' :
  select_expiring m left right expiresIn b = (Ok serials, b') ->
  Forall (fun serial => exists k row, certificateStatus (db b) !! k = Some row /\ cs_Serial row = serial /\
    expiring left right expiresIn row = true) serials.
Proof.
  intros H. apply query_Ok in H as (H & _). destruct (_ <? 0); [done|]. injection H as <-.
  apply Forall_map, Forall_take, Forall_forall. intros row Hin. rewrite merge_sort_Permutation in Hin.
  apply list_elem_of_filter in Hin as [He Hin]. apply list_elem_of_fmap in Hin as ([k row'] & -> & Hin).
  apply elem_of_map_to_list in Hin. simpl in *. eauto.
Qed.

Lemma list_warranted times expiresIn allCerts c : expiresIn ∈ times -> 0 <= expiresIn ->
  Forall (fun cert => exists k row, certificateStatus t0 !! k = Some row /\ certificates t0 !! coll (cs_Serial row) = Some cert /\
    expiring start (start + expiresIn) expiresIn row = true) allCerts ->
  list_notice allCerts c -> warranted times c.
Proof.
  intros He Hpos Hall (regID & certs & Hcerts & Hc). destruct c as [|to subject msg|]; [done| |done].
  destruct Hc as (reg & b & b' & contacts & kept & parsed & Ht & Hg & Hcon & Hs & H2 & Hq & Hn).
  exists regID, reg, b, b', contacts, kept, parsed. split_and!; [done|done|done| |done|done].
  rewrite Forall_forall in Hall, Hcerts |- *. intros cert Hin. pose proof (sublist_subseteq _ _ Hs cert Hin) as Hin'.
  destruct (Hcerts _ Hin') as [Ha Hreg]. destruct (Hall _ Ha) as (k & row & ? & ? & ?). split_and!; [done| |].
  - intros HQ. by apply (proj1 (Forall_forall _ _) (Hq HQ)).
  - exists k, row, expiresIn. split_and!; [done..|]. by apply expiring_due.
Qed.

Lemma group_follows (P : call -> Prop) certs w r w' : going w -> (forall c, list_notice certs c -> P c) ->
  (let! _ := now in do! processCerts GetRegistration subjectTemplate emailTemplate range certs in let! _ := now in ret tt) w = (r, w') ->
  follows P w w'.
Proof.
  intros Hw HP H. unfold mbindM at 1 in H. destruct (now w) as [q w1] eqn:E1. pose proof (now_follows P _ _ _ E1) as Hf1.
  destruct q; [|by injection H as _ <-]. unfold mbindM at 1 in H. destruct (processCerts _ _ _ _ certs w1) as [q w2] eqn:E2.
  apply processCerts_follows in E2; [|by eapply going_follows]. apply (follows_mono _ P) in E2; [|done].
  etrans; [exact Hf1|]. destruct q; [|by injection H as _ <-]. etrans; [exact E2|]. revert H.
  apply preserves_bind; [apply _|apply now_follows|]. intros _. apply preserves_ret; apply _.
Qed.

Lemma nag_groups_follows m all times : zeroTime < start -> Forall (Z.le 0) times -> (forall x, x ∈ times -> x ∈ all) ->
  forall left w r w', start <= left -> going w ->
  nag_groups GetRegistration subjectTemplate emailTemplate range m start left times w = (r, w') -> follows (warranted all) w w'.
Proof.
  intros Hz. induction times as [|e times IH]; intros Hpos Hall left w r w' Hl Hw H; [by injection H as _ <-|].
  apply Forall_cons in Hpos as [He Hpos]. simpl in H. unfold time_Add in H. unfold mbindM at 1 in H.
  destruct (asking _ w) as [q w1] eqn:E1.
  destruct (asking_run (warranted all) (select_expiring m left (start + e) e) _ _ _ (query_step _) E1) as (Hf1 & y & -> & Ey).
  destruct y as [serials|]; [|by injection H as _ <-]. cbn [checked] in H. unfold mbindM at 1, ret at 1 in H.
  apply select_expiring_outcome in Ey. pose proof (going_follows _ _ _ Hf1 Hw) as Hw1.
  unfold mbindM at 1 in H. destruct (load_certs serials w1) as [q w2] eqn:E2.
  apply (load_certs_outcome (warranted all)) in E2 as [Hf2 Hc]; [|done]. pose proof (going_follows _ _ _ Hf2 Hw1) as Hw2.
  assert (follows (warranted all) w w2) as Hf by (by etrans). destruct q as [certs|]; [|by injection H as _ <-].
  specialize (Hc _ eq_refl). unfold mbindM at 1 in H. match type of H with context [match ?x with _ => _ end] => destruct x as [q w3] eqn:E3 end.
  assert (follows (warranted all) w2 w3) as Hf3.
  { case_bool_decide; [by injection E3 as _ <-|]. eapply group_follows; [exact Hw2| |exact E3]. intros c.
    apply (list_warranted all e); [apply Hall; left|done|]. clear -Hc Ey Hw Hz Hl He.
    destruct Hw as (_ & _ & T & _). induction Hc as [|serial cert serials certs Hcert _ IHc]; [constructor|].
    apply Forall_cons in Ey as [(k & row & Hk & Hs & Hx) Ey]. constructor; [|by apply IHc].
    destruct (expiring_first _ _ _ _ _ _ Hz Hl He eq_refl T Hk Hx) as [Hk0 Hx0]. exists k, row. by rewrite Hs. }
  etrans; [exact Hf|]. etrans; [exact Hf3|]. destruct q as [[]|]; [|by injection H as _ <-].
  eapply IH; [done|..|exact H]; [intros x Hx; apply Hall; by right|lia|by eapply going_follows].
Qed.

End warranted.

Section runs.
Context {GL : GoLib} {X : X509} {Q : SQL} {RE : RAEnv}.
Context (GetRegistration : Z -> DB Registration).
Context (subjectTemplate : string -> result error string) (emailTemplate : email -> result error string).
Context (range : list (Z * list Certificate) -> list (Z * list Certificate)).

(** C23. Every notice is warranted.  Whatever calls fail in a run, it changes nothing in
    the database but the times of the last notices.  Every mail goes to the mail contacts
    that the database has for one account, and names exactly the domains of certain
    certificates of that account; each of these was not revoked, was to expire within one
    of the configured intervals, and there had been no notice within that interval when
    the run began; and unless a call failed, no certificate of the same names had been issued
    since. *)
Theorem notices_are_warranted m w r w' :
  (forall l, range l ≡ₚ l) -> (forall id, preserves (db_step (w_now (base w))) (GetRegistration id)) ->
  Forall (Z.le 0) (w_ticks (base w)) -> zeroTime < w_now (base w) -> Forall (Z.le 0) (nagTimes m) ->
  findExpiringCertificates GetRegistration subjectTemplate emailTemplate range m w = (r, w') ->
  let start := w_now (base w) in
  let t0 := db (base w) in
  touched start t0 (db (base w')) /\
  exists new, calls w' = calls w ++ new /\
    Forall (warranted GetRegistration subjectTemplate emailTemplate start t0 (w_faults (base w) = []) (nagTimes m)) new.
Proof.
  intros Hr Hg Ht Hz Hp H start t0. unfold findExpiringCertificates, mbindM at 1 in H.
  destruct (now w) as [q w1] eqn:E1.
  assert (going start t0 (w_faults (base w) = []) w) as Hw by (split_and!; [done|lia|reflexivity|done]).
  set (P := warranted GetRegistration subjectTemplate emailTemplate start t0 (w_faults (base w) = []) (nagTimes m)).
  pose proof (now_follows start P _ _ _ E1) as Hf1.
  unfold now, asking, mbindM, checked, ret in E1. simpl in E1. injection E1 as <- <-.
  assert (follows start P w w') as Hf.
  { etrans; [exact Hf1|]. eapply nag_groups_follows; try exact H; try done. by eapply going_follows. }
  split; [|apply Hf]. destruct (going_follows _ _ _ _ _ _ Hf Hw) as (_ & _ & T & _). exact T.
Qed.

End runs.
End ExpirationMailer.
