(* ===== verification/NotifyMailer.v ===== *)
(** * cmd/contact-exporter and cmd/notify-mailer: mail to many accounts

    The exporter writes the IDs of the accounts with unexpired certificates to a file; the
    mailer sends a text to the contacts of the accounts in such a file, all of them or a
    range of them.  The mail server behind [bmail.Mailer] is any sequence of outcomes; JSON
    is a parameter. *)

From S2P Require Import Prelude GoStd Errors Core Grpc Csr Database Storage SaFrame SaInvariants SaQueries RegistrationAuthority ExpirationMailer.

Module NotifyMailer.
Import ExpirationMailer.

(** ** cmd/contact-exporter *)

Section exporter.
Context {Q : SQL}.
(** The JSON of the column [contact], which the table keeps decoded, and the order in which
    a query without ORDER BY returns rows. *)
Context (marshal_contacts : list string -> string) (order : list Z -> list Z).

(** [contact != 'null']. *)
Definition has_contact (rm : regModel) : bool :=
  negb (String.eqb (coll (marshal_contacts (rm_Contact rm))) (coll "null")).
(** [id IN (SELECT registrationID ...)]. *)
Definition has_certificate (t : Tables) (expireCutoff id : Z) : bool :=
  existsb (fun cert => (cert_RegistrationID cert =? id) && (expireCutoff <=? cert_Expires cert)) (map_to_list (certificates t)).*2.
Definition findContacts (grace : Z) : DB (list Z) :=
  let! t := Now in
  let expireCutoff := time_Add t (- grace) in
  query (fun t => Ok (order (filter (fun r => has_contact (snd r) && has_certificate t expireCutoff (fst r) = true)
    (map_to_list (registrations t))).*1)).

(** What [writeContacts] puts into the file; no rows are a nil slice. *)
Definition contact_json (id : Z) : string :=
  "{" ++s dquote ++s "id" ++s dquote ++s ":" ++s itoa id ++s "}".
Definition writeContacts (contactsList : list Z) : string :=
  match contactsList with
  | [] => "null"
  | _ => "[" ++s join "," (map contact_json contactsList) ++s "]"
  end ++s String "010" EmptyString.
End exporter.

(** ** cmd/notify-mailer *)

Record interval := { i_start : Z; i_end : Z }.
Record mailer := {
  subject : string;
  emailTemplate : string;
  destinations : string;
  checkpoint : interval;
  sleepInterval : Z
}.

Definition interval_ok (i : interval) : result error unit :=
  if (i_start i <? 0) || (i_end i <? 0) then
    Err (PlainError ("interval start (" ++s itoa (i_start i) ++s ") and end (" ++s itoa (i_end i)
                     ++s ") must both be positive integers"))
  else if (i_end i <? i_start i) && negb (i_end i =? 0) then
    Err (PlainError ("interval start value (" ++s itoa (i_start i) ++s ") is greater than end value (" ++s itoa (i_end i) ++s ")"))
  else Ok tt.

Definition mailer_ok (m : mailer) : result error unit :=
  let? _ := interval_ok (checkpoint m) in
  if sleepInterval m <? 0 then Err (PlainError ("sleep interval (" ++s itoa (sleepInterval m) ++s ") is < 0"))
  else Ok tt.

Section notify.
Context {GL : GoLib} {Q : SQL}.
(** [json.Unmarshal] into registration IDs and into contacts, and what [strings.TrimSpace]
    leaves nothing of among the strings with a byte above 0x7f. *)
Context (marshal_contacts : list string -> string) (unmarshal_contacts : string -> result error (list string)).
Context (unmarshal_regs : string -> result error (list Z)) (blank_non_ascii : string -> bool).

Definition space (c : ascii) : bool := in_range "009" "013" c || Ascii.eqb c " ".
Definition blank (s : string) : bool := if is_ascii s then all_chars space s else blank_non_ascii s.

Fixpoint TrimPrefix (p s : string) : option string :=
  match p, s with
  | EmptyString, _ => Some s
  | String a p', String b s' => if Ascii.eqb a b then TrimPrefix p' s' else None
  | _, _ => None
  end.

Definition addresses (contact : list string) : list string := omap (TrimPrefix "mailto:") contact.
Definition emailsForReg (id : Z) : DB (list string) :=
  let! r := try (query (fun t =>
    let? rm := need ErrNoRows (registrations t !! id) in
    if has_contact marshal_contacts rm then Ok (marshal_contacts (rm_Contact rm)) else Err ErrNoRows)) in
  match r with
  | Err ErrNoRows => ret []
  | Err err => fail err
  | Ok contact =>
      let! contactFields := lift (unmarshal_contacts contact) in
      ret (addresses contactFields)
  end.

(** The loop of [resolveDestinations]. *)
Fixpoint contactsList (regs : list Z) : DB (list string) :=
  match regs with
  | [] => ret []
  | id :: regs' =>
      let! emails := emailsForReg id in
      let! rest := contactsList regs' in
      ret (filter (fun email => blank email = false) emails ++ rest)
  end.

(** [l[lo:hi]]; [None] is a panic. *)
Definition slice {A} (l : list A) (lo hi : Z) : option (list A) :=
  if (0 <=? lo) && (lo <=? hi) && (hi <=? Z.of_nat (length l)) then Some (take (Z.to_nat (hi - lo)) (drop (Z.to_nat lo) l))
  else None.

Definition resolveDestinations (m : mailer) : NM (list string) :=
  let! regs := checked (unmarshal_regs (destinations m)) in
  let n := Z.of_nat (length regs) in
  let start := i_start (checkpoint m) in
  let end_ := if (i_end (checkpoint m) =? 0) || (n <? i_end (checkpoint m)) then n else i_end (checkpoint m) in
  if n <? start then
    fail (Failed (PlainError ("interval start value (" ++s itoa start ++s ") is greater than number of destinations ("
                              ++s itoa n ++s ")")))
  else
    match slice regs start end_ with
    | None => fail (Panicked "runtime error: slice bounds out of range")
    | Some part => let! r := asking (contactsList part) in checked r
    end.

Definition Sleep (d : Z) : DB unit := fun w =>
  (Ok tt, {| db := db w; tx := tx w; w_faults := w_faults w; w_now := w_now w + d; w_ticks := w_ticks w;
             w_rng := w_rng w; w_draws := w_draws w |}).

Definition send_each (m : mailer) (dests : list string) : NM unit :=
  forM dests (fun dest =>
    let! _ := now in
    if blank dest then ret tt
    else
      let! r := mail (SendMail [dest] (subject m) (emailTemplate m)) in
      do! checked r in
      let! _ := asking (Sleep (sleepInterval m)) in
      ret tt).

Definition run (m : mailer) : NM unit :=
  do! checked (mailer_ok m) in
  let! dests := resolveDestinations m in
  let! r := mail Connect in
  do! checked r in
  let! _ := now in
  let! r := try (send_each m dests) in
  let! _ := mail Close in
  lift r.

End notify.

(** ** Everyone is told once *)

Section everyone.
Context {GL : GoLib} {Q : SQL}.
Context (marshal_contacts : list string -> string) (unmarshal_contacts : string -> result error (list string)).
Context (order : list Z -> list Z) (Horder : forall l, order l ≡ₚ l).
Context (unmarshal_regs : string -> result error (list Z)) (blank_non_ascii : string -> bool).
Notation blank := (blank blank_non_ascii).
Notation contactsList := (contactsList marshal_contacts unmarshal_contacts blank_non_ascii).
Notation run := (run marshal_contacts unmarshal_contacts unmarshal_regs blank_non_ascii).

(** JSON writes the contacts of these accounts as arrays and reads them back. *)
Definition readable (t : Tables) : Prop := forall id rm, registrations t !! id = Some rm ->
  coll (marshal_contacts (rm_Contact rm)) <> coll "null" /\
  unmarshal_contacts (marshal_contacts (rm_Contact rm)) = Ok (rm_Contact rm).

(** The mail addresses among the contacts of an account: what follows [mailto:], unless it
    is white space. *)
Definition white (a : string) : Prop :=
  if is_ascii a then forall c, c ∈ String.list_ascii_of_string a -> c ∈ ["009"; "010"; "011"; "012"; "013"; " "]%char
  else blank_non_ascii a = true.
Inductive addressed : list string -> list string -> Prop :=
| addressed_none : addressed [] []
| addressed_mail a contact emails : ~ white a -> addressed contact emails -> addressed (("mailto:" ++s a) :: contact) (a :: emails)
| addressed_other c contact emails : (forall a, c = "mailto:" ++s a -> white a) -> addressed contact emails ->
    addressed (c :: contact) emails.

Definition emails_of (t : Tables) (id : Z) : list string :=
  match registrations t !! id with
  | Some rm => filter (fun email => blank email = false) (addresses (rm_Contact rm))
  | None => []
  end.

Lemma space_spec c : space c = true <-> c ∈ ["009"; "010"; "011"; "012"; "013"; " "]%char.
Proof.
  assert (forall c, space c = bool_decide (c ∈ ["009"; "010"; "011"; "012"; "013"; " "]%char)) as E
    by (intros [[] [] [] [] [] [] [] []]; vm_compute; reflexivity).
  by rewrite E, bool_decide_eq_true.
Qed.
Lemma blank_spec a : blank a = true <-> white a.
Proof.
  unfold NotifyMailer.blank, white. destruct (is_ascii a); [|done].
  induction a as [|c a IH]; simpl; [split; [by intros _ ? ?%elem_of_nil|done]|].
  rewrite andb_true_iff, IH, space_spec. split; [by intros [Hc Ha] x [->|Hx]%elem_of_cons; [|apply Ha]|].
  intros H. split; [|intros x Hx]; apply H; [left|by right].
Qed.

Lemma TrimPrefix_Some p s a : TrimPrefix p s = Some a <-> s = p ++s a.
Proof.
  revert s. induction p as [|x p IH]; intros [|y s]; simpl; try (split; congruence).
  destruct (Ascii.eqb_spec x y) as [->|]; [|split; congruence]. rewrite IH. split; congruence.
Qed.
Lemma addresses_spec contact : addressed contact (filter (fun email => blank email = false) (addresses contact)).
Proof.
  induction contact as [|c contact IH]; [constructor|]. unfold addresses in *. cbn [omap list_omap].
  destruct (TrimPrefix "mailto:" c) as [a|] eqn:E.
  - apply TrimPrefix_Some in E as ->. rewrite filter_cons. destruct (decide (blank a = false)) as [Hb|Hb].
    + constructor; [|done]. by rewrite <- blank_spec, Hb.
    + apply addressed_other; [|done]. intros b [= ->]. apply blank_spec. by apply not_false_is_true.
  - apply addressed_other; [|done]. intros a ->. by rewrite (proj2 (TrimPrefix_Some "mailto:" _ a) eq_refl) in E.
Qed.

Lemma contactsList_run ids : forall b, w_faults b = [] -> readable (db b) ->
  contactsList ids b = (Ok (flat_map (emails_of (db b)) ids), b).
Proof.
  induction ids as [|id ids IH]; intros b Hf Hr; [done|]. simpl. unfold emailsForReg, mbindM, try.
  rewrite query_nofault by done. unfold emails_of at 1. specialize (Hr id) as Hid.
  destruct (registrations (db b) !! id) as [rm|]; simpl; [|by rewrite IH].
  destruct (Hid rm eq_refl) as [Hn Hu]. unfold has_contact. rewrite (proj2 (String.eqb_neq _ _) Hn). simpl.
  rewrite Hu. simpl. by rewrite IH.
Qed.

(** No interval that passes the checks makes the slice panic. *)
Lemma slice_in_bounds {A} (regs : list A) m : mailer_ok m = Ok tt -> i_start (checkpoint m) <= Z.of_nat (length regs) ->
  let n := Z.of_nat (length regs) in
  let end_ := if (i_end (checkpoint m) =? 0) || (n <? i_end (checkpoint m)) then n else i_end (checkpoint m) in
  slice regs (i_start (checkpoint m)) end_ =
    Some (take (Z.to_nat (end_ - i_start (checkpoint m))) (drop (Z.to_nat (i_start (checkpoint m))) regs)).
Proof.
  intros H Hs n end_. unfold mailer_ok, rbind, interval_ok in H.
  destruct (Z.ltb_spec (i_start (checkpoint m)) 0); [done|]. destruct (Z.ltb_spec (i_end (checkpoint m)) 0); [done|].
  assert (i_start (checkpoint m) <= end_ <= n) as [Hle Hge].
  { subst end_ n. destruct (Z.eqb_spec (i_end (checkpoint m)) 0) as [E|E]; [simpl; lia|].
    destruct (Z.ltb_spec (Z.of_nat (length regs)) (i_end (checkpoint m))); [simpl; lia|]. simpl.
    destruct (Z.ltb_spec (i_end (checkpoint m)) (i_start (checkpoint m))); [done|lia]. }
  unfold slice. fold n. by rewrite !(proj2 (Z.leb_le _ _)) by lia.
Qed.

Definition letter (m : mailer) (email : string) : call := SendMail [email] (subject m) (emailTemplate m).
(** The database as it was, apart from the clock. *)
Definition same_db (w w' : EM) : Prop :=
  db (base w') = db (base w) /\ w_faults (base w') = w_faults (base w) /\ outcomes w' = outcomes w.

Lemma send_each_run m dests : Forall (fun d => blank d = false) dests -> forall w, (forall n, outcomes w n = None) ->
  exists w', send_each blank_non_ascii m dests w = (Ok tt, w') /\ same_db w w' /\ calls w' = calls w ++ map (letter m) dests.
Proof.
  induction 1 as [|d dests Hd _ IH]; intros w Ho; [exists w; split_and!; try done; by rewrite app_nil_r|].
  unfold send_each. cbn [forM]. unfold mbindM at 1. unfold mbindM at 1, now, asking, mbindM at 1. simpl. rewrite Hd.
  unfold mbindM at 1, mail. simpl. rewrite Ho. unfold mbindM, checked, ret, asking, Sleep. simpl.
  match goal with |- context [forM dests _ ?x] => set (w1 := x) end.
  destruct (IH w1) as (w' & E & (Hdb & Hf & Hout) & Hc); [done|]. exists w'. unfold send_each in E.
  split; [exact E|]. split; [by split_and!|]. rewrite Hc. simpl. by rewrite <- app_assoc.
Qed.

Lemma contacts_not_blank t ids : Forall (fun d => blank d = false) (flat_map (emails_of t) ids).
Proof.
  apply Forall_forall. intros d Hd. apply list_elem_of_In, in_flat_map in Hd as (id & _ & Hd). apply list_elem_of_In in Hd.
  unfold emails_of in Hd. destruct (registrations t !! id); [|by apply elem_of_nil in Hd]. by apply list_elem_of_filter in Hd as [? _].
Qed.

(** A run over the file of [ids]. *)
Lemma run_sends m ids w : unmarshal_regs (destinations m) = Ok ids -> mailer_ok m = Ok tt ->
  i_start (checkpoint m) <= Z.of_nat (length ids) -> w_faults (base w) = [] -> readable (db (base w)) ->
  (forall n, outcomes w n = None) ->
  let n := Z.of_nat (length ids) in
  let end_ := if (i_end (checkpoint m) =? 0) || (n <? i_end (checkpoint m)) then n else i_end (checkpoint m) in
  let part := take (Z.to_nat (end_ - i_start (checkpoint m))) (drop (Z.to_nat (i_start (checkpoint m))) ids) in
  exists w', run m w = (Ok tt, w') /\ same_db w w' /\
    calls w' = calls w ++ Connect :: map (letter m) (flat_map (emails_of (db (base w))) part) ++ [Close].
Proof.
  intros Hd Hok Hs Hf Hrd Ho n end_ part. unfold NotifyMailer.run, mbindM at 1. rewrite Hok. cbn [checked]. unfold ret at 1.
  unfold mbindM at 1, resolveDestinations, mbindM at 1. rewrite Hd. cbn [checked]. unfold ret at 1.
  rewrite (proj2 (Z.ltb_ge _ _)) by done. rewrite (slice_in_bounds ids m Hok Hs). fold n end_ part.
  unfold mbindM at 1, asking. rewrite contactsList_run by done. cbn [checked]. unfold ret at 1.
  unfold mbindM at 1, mail at 1. simpl. rewrite Ho. unfold mbindM at 1, checked at 1, ret at 1.
  unfold mbindM at 1, now, asking, mbindM at 1. simpl. unfold mbindM, try.
  match goal with |- context [send_each _ m _ ?x] => set (w1 := x) end.
  destruct (send_each_run m _ (contacts_not_blank (db (base w)) part) w1) as (w' & E & (Hdb & Hfl & Hout) & Hc); [done|].
  rewrite E. simpl. eexists. split; [done|]. split; [by split_and!|]. simpl. rewrite Hc. simpl. by rewrite <- !app_assoc.
Qed.

(** Runs over two consecutive parts. *)
Definition part_of (m : mailer) (start end_ : Z) : mailer :=
  {| subject := subject m; emailTemplate := emailTemplate m; destinations := destinations m;
     checkpoint := {| i_start := start; i_end := end_ |}; sleepInterval := sleepInterval m |}.

Lemma findContacts_run grace b : w_faults b = [] -> readable (db b) ->
  exists ids b', findContacts marshal_contacts order grace b = (Ok ids, b') /\ NoDup ids /\
  forall id, id ∈ ids <-> is_Some (registrations (db b) !! id) /\
    exists k cert, certificates (db b) !! k = Some cert /\ cert_RegistrationID cert = id /\ w_now b - grace <= cert_Expires cert.
Proof.
  intros Hf Hrd. unfold findContacts. rewrite bind_Now, query_nofault by done. eexists _, _. split; [done|]. split.
  { rewrite Horder. eapply sublist_NoDup; [apply (NoDup_fst_map_to_list (registrations (db b)))|]. apply fmap_sublist, sublist_filter. }
  intros id. rewrite Horder, list_elem_of_fmap. setoid_rewrite list_elem_of_filter. setoid_rewrite andb_true_iff.
  unfold has_certificate. setoid_rewrite existsb_exists. simpl. unfold time_Add. split.
  - intros ([i rm] & -> & [_ (cert & Hin & H)] & Hid). apply elem_of_map_to_list in Hid.
    split; [by exists rm|]. apply list_elem_of_In, list_elem_of_fmap in Hin as ([k c] & -> & Hin). apply elem_of_map_to_list in Hin.
    simpl in *. apply andb_true_iff in H as [Hi%Z.eqb_eq H%Z.leb_le]. exists k, c. split_and!; [done|done|lia].
  - intros [[rm Hrm] (k & cert & Hk & Hr & He)]. exists (id, rm). split; [done|]. split; [|by apply elem_of_map_to_list]. split.
    + unfold has_contact. apply negb_true_iff, String.eqb_neq. by destruct (Hrd id rm Hrm).
    + exists cert. rewrite andb_true_iff, Z.eqb_eq, Z.leb_le. split; [|simpl; lia].
      by apply list_elem_of_In, (list_elem_of_fmap_2 snd _ (k, cert)), elem_of_map_to_list.
Qed.

(** The JSON of a list of accounts, with the new line at its end. *)
Definition listing (ids : list Z) : string :=
  "[" ++s join "," (map (fun id => "{" ++s dquote ++s "id" ++s dquote ++s ":" ++s itoa id ++s "}") ids) ++s "]" ++s String "010" EmptyString.
Lemma writeContacts_listing ids : ids <> [] -> writeContacts ids = listing ids.
Proof. destruct ids as [|id ids]; [done|]. intros _. unfold writeContacts, listing. by rewrite !sapp_assoc. Qed.

Lemma letters_of t ids : Forall (fun id => is_Some (registrations t !! id)) ids ->
  Forall2 (fun id emails => exists rm, registrations t !! id = Some rm /\ addressed (rm_Contact rm) emails) ids (map (emails_of t) ids).
Proof.
  intros H. apply Forall2_fmap_r, Forall_Forall2_diag. eapply Forall_impl; [exact H|]. intros id [rm Hrm]. simpl.
  exists rm. unfold emails_of. rewrite Hrm. split; [done|]. apply addresses_spec.
Qed.

(** C29. A bulk mailing reaches those it is for, and each once.  Take the file the exporter
    writes, which the decoder reads back, and cut it after its first [k] accounts.  When
    neither the database nor the mail server fails, and JSON reads the stored contacts
    back, the file lists no account twice, and it lists an account exactly if it is
    registered and has a certificate that had not expired longer than the grace period
    ago.  Mailing to the first part and then to the rest sends, between connecting and
    closing, exactly one letter with the subject and the text of the mailing for each
    mail address of each account of the part, in the order of the file, and nothing
    else. *)
Theorem everyone_is_told_once grace m k b ids b' w :
  findContacts marshal_contacts order grace b = (Ok ids, b') -> w_faults b = [] -> readable (db b) ->
  destinations m = writeContacts ids -> unmarshal_regs (listing ids) = Ok ids ->
  0 < k <= Z.of_nat (length ids) -> 0 <= sleepInterval m ->
  db (base w) = db b -> w_faults (base w) = [] -> (forall n, outcomes w n = None) ->
  NoDup ids /\
  (forall id, id ∈ ids <-> is_Some (registrations (db b) !! id) /\
     exists key cert, certificates (db b) !! key = Some cert /\ cert_RegistrationID cert = id /\ w_now b - grace <= cert_Expires cert) /\
  exists w1 w2 emails,
    run (part_of m 0 k) w = (Ok tt, w1) /\ run (part_of m k 0) w1 = (Ok tt, w2) /\
    Forall2 (fun id l => exists rm, registrations (db b) !! id = Some rm /\ addressed (rm_Contact rm) l) ids emails /\
    let letters part := map (fun email => SendMail [email] (subject m) (emailTemplate m)) (concat part) in
    calls w2 = calls w ++ [Connect] ++ letters (take (Z.to_nat k) emails) ++ [Close]
                       ++ [Connect] ++ letters (drop (Z.to_nat k) emails) ++ [Close].
Proof.
  intros Hx Hfb Hrd Hd Hjson Hk Hsl Hdb Hf Ho.
  destruct (findContacts_run grace b Hfb Hrd) as (ids' & b2 & Hx' & Hnd & Hspec). rewrite Hx in Hx'. injection Hx' as <- _.
  split; [exact Hnd|]. split; [exact Hspec|]. rewrite writeContacts_listing in Hd by (intros ->; simpl in Hk; lia).
  assert (forall s e, 0 <= s -> 0 <= e -> (s <= e \/ e = 0) -> mailer_ok (part_of m s e) = Ok tt) as Hok.
  { intros s e H0 H1 H2. unfold mailer_ok, interval_ok, rbind. simpl.
    rewrite (proj2 (Z.ltb_ge s 0)), (proj2 (Z.ltb_ge e 0)), (proj2 (Z.ltb_ge (sleepInterval m) 0)) by lia. simpl.
    destruct (Z.ltb_spec e s); [|done]. by replace e with 0 by lia. }
  destruct (run_sends (part_of m 0 k) ids w) as (w1 & E1 & (D1 & F1 & O1) & C1);
    [by simpl; rewrite Hd|apply Hok; lia|simpl; lia|done|by rewrite Hdb|done|].
  destruct (run_sends (part_of m k 0) ids w1) as (w2 & E2 & _ & C2);
    [by simpl; rewrite Hd|apply Hok; lia|simpl; lia|congruence|by rewrite D1, Hdb|by intros n; rewrite O1|].
  simpl in C1, C2. rewrite (proj2 (Z.eqb_neq k 0)), (proj2 (Z.ltb_ge _ _)) in C1 by lia. rewrite D1, Hdb, C1, Hdb in C2. simpl in C2.
  exists w1, w2, (map (emails_of (db b)) ids). split; [exact E1|]. split; [exact E2|].
  split; [apply letters_of, Forall_forall; intros id Hid; by apply Hspec|]. rewrite C2.
  rewrite drop_0, Z.sub_0_r. rewrite (take_ge (drop _ _)) by (rewrite length_drop; lia).
  rewrite <- fmap_take, <- fmap_drop, !flat_map_concat_map. rewrite <- !app_assoc. simpl. by rewrite <- !app_assoc.
Qed.

End everyone.
End NotifyMailer.
