(* ===== verification/ToolExamples.v ===== *)
(** * Sample runs of the tools

    The theorems on the batch tools and the mailers, applied to the sample deployment: an
    account with one certificate. *)

From S2P Require Import Prelude GoStd Net Errors Features Core GoodKey PublicSuffix Policy RateLimit Csr Bdns Grpc.
From S2P Require Import Database Storage SaFrame SaInvariants SaCertificates RegistrationAuthority RaChecks GrpcStorage.
From S2P Require Import GrpcRefinement RaStorage CertificateAuthority CaIssuance GrpcServers System Backoff QuotedPrintable Mailer.
From S2P Require Import AuthzPurger OrphanFinder CertChecker AdminRevoker ExpirationMailer NotifyMailer Examples SystemExamples.

Module ToolExamples.
Import Examples SystemExamples.

#[local] Existing Instances sample_golib sample_crypto sample_elliptic sample_policy_env sample_sql sample_sql_laws
  column_json sample_x509 sample_pa sample_env Bcodes.toy_pdjson sample_pbjson sample_pbjson_laws sample_parser sample_signers.

(** ** The database *)

Definition tool_ops : list (Features.state * SaInvariants.sa_op) :=
  [(features_on, SaInvariants.OpNewRegistration sample_registration);
   (features_on, SaInvariants.OpAddCertificate "certificate" 1 EmptyString);
   (features_on, SaInvariants.OpNewPendingAuthorization 1
      {| az_ID := EmptyString; az_Identifier := {| idType := IdentifierDNS; idValue := "a.com" |}; az_RegistrationID := 1;
         az_Status := StatusPending; az_Expires := Some noon; az_Challenges := []; az_Combinations := [] |})].
Definition tool_world : World := Eval vm_compute in snd (SaInvariants.run tool_ops empty_storage).

Lemma tool_run : SaInvariants.run tool_ops empty_storage = (Ok tt, tool_world).
Proof. vm_compute. reflexivity. Qed.
Lemma tool_wf : SaInvariants.wf (db tool_world).
Proof. apply (SaInvariants.run_wf tool_ops empty_storage (Ok tt)); [done|apply SaInvariants.wf_empty|apply tool_run]. Qed.
Lemma tool_faithful : SaCertificates.all_faithful (db tool_world).
Proof.
  apply (SaCertificates.run_faithful tool_ops empty_storage (Ok tt)); [done| |apply tool_run].
  intros k c H. simpl in H. by rewrite lookup_empty in H.
Qed.

(** ** cmd/expired-authz-purger *)

Definition tool_purger : AuthzPurger.expiredAuthzPurger := {| AuthzPurger.batchSize := 1 |}.

Definition purged_world : World :=
  Eval vm_compute in fst (snd (AuthzPurger.purgeAuthzs 2 tool_purger (noon + 1) true (tool_world, []))).

Lemma purgeAuthzs_exact_witness :
  pendingAuthorizations (db tool_world) <> ∅ /\ AuthzPurger.none_expired (noon + 1) (db purged_world).
Proof.
  split; [vm_compute; discriminate|].
  destruct (AuthzPurger.purgeAuthzs_exact (noon + 1) 2 tool_purger true tool_world [] (Ok AuthzPurger.Returned) purged_world [])
    as [_ H].
  - apply tool_wf.
  - vm_compute. reflexivity.
  - destruct H as [_ H]; [reflexivity|reflexivity|reflexivity|vm_compute; lia|vm_compute; lia|exact H].
Defined.

(** ** cmd/orphan-finder *)

Lemma sapp_inj_r a : forall b c, a ++s c = b ++s c -> a = b.
Proof.
  assert (forall x y c : string, (x ++s c = y ++s c -> String.length x = String.length y)) as HL
    by (intros x y c H; apply (f_equal String.length) in H; rewrite !slength_app in H; lia).
  induction a as [|x a IH]; intros b c H; pose proof (HL _ _ _ H) as L; destruct b as [|y b]; try done.
  injection H as -> H. f_equal. by apply (IH b c).
Qed.

(** The first call to the storage authority fails. *)
Definition unreachable : World :=
  {| db := emptyTables; tx := None; w_faults := replicate 9 (Some {| f_error := PlainError "timeout"; f_applied := false |});
     w_now := noon; w_ticks := []; w_rng := fun _ => "id"; w_draws := 0 |}.
#[local] Instance tool_storage : CertificateStorage World := System.grpc_certificates features_on 1.
Definition orphaned := CA.IssueCertificate (S := World) features_on sample_ca_impl Csr.toy_csr 1 (unreachable, ca_start).
Definition orphan_line : string := Eval vm_compute in hd EmptyString (CA.ca_orphans (snd (snd orphaned))).
Definition tool_sai : OrphanFinder.certificateStorage World :=
  {| OrphanFinder.sai_GetCertificate := Storage.GetCertificate;
     OrphanFinder.sai_AddCertificate := Storage.AddCertificate |}.

Definition registered_world : World := snd (SaInvariants.run (take 1 tool_ops) empty_storage).
Definition recovered_run := OrphanFinder.parseLogLine tool_sai ("boulder-ca: " ++s orphan_line) registered_world.
Definition added := Storage.AddCertificate "certificate" 1 EmptyString (snd (Storage.GetCertificate (SerialToString 255) registered_world)).
Lemma timeout_names_no_account :
  ~ OrphanFinder.names_account (("rpc error: code = Unknown desc = timeout" ++s "]")%string).
Proof.
  intros (a & account & b & E & _). pose proof (OrphanFinder.contains_app "regID=[" a (account ++s "]" ++s b)) as H.
  rewrite <- E in H. vm_compute in H. discriminate.
Qed.

Lemma orphans_are_recovered_witness :
  recovered_run = (Ok (true, true), snd added) /\
  cert_DER <$> certificates (db (snd added)) !! SerialToString 255 = Some "certificate"%string.
Proof.
  destruct (OrphanFinder.orphans_are_recovered features_on sample_ca_impl Csr.toy_csr 1 unreachable ca_start
    (match fst orphaned with Err e => e | Ok _ => PlainError EmptyString end) (fst (snd orphaned)) (snd (snd orphaned))
    orphan_line "boulder-ca: ") as (n & req & pem & der & err & Hr & Hs & Hp & Hl & H).
  - vm_compute. reflexivity.
  - vm_compute. reflexivity.
  - lia.
  - unfold int64_ok. lia.
  - reflexivity.
  - injection Hs as <-. injection Hp as <-. vm_compute in Hr. injection Hr as <-. vm_compute in Hl. repeat injection Hl as Hl.
    change ("rpc error: code = Unknown desc = timeout" ++s "], regID=[1]" = Error err ++s "], regID=[1]") in Hl.
    apply sapp_inj_r in Hl. rewrite <- Hl in H.
    destruct (H ltac:(discriminate) timeout_names_no_account World tool_sai registered_world) as [Hx _].
    destruct (Hx sample_certificate (fst (Storage.GetCertificate (SerialToString 255) registered_world))
      (snd (Storage.GetCertificate (SerialToString 255) registered_world))) as [Hadd _]; [reflexivity|apply surjective_pairing|].
    split; [|vm_compute; reflexivity]. refine (Hadd _ (fst added) (snd added) _ _ _).
    + vm_compute. reflexivity.
    + right. eexists. reflexivity.
    + apply surjective_pairing.
Defined.

(** ** cmd/cert-checker *)

Definition stored_certificate : Certificate :=
  {| cert_RegistrationID := 1; cert_Serial := SerialToString 255; cert_Digest := Fingerprint256 "certificate";
     cert_DER := "certificate"; cert_Issued := noon; cert_Expires := noon + 90 * 24 * Hour |}.

Lemma report_is_complete_witness :
  exists r, CertChecker.processCerts 5 false [1; 0; 1]%nat (replicate 2 CertChecker.Receiving) [stored_certificate] CertChecker.emptyReport = Some r /\
    CertChecker.GoodCerts r = 1.
Proof.
  destruct (CertChecker.report_is_complete false 2 [1; 0; 1]%nat [stored_certificate]) as (r & H & HG & _).
  - lia.
  - apply NoDup_singleton.
  - exists r. split; [exact H|]. rewrite HG. vm_compute. reflexivity.
Defined.

(** ** cmd/admin-revoker *)

Definition tool_start : AdminRevoker.Tool (RA.World (World * CA.CAState)) :=
  {| AdminRevoker.peers := RA.set_sa sys_start (tool_world, ca_start); AdminRevoker.snapshot := None;
     AdminRevoker.faults := []; AdminRevoker.log := [] |}.
Definition revoked_run := AdminRevoker.reg_revoke AdminRevoker.stored id
  (AdminRevoker.deployed_ra features_on 1 sample_config sample_ca_impl)
  (AdminRevoker.deployed_lookup features_on) (Ok "operator") "1" "4" tool_start.

Lemma reg_revoke_exact_witness :
  AdminRevoker.revoked_with 4 (AdminRevoker.stored (AdminRevoker.peers (snd revoked_run))) (SerialToString 255).
Proof.
  destruct (AdminRevoker.reg_revoke_exact features_on 1 sample_config sample_ca_impl id (Ok "operator") "1" "4" 1 4
    tool_start (fst revoked_run) (snd revoked_run)) as [_ H].
  - reflexivity.
  - reflexivity.
  - reflexivity.
  - reflexivity.
  - apply tool_wf.
  - apply tool_faithful.
  - unfold revoked_run. destruct (AdminRevoker.reg_revoke _ _ _ _ _ _ _ _) as [? ?]. reflexivity.
  - apply H; [vm_compute; reflexivity|]. exists stored_certificate. split; vm_compute; reflexivity.
Defined.

(** ** mail *)

Definition tool_mailer : Mailer.MailerImpl :=
  {| Mailer.from := {| Mailer.addr_Address := "ca@ca.example"; Mailer.addr_String := "<ca@ca.example>" |};
     Mailer.reconnectBase := Second; Mailer.reconnectMax := 300 * Second |}.
Definition letter_text : string :=
  "Dear subscriber," ++s String "013" (String "010" ("your" ++s String "013" ("certificate" ++s String "010" "= expiring"))).
Definition letter_subject : string := "Expiry" ++s String "010" "Bcc: x@y.example".
Definition letter_message : string := Eval vm_compute in
  match Mailer.generateMessage tool_mailer 7 noon ["ops@a.com"] letter_subject letter_text with Ok m => m | Err _ => EmptyString end.

Lemma message_roundtrip_witness :
  exists hs, Mailer.read_message letter_message = (hs, Some (QuotedPrintable.internet letter_text ++s QuotedPrintable.crlf)) /\
    hs !! 2%nat = Some "Subject: ExpiryBcc: x@y.example".
Proof.
  destruct (Mailer.message_roundtrip tool_mailer 7 noon ["ops@a.com"] letter_subject letter_text letter_message)
    as (hs & H & _ & Hs & _).
  - apply QuotedPrintable.cr_ok_spec. vm_compute. reflexivity.
  - vm_compute. reflexivity.
  - exists hs. split; [exact H|exact Hs].
Defined.

(** The server hangs up at the first command, and is there again later. *)
Definition flaky : Mailer.World :=
  {| Mailer.client := true; Mailer.steps := 0; Mailer.answers := fun n => if (n <? 3)%nat then Some Mailer.EOF else None;
     Mailer.ids := fun _ => 7; Mailer.jitter := fun _ => Backoff.f_of_int 0; Mailer.times := fun _ => noon; Mailer.events := [] |}.

Lemma SendMail_correct_witness :
  exists w' pre body, Mailer.SendMail 4 tool_mailer ["ops@a.com"] "Expiry" letter_text flaky = Some (Ok tt, w') /\
    Mailer.events w' = pre ++ Mailer.delivery tool_mailer ["ops@a.com"] body /\ Mailer.acknowledged pre = 0%nat.
Proof.
  destruct (Mailer.SendMail_correct tool_mailer ["ops@a.com"] "Expiry" letter_text 4 3 flaky) as (r & w' & new & E & Hev & H).
  - intros n Hn. simpl. by rewrite (proj2 (Nat.ltb_ge n 3)).
  - simpl. lia.
  - assert (r = Ok tt) as -> by (vm_compute in E; injection E as <- _; reflexivity).
    destruct H as (pre & mid & t & body & -> & _ & Ha). exists w', pre, body.
    split; [exact E|]. split; [exact Hev|exact Ha].
Defined.

(** ** cmd/expiration-mailer *)

Definition lookup_registration (fs : Features.state) (id : Z) : DB Registration :=
  GrpcStorage.GetRegistration _ (SaWrappers.remote_lookups (System.local_lookups fs)) id.

#[local] Existing Instance ExpirationMailer.db_step_preorder.
Lemma lookup_registration_step fs start id : preserves (ExpirationMailer.db_step start) (lookup_registration fs id).
Proof.
  eapply preserves_ext; [intros; apply (proj1 (lookups_over_rpc (System.local_lookups fs)))|].
  apply preserves_carry. cbn [GrpcStorage.GetRegistration System.local_lookups]. apply preserves_bind; [apply _| |].
  - unfold Storage.GetRegistration. apply preserves_bind; [apply _|apply preserves_try, ExpirationMailer.query_step|].
    intros [model|[]]; first [apply preserves_lift; apply _|apply preserves_fail; apply _].
  - intros reg. apply preserves_lift; apply _.
Qed.

Definition late : World :=
  {| db := db tool_world; tx := None; w_faults := []; w_now := noon + 85 * 24 * Hour; w_ticks := []; w_rng := fun _ => "id"; w_draws := 0 |}.
Definition nag_mailer : ExpirationMailer.mailer :=
  {| ExpirationMailer.nagTimes := [24 * Hour; 7 * 24 * Hour; 30 * 24 * Hour]; ExpirationMailer.limit := 100 |}.
Definition nag_start : ExpirationMailer.EM :=
  {| ExpirationMailer.base := late; ExpirationMailer.calls := []; ExpirationMailer.outcomes := fun _ => None |}.
Definition fill (e : ExpirationMailer.email) : result error string := Ok (ExpirationMailer.DNSNames e).
Definition nag_run := ExpirationMailer.findExpiringCertificates (lookup_registration features_on) Ok fill id nag_mailer nag_start.

Lemma notices_are_warranted_witness :
  ExpirationMailer.touched (noon + 85 * 24 * Hour) (db tool_world) (db (ExpirationMailer.base (snd nag_run))) /\
  exists subject msg, ExpirationMailer.calls (snd nag_run) =
    [ExpirationMailer.Connect; ExpirationMailer.SendMail ["ops@a.com"] subject msg; ExpirationMailer.Close] /\
  ExpirationMailer.warranted (lookup_registration features_on) Ok fill (noon + 85 * 24 * Hour) (db tool_world) (w_faults late = [])
    (ExpirationMailer.nagTimes nag_mailer) (ExpirationMailer.SendMail ["ops@a.com"] subject msg).
Proof.
  destruct (ExpirationMailer.notices_are_warranted (lookup_registration features_on) Ok fill id nag_mailer nag_start
    (fst nag_run) (snd nag_run)) as (HT & new & Hc & Hw).
  - reflexivity.
  - intros i. apply lookup_registration_step.
  - constructor.
  - reflexivity.
  - repeat constructor; discriminate.
  - unfold nag_run. destruct (ExpirationMailer.findExpiringCertificates _ _ _ _ _ _). reflexivity.
  - split; [exact HT|]. assert (exists subject msg, ExpirationMailer.calls (snd nag_run) =
      [ExpirationMailer.Connect; ExpirationMailer.SendMail ["ops@a.com"] subject msg; ExpirationMailer.Close]) as (subject & msg & E)
      by (eexists _, _; vm_compute; reflexivity).
    exists subject, msg. split; [exact E|]. rewrite E in Hc. simpl in Hc. rewrite <- Hc in Hw.
    apply Forall_cons in Hw as [_ [Hw _]%Forall_cons]. exact Hw.
Defined.

(** ** cmd/contact-exporter and cmd/notify-mailer *)

(** A decoder for what the exporter writes. *)
Definition read_contacts (s : string) : result error (list Z) :=
  Ok (omap (fun part => Atoi (hd EmptyString (split_on "}" part))) (split_on ":" s)).
Definition bulk_mailer : NotifyMailer.mailer :=
  {| NotifyMailer.subject := "Outage"; NotifyMailer.emailTemplate := "We were down."; NotifyMailer.destinations := NotifyMailer.writeContacts [1];
     NotifyMailer.checkpoint := {| NotifyMailer.i_start := 0; NotifyMailer.i_end := 0 |}; NotifyMailer.sleepInterval := Second |}.

(** A codec for lists of one contact. *)
Definition write_contacts (l : list string) : string := "[" ++s hd EmptyString l ++s "]".
Definition read_contact (s : string) : result error (list string) :=
  Ok [String.substring 1 (String.length s - 2) s].

Lemma everyone_is_told_once_witness :
  exists w1 w2,
    NotifyMailer.run write_contacts read_contact read_contacts (fun _ => false) (NotifyMailer.part_of bulk_mailer 0 1) nag_start = (Ok tt, w1) /\
    NotifyMailer.run write_contacts read_contact read_contacts (fun _ => false) (NotifyMailer.part_of bulk_mailer 1 0) w1 = (Ok tt, w2) /\
    ExpirationMailer.calls w2 = [ExpirationMailer.Connect; ExpirationMailer.SendMail ["ops@a.com"] "Outage" "We were down.";
      ExpirationMailer.Close; ExpirationMailer.Connect; ExpirationMailer.Close].
Proof.
  destruct (NotifyMailer.everyone_is_told_once write_contacts read_contact id ltac:(reflexivity) read_contacts (fun _ => false)
    Hour bulk_mailer 1 late [1] late nag_start) as (_ & _ & w1 & w2 & emails & E1 & E2 & _ & _).
  - vm_compute. reflexivity.
  - reflexivity.
  - intros i rm H. vm_compute in H.
    destruct i as [|[]|]; try discriminate H. injection H as <-. split; [discriminate|vm_compute; reflexivity].
  - reflexivity.
  - vm_compute. reflexivity.
  - simpl. lia.
  - vm_compute. discriminate.
  - reflexivity.
  - reflexivity.
  - reflexivity.
  - exists w1, w2. split; [exact E1|]. split; [exact E2|]. vm_compute in E1. injection E1 as <-. vm_compute in E2.
    injection E2 as <-. reflexivity.
Defined.

End ToolExamples.
